(* ===== verification/_CoqProject ===== *)
-Q . S2P
Prelude.v
BTree.v
Vocabulary.v
Interface.v
Wire.v
Messages.v
Payloads.v
Model.v
Registry.v
Outputs.v
Binding.v
Emit.v
State.v
Queue.v
Objects.v
Destruction.v
Surfaces.v
Input.v
Shell.v
Dispatch.v
Invariant.v
Preserved.v
Desk.v
Guarantees.v
Cascade.v
Delivery.v
Presentation.v
Interaction.v
Pixels.v
Compose.v
Frames.v
Showing.v
Painting.v
Settling.v
Transport.v
Session.v
Serving.v
Presenting.v
Rfb.v
Picture.v
Changes.v
Viewer.v
Asking.v
Watching.v
Screen.v
Poll.v
Daemon.v
Running.v
Keys.v
Nodes.v
Evdev.v
Held.v
Reading.v
Kms.v
Drm.v
Owned.v
Flips.v
Scanout.v
Card.v
Monitor.v
