(* ===== verification/Prelude.v ===== *)
(** Atria: a verification development for a display server.

    Atria is a display server. Clients speak a binary object protocol to it; the compositor keeps,
    for each of them, a registry of objects, and for all of them one scene, one seat and one queue
    of events to be delivered; the software output turns the scene into pixels, which a sink takes:
    a file, the viewers of a VNC server, or the scanout of a card. Keys come from the kernel's input
    devices and from the viewer. This development models every crate of it, operation by operation,
    and proves what makes them correct.

    * How the program is put together

    A packet is framed ([wire.rs]) and read against the operation table ([interface.rs]) as a
    request ([binding.rs], [resolve.rs]). [CompositorState::dispatch] ([state/mod.rs]) carries it
    out, changing objects ([registry.rs]), surfaces, the scene and the seat, and queueing events
    for any number of clients. The devices move the pointer and press keys ([state/input.rs]), a
    privileged client arranges windows ([state/shell.rs]), an input method composes text
    ([state/text.rs]), displays come and go ([output.rs]), the backend presents commits. Events are
    drained and put on the wire ([emit.rs], [message/]). The daemon ([atriad/src]) keeps a
    session per
    client ([session.rs]): it receives a packet with its descriptors ([atria-transport]), adopts the
    memory, dispatches, and sends what is queued. To show a frame ([present.rs]) it copies the
    committed buffers out of their clients' memory and has [atria-software-output] compose the stack
    onto a frame, which a sink takes. Its loop ([main.rs]) waits on its sockets, admits clients with
    the authority of the socket they came to, serves those that have something to say, hears the
    viewer, and composes. A VNC sink ([atria-vnc]) keeps the newest frame and what changed since, and
    a thread of its own serves one viewer, whose keys and pointer it queues for the daemon. A DRM
    sink ([atria-drm]) copies the frame into the buffer that is not shown and asks the kernel to flip.
    Devices ([atria-input]) are read into reports, and reports into key events of an epoch.

    * The files

    Foundations:
    - [Prelude]: results, the state-and-error monad [ST], machine integers, bytes, list ranges;
    - [BTree]: ordered iteration over maps, as [BTreeMap] iterates.
    The protocol ([src/atria-protocol/src]):
    - [Vocabulary]: identifiers, versions, keys, modifiers, capabilities, error categories;
    - [Interface]: the operation table and the functions that read it;
    - [Wire]: headers, frames, the encoder and the decoder;
    - [Messages]: [encode_message] and the contract of a payload, the class [PayloadCodec];
    - [Payloads]: the payloads, each an instance of the class.
    The compositor ([src/atria-compositor/src]):
    - [Model]: the data of [model.rs], [error.rs], [resolve.rs] and [shell.rs];
    - [Registry], [Outputs]: [registry.rs] and [output.rs];
    - [Binding], [Emit]: [binding.rs] and [emit.rs];
    - [State]: the record [CompositorState] with its fields, the lookups;
    - [Queue]: [push_event], [close_connection], [refresh_composition];
    - [Objects]: negotiation, capabilities, quotas, [destroy_object], [revoke_capability];
    - [Surfaces]: buffers, attach, damage, commit, present, fences, the scene, windows;
    - [Input]: pointer, keys, focus, shortcuts and text;
    - [Shell]: what a shell asks, globals, displays as clients see them, [bind_global];
    - [Dispatch]: [dispatch], draining, and [Call], the public methods that change the state;
      [reachable] is what calls lead to from [CompositorState_new].
    Reasoning:
    - [Destruction]: what destruction keeps; its recursion ends;
    - [Invariant], [Preserved]: the invariant [Inv], and that every call keeps it;
    - [Desk]: a populated compositor, to which theorems are applied.
    Theorems about the compositor:
    - [Guarantees]: what holds of every reachable compositor;
    - [Cascade]: what destruction and revocation take with them;
    - [Delivery]: closing, queueing, answering, draining;
    - [Presentation]: commits and what presenting settles;
    - [Interaction]: the shell's grant, claimed chords, the pointer.
    The software output ([src/atria-software-output/src]):
    - [Pixels]: frames, buffers, validation, copying and blitting rectangles of bytes;
    - [Compose]: composition, damage, the frames in flight, sinks;
    - [Frames], [Showing]: what staging, painting and a whole composition come to;
    - [Painting]: the frame is the painter's picture, damage covers the difference, failures;
    - [Settling]: commits and buffers after a frame, and a scene with nothing new.
    The daemon ([src/atria-transport/src], [src/atriad/src]):
    - [Transport]: envelopes, the traits as classes, the memory store, packets with descriptors;
    - [Session]: sessions and the presenter;
    - [Serving], [Presenting]: theorems about serving one message and presenting the desktop;
    - [Daemon]: [main.rs], one turn of its loop; [Running]: theorems about any number of turns.
    The VNC server ([src/atria-vnc/src]):
    - [Rfb]: pixel formats, keys, the comparison of frames, encodings, the input queue;
    - [Picture]: a viewer reads back what was written; [Changes]: the comparison is safe to send;
    - [Viewer]: the sink and the serving thread, its critical sections as steps;
    - [Asking]: requests read in pieces; [Watching]: what a viewer sees, whatever the interleaving;
    - [Screen]: from the scene to the viewer's screen.
    The input devices ([src/atria-input/src]):
    - [Poll]: what poll says of a descriptor; [Keys]: reports, key events, epochs;
    - [Nodes], [Evdev]: device nodes, the backend, a device and the set of them;
    - [Held]: a device, the records about it, and what a listener knows of its keys;
    - [Reading]: reading is feeding the pipeline, and failures stay with their device.
    Scanout ([src/atria-drm/src]):
    - [Kms]: modes, formats, errors, the requests and their memory;
    - [Drm]: the device, its buffers, setting up, flipping, the sink;
    - [Owned]: what is taken is given back; [Flips]: the events of flips;
    - [Scanout]: what is shown, and that nothing that is shown is written; [Card]: a card to run on;
    - [Monitor]: from the scene to the monitor.

    * How state and operations correspond to the code

    A method of [CompositorState] that changes it is a function of the state, or, when it can fail,
    an [ST]: a state to a result and a state, so that what an error leaves behind is part of the
    model. A definition has the name of the method; [set_f x r] is the assignment [r.f = x]. Where
    a method is long, its parts are definitions of their own (a handler of [dispatch_checked], a
    branch of [destroy_object]), composed in the source's order. Wire integers are [Z] with the
    width's checks and wrap-around written out; [usize] is 64 bits. Maps are [gmap]s, iterated in
    key order ([btree_items]). Rust's mutable buffers are lists, overwritten in place. Names of the
    source that would clash are prefixed: [K] for object kinds, [Rq] for requests, [Ev] for events,
    [Op] for operations.

    * Recursion and fuel

    Some loops of the source are not structural.
    - [push_event] closes a connection whose queue is full, [close_connection] pushes events to
      others. The fuel is the number of connections, since every nested close has one fewer;
      [Queue.close_connection_unfold] is the source's own equation, without fuel.
    - [destroy_object] destroys what depends on the object. A seat has sessions, a session and a
      fence have surfaces, a surface nothing: three levels, and [Destruction.destroy_object_unfold]
      is the equation without fuel.
    - [greatest_common_divisor] has its second argument as fuel ([Outputs.scale_canonical_spec]).
    - [drain_requests] has a round for every byte that is there and one more; [Asking.requests_aligned]
      reads any number of messages to their end.
    - [flip_event_from] has a round for every byte and one more; an event has eight at least
      ([Flips.flip_found_iff] leaves no third outcome).
    - [digits_of] has the ten digits of a [u32] ([Nodes.numbered_path_reads_back]).
    Threads and the outside are sequences of steps: the critical sections of the VNC thread and the
    calls of the daemon in any order, the turns of the loop with whatever poll and accept answer, the
    calls of the kernel as functions of a state of the outside.

    * What the theorems show

    - The wire: the table is a bijection between opcodes and operations; every fixed-size message
      fits a packet; frames are accepted exactly when well formed; [encode_message] and the payload
      decoders are inverse of one another, and decoding is canonical.
    - Binding and emitting: a frame decodes to exactly the request it spells; resolution answers the
      request with the resource or the reason; an event's packet is a frame of the operation and
      layout its table row gives (with two exceptions, stated).
    - The compositor: the scene agrees with the objects; queues and tables are bounded; objects are
      of their kinds; handles name live windows and are never reissued; passwords are not composed;
      errors are answered by category, and reported while there is anybody to report to; a closed
      connection is forgotten by everything but the seat; destruction takes the sessions of a seat and
      the surfaces of a session or a fence, revocation the objects a capability is for; events are
      delivered once and in order; commits and presentation do what was attached; claimed keys are
      swallowed; the pointer keeps its target under a grab.
    - The output: a successful frame is the painter's picture of the stack with every image up to
      date; damage covers what changed as long as no surface is larger than the output; a failed
      frame leaves the screen alone; commits read are counted and settled and their buffers released;
      a scene with nothing new always composes.
    - The daemon: one message is received, acted on and answered with frames that the events and the
      session's number fix, and only the transport can end a session; reading a client's memory gives
      all that was asked for or nothing; presenting is composing the scene out of its owners' memory,
      each buffer read for the commit it shows.
    - The loop: the authority over other people's windows can be granted to clients of the shell's
      socket alone; clients and sessions correspond, who speaks is served and who hangs up is let go;
      who leaves takes nobody along; a viewer's input reaches the seat while none of it is lost.
    - The viewer: whatever the interleaving, it sees frames that were composed, is brought up to date
      when it asks, in the formats it has asked for, and decodes what was sent to the picture; its
      requests are read to the byte.
    - The devices: a listener that is told of presses and releases knows the keys that are down, across
      losses and across cuts between reports; what it hears is the pipeline fed with the kernel's records; a device that fails is gone
      alone.
    - Scanout: opening takes all it needs or nothing, and dropping gives everything back; the buffer in
      front holds the last frame whose flip was completed, which for a composed frame is the painter's
      picture of the scene; no buffer that may be read is written; an
      event is found exactly where there is one.
    - Where the code does not do what it means to, a theorem exhibits it: destroying a held buffer,
      a refused bind, placing one of two displays, two keys of one modifier, the registry's
      creation order, an output that wedges, a report that is cut, a pointer left with a client that
      is gone.

    The invariant is proved through two interfaces. [Teardown_stable I] is what a property must be
    stable under to survive anything an event sets off; [Lasting P] is what an object may be that the
    destruction of others does not undo, and [Trait fp] what of it they do not change. A theorem about any operation that tells somebody something needs
    only the instance.

    * What is assumed

    [HandleResolver] is the transport's [shared_memory], a class: [Binding.resolve_outcome] holds of
    every instance. [SharedMemorySource], [Transport], [FrameSink] and [Watcher] are the traits of the
    source, as classes; the source's own instances are modelled. [Platform] and [Socket] are the calls
    of the operating system, with the laws the code relies on ([PlatformLaws]): a client may write and
    shrink the memory it sent at any time, so every read of it is made at a [Moment], which the
    presenter's and the daemon's operations take for each surface; [PollFlags],
    [EvdevKernel] and [DrmKernel] are those of poll, of the input devices and of a card. [DrmAccounts]
    says which requests make and take back what is held, [DrmGeometry] that a buffer is as large as was
    asked, [DrmScanning] when the display may read which framebuffer; [Card] is a kernel that has them
    all. [holders] says how many others hold a frame ([Arc::strong_count]); the theorems hold whatever
    it answers.

    * What is not modelled

    The texts of errors ([Display]), the getters that read one field, allocation failure; the file sink,
    the arguments of the daemon and the socket calls that make it listen, texts printed, sleeping and
    condition variables; closing the files of input devices by dropping them; the examples, and the
    facade crate, which re-exports the others. *)
From stdpp Require Export base gmap sets list strings sorting.
From coqutil Require Export Word.LittleEndianList.
From Stdlib Require Export ZArith Lia.
From Stdlib Require Strings.Byte.

#[global] Open Scope Z_scope.

(** A byte is the Standard Library's; its value is coqutil's reading of it. *)
Abbreviation byte := Corelib.Init.Byte.byte.
#[global] Instance byte_eq_dec : EqDecision byte := Stdlib.Strings.Byte.byte_eq_dec.
Definition byte_val (b : byte) : Z := coqutil.Byte.byte.unsigned b.

(** * Results: Rust's [Result<T, E>] *)

Inductive result (E A : Type) : Type :=
| Ok (a : A)
| Err (e : E).
Arguments Ok {E A} a.
Arguments Err {E A} e.

#[global] Instance result_eq_dec `{EqDecision E, EqDecision A} : EqDecision (result E A).
Proof. solve_decision. Defined.

Section Result.
Context {E : Type}.

#[global] Instance result_ret : MRet (result E) := λ A a, Ok a.
#[global] Instance result_bind : MBind (result E) := λ A B k r,
  match r with Ok a => k a | Err e => Err e end.
#[global] Instance result_fmap : FMap (result E) := λ A B f r,
  match r with Ok a => Ok (f a) | Err e => Err e end.
End Result.

(** [Option::ok_or]. *)
Definition ok_or {E A} (o : option A) (e : E) : result E A :=
  match o with Some a => Ok a | None => Err e end.

(** [Result::map_err]. *)
Definition map_err {E E' A} (f : E → E') (r : result E A) : result E' A :=
  match r with Ok a => Ok a | Err e => Err (f e) end.

(** [Result::ok]. *)
Definition result_ok {E A} (r : result E A) : option A :=
  match r with Ok a => Some a | Err _ => None end.

Definition is_ok {E A} (r : result E A) : bool :=
  match r with Ok _ => true | Err _ => false end.

Lemma result_bind_Ok {E A B} (r : result E A) (k : A → result E B) b :
  (r ≫= k) = Ok b ↔ ∃ a, r = Ok a ∧ k a = Ok b.
Proof. destruct r; unfold mbind; simpl; naive_solver. Qed.

Lemma pair_Ok_inj {E A S} (a b : A) (x y : S) :
  (@Ok E A a, x) = (Ok b, y) → a = b ∧ x = y.
Proof. by intros [= -> ->]. Qed.

Lemma ok_or_Ok {E A} (o : option A) (e : E) a : ok_or o e = Ok a ↔ o = Some a.
Proof. destruct o; simpl; naive_solver. Qed.

Lemma result_ok_Some {E A} (r : result E A) a : result_ok r = Some a ↔ r = Ok a.
Proof. destruct r; simpl; naive_solver. Qed.

(** [std::io::Error], by its kind. *)
Inductive IoError :=
| IoNotFound
| IoUnexpectedEof
| IoInvalidInput
| IoInvalidData
| IoBrokenPipe
| IoConnectionReset
| IoWouldBlock
| IoInterrupted
| IoOther
| IoOs (code : Z).

#[global] Instance IoError_eq_dec : EqDecision IoError.
Proof. solve_decision. Defined.

(** * State and errors: a method on [&mut self] that returns a [Result]

    The state survives an error, as it does behind a [&mut] reference: an operation that mutates
    and then fails leaves its mutation behind. *)
Definition ST (S E A : Type) : Type := S → result E A * S.

Section ST.
Context {S E : Type}.

#[global] Instance ST_ret : MRet (ST S E) := λ A a s, (Ok a, s).
#[global] Instance ST_bind : MBind (ST S E) := λ A B k m s,
  match m s with
  | (Ok a, s') => k a s'
  | (Err e, s') => (Err e, s')
  end.

(** A computation that neither reads nor changes the state: [expression?]. *)
Definition lift {A} (r : result E A) : ST S E A := λ s, (r, s).
(** A [&self] method that may fail. *)
Definition reads {A} (f : S → result E A) : ST S E A := λ s, (f s, s).
(** A [&self] method that may not fail. *)
Definition gets {A} (f : S → A) : ST S E A := λ s, (Ok (f s), s).
(** A [&mut self] method that may not fail. *)
Definition modify (f : S → S) : ST S E unit := λ s, (Ok tt, f s).
(** [return Err(e)]. *)
Definition throw {A} (e : E) : ST S E A := λ s, (Err e, s).

Lemma ST_bind_run {A B} (m : ST S E A) (k : A → ST S E B) s :
  (m ≫= k) s = match m s with
               | (Ok a, s') => k a s'
               | (Err e, s') => (Err e, s')
               end.
Proof. reflexivity. Qed.

Lemma ST_bind_Ok {A B} (m : ST S E A) (k : A → ST S E B) s b s' :
  (m ≫= k) s = (Ok b, s') ↔ ∃ a s1, m s = (Ok a, s1) ∧ k a s1 = (Ok b, s').
Proof. rewrite ST_bind_run. destruct (m s) as [[a|e] s1]; naive_solver. Qed.

Lemma ST_lift_bind {A B} (a : A) (k : A → ST S E B) s : (lift (Ok a) ≫= k) s = k a s.
Proof. reflexivity. Qed.
Lemma ST_gets_bind {A B} (f : S → A) (k : A → ST S E B) s : (gets f ≫= k) s = k (f s) s.
Proof. reflexivity. Qed.

Lemma ST_bind_assoc {A B C} (m : ST S E A) (k : A → ST S E B) (h : B → ST S E C) s :
  ((m ≫= k) ≫= h) s = (m ≫= λ a, k a ≫= h) s.
Proof. rewrite !ST_bind_run. destruct (m s) as [[a|e] s1]; reflexivity. Qed.

Lemma ST_ret_Ok {A} (a b : A) (s s' : S) :
  (mret a : ST S E A) s = (Ok b, s') ↔ b = a ∧ s' = s.
Proof. unfold mret, ST_ret. split; [intros [= -> ->]|intros [-> ->]]; auto. Qed.
Lemma lift_Ok {A} (r : result E A) s b s' : lift r s = (Ok b, s') ↔ r = Ok b ∧ s' = s.
Proof. unfold lift. split; [intros [= -> ->]|intros [-> ->]]; auto. Qed.
Lemma reads_Ok {A} (f : S → result E A) s b s' : reads f s = (Ok b, s') ↔ f s = Ok b ∧ s' = s.
Proof. unfold reads. split; [intros [= -> ->]|intros [-> ->]]; auto. Qed.
Lemma gets_Ok {A} (f : S → A) s b s' : gets f s = (Ok b, s') ↔ b = f s ∧ s' = s.
Proof. unfold gets. split; [intros [= -> ->]|intros [-> ->]]; auto. Qed.
Lemma modify_Ok (f : S → S) s b s' : modify f s = (Ok b, s') ↔ s' = f s.
Proof. destruct b. unfold modify. split; congruence. Qed.
Lemma throw_Ok {A} (e : E) s (b : A) s' : throw e s = (Ok b, s') ↔ False.
Proof. unfold throw. split; [congruence|done]. Qed.
End ST.

(** Inverts a successful run, one monadic step at a time. *)
Ltac st_inv H :=
  lazymatch type of H with
  | mbind _ _ _ = (Ok _, _) =>
      let a := fresh "a" in let s := fresh "s" in let E := fresh "E" in
      apply ST_bind_Ok in H; destruct H as (a & s & E & H); st_inv E; st_inv H
  | mret _ _ = (Ok _, _) => apply ST_ret_Ok in H; destruct H as [-> ->]
  | lift _ _ = (Ok _, _) => apply lift_Ok in H; destruct H as [H ->];
      try apply ok_or_Ok in H
  | reads _ _ = (Ok _, _) => apply reads_Ok in H; destruct H as [H ->]
  | gets _ _ = (Ok _, _) => apply gets_Ok in H; destruct H as [-> ->]
  | modify _ _ = (Ok _, _) => apply modify_Ok in H; subst
  | throw _ _ = (Ok _, _) => apply throw_Ok in H; destruct H
  | (if ?b then _ else _) _ = (Ok _, _) => destruct b eqn:?; st_inv H
  | _ => idtac
  end.

Arguments lift {S E A} r _ /.
Arguments reads {S E A} f _ /.
Arguments gets {S E A} f _ /.
Arguments modify {S E} f _ /.
Arguments throw {S E A} e _ /.

(** Calling a method of one error type from a method of another ([map_err] then [?]). *)
Definition ST_map_err {S E E' A} (f : E → E') (m : ST S E A) : ST S E' A := λ s,
  match m s with
  | (Ok a, s') => (Ok a, s')
  | (Err e, s') => (Err (f e), s')
  end.

(** * A state-transformer invariant, and the rules that compose it

    [preserves I m] says [m] takes states of [I] to states of [I], whichever way it returns. *)
Definition preserves {S E A} (I : S → Prop) (m : ST S E A) : Prop :=
  ∀ s, I s → I (m s).2.

Section Preserves.
Context {S E : Type} (I : S → Prop).

Lemma preserves_ret {A} (a : A) : preserves I (mret a : ST S E A).
Proof. intros s Hs; exact Hs. Qed.

Lemma preserves_bind {A B} (m : ST S E A) (k : A → ST S E B) :
  preserves I m → (∀ a, preserves I (k a)) → preserves I (m ≫= k).
Proof.
  intros Hm Hk s Hs. rewrite ST_bind_run. specialize (Hm s Hs).
  destruct (m s) as [[a|e] s1]; [by apply Hk|done].
Qed.

Lemma preserves_lift {A} (r : result E A) : preserves I (lift r).
Proof. intros s Hs; exact Hs. Qed.
Lemma preserves_reads {A} (f : S → result E A) : preserves I (reads f).
Proof. intros s Hs; exact Hs. Qed.
Lemma preserves_gets {A} (f : S → A) : preserves I (gets f : ST S E A).
Proof. intros s Hs; exact Hs. Qed.
Lemma preserves_throw {A} (e : E) : preserves I (throw e : ST S E A).
Proof. intros s Hs; exact Hs. Qed.
Lemma preserves_modify (f : S → S) :
  (∀ s, I s → I (f s)) → preserves I (modify f : ST S E unit).
Proof. intros Hf s Hs; by apply Hf. Qed.
End Preserves.

Lemma preserves_map_err {S E E' A} (I : S → Prop) (f : E → E') (m : ST S E A) :
  preserves I m → preserves I (ST_map_err f m).
Proof.
  intros Hm s Hs. specialize (Hm s Hs). unfold ST_map_err.
  by destruct (m s) as [[a|e] s1].
Qed.

Create HintDb preserves.
#[export] Hint Resolve preserves_ret preserves_lift preserves_reads preserves_gets
  preserves_throw preserves_modify preserves_map_err : preserves.

(** * Machine integers, as [Z] within their width *)

Definition u8_max : Z := 255.
Definition u16_max : Z := 65535.
Definition u32_max : Z := 4294967295.
Definition u64_max : Z := 18446744073709551615.
(** The platforms this runs on are 64-bit. *)
Definition usize_max : Z := u64_max.
Definition i32_min : Z := -2147483648.
Definition i32_max : Z := 2147483647.
Definition i64_min : Z := -9223372036854775808.
Definition i64_max : Z := 9223372036854775807.

Definition is_u8 (z : Z) : Prop := 0 ≤ z ≤ u8_max.
Definition is_u16 (z : Z) : Prop := 0 ≤ z ≤ u16_max.
Definition is_u32 (z : Z) : Prop := 0 ≤ z ≤ u32_max.
Definition is_u64 (z : Z) : Prop := 0 ≤ z ≤ u64_max.
Definition is_i32 (z : Z) : Prop := i32_min ≤ z ≤ i32_max.

(** [checked_add] and [checked_mul] at an unsigned type whose largest value is [max]. *)
Definition checked_add (max a b : Z) : option Z :=
  if a + b <=? max then Some (a + b) else None.
Definition checked_mul (max a b : Z) : option Z :=
  if a * b <=? max then Some (a * b) else None.
(** [T::try_from] into an unsigned type whose largest value is [max]. *)
Definition try_from (max a : Z) : option Z :=
  if (0 <=? a) && (a <=? max) then Some a else None.

Definition checked_add_i32 (a b : Z) : option Z :=
  if (i32_min <=? a + b) && (a + b <=? i32_max) then Some (a + b) else None.
Definition saturating_i32 (z : Z) : Z := Z.max i32_min (Z.min i32_max z).
Definition saturating_sub_i32 (a b : Z) : Z := saturating_i32 (a - b).
(** [i32::saturating_add_unsigned]. *)
Definition saturating_add_unsigned (a b : Z) : Z := saturating_i32 (a + b).
Definition saturating_add_u (max a b : Z) : Z := Z.min max (a + b).
Definition saturating_mul_u (max a b : Z) : Z := Z.min max (a * b).
Definition saturating_sub_u (a b : Z) : Z := Z.max 0 (a - b).
Definition wrapping_add_u32 (a b : Z) : Z := (a + b) mod (u32_max + 1).
(** [!x] at a width whose largest value is [max]. *)
Definition bit_not (max x : Z) : Z := Z.lxor x max.
(** [x as u32]. *)
Definition as_u32 (x : Z) : Z := x mod (u32_max + 1).
Definition as_u64 (x : Z) : Z := x mod (u64_max + 1).
(** [u32 as i32]. *)
Definition as_i32 (x : Z) : Z := if x <=? i32_max then x else x - (u32_max + 1).

#[global] Arguments u8_max : simpl never.
#[global] Arguments u16_max : simpl never.
#[global] Arguments u32_max : simpl never.
#[global] Arguments u64_max : simpl never.
#[global] Arguments i32_min : simpl never.
#[global] Arguments i32_max : simpl never.

Ltac unfold_widths :=
  unfold is_u8, is_u16, is_u32, is_u64, is_i32, usize_max, u8_max, u16_max, u32_max, u64_max,
    i32_min, i32_max, i64_min, i64_max in *.
(** Arithmetic over machine widths. *)
Ltac width_lia := unfold_widths; lia.

Lemma checked_add_inv max a b c : checked_add max a b = Some c → c = a + b ∧ a + b ≤ max.
Proof. unfold checked_add. case_match; [|done]. intros [= <-]. rewrite Z.leb_le in *. auto. Qed.

Lemma checked_add_Some max a b : a + b ≤ max → checked_add max a b = Some (a + b).
Proof. intros H. unfold checked_add. by rewrite (proj2 (Z.leb_le _ _) H). Qed.

Lemma wrapping_add_u32_range a b : is_u32 (wrapping_add_u32 a b).
Proof.
  unfold is_u32, wrapping_add_u32, u32_max. pose proof (Z.mod_pos_bound (a + b) (4294967295 + 1)).
  lia.
Qed.

(** * Slices of bytes *)

Definition len {A} (l : list A) : Z := Z.of_nat (length l).

(** [slice.get(a..b)]. *)
Definition get_range {A} (l : list A) (a b : Z) : option (list A) :=
  if (0 <=? a) && (a <=? b) && (b <=? len l)
  then Some (take (Z.to_nat (b - a)) (drop (Z.to_nat a) l)) else None.

(** [slice[a..b]] where the range is known to lie in the slice. *)
Definition slice {A} (l : list A) (a b : Z) : list A := default [] (get_range l a b).

(** [slice.get_mut(a..b)] followed by [copy_from_slice], for [bytes] as long as the range. *)
Definition put_range {A} (l : list A) (a : Z) (bytes : list A) : list A :=
  take (Z.to_nat a) l ++ bytes ++ drop (Z.to_nat a + length bytes) l.

Lemma len_nonneg {A} (l : list A) : 0 ≤ len l.
Proof. unfold len; lia. Qed.
Lemma len_app {A} (l k : list A) : len (l ++ k) = len l + len k.
Proof. unfold len. rewrite length_app. lia. Qed.
Lemma len_cons {A} (x : A) l : len (x :: l) = 1 + len l.
Proof. unfold len. simpl length. lia. Qed.
Lemma len_nil {A} : len (@nil A) = 0.
Proof. reflexivity. Qed.
Lemma to_nat_len {A} (l : list A) : Z.to_nat (len l) = length l.
Proof. unfold len. lia. Qed.
Lemma len_le_split n z : len (le_split n z) = Z.of_nat n.
Proof. unfold len. by rewrite length_le_split. Qed.

Lemma get_range_app {A} (pre mid post : list A) :
  get_range (pre ++ mid ++ post) (len pre) (len pre + len mid) = Some mid.
Proof.
  unfold get_range. rewrite !len_app.
  pose proof (len_nonneg pre). pose proof (len_nonneg mid). pose proof (len_nonneg post).
  rewrite (proj2 (Z.leb_le _ _)), (proj2 (Z.leb_le _ _)), (proj2 (Z.leb_le _ _)) by lia.
  simpl. f_equal. rewrite to_nat_len, drop_app_length.
  replace (Z.to_nat _) with (length mid) by (unfold len; lia). apply take_app_length.
Qed.

Lemma get_range_Some {A} (l : list A) a b r :
  get_range l a b = Some r →
  0 ≤ a ∧ a ≤ b ≤ len l ∧ len r = b - a ∧ r = take (Z.to_nat (b - a)) (drop (Z.to_nat a) l).
Proof.
  unfold get_range. destruct ((0 <=? a) && (a <=? b) && (b <=? len l)) eqn:E; [|done].
  intros [= <-]. apply andb_true_iff in E as [[? ?]%andb_true_iff ?].
  rewrite !Z.leb_le in *. repeat split; try lia.
  unfold len in *. rewrite length_take, length_drop. lia.
Qed.

Lemma put_range_app {A} (pre mid post bytes : list A) :
  length bytes = length mid →
  put_range (pre ++ mid ++ post) (len pre) bytes = pre ++ bytes ++ post.
Proof.
  intros Hl. unfold put_range. rewrite to_nat_len, take_app_length. do 2 f_equal.
  rewrite Hl, <- drop_drop, drop_app_length. apply drop_app_length.
Qed.

Lemma length_put_range {A} (l : list A) a bytes :
  0 ≤ a → a + len bytes ≤ len l → length (put_range l a bytes) = length l.
Proof.
  unfold put_range, len. intros ??. rewrite !length_app, length_take, length_drop. lia.
Qed.

(** Reading a slice, and a slice after it has been written to, at one index. *)
Lemma get_range_lookup {A} (l : list A) a b r i :
  get_range l a b = Some r → 0 ≤ i < b - a → r !! Z.to_nat i = l !! Z.to_nat (a + i).
Proof.
  intros (Ha & Hab & _ & ->)%get_range_Some Hi.
  rewrite lookup_take_lt, lookup_drop by lia. f_equal. lia.
Qed.

Lemma get_range_ok {A} (l : list A) a b :
  0 ≤ a → a ≤ b → b ≤ len l → ∃ r, get_range l a b = Some r ∧ len r = b - a.
Proof.
  intros Ha Hab Hb. unfold get_range.
  rewrite (proj2 (Z.leb_le _ _) Ha), (proj2 (Z.leb_le _ _) Hab), (proj2 (Z.leb_le _ _) Hb).
  eexists; split; [reflexivity|]. unfold len in *. rewrite length_take, length_drop. lia.
Qed.

Lemma put_range_lookup {A} (l : list A) a bytes i :
  0 ≤ a → a + len bytes ≤ len l → 0 ≤ i →
  put_range l a bytes !! Z.to_nat i =
    if decide (a ≤ i < a + len bytes) then bytes !! Z.to_nat (i - a) else l !! Z.to_nat i.
Proof.
  intros Ha Hb Hi. unfold put_range, len in *. case_decide as Hd.
  - rewrite lookup_app_r by (rewrite length_take; lia). rewrite length_take.
    rewrite lookup_app_l by lia. f_equal. lia.
  - destruct (decide (i < a)) as [Hlt|Hge].
    + rewrite lookup_app_l by (rewrite length_take; lia). by rewrite lookup_take_lt by lia.
    + rewrite lookup_app_r by (rewrite length_take; lia). rewrite length_take.
      rewrite lookup_app_r by lia. rewrite lookup_drop. f_equal. lia.
Qed.

(** Slices that are in range. *)
Lemma slice_in {A} (l : list A) a b :
  0 ≤ a ≤ b → b ≤ len l → slice l a b = take (Z.to_nat (b - a)) (drop (Z.to_nat a) l).
Proof.
  intros Ha Hb. unfold slice, get_range. by rewrite !(proj2 (Z.leb_le _ _)) by lia.
Qed.

Lemma len_slice {A} (l : list A) a b : 0 ≤ a ≤ b → b ≤ len l → len (slice l a b) = b - a.
Proof.
  intros Ha Hb. rewrite slice_in by done. unfold len in *. rewrite length_take, length_drop. lia.
Qed.

Lemma slice_slice {A} (l : list A) p q a b :
  0 ≤ p ≤ q → q ≤ len l → 0 ≤ a ≤ b → b ≤ q - p → slice (slice l p q) a b = slice l (p + a) (p + b).
Proof.
  intros Hp Hq Ha Hb. pose proof (len_slice l p q Hp Hq) as Hlen.
  rewrite slice_in by lia. rewrite (slice_in l p q), (slice_in l (p + a)) by lia.
  rewrite take_drop_commute, take_take, Nat.min_l, <- take_drop_commute, drop_drop by lia.
  f_equal; [lia|]. f_equal. lia.
Qed.

Lemma get_range_slice {A} (l : list A) a b :
  0 ≤ a ≤ b → b ≤ len l → get_range l a b = Some (slice l a b).
Proof.
  intros Ha Hb. unfold slice, get_range. by rewrite !(proj2 (Z.leb_le _ _)) by lia.
Qed.

(** ** Chunks of one length *)

Lemma length_flat_map {A B} (f : A → list B) (c : nat) (l : list A) :
  (∀ x, x ∈ l → length (f x) = c) → length (flat_map f l) = (length l * c)%nat.
Proof.
  induction l as [|x l IH]; intros Hc; [done|]. cbn [flat_map length].
  rewrite length_app, (Hc x (list_elem_of_here _ _)), IH; [lia|].
  intros y Hy. apply Hc. by apply list_elem_of_further.
Qed.

Lemma flat_map_chunk {A B} (f : A → list B) (c : nat) (l : list A) (i : nat) x :
  (∀ x, x ∈ l → length (f x) = c) → l !! i = Some x →
  take c (drop (i * c) (flat_map f l)) = f x.
Proof.
  revert i. induction l as [|y l IH]; intros i Hc Hi; [done|]. cbn [flat_map].
  pose proof (Hc y (list_elem_of_here _ _)) as Hy. destruct i as [|i]; cbn in Hi.
  - injection Hi as ->. cbn [Nat.mul drop]. by apply take_app_length'.
  - replace (S i * c)%nat with (length (f y) + i * c)%nat by (rewrite Hy; lia).
    rewrite drop_app_add. apply IH; [|done]. intros z Hz. apply Hc. by apply list_elem_of_further.
Qed.

Lemma flat_map_slice {A B} (f : A → list B) (c : Z) (l : list A) (i : Z) x :
  0 ≤ c → 0 ≤ i → (∀ x, x ∈ l → len (f x) = c) → l !! Z.to_nat i = Some x →
  slice (flat_map f l) (i * c) (i * c + c) = f x.
Proof.
  intros Hc Hi Hlen Hx.
  assert (∀ y, y ∈ l → length (f y) = Z.to_nat c) as Hn.
  { intros y Hy. specialize (Hlen y Hy). unfold len in Hlen. lia. }
  pose proof (lookup_lt_Some _ _ _ Hx) as Hlt. unfold slice, get_range, len.
  rewrite (length_flat_map _ _ _ Hn).
  rewrite !(proj2 (Z.leb_le _ _)) by nia. cbn [andb default].
  replace (Z.to_nat (i * c + c - i * c)) with (Z.to_nat c) by lia.
  replace (Z.to_nat (i * c)) with (Z.to_nat i * Z.to_nat c)%nat by nia.
  by apply flat_map_chunk.
Qed.

Lemma lookup_seqZ_at m n i : 0 ≤ i < n → seqZ m n !! Z.to_nat i = Some (m + i).
Proof. intros Hi. apply lookup_seqZ. lia. Qed.

Lemma drop_replicate_all {A} n (x : A) : drop n (replicate n x) = [].
Proof. by rewrite drop_replicate, Nat.sub_diag. Qed.

Lemma existsb_flat_map {A B} (p : B → bool) (f : A → list B) l :
  existsb p (flat_map f l) = existsb (λ x, existsb p (f x)) l.
Proof. induction l as [|x l IH]; [done|]. cbn. by rewrite existsb_app, IH. Qed.

Lemma existsb_seqZ_one (p : Z → bool) m n i :
  (∀ j, j ≠ i → p j = false) → m ≤ i < m + n → existsb p (seqZ m n) = p i.
Proof.
  intros Hp Hi. apply eq_bool_prop_intro. rewrite !Is_true_true, existsb_exists. split.
  - intros (j & _ & Hj). destruct (decide (j = i)) as [->|Hne]; [done|]. by rewrite Hp in Hj.
  - intros Hpi. exists i. split; [|done]. apply list_elem_of_In, elem_of_seqZ. lia.
Qed.

(** Settles an equation of comparisons as an equivalence of inequalities. *)
Ltac z_cases :=
  rewrite ?Z.eqb_refl; cbn [negb]; apply eq_true_iff_eq;
  rewrite ?orb_true_iff, ?andb_true_iff, ?orb_true_iff, ?andb_true_iff, ?Z.leb_le, ?Z.ltb_lt,
    ?Z.eqb_eq; intuition (discriminate || lia).
