(* ===== verification/BTree.v ===== *)
(** Ordered maps and sets: Rust's [BTreeMap] and [BTreeSet].

    A map is stdpp's [gmap], whose equality is extensional; what [gmap] does not have is an order,
    and the compositor's behaviour depends on one wherever it iterates (the first chord that
    matches, the first field of a connection, the order shells hear about windows in). Iteration is
    the map's bindings sorted by key, under the lexicographic order [#[derive(Ord)]] gives. *)
From S2P Require Import Prelude.

(** A key's fields in declaration order, which is what a derived [Ord] compares. *)
Class OrdKey (K : Type) := key_code : K → list Z.

Fixpoint lex_leb (a b : list Z) : bool :=
  match a, b with
  | [], _ => true
  | _ :: _, [] => false
  | x :: a', y :: b' => if x <? y then true else if y <? x then false else lex_leb a' b'
  end.

Definition lex_le (a b : list Z) : Prop := lex_leb a b = true.

#[global] Instance lex_le_dec a b : Decision (lex_le a b).
Proof. unfold lex_le. solve_decision. Defined.

Lemma lex_le_total a b : lex_le a b ∨ lex_le b a.
Proof.
  revert b. induction a as [|x a IH]; intros [|y b]; unfold lex_le in *; simpl; auto.
  destruct (x <? y) eqn:E1, (y <? x) eqn:E2; auto.
Qed.

Lemma lex_le_trans : Transitive lex_le.
Proof.
  intros a. induction a as [|x a IH]; intros [|y b] [|z c]; unfold lex_le in *; simpl; try done.
  repeat case_match; rewrite ?Z.ltb_lt, ?Z.ltb_ge in *; try done; try lia. apply IH.
Qed.

Lemma lex_le_antisymm a b : lex_le a b → lex_le b a → a = b.
Proof.
  revert b. induction a as [|x a IH]; intros [|y b]; unfold lex_le in *; simpl; try done.
  repeat case_match; rewrite ?Z.ltb_lt, ?Z.ltb_ge in *; try done; try lia.
  intros ??. f_equal; [lia|auto].
Qed.

Section Ordered.
Context {K : Type} `{!EqDecision K, !Countable K, !OrdKey K}.

Definition key_le (a b : K) : Prop := lex_le (key_code a) (key_code b).

#[global] Instance key_le_dec a b : Decision (key_le a b).
Proof. unfold key_le. apply _. Defined.

Definition item_le {V} (a b : K * V) : Prop := key_le a.1 b.1.

#[global] Instance item_le_dec {V} (a b : K * V) : Decision (item_le a b).
Proof. unfold item_le. apply _. Defined.

#[global] Instance item_le_total {V} : Total (@item_le V).
Proof. intros a b. apply lex_le_total. Qed.
#[global] Instance item_le_trans {V} : Transitive (@item_le V).
Proof. intros a b c. apply lex_le_trans. Qed.

(** [map.iter()], [map.keys()], [map.values()]. *)
Definition btree_items {V} (m : gmap K V) : list (K * V) := merge_sort item_le (map_to_list m).
Definition btree_keys {V} (m : gmap K V) : list K := (btree_items m).*1.
Definition btree_values {V} (m : gmap K V) : list V := (btree_items m).*2.

Lemma btree_items_perm {V} (m : gmap K V) : btree_items m ≡ₚ map_to_list m.
Proof. apply merge_sort_Permutation. Qed.

Lemma elem_of_btree_items {V} (m : gmap K V) k v : (k, v) ∈ btree_items m ↔ m !! k = Some v.
Proof. rewrite btree_items_perm. apply elem_of_map_to_list. Qed.

Lemma elem_of_btree_keys {V} (m : gmap K V) k : k ∈ btree_keys m ↔ is_Some (m !! k).
Proof.
  unfold btree_keys. rewrite list_elem_of_fmap. split.
  - intros ([k' v] & -> & Hin%elem_of_btree_items). by exists v.
  - intros [v Hv]. exists (k, v). split; [done|]. by apply elem_of_btree_items.
Qed.

Lemma elem_of_btree_values {V} (m : gmap K V) v :
  v ∈ btree_values m ↔ ∃ k, m !! k = Some v.
Proof.
  unfold btree_values. rewrite list_elem_of_fmap. split.
  - intros ([k v'] & -> & Hin%elem_of_btree_items). by exists k.
  - intros [k Hk]. exists (k, v). split; [done|]. by apply elem_of_btree_items.
Qed.

Lemma btree_keys_NoDup {V} (m : gmap K V) : NoDup (btree_keys m).
Proof.
  unfold btree_keys. rewrite btree_items_perm. apply NoDup_fst_map_to_list.
Qed.

Lemma btree_items_sorted {V} (m : gmap K V) : StronglySorted item_le (btree_items m).
Proof. apply StronglySorted_merge_sort; apply _. Qed.

Lemma length_btree_items {V} (m : gmap K V) : length (btree_items m) = size m.
Proof. rewrite btree_items_perm. apply length_map_to_list. Qed.

(** [map.retain(f)]. *)
Definition btree_retain {V} (f : K → V → bool) (m : gmap K V) : gmap K V :=
  filter (λ kv, f kv.1 kv.2 = true) m.

Lemma btree_retain_Some {V} f (m : gmap K V) k v :
  btree_retain f m !! k = Some v ↔ m !! k = Some v ∧ f k v = true.
Proof. unfold btree_retain. apply map_lookup_filter_Some. Qed.

Lemma btree_retain_size {V} f (m : gmap K V) : (size (btree_retain f m) ≤ size m)%nat.
Proof. apply map_subseteq_size, map_filter_subseteq. Qed.
End Ordered.

(** [set.iter()]. *)
Definition btree_elements {K : Type} `{!EqDecision K, !Countable K, !OrdKey K} (s : gset K) : list K :=
  merge_sort key_le (elements s).

Lemma elem_of_btree_elements {K : Type} `{!EqDecision K, !Countable K, !OrdKey K} (s : gset K) k :
  k ∈ btree_elements s ↔ k ∈ s.
Proof. unfold btree_elements. rewrite merge_sort_Permutation. apply elem_of_elements. Qed.

(** [iter().find(p)]: the first element, in order, that satisfies [p]. *)
Fixpoint list_find_first {A} (p : A → bool) (l : list A) : option A :=
  match l with
  | [] => None
  | x :: l' => if p x then Some x else list_find_first p l'
  end.

Lemma list_find_first_Some {A} (p : A → bool) l x :
  list_find_first p l = Some x →
  ∃ before after, l = before ++ x :: after ∧ p x = true ∧ Forall (λ y, p y = false) before.
Proof.
  induction l as [|y l IH]; simpl; [done|]. destruct (p y) eqn:E.
  - intros [= ->]. exists [], l. auto.
  - intros (before & after & -> & ? & ?)%IH. exists (y :: before), after. auto.
Qed.

Lemma list_find_first_app {A} (p : A → bool) before x after :
  Forall (λ y, p y = false) before → p x = true →
  list_find_first p (before ++ x :: after) = Some x.
Proof. intros Hb Hx. induction Hb as [|y l Hy _ IH]; simpl; [by rewrite Hx|by rewrite Hy]. Qed.

Lemma elem_of_rev {A} (x : A) l : x ∈ rev l ↔ x ∈ l.
Proof. rewrite rev_alt. apply elem_of_reverse. Qed.

Lemma list_find_first_None {A} (p : A → bool) l :
  list_find_first p l = None ↔ Forall (λ y, p y = false) l.
Proof.
  induction l as [|y l IH]; simpl; [by split; auto|]. destruct (p y) eqn:E.
  - split; [done|]. intros [??]%Forall_cons. congruence.
  - rewrite IH, Forall_cons. tauto.
Qed.

(** [vec.retain(p)] and [iter().filter(p)]. *)
Definition list_retain {A} (p : A → bool) (l : list A) : list A := filter (λ x, p x = true) l.

Lemma elem_of_list_retain {A} (p : A → bool) l x :
  x ∈ list_retain p l ↔ x ∈ l ∧ p x = true.
Proof. unfold list_retain. rewrite list_elem_of_filter. tauto. Qed.

Lemma list_retain_NoDup {A} (p : A → bool) l : NoDup l → NoDup (list_retain p l).
Proof. apply NoDup_filter. Qed.

#[export] Instance Z_ord_key : OrdKey Z := λ z, [z].
#[export] Instance pair_ord_key `{OrdKey A, OrdKey B} : OrdKey (A * B) :=
  λ p, key_code p.1 ++ key_code p.2.

Example btree_items_ordered :
  btree_items (<[3:=30]> (<[1:=10]> (<[2:=20]> ∅)) : gmap Z Z) = [(1, 10); (2, 20); (3, 30)].
Proof. vm_compute. reflexivity. Qed.
