(* ===== verification/Vocabulary.v ===== *)
(** The protocol's vocabulary: object identifiers, opcodes, versions, keys and modifiers,
    capabilities and error categories ([atria-protocol/src/{object,opcode,version,key,capability,
    error}.rs]). *)
From S2P Require Import Prelude.
From S2P Require Import BTree.

(** * Object identifiers ([object.rs]) *)

Record ObjectId := MkObjectId { into_raw : Z }.

#[global] Instance ObjectId_eq_dec : EqDecision ObjectId.
Proof. solve_decision. Defined.
#[global] Instance ObjectId_countable : Countable ObjectId :=
  inj_countable' into_raw MkObjectId (λ x, match x with MkObjectId _ => eq_refl end).
#[global] Instance ObjectId_ord_key : OrdKey ObjectId := λ o, [into_raw o].

Definition ObjectId_NULL : ObjectId := MkObjectId 0.
Definition ObjectId_DISPLAY : ObjectId := MkObjectId 1.
Definition FIRST_CLIENT_ALLOCATED_ID : Z := 2.
Definition is_null (o : ObjectId) : bool := into_raw o =? 0.
Definition is_client_allocatable (o : ObjectId) : bool :=
  FIRST_CLIENT_ALLOCATED_ID <=? into_raw o.

(** * Opcodes ([opcode.rs]) *)

Record Opcode := MkOpcode { opcode_raw : Z }.

#[global] Instance Opcode_eq_dec : EqDecision Opcode.
Proof. solve_decision. Defined.

(** * Version ranges ([version.rs]) *)

Definition CURRENT_VERSION : Z := 1.
Definition MINIMUM_SUPPORTED_VERSION : Z := 1.

Record VersionRange := MkVersionRange { vr_minimum : Z; vr_maximum : Z }.

#[global] Instance VersionRange_eq_dec : EqDecision VersionRange.
Proof. solve_decision. Defined.

Definition VersionRange_new (minimum maximum : Z) : option VersionRange :=
  if minimum <=? maximum then Some (MkVersionRange minimum maximum) else None.

Definition VersionRange_overlap (self other : VersionRange) : option VersionRange :=
  let minimum := if vr_minimum other <? vr_minimum self
                 then vr_minimum self else vr_minimum other in
  let maximum := if vr_maximum self <? vr_maximum other
                 then vr_maximum self else vr_maximum other in
  VersionRange_new minimum maximum.

(** A version both peers' ranges hold. *)
Definition in_range (v : Z) (r : VersionRange) : Prop := vr_minimum r ≤ v ≤ vr_maximum r.

Lemma in_range_overlap a b v :
  in_range v a ∧ in_range v b ↔
  ∃ r, VersionRange_overlap a b = Some r ∧ in_range v r.
Proof.
  unfold in_range, VersionRange_overlap, VersionRange_new.
  repeat case_match; rewrite ?Z.ltb_lt, ?Z.ltb_ge, ?Z.leb_le, ?Z.leb_gt in *; split;
    try (intros (r & [= <-] & ?); simpl in *; lia);
    try (intros [??]; eexists; split; [reflexivity|simpl; lia]);
    try (intros (r & ? & ?); done); lia.
Qed.

(** * Physical keys and modifiers ([key.rs]) *)

Record PhysicalKey := MkPhysicalKey { usage : Z }.

#[global] Instance PhysicalKey_eq_dec : EqDecision PhysicalKey.
Proof. solve_decision. Defined.
#[global] Instance PhysicalKey_countable : Countable PhysicalKey :=
  inj_countable' usage MkPhysicalKey (λ x, match x with MkPhysicalKey _ => eq_refl end).
#[global] Instance PhysicalKey_ord_key : OrdKey PhysicalKey := λ k, [usage k].

Module Usage.
Definition A : Z := 0x04.
Definition Q : Z := 0x14.
Definition W : Z := 0x1a.
Definition ONE : Z := 0x1e.
Definition ENTER : Z := 0x28.
Definition ESCAPE : Z := 0x29.
Definition BACKSPACE : Z := 0x2a.
Definition TAB : Z := 0x2b.
Definition SPACE : Z := 0x2c.
Definition F1 : Z := 0x3a.
Definition RIGHT : Z := 0x4f.
Definition LEFT : Z := 0x50.
Definition DOWN : Z := 0x51.
Definition UP : Z := 0x52.
Definition LEFT_CONTROL : Z := 0xe0.
Definition LEFT_SHIFT : Z := 0xe1.
Definition LEFT_ALT : Z := 0xe2.
Definition LEFT_META : Z := 0xe3.
Definition RIGHT_CONTROL : Z := 0xe4.
Definition RIGHT_SHIFT : Z := 0xe5.
Definition RIGHT_ALT : Z := 0xe6.
Definition RIGHT_META : Z := 0xe7.
End Usage.

Definition is_modifier (k : PhysicalKey) : bool :=
  (Usage.LEFT_CONTROL <=? usage k) && (usage k <=? Usage.RIGHT_META).

Record Modifiers := MkModifiers { modifier_bits : Z }.

#[global] Instance Modifiers_eq_dec : EqDecision Modifiers.
Proof. solve_decision. Defined.

Definition MOD_CONTROL : Z := Z.shiftl 1 0.
Definition MOD_SHIFT : Z := Z.shiftl 1 1.
Definition MOD_ALT : Z := Z.shiftl 1 2.
Definition MOD_META : Z := Z.shiftl 1 3.

Definition Modifiers_default : Modifiers := MkModifiers 0.

Definition Modifiers_of (key : PhysicalKey) : option Z :=
  let u := usage key in
  if (u =? Usage.LEFT_CONTROL) || (u =? Usage.RIGHT_CONTROL) then Some MOD_CONTROL
  else if (u =? Usage.LEFT_SHIFT) || (u =? Usage.RIGHT_SHIFT) then Some MOD_SHIFT
  else if (u =? Usage.LEFT_ALT) || (u =? Usage.RIGHT_ALT) then Some MOD_ALT
  else if (u =? Usage.LEFT_META) || (u =? Usage.RIGHT_META) then Some MOD_META
  else None.

Definition Modifiers_contains (m : Modifiers) (modifier : Z) : bool :=
  negb (Z.land (modifier_bits m) modifier =? 0).
Definition Modifiers_with (m : Modifiers) (modifier : Z) : Modifiers :=
  MkModifiers (Z.lor (modifier_bits m) modifier).
Definition Modifiers_without (m : Modifiers) (modifier : Z) : Modifiers :=
  MkModifiers (Z.land (modifier_bits m) (bit_not u32_max modifier)).
Definition Modifiers_is_empty (m : Modifiers) : bool := modifier_bits m =? 0.

(** * Capabilities ([capability.rs]) *)

Inductive Capability :=
| SurfaceCreate | BufferImport | ExtendedInput | Screencopy | PrivilegedSession | SoftwareShm
| GpuPrime | ExplicitGpuFence | RevocableSeat | DrmDumbBuffer | DrmAtomicCommit | DrmPageFlip
| InputKeys | ShellControlCap | OutputControl | GlobalInputObservation | InputInjection
| LockScreen | InputMethodCap | ShortcutControl.

#[global] Instance Capability_eq_dec : EqDecision Capability.
Proof. solve_decision. Defined.

(** [self as u32] under [#[repr(u8)]]: the position in the declaration. *)
Definition capability_index (c : Capability) : Z :=
  match c with
  | SurfaceCreate => 0 | BufferImport => 1 | ExtendedInput => 2 | Screencopy => 3
  | PrivilegedSession => 4 | SoftwareShm => 5 | GpuPrime => 6 | ExplicitGpuFence => 7
  | RevocableSeat => 8 | DrmDumbBuffer => 9 | DrmAtomicCommit => 10 | DrmPageFlip => 11
  | InputKeys => 12 | ShellControlCap => 13 | OutputControl => 14
  | GlobalInputObservation => 15 | InputInjection => 16 | LockScreen => 17
  | InputMethodCap => 18 | ShortcutControl => 19
  end.

(** [None] is the assertion's panic. *)
Definition checked_mask (c : Capability) : option Z :=
  let index := capability_index c in
  if index <? 64 then Some (Z.shiftl 1 index) else None.
Definition capability_mask (c : Capability) : Z := default 0 (checked_mask c).

Definition capability_name (c : Capability) : string :=
  match c with
  | SurfaceCreate => "surface_create"
  | BufferImport => "buffer_import"
  | ExtendedInput => "extended_input"
  | Screencopy => "screencopy"
  | PrivilegedSession => "privileged_session"
  | SoftwareShm => "software_shm"
  | GpuPrime => "gpu_prime"
  | ExplicitGpuFence => "explicit_gpu_fence"
  | RevocableSeat => "revocable_seat"
  | DrmDumbBuffer => "drm_dumb_buffer"
  | DrmAtomicCommit => "drm_atomic_commit"
  | DrmPageFlip => "drm_page_flip"
  | InputKeys => "input_keys"
  | ShellControlCap => "shell_control"
  | OutputControl => "output_control"
  | GlobalInputObservation => "global_input_observation"
  | InputInjection => "input_injection"
  | LockScreen => "lock_screen"
  | ShortcutControl => "shortcut_control"
  | InputMethodCap => "input_method"
  end.

Record CapabilitySet := MkCapabilitySet { capability_bits : Z }.

#[global] Instance CapabilitySet_eq_dec : EqDecision CapabilitySet.
Proof. solve_decision. Defined.

Definition CapabilitySet_empty : CapabilitySet := MkCapabilitySet 0.
Definition default_grants : CapabilitySet :=
  MkCapabilitySet (Z.lor (capability_mask SurfaceCreate) (capability_mask BufferImport)).
Definition cap_contains (s : CapabilitySet) (c : Capability) : bool :=
  negb (Z.land (capability_bits s) (capability_mask c) =? 0).
Definition cap_with (s : CapabilitySet) (c : Capability) : CapabilitySet :=
  MkCapabilitySet (Z.lor (capability_bits s) (capability_mask c)).
Definition cap_without (s : CapabilitySet) (c : Capability) : CapabilitySet :=
  MkCapabilitySet (Z.land (capability_bits s) (bit_not u64_max (capability_mask c))).
Definition cap_intersection (s t : CapabilitySet) : CapabilitySet :=
  MkCapabilitySet (Z.land (capability_bits s) (capability_bits t)).
Definition cap_satisfies (s required : CapabilitySet) : bool :=
  Z.land (capability_bits s) (capability_bits required) =? capability_bits required.

(** ** The set a bitset stands for *)

Lemma capability_index_range c : 0 ≤ capability_index c < 64.
Proof. destruct c; simpl; lia. Qed.

Lemma capability_mask_pow c : capability_mask c = 2 ^ capability_index c.
Proof. by destruct c. Qed.

Lemma capability_index_inj c d : capability_index c = capability_index d → c = d.
Proof. by destruct c, d. Qed.

Lemma land_pow2_testbit z n : 0 ≤ n → negb (Z.land z (2 ^ n) =? 0) = Z.testbit z n.
Proof.
  intros Hn. destruct (Z.testbit z n) eqn:E.
  - apply negb_true_iff, Z.eqb_neq. intros H0.
    apply (f_equal (λ w, Z.testbit w n)) in H0.
    rewrite Z.land_spec, Z.pow2_bits_true, E, Z.testbit_0_l in H0 by lia. done.
  - apply negb_false_iff, Z.eqb_eq. apply Z.bits_inj'. intros m Hm.
    rewrite Z.land_spec, Z.testbit_0_l, Z.pow2_bits_eqb by lia.
    destruct (n =? m) eqn:Em; [|apply andb_false_r].
    apply Z.eqb_eq in Em. subst. by rewrite E.
Qed.

Lemma cap_contains_testbit s c :
  cap_contains s c = Z.testbit (capability_bits s) (capability_index c).
Proof.
  unfold cap_contains. rewrite capability_mask_pow.
  apply land_pow2_testbit. pose proof (capability_index_range c); lia.
Qed.

Lemma testbit_bit_not n m :
  0 ≤ m < 64 → Z.testbit (bit_not u64_max n) m = negb (Z.testbit n m).
Proof.
  intros Hm. unfold bit_not, u64_max. rewrite Z.lxor_spec.
  change 18446744073709551615 with (Z.ones 64).
  rewrite Z.ones_spec_low by lia. by rewrite xorb_true_r.
Qed.

Lemma mask_testbit c d :
  Z.testbit (capability_mask c) (capability_index d) = bool_decide (c = d).
Proof.
  rewrite capability_mask_pow, Z.pow2_bits_eqb by (pose proof (capability_index_range c); lia).
  case_bool_decide as E; [by subst; apply Z.eqb_refl|].
  apply Z.eqb_neq. intros ?%capability_index_inj. done.
Qed.

Lemma cap_contains_with s c d :
  cap_contains (cap_with s c) d = bool_decide (c = d) || cap_contains s d.
Proof.
  rewrite !cap_contains_testbit. simpl. rewrite Z.lor_spec, mask_testbit. apply orb_comm.
Qed.

Lemma cap_contains_without s c d :
  cap_contains (cap_without s c) d = negb (bool_decide (c = d)) && cap_contains s d.
Proof.
  rewrite !cap_contains_testbit. simpl. rewrite Z.land_spec, testbit_bit_not, mask_testbit
    by apply capability_index_range. apply andb_comm.
Qed.

Lemma cap_contains_intersection s t d :
  cap_contains (cap_intersection s t) d = cap_contains s d && cap_contains t d.
Proof. rewrite !cap_contains_testbit. apply Z.land_spec. Qed.

Lemma cap_satisfies_contains s required c :
  cap_satisfies s required = true → cap_contains required c = true → cap_contains s c = true.
Proof.
  unfold cap_satisfies. rewrite !cap_contains_testbit, Z.eqb_eq. intros H0 Hc.
  rewrite <- H0, Z.land_spec in Hc. by apply andb_true_iff in Hc as [].
Qed.

(** * Error categories ([error.rs]) *)

Inductive ErrorCategory := CatProtocol | CatObject | CatResource | CatCompositor.

#[global] Instance ErrorCategory_eq_dec : EqDecision ErrorCategory.
Proof. solve_decision. Defined.

Definition is_recoverable (c : ErrorCategory) : bool :=
  match c with CatObject | CatResource => true | _ => false end.

(** A numeric code carried by [display.error]. *)
Record WireErrorCode := MkWireErrorCode { wire_error_raw : Z }.

#[global] Instance WireErrorCode_eq_dec : EqDecision WireErrorCode.
Proof. solve_decision. Defined.

Definition WIRE_INVALID_OBJECT : WireErrorCode := MkWireErrorCode 0x0001.

Definition wire_error_category (c : WireErrorCode) : option ErrorCategory :=
  let z := wire_error_raw c in
  if (0x0001 <=? z) && (z <=? 0x00ff) then Some CatProtocol
  else if (0x0100 <=? z) && (z <=? 0x01ff) then Some CatObject
  else if (0x0200 <=? z) && (z <=? 0x02ff) then Some CatResource
  else if (0x0300 <=? z) && (z <=? 0x03ff) then Some CatCompositor
  else None.
