(* ===== verification/Interface.v ===== *)
(** The interface table ([atria-protocol/src/interface.rs]) and the codec failures that name its
    entries ([atria-protocol/src/error.rs]).

    The source states two invariants of the table beside it: an operation's opcode is its position
    in its interface's list, and every operation is filed under the interface and kind it names.
    [decode_operation_table] is both at once: decoding is the inverse of the table. *)
From S2P Require Import Prelude.
From S2P Require Import BTree.
From S2P Require Import Vocabulary.

(** What a handle slot must name ([wire.rs]). *)
Inductive HandleKind := SharedMemory | GpuImage | Fence.

#[global] Instance HandleKind_eq_dec : EqDecision HandleKind.
Proof. solve_decision. Defined.

Inductive Field :=
| FObject | FHandle (kind : HandleKind) | FU32 | FI32 | FU64 | FString | FArray.

#[global] Instance Field_eq_dec : EqDecision Field.
Proof. solve_decision. Defined.

Definition Field_size (f : Field) : option Z :=
  match f with
  | FObject | FHandle _ | FU32 | FI32 => Some 4
  | FU64 => Some 8
  | FString | FArray => None
  end.

Inductive Interface :=
| IDisplay | IRegistry | ICompositor | IShm | IShmPool | IBuffer | ISurface | IShell
| IToplevel | IOutput | IShellControl | ISeat | IPointer | IKeyboard | IShortcuts | ITextInput
| IInputMethod.

#[global] Instance Interface_eq_dec : EqDecision Interface.
Proof. solve_decision. Defined.

Inductive MessageKind := KMethod | KEvent.

#[global] Instance MessageKind_eq_dec : EqDecision MessageKind.
Proof. solve_decision. Defined.

Record OperationSpec := {
  spec_interface : Interface;
  spec_kind : MessageKind;
  spec_opcode : Z;
  spec_name : string;
  spec_payload : list Field;
}.

Definition HEADER_SIZE : Z := 12.
Definition MAX_MESSAGE_SIZE : Z := 65532.
Definition MAX_PAYLOAD_SIZE : Z := MAX_MESSAGE_SIZE - HEADER_SIZE.

(** The loop over the payload's fields, [total] so far. *)
Fixpoint message_size_loop (total : Z) (payload : list Field) : option Z :=
  match payload with
  | [] => Some total
  | f :: rest =>
      match Field_size f with
      | Some size => message_size_loop (total + size) rest
      | None => None
      end
  end.

Definition message_size (s : OperationSpec) : option Z :=
  message_size_loop HEADER_SIZE (spec_payload s).

Inductive Operation :=
| OpDisplaySync | OpDisplayGetRegistry | OpDisplayError | OpDisplayDeleteId | OpDisplaySyncDone
| OpRegistryBind | OpRegistryGlobal | OpRegistryGlobalRemove | OpCompositorCreateSurface
| OpShmCreatePool | OpShmFormat | OpShmPoolCreateBuffer | OpShmPoolResize | OpShmPoolDestroy
| OpBufferDestroy | OpBufferRelease | OpSurfaceDestroy | OpSurfaceAttach
| OpSurfaceDamageBuffer | OpSurfaceCommit | OpSurfaceFrame | OpSurfaceEnter | OpSurfaceLeave
| OpSurfaceFrameDone | OpShellGetToplevel | OpToplevelDestroy | OpToplevelSetTitle
| OpToplevelSetMinSize | OpToplevelSetMaxSize | OpToplevelConfigure | OpToplevelClose
| OpOutputIdentity | OpOutputGeometry | OpOutputMode | OpOutputScale | OpOutputDone
| OpShellControlConfigure | OpShellControlPlace | OpShellControlRaise | OpShellControlFocus
| OpShellControlClose | OpShellControlToplevel | OpShellControlToplevelGone
| OpShellControlFocusChanged | OpShellControlSnapshotDone | OpShellControlInteraction
| OpShellControlGrab | OpShellControlGrabMotion | OpShellControlGrabEnd | OpSeatGetPointer
| OpPointerDestroy | OpPointerEnter | OpPointerLeave | OpPointerMotion | OpPointerButton
| OpPointerAxis | OpSeatGetKeyboard | OpKeyboardDestroy | OpKeyboardEnter | OpKeyboardLeave
| OpKeyboardKey | OpKeyboardModifiers | OpShortcutsRegister | OpShortcutsUnregister
| OpShortcutsTriggered | OpTextInputEnable | OpTextInputDisable | OpTextInputSetCursorArea
| OpTextInputEnter | OpTextInputLeave | OpTextInputPreedit | OpTextInputCommit
| OpTextInputDone | OpInputMethodSetPreedit | OpInputMethodCommit | OpInputMethodDone
| OpInputMethodActivate | OpInputMethodDeactivate | OpInputMethodKey.

Definition spec_row (interface : Interface) (kind : MessageKind) (opcode : Z) (name : string)
    (payload : list Field) : OperationSpec := {|
  spec_interface := interface;
  spec_kind := kind;
  spec_opcode := opcode;
  spec_name := name;
  spec_payload := payload;
|}.

Definition spec (op : Operation) : OperationSpec :=
  match op with
  | OpDisplaySync => spec_row IDisplay KMethod 0 "sync" [FU32]
  | OpDisplayGetRegistry => spec_row IDisplay KMethod 1 "get_registry" [FObject]
  | OpDisplayError => spec_row IDisplay KEvent 0 "error" [FObject; FU32; FString]
  | OpDisplayDeleteId => spec_row IDisplay KEvent 1 "delete_id" [FObject]
  | OpDisplaySyncDone => spec_row IDisplay KEvent 2 "sync_done" [FU32]
  | OpRegistryBind => spec_row IRegistry KMethod 0 "bind" [FU32; FU32; FObject]
  | OpRegistryGlobal => spec_row IRegistry KEvent 0 "global" [FU32; FString; FU32]
  | OpRegistryGlobalRemove => spec_row IRegistry KEvent 1 "global_remove" [FU32]
  | OpCompositorCreateSurface => spec_row ICompositor KMethod 0 "create_surface" [FObject]
  | OpShmCreatePool => spec_row IShm KMethod 0 "create_pool" [FObject; FHandle SharedMemory; FU32]
  | OpShmFormat => spec_row IShm KEvent 0 "format" [FU32]
  | OpShmPoolCreateBuffer =>
      spec_row IShmPool KMethod 0 "create_buffer" [FObject; FU32; FU32; FU32; FU32; FU32]
  | OpShmPoolResize => spec_row IShmPool KMethod 1 "resize" [FU32]
  | OpShmPoolDestroy => spec_row IShmPool KMethod 2 "destroy" []
  | OpBufferDestroy => spec_row IBuffer KMethod 0 "destroy" []
  | OpBufferRelease => spec_row IBuffer KEvent 0 "release" []
  | OpSurfaceDestroy => spec_row ISurface KMethod 0 "destroy" []
  | OpSurfaceAttach => spec_row ISurface KMethod 1 "attach" [FObject; FI32; FI32]
  | OpSurfaceDamageBuffer => spec_row ISurface KMethod 2 "damage_buffer" [FI32; FI32; FU32; FU32]
  | OpSurfaceCommit => spec_row ISurface KMethod 3 "commit" [FU64; FU32]
  | OpSurfaceFrame => spec_row ISurface KMethod 4 "frame" [FU32]
  | OpSurfaceEnter => spec_row ISurface KEvent 0 "enter" [FObject]
  | OpSurfaceLeave => spec_row ISurface KEvent 1 "leave" [FObject]
  | OpSurfaceFrameDone => spec_row ISurface KEvent 2 "frame_done" [FU32; FU64]
  | OpShellGetToplevel => spec_row IShell KMethod 0 "get_toplevel" [FObject; FObject]
  | OpToplevelDestroy => spec_row IToplevel KMethod 0 "destroy" []
  | OpToplevelSetTitle => spec_row IToplevel KMethod 1 "set_title" [FString]
  | OpToplevelSetMinSize => spec_row IToplevel KMethod 2 "set_min_size" [FU32; FU32]
  | OpToplevelSetMaxSize => spec_row IToplevel KMethod 3 "set_max_size" [FU32; FU32]
  | OpToplevelConfigure => spec_row IToplevel KEvent 0 "configure" [FU32; FU32; FU32; FU32]
  | OpToplevelClose => spec_row IToplevel KEvent 1 "close" []
  | OpOutputIdentity => spec_row IOutput KEvent 0 "identity" [FU64; FU64]
  | OpOutputGeometry => spec_row IOutput KEvent 1 "geometry" [FI32; FI32; FU32; FU32; FU32]
  | OpOutputMode => spec_row IOutput KEvent 2 "mode" [FU32; FU32; FU32]
  | OpOutputScale => spec_row IOutput KEvent 3 "scale" [FU32; FU32]
  | OpOutputDone => spec_row IOutput KEvent 4 "done" []
  | OpShellControlConfigure =>
      spec_row IShellControl KMethod 0 "configure" [FU64; FU32; FU32; FU32]
  | OpShellControlPlace => spec_row IShellControl KMethod 1 "place" [FU64; FI32; FI32]
  | OpShellControlRaise => spec_row IShellControl KMethod 2 "raise" [FU64]
  | OpShellControlFocus => spec_row IShellControl KMethod 3 "focus" [FU64; FU64]
  | OpShellControlClose => spec_row IShellControl KMethod 4 "close" [FU64]
  | OpShellControlToplevel => spec_row IShellControl KEvent 0 "toplevel" [FU64; FString]
  | OpShellControlToplevelGone => spec_row IShellControl KEvent 1 "toplevel_gone" [FU64]
  | OpShellControlFocusChanged => spec_row IShellControl KEvent 2 "focus_changed" [FU64; FU64]
  | OpShellControlSnapshotDone => spec_row IShellControl KEvent 3 "snapshot_done" []
  | OpShellControlInteraction =>
      spec_row IShellControl KEvent 4 "interaction" [FU64; FU64; FU32; FU32; FI32; FI32]
  | OpShellControlGrabMotion => spec_row IShellControl KEvent 5 "grab_motion" [FU64; FI32; FI32]
  | OpShellControlGrabEnd => spec_row IShellControl KEvent 6 "grab_end" [FU64]
  | OpShellControlGrab => spec_row IShellControl KMethod 5 "grab" [FU64; FU64]
  | OpSeatGetPointer => spec_row ISeat KMethod 0 "get_pointer" [FObject]
  | OpPointerDestroy => spec_row IPointer KMethod 0 "destroy" []
  | OpPointerEnter => spec_row IPointer KEvent 0 "enter" [FU32; FObject; FI32; FI32; FU32]
  | OpPointerLeave => spec_row IPointer KEvent 1 "leave" [FU32; FObject; FU32]
  | OpPointerMotion => spec_row IPointer KEvent 2 "motion" [FU64; FI32; FI32; FU32]
  | OpPointerButton => spec_row IPointer KEvent 3 "button" [FU32; FU64; FU32; FU32; FU32]
  | OpPointerAxis => spec_row IPointer KEvent 4 "axis" [FU64; FU32; FI32; FU32]
  | OpSeatGetKeyboard => spec_row ISeat KMethod 1 "get_keyboard" [FObject]
  | OpKeyboardDestroy => spec_row IKeyboard KMethod 0 "destroy" []
  | OpKeyboardEnter => spec_row IKeyboard KEvent 0 "enter" [FU32; FObject; FU32; FU32; FArray]
  | OpKeyboardLeave => spec_row IKeyboard KEvent 1 "leave" [FU32; FObject; FU32]
  | OpKeyboardKey => spec_row IKeyboard KEvent 2 "key" [FU32; FU64; FU32; FU32; FU32]
  | OpKeyboardModifiers => spec_row IKeyboard KEvent 3 "modifiers" [FU32; FU32; FU32; FU32; FU32]
  | OpShortcutsRegister => spec_row IShortcuts KMethod 0 "register" [FU32; FU64; FU32; FU32; FU32]
  | OpShortcutsUnregister => spec_row IShortcuts KMethod 1 "unregister" [FU32]
  | OpTextInputEnable => spec_row ITextInput KMethod 0 "enable" [FU32]
  | OpTextInputDisable => spec_row ITextInput KMethod 1 "disable" []
  | OpTextInputSetCursorArea =>
      spec_row ITextInput KMethod 2 "set_cursor_area" [FI32; FI32; FU32; FU32]
  | OpTextInputEnter => spec_row ITextInput KEvent 0 "enter" [FObject]
  | OpTextInputLeave => spec_row ITextInput KEvent 1 "leave" [FObject]
  | OpTextInputPreedit => spec_row ITextInput KEvent 2 "preedit" [FString; FI32; FI32]
  | OpTextInputCommit => spec_row ITextInput KEvent 3 "commit" [FString]
  | OpTextInputDone => spec_row ITextInput KEvent 4 "done" [FU32]
  | OpInputMethodSetPreedit =>
      spec_row IInputMethod KMethod 0 "set_preedit" [FU32; FString; FI32; FI32]
  | OpInputMethodCommit => spec_row IInputMethod KMethod 1 "commit" [FU32; FString]
  | OpInputMethodDone => spec_row IInputMethod KMethod 2 "done" [FU32; FU32]
  | OpInputMethodActivate => spec_row IInputMethod KEvent 0 "activate" [FObject; FU32; FU32]
  | OpInputMethodDeactivate => spec_row IInputMethod KEvent 1 "deactivate" []
  | OpInputMethodKey => spec_row IInputMethod KEvent 2 "key" [FU32; FU64; FU32; FU32; FU32]
  | OpShortcutsTriggered =>
      spec_row IShortcuts KEvent 0 "triggered" [FU32; FU64; FU32; FU64; FU32]
  end.

Definition op_interface (op : Operation) : Interface := spec_interface (spec op).
Definition op_kind (op : Operation) : MessageKind := spec_kind (spec op).
Definition op_opcode (op : Operation) : Z := spec_opcode (spec op).

Definition Interface_name (i : Interface) : string :=
  match i with
  | IDisplay => "atria_display"
  | IRegistry => "atria_registry"
  | ICompositor => "atria_compositor"
  | IShm => "atria_shm"
  | IShmPool => "atria_shm_pool"
  | IBuffer => "atria_buffer"
  | ISurface => "atria_surface"
  | IShell => "atria_shell"
  | IToplevel => "atria_toplevel"
  | IOutput => "atria_output"
  | IShellControl => "atria_shell_control"
  | ISeat => "atria_seat"
  | IPointer => "atria_pointer"
  | IKeyboard => "atria_keyboard"
  | IShortcuts => "atria_shortcuts"
  | ITextInput => "atria_text_input"
  | IInputMethod => "atria_input_method"
  end.

Definition methods (i : Interface) : list Operation :=
  match i with
  | IDisplay => [OpDisplaySync; OpDisplayGetRegistry]
  | IRegistry => [OpRegistryBind]
  | ICompositor => [OpCompositorCreateSurface]
  | IShm => [OpShmCreatePool]
  | IShmPool => [OpShmPoolCreateBuffer; OpShmPoolResize; OpShmPoolDestroy]
  | IBuffer => [OpBufferDestroy]
  | ISurface =>
      [OpSurfaceDestroy; OpSurfaceAttach; OpSurfaceDamageBuffer; OpSurfaceCommit; OpSurfaceFrame]
  | IShell => [OpShellGetToplevel]
  | IToplevel =>
      [OpToplevelDestroy; OpToplevelSetTitle; OpToplevelSetMinSize; OpToplevelSetMaxSize]
  | IOutput => []
  | ISeat => [OpSeatGetPointer; OpSeatGetKeyboard]
  | IPointer => [OpPointerDestroy]
  | IKeyboard => [OpKeyboardDestroy]
  | IShortcuts => [OpShortcutsRegister; OpShortcutsUnregister]
  | ITextInput => [OpTextInputEnable; OpTextInputDisable; OpTextInputSetCursorArea]
  | IInputMethod => [OpInputMethodSetPreedit; OpInputMethodCommit; OpInputMethodDone]
  | IShellControl =>
      [OpShellControlConfigure; OpShellControlPlace; OpShellControlRaise; OpShellControlFocus;
       OpShellControlClose; OpShellControlGrab]
  end.

Definition events (i : Interface) : list Operation :=
  match i with
  | IDisplay => [OpDisplayError; OpDisplayDeleteId; OpDisplaySyncDone]
  | IRegistry => [OpRegistryGlobal; OpRegistryGlobalRemove]
  | ICompositor | IShmPool | IShell => []
  | IShm => [OpShmFormat]
  | IBuffer => [OpBufferRelease]
  | ISurface => [OpSurfaceEnter; OpSurfaceLeave; OpSurfaceFrameDone]
  | IToplevel => [OpToplevelConfigure; OpToplevelClose]
  | ISeat => []
  | IShortcuts => [OpShortcutsTriggered]
  | ITextInput =>
      [OpTextInputEnter; OpTextInputLeave; OpTextInputPreedit; OpTextInputCommit; OpTextInputDone]
  | IInputMethod => [OpInputMethodActivate; OpInputMethodDeactivate; OpInputMethodKey]
  | IKeyboard => [OpKeyboardEnter; OpKeyboardLeave; OpKeyboardKey; OpKeyboardModifiers]
  | IPointer => [OpPointerEnter; OpPointerLeave; OpPointerMotion; OpPointerButton; OpPointerAxis]
  | IShellControl =>
      [OpShellControlToplevel; OpShellControlToplevelGone; OpShellControlFocusChanged;
       OpShellControlSnapshotDone; OpShellControlInteraction; OpShellControlGrabMotion;
       OpShellControlGrabEnd]
  | IOutput => [OpOutputIdentity; OpOutputGeometry; OpOutputMode; OpOutputScale; OpOutputDone]
  end.

(** * Codec failures ([error.rs]) *)

Inductive EncodeError :=
| EncodeSizeOverflow
| EncodeMessageTooLarge (size maximum : Z)
| EncodeMisalignedSize (size : Z)
| EncodeBufferTooSmall (needed available : Z)
| EncodedLengthMismatch (declared actual : Z).

#[global] Instance EncodeError_eq_dec : EqDecision EncodeError.
Proof. solve_decision. Defined.

Inductive DecodeError :=
| Truncated (needed available : Z)
| MessageTooSmall (size minimum : Z)
| MessageTooLarge (size maximum : Z)
| MisalignedSize (size : Z)
| SizeOverflow
| TrailingBytes (declared actual : Z)
| InvalidUtf8
| InvalidHandlePlaceholder (value : Z)
| UnknownOpcode (interface : Interface) (kind : MessageKind) (opcode : Opcode).

#[global] Instance DecodeError_eq_dec : EqDecision DecodeError.
Proof. solve_decision. Defined.

(** The operation an interface defines at this opcode, for this direction. *)
Definition decode_operation (interface : Interface) (kind : MessageKind) (opcode : Opcode)
    : result DecodeError Operation :=
  let list := match kind with KMethod => methods interface | KEvent => events interface end in
  ok_or (list !! Z.to_nat (opcode_raw opcode)) (UnknownOpcode interface kind opcode).

Definition INTERFACES : list Interface :=
  [IDisplay; IRegistry; ICompositor; IShm; IShmPool; IBuffer; ISurface; IShell; IToplevel;
   IOutput; IShellControl; ISeat; IPointer; IKeyboard; IShortcuts; ITextInput; IInputMethod].

(** * The states a toplevel may be told it is in *)

Definition ACTIVATED : Z := Z.shiftl 1 0.
Definition MAXIMIZED : Z := Z.shiftl 1 1.
Definition FULLSCREEN : Z := Z.shiftl 1 2.
Definition RESIZING : Z := Z.shiftl 1 3.
Definition SUSPENDED : Z := Z.shiftl 1 4.
Definition TILED_LEFT : Z := Z.shiftl 1 5.
Definition TILED_RIGHT : Z := Z.shiftl 1 6.
Definition TILED_TOP : Z := Z.shiftl 1 7.
Definition TILED_BOTTOM : Z := Z.shiftl 1 8.

Definition VALID_V1 : Z :=
  fold_left Z.lor [MAXIMIZED; FULLSCREEN; RESIZING; SUSPENDED; TILED_LEFT; TILED_RIGHT;
                   TILED_TOP; TILED_BOTTOM] ACTIVATED.

Definition valid_mask (version : Z) : Z := if version =? 0 then 0 else VALID_V1.

(** * The table is a bijection with what decodes *)

(** Every operation stands in the list of its interface and kind, at its opcode. *)
Lemma spec_listed (op : Operation) :
  decode_operation (op_interface op) (op_kind op) (MkOpcode (op_opcode op)) = Ok op.
Proof. by destruct op. Qed.

#[global] Instance Operation_eq_dec : EqDecision Operation.
Proof.
  refine (λ x y, cast_if (decide ((op_interface x, op_kind x, op_opcode x) =
                                  (op_interface y, op_kind y, op_opcode y)))).
  - abstract (pose proof (spec_listed x) as Hx; pose proof (spec_listed y) as Hy;
      simplify_eq; congruence).
  - abstract congruence.
Defined.

(** Every listed operation is filed under the interface, kind and position it names. *)
Lemma listed_spec i k n op :
  (match k with KMethod => methods i | KEvent => events i end) !! n = Some op →
  op_interface op = i ∧ op_kind op = k ∧ op_opcode op = Z.of_nat n.
Proof.
  destruct k, i; simpl; intros H0;
    repeat (destruct n as [|n]; [injection H0 as <-; auto|simpl in H0]); done.
Qed.

(** An opcode decodes to an operation exactly when the table files that operation under that
    interface, direction and number: opcodes are dense from zero, no operation is filed twice or
    nowhere, and the decoder recognises nothing the table does not list. *)
Theorem decode_operation_table i k n op :
  decode_operation i k (MkOpcode (Z.of_nat n)) = Ok op ↔
  op_interface op = i ∧ op_kind op = k ∧ op_opcode op = Z.of_nat n.
Proof.
  split.
  - unfold decode_operation. simpl. rewrite Nat2Z.id, ok_or_Ok. apply listed_spec.
  - intros (<- & <- & <-). apply spec_listed.
Qed.

Lemma decode_operation_kind i k n op :
  decode_operation i k n = Ok op → op_interface op = i ∧ op_kind op = k.
Proof.
  unfold decode_operation. rewrite ok_or_Ok. intros (? & ? & ?)%listed_spec. auto.
Qed.

Lemma message_size_checked (op : Operation) :
  match message_size (spec op) with
  | Some n => (HEADER_SIZE <=? n) && (n <=? MAX_MESSAGE_SIZE) && (n mod 4 =? 0)
  | None => true
  end = true.
Proof. by destruct op. Qed.

(** Every fixed-size message the table describes fits the wire: it is at least a header, no
    longer than the protocol's maximum, and a multiple of four bytes, so [Header::for_payload]
    accepts it. *)
Theorem message_size_fits op n :
  message_size (spec op) = Some n → HEADER_SIZE ≤ n ≤ MAX_MESSAGE_SIZE ∧ n mod 4 = 0.
Proof.
  intros E. pose proof (message_size_checked op) as Hc. rewrite E in Hc.
  rewrite !andb_true_iff, !Z.leb_le, Z.eqb_eq in Hc. tauto.
Qed.

Lemma message_size_fits_witness :
  message_size (spec OpShmPoolCreateBuffer) = Some 36 ∧ HEADER_SIZE ≤ 36 ≤ MAX_MESSAGE_SIZE.
Proof.
  split; [reflexivity|]. apply (message_size_fits OpShmPoolCreateBuffer 36). reflexivity.
Defined.

Lemma Interface_name_inj i j : Interface_name i = Interface_name j → i = j.
Proof. by destruct i, j. Qed.
