(* ===== verification/Wire.v ===== *)
(** Framing and primitive codecs ([atria-protocol/src/wire.rs]).

    A writer over [&mut [u8]] is an [ST] over the buffer, so a failed write leaves the buffer as
    the code leaves it; an encoder or a decoder is the buffer with a position. [usize] arithmetic
    is checked where the source checks it. *)
From S2P Require Import Prelude.
From S2P Require Import BTree.
From S2P Require Import Vocabulary.
From S2P Require Import Interface.

Definition HANDLE_PLACEHOLDER_BASE : Z := 0xffffff00.
Definition MAX_HANDLES_PER_MESSAGE : Z := u8_max + 1.

(** * The standard library's byte and string primitives *)

(** [to_le_bytes] at a width of [n] bytes, of an unsigned or a signed integer. *)
Definition to_le_bytes (n : nat) (z : Z) : list byte := le_split n z.
#[global] Arguments to_le_bytes : simpl never.
Definition u_from_le_bytes (bytes : list byte) : Z := le_combine bytes.
Definition i32_from_le_bytes (bytes : list byte) : Z := as_i32 (le_combine bytes).

(** [str::from_utf8]: the well-formed byte sequences of the Unicode standard. *)
Definition byte_in (lo hi : Z) (b : byte) : bool :=
  (lo <=? byte_val b) && (byte_val b <=? hi).
Definition utf8_continuation (b : byte) : bool := byte_in 0x80 0xbf b.
Definition utf8_second_of_three (b0 b1 : byte) : bool :=
  let z := byte_val b0 in
  if z =? 0xe0 then byte_in 0xa0 0xbf b1
  else if z =? 0xed then byte_in 0x80 0x9f b1 else utf8_continuation b1.
Definition utf8_second_of_four (b0 b1 : byte) : bool :=
  let z := byte_val b0 in
  if z =? 0xf0 then byte_in 0x90 0xbf b1
  else if z =? 0xf4 then byte_in 0x80 0x8f b1 else utf8_continuation b1.

Fixpoint utf8_valid (l : list byte) : bool :=
  match l with
  | [] => true
  | b0 :: r0 =>
      if byte_in 0x00 0x7f b0 then utf8_valid r0
      else match r0 with
      | [] => false
      | b1 :: r1 =>
          if byte_in 0xc2 0xdf b0 then utf8_continuation b1 && utf8_valid r1
          else match r1 with
          | [] => false
          | b2 :: r2 =>
              if byte_in 0xe0 0xef b0
              then utf8_second_of_three b0 b1 && utf8_continuation b2 && utf8_valid r2
              else match r2 with
              | [] => false
              | b3 :: r3 =>
                  byte_in 0xf0 0xf4 b0 && utf8_second_of_four b0 b1 && utf8_continuation b2
                  && utf8_continuation b3 && utf8_valid r3
              end
          end
      end
  end.

(** * Handle slots *)

Record HandleIndex := MkHandleIndex { handle_index : Z; handle_kind : HandleKind }.

#[global] Instance HandleIndex_eq_dec : EqDecision HandleIndex.
Proof. solve_decision. Defined.

Definition placeholder (h : HandleIndex) : Z := HANDLE_PLACEHOLDER_BASE + handle_index h.

Definition from_placeholder (value : Z) (kind : HandleKind) : result DecodeError HandleIndex :=
  if HANDLE_PLACEHOLDER_BASE <=? value
  then Ok (MkHandleIndex ((value - HANDLE_PLACEHOLDER_BASE) mod (u8_max + 1)) kind)
  else Err (InvalidHandlePlaceholder value).

(** * Reading and writing at an offset *)

Definition write_at (offset : Z) (bytes : list byte) : ST (list byte) EncodeError unit :=
  end_ ← lift (ok_or (checked_add usize_max offset (len bytes)) EncodeSizeOverflow);
  available ← gets len;
  output ← gets id;
  _ ← lift (ok_or (get_range output offset end_) (EncodeBufferTooSmall end_ available));
  modify (λ output, put_range output offset bytes).

(** [<[u8; N]>::try_from]. *)
Definition array_from (n : Z) (bytes : list byte) (e : DecodeError)
    : result DecodeError (list byte) :=
  if len bytes =? n then Ok bytes else Err e.

Definition read_u16_at (input : list byte) (offset : Z) : result DecodeError Z :=
  end_ ← ok_or (checked_add usize_max offset 2) SizeOverflow;
  bytes ← ok_or (get_range input offset end_) (Truncated end_ (len input));
  array ← array_from 2 bytes (Truncated end_ (len input));
  mret (u_from_le_bytes array).

Definition read_u32_at (input : list byte) (offset : Z) : result DecodeError Z :=
  end_ ← ok_or (checked_add usize_max offset 4) SizeOverflow;
  bytes ← ok_or (get_range input offset end_) (Truncated end_ (len input));
  array ← array_from 4 bytes (Truncated end_ (len input));
  mret (u_from_le_bytes array).

Definition padded_size (length : Z) : option Z :=
  let remainder := length mod 4 in
  let padding := if remainder =? 0 then 0 else 4 - remainder in
  checked_add usize_max length padding.

(** * The header *)

Record Header := MkHeader {
  header_object_id : ObjectId;
  header_opcode : Opcode;
  header_message_size : Z;
  header_sequence_num : Z;
}.

#[global] Instance Header_eq_dec : EqDecision Header.
Proof. solve_decision. Defined.

Definition Header_for_payload (object_id : ObjectId) (opcode : Opcode) (sequence_num : Z)
    (payload_size : Z) : result EncodeError Header :=
  message_size ← ok_or (checked_add usize_max HEADER_SIZE payload_size) EncodeSizeOverflow;
  if MAX_MESSAGE_SIZE <? message_size
  then Err (EncodeMessageTooLarge message_size MAX_MESSAGE_SIZE)
  else if negb (message_size mod 4 =? 0)
  then Err (EncodeMisalignedSize message_size)
  else
    message_size ← ok_or (try_from u16_max message_size) EncodeSizeOverflow;
    Ok (MkHeader object_id opcode message_size sequence_num).

Definition Header_encode (self : Header) : ST (list byte) EncodeError unit :=
  available ← gets len;
  if available <? HEADER_SIZE then throw (EncodeBufferTooSmall HEADER_SIZE available)
  else
    _ ← write_at 0 (to_le_bytes 4 (into_raw (header_object_id self)));
    _ ← write_at 4 (to_le_bytes 2 (opcode_raw (header_opcode self)));
    _ ← write_at 6 (to_le_bytes 2 (header_message_size self));
    write_at 8 (to_le_bytes 4 (header_sequence_num self)).

Definition Header_decode (input : list byte) : result DecodeError Header :=
  if len input <? HEADER_SIZE then Err (Truncated HEADER_SIZE (len input))
  else
    object_id ← read_u32_at input 0;
    opcode ← read_u16_at input 4;
    message_size ← read_u16_at input 6;
    sequence_num ← read_u32_at input 8;
    Ok (MkHeader (MkObjectId object_id) (MkOpcode opcode) message_size sequence_num).

(** * Frames *)

Record Frame := MkFrame { frame_header : Header; frame_payload : list byte }.

#[global] Instance Frame_eq_dec : EqDecision Frame.
Proof. solve_decision. Defined.

Definition Frame_decode (packet : list byte) : result DecodeError Frame :=
  header ← Header_decode packet;
  let declared := header_message_size header in
  if declared <? HEADER_SIZE then Err (MessageTooSmall declared HEADER_SIZE)
  else if MAX_MESSAGE_SIZE <? declared then Err (MessageTooLarge declared MAX_MESSAGE_SIZE)
  else if negb (declared mod 4 =? 0) then Err (MisalignedSize declared)
  else if len packet <? declared then Err (Truncated declared (len packet))
  else if declared <? len packet then Err (TrailingBytes declared (len packet))
  else
    payload ← ok_or (get_range packet HEADER_SIZE declared) (Truncated declared (len packet));
    Ok (MkFrame header payload).

Definition encode_frame (object_id : ObjectId) (opcode : Opcode) (sequence_num : Z)
    (payload : list byte) : ST (list byte) EncodeError Z :=
  header ← lift (Header_for_payload object_id opcode sequence_num (len payload));
  let size := header_message_size header in
  available ← gets len;
  if available <? size then throw (EncodeBufferTooSmall size available)
  else
    _ ← Header_encode header;
    _ ← write_at HEADER_SIZE payload;
    mret size.

(** * The payload writer *)

Record Encoder := MkEncoder { enc_output : list byte; enc_position : Z }.

Definition Encoder_new (output : list byte) : Encoder := MkEncoder output 0.

Definition Encoder_write (bytes : list byte) : ST Encoder EncodeError unit :=
  position ← gets enc_position;
  end_ ← lift (ok_or (checked_add usize_max position (len bytes)) EncodeSizeOverflow);
  output ← gets enc_output;
  let available := len output in
  _ ← lift (ok_or (get_range output position end_) (EncodeBufferTooSmall end_ available));
  modify (λ e, MkEncoder (put_range (enc_output e) position bytes) end_).

Definition write_u32 (value : Z) : ST Encoder EncodeError unit :=
  Encoder_write (to_le_bytes 4 value).
Definition write_i32 (value : Z) : ST Encoder EncodeError unit :=
  Encoder_write (to_le_bytes 4 value).
Definition write_handle (handle : HandleIndex) : ST Encoder EncodeError unit :=
  write_u32 (placeholder handle).
Definition write_array_len (count : Z) : ST Encoder EncodeError unit := write_u32 count.

Definition write_string (value : list byte) : ST Encoder EncodeError unit :=
  length ← lift (ok_or (try_from u32_max (len value)) EncodeSizeOverflow);
  padded ← lift (ok_or (padded_size (len value)) EncodeSizeOverflow);
  _ ← write_u32 length;
  _ ← Encoder_write value;
  let padding := padded - len value in
  Encoder_write (take (Z.to_nat padding) (replicate 3 Byte.x00)).

(** The low half first ([message/mod.rs]). *)
Definition write_u64 (value : Z) : ST Encoder EncodeError unit :=
  _ ← write_u32 (as_u32 value);
  write_u32 (as_u32 (Z.shiftr value 32)).

(** * The payload reader *)

Record Decoder := MkDecoder { dec_input : list byte; dec_position : Z }.

Definition Decoder_new (input : list byte) : Decoder := MkDecoder input 0.

Definition Decoder_read (length : Z) : ST Decoder DecodeError (list byte) :=
  position ← gets dec_position;
  end_ ← lift (ok_or (checked_add usize_max position length) SizeOverflow);
  input ← gets dec_input;
  value ← lift (ok_or (get_range input position end_) (Truncated end_ (len input)));
  _ ← modify (λ d, MkDecoder (dec_input d) end_);
  mret value.

Definition read_u32 : ST Decoder DecodeError Z :=
  bytes ← Decoder_read 4;
  array ← lift (array_from 4 bytes (Truncated 4 (len bytes)));
  mret (u_from_le_bytes array).

Definition read_i32 : ST Decoder DecodeError Z :=
  bytes ← Decoder_read 4;
  array ← lift (array_from 4 bytes (Truncated 4 (len bytes)));
  mret (i32_from_le_bytes array).

Definition read_handle (kind : HandleKind) : ST Decoder DecodeError HandleIndex :=
  value ← read_u32;
  lift (from_placeholder value kind).

Definition read_array_len : ST Decoder DecodeError Z := read_u32.

Definition read_string : ST Decoder DecodeError (list byte) :=
  length_u32 ← read_u32;
  length ← lift (ok_or (try_from usize_max length_u32) SizeOverflow);
  padded ← lift (ok_or (padded_size length) SizeOverflow);
  bytes ← Decoder_read padded;
  value ← lift (ok_or (get_range bytes 0 length) (Truncated length (len bytes)));
  if utf8_valid value then mret value else throw InvalidUtf8.

Definition read_u64 : ST Decoder DecodeError Z :=
  low ← read_u32;
  high ← read_u32;
  mret (Z.lor low (Z.shiftl high 32)).

Definition Decoder_finish : ST Decoder DecodeError unit := λ d,
  if dec_position d =? len (dec_input d) then (Ok tt, d)
  else (Err (TrailingBytes (dec_position d) (len (dec_input d))), d).

(** * What a reader and a writer do to the bytes in front of them

    [decodes m bytes v]: standing in front of [bytes], whatever surrounds them, [m] reads exactly
    them and answers [v]. [encodes m bytes]: standing in front of that much room, [m] writes exactly
    [bytes]. [consumes m R]: whatever [m] answers successfully, it read bytes [R] relates to the
    answer. All three compose along [≫=], which is what makes each message's codec a few lines. *)

Definition at_pos (pre post : list byte) : Decoder := MkDecoder (pre ++ post) (len pre).

Definition decodes {A} (m : ST Decoder DecodeError A) (bytes : list byte) (v : A) : Prop :=
  ∀ pre post, len (pre ++ bytes ++ post) ≤ usize_max →
    m (at_pos pre (bytes ++ post)) = (Ok v, at_pos (pre ++ bytes) post).

Definition encodes (m : ST Encoder EncodeError unit) (bytes : list byte) : Prop :=
  ∀ pre room post, length room = length bytes → len (pre ++ room ++ post) ≤ usize_max →
    m (MkEncoder (pre ++ room ++ post) (len pre)) =
    (Ok tt, MkEncoder (pre ++ bytes ++ post) (len pre + len bytes)).

Definition consumes {A} (m : ST Decoder DecodeError A) (R : A → list byte → Prop) : Prop :=
  ∀ pre rest v d', m (at_pos pre rest) = (Ok v, d') →
    ∃ bytes post, rest = bytes ++ post ∧ d' = at_pos (pre ++ bytes) post ∧ R v bytes.

Section Composition.
Context {A B : Type}.

Lemma decodes_ret (v : A) : decodes (mret v) [] v.
Proof. intros pre post _. by rewrite app_nil_r. Qed.

Lemma decodes_bind (m : ST Decoder DecodeError A) (k : A → ST Decoder DecodeError B)
    b1 b2 a v :
  decodes m b1 a → decodes (k a) b2 v → decodes (m ≫= k) (b1 ++ b2) v.
Proof.
  intros Hm Hk pre post Hl. rewrite <- (app_assoc b1) in *.
  rewrite ST_bind_run, Hm by done. rewrite app_assoc in Hl. rewrite Hk by done.
  by rewrite app_assoc.
Qed.

Lemma encodes_bind (m k : ST Encoder EncodeError unit) b1 b2 :
  encodes m b1 → encodes k b2 → encodes (m ≫= λ _, k) (b1 ++ b2).
Proof.
  intros Hm Hk pre room post Hr Hl. rewrite length_app in Hr.
  assert (∃ r1 r2, room = r1 ++ r2 ∧ length r1 = length b1 ∧ length r2 = length b2)
    as (r1 & r2 & -> & H1 & H2).
  { exists (take (length b1) room), (drop (length b1) room).
    rewrite take_drop, length_take, length_drop. repeat split; lia. }
  rewrite <- (app_assoc r1) in *. rewrite ST_bind_run, Hm by done.
  specialize (Hk (pre ++ b1) r2 post H2). rewrite <- !app_assoc in Hk.
  rewrite <- len_app, Hk.
  - by rewrite <- app_assoc, !len_app, Z.add_assoc.
  - unfold len in *. rewrite !length_app in *. lia.
Qed.

Lemma encodes_ret : encodes (mret tt) [].
Proof.
  intros pre room post Hr _. destruct room; [|done]. rewrite len_nil, Z.add_0_r. done.
Qed.

Lemma consumes_ret (v : A) : consumes (mret v) (λ w bytes, w = v ∧ bytes = []).
Proof.
  intros pre rest w d' [= <- <-]. exists [], rest. by rewrite app_nil_r.
Qed.

Lemma consumes_bind (m : ST Decoder DecodeError A) (k : A → ST Decoder DecodeError B)
    (R : A → list byte → Prop) (R' : A → B → list byte → Prop) :
  consumes m R → (∀ a, consumes (k a) (R' a)) →
  consumes (m ≫= k) (λ v bytes, ∃ a b1 b2, bytes = b1 ++ b2 ∧ R a b1 ∧ R' a v b2).
Proof.
  intros Hm Hk pre rest v d'. rewrite ST_bind_Ok. intros (a & d1 & Em & Ek).
  apply Hm in Em as (b1 & post1 & -> & -> & HR).
  apply Hk in Ek as (b2 & post2 & -> & -> & HR').
  exists (b1 ++ b2), post2. rewrite <- !app_assoc. eauto 10.
Qed.
End Composition.

Lemma consumes_mono {A} (m : ST Decoder DecodeError A) (R R' : A → list byte → Prop) :
  consumes m R → (∀ v bytes, R v bytes → R' v bytes) → consumes m R'.
Proof. intros Hm HR pre rest v d' (b & post & ? & ? & ?)%Hm. eauto 10. Qed.

(** * The primitives *)

Lemma Decoder_read_decodes bytes : decodes (Decoder_read (len bytes)) bytes bytes.
Proof.
  intros pre post Hl. unfold Decoder_read. rewrite ST_bind_run. simpl.
  rewrite checked_add_Some by (rewrite !len_app in Hl; pose proof (len_nonneg post); lia).
  rewrite ST_bind_run. simpl. rewrite ST_bind_run. simpl.
  rewrite get_range_app, ST_bind_run. simpl. rewrite ST_bind_run. simpl.
  unfold at_pos. by rewrite <- app_assoc, len_app.
Qed.

Lemma Decoder_read_consumes n :
  consumes (Decoder_read n) (λ v bytes, v = bytes ∧ len bytes = n).
Proof.
  intros pre rest v d' H0. unfold Decoder_read in H0. st_inv H0. simpl in *.
  apply checked_add_inv in E as [-> _].
  apply get_range_Some in E0 as (_ & [Hn Hle] & Hlen & ->).
  rewrite to_nat_len, drop_app_length in *.
  replace (Z.to_nat (len pre + n - len pre)) with (Z.to_nat n) in * by lia.
  exists (take (Z.to_nat n) rest), (drop (Z.to_nat n) rest). unfold at_pos.
  rewrite <- app_assoc, take_drop. repeat split; [|lia]. f_equal. rewrite len_app. lia.
Qed.

Lemma Encoder_write_encodes bytes : encodes (Encoder_write bytes) bytes.
Proof.
  intros pre room post Hr Hl. assert (len room = len bytes) as Hr' by (unfold len; lia).
  pose proof (len_nonneg post).
  unfold Encoder_write. repeat (rewrite ST_bind_run; simpl).
  rewrite checked_add_Some by (rewrite !len_app in Hl; lia). simpl.
  repeat (rewrite ST_bind_run; simpl).
  rewrite <- Hr', get_range_app. simpl. by rewrite put_range_app.
Qed.

Lemma le_combine_to_le_bytes n z :
  u_from_le_bytes (to_le_bytes n z) = z mod 2 ^ (Z.of_nat n * 8).
Proof. apply le_combine_split. Qed.

Lemma u_from_to_u32 z : is_u32 z → u_from_le_bytes (to_le_bytes 4 z) = z.
Proof.
  intros H0. rewrite le_combine_to_le_bytes. apply Z.mod_small. unfold is_u32, u32_max in H0.
  change (2 ^ (Z.of_nat 4 * 8)) with 4294967296. lia.
Qed.

Lemma u_from_to_u16 z : is_u16 z → u_from_le_bytes (to_le_bytes 2 z) = z.
Proof.
  intros H0. rewrite le_combine_to_le_bytes. apply Z.mod_small. unfold is_u16, u16_max in H0.
  change (2 ^ (Z.of_nat 2 * 8)) with 65536. lia.
Qed.

Lemma i32_from_to z : is_i32 z → i32_from_le_bytes (to_le_bytes 4 z) = z.
Proof.
  intros H0. unfold i32_from_le_bytes. fold (u_from_le_bytes (to_le_bytes 4 z)).
  rewrite le_combine_to_le_bytes.
  change (2 ^ (Z.of_nat 4 * 8)) with 4294967296. unfold as_i32. unfold is_i32, i32_min, i32_max, u32_max in *.
  destruct (Z.le_gt_cases 0 z).
  - rewrite Z.mod_small by lia. by rewrite (proj2 (Z.leb_le _ _)) by lia.
  - replace (z mod 4294967296) with (z + 4294967296)
      by (apply (Z.mod_unique _ _ (-1)); lia).
    rewrite (proj2 (Z.leb_gt _ _)) by lia. lia.
Qed.

Lemma u_from_le_bytes_range n bytes :
  length bytes = n → 0 ≤ u_from_le_bytes bytes < 2 ^ (8 * Z.of_nat n).
Proof. intros <-. apply le_combine_bound. Qed.

Lemma to_from_le_bytes n bytes :
  length bytes = n → to_le_bytes n (u_from_le_bytes bytes) = bytes.
Proof. apply split_le_combine'. Qed.

Lemma to_from_i32 bytes :
  length bytes = 4%nat → to_le_bytes 4 (i32_from_le_bytes bytes) = bytes ∧
  is_i32 (i32_from_le_bytes bytes).
Proof.
  intros H4. pose proof (u_from_le_bytes_range 4 bytes H4) as Hr.
  change (2 ^ (8 * Z.of_nat 4)) with 4294967296 in Hr.
  unfold i32_from_le_bytes. fold (u_from_le_bytes bytes). unfold as_i32.
  unfold is_i32, i32_min, i32_max, u32_max.
  case_match eqn:E; [rewrite Z.leb_le in E|rewrite Z.leb_gt in E]; split; try lia.
  - by apply to_from_le_bytes.
  - unfold to_le_bytes. rewrite le_split_mod. change (2 ^ (Z.of_nat 4 * 8)) with 4294967296.
    replace ((u_from_le_bytes bytes - (4294967295 + 1)) mod 4294967296)
      with (u_from_le_bytes bytes) by (apply (Z.mod_unique _ _ (-1)); lia).
    by apply to_from_le_bytes.
Qed.

Lemma decodes_lift {A} (r : result DecodeError A) v : r = Ok v → decodes (lift r) [] v.
Proof. intros -> pre post _. by rewrite app_nil_r. Qed.

Lemma decodes_lift_bind {A B} (r : result DecodeError A) a (k : A → ST Decoder DecodeError B) b v :
  r = Ok a → decodes (k a) b v → decodes (lift r ≫= k) b v.
Proof. intros Hr Hk. rewrite <- (app_nil_l b). by eapply decodes_bind; [apply decodes_lift|]. Qed.

Lemma consumes_lift {A} (r : result DecodeError A) :
  consumes (lift r) (λ v bytes, r = Ok v ∧ bytes = []).
Proof.
  intros pre rest v d' H0. st_inv H0. exists [], rest. by rewrite app_nil_r.
Qed.

Section Arrays.
Context {A : Type} (from_bytes : list byte → A) (e : list byte → DecodeError).

Definition read_array (n : Z) : ST Decoder DecodeError A :=
  bytes ← Decoder_read n;
  array ← lift (array_from n bytes (e bytes));
  mret (from_bytes array).

Lemma read_array_decodes n bytes :
  len bytes = n → decodes (read_array n) bytes (from_bytes bytes).
Proof.
  intros <-. rewrite <- (app_nil_r bytes) at 2. eapply decodes_bind; [apply Decoder_read_decodes|].
  eapply decodes_lift_bind; [|apply decodes_ret]. unfold array_from. by rewrite Z.eqb_refl.
Qed.

Lemma read_array_consumes n :
  consumes (read_array n) (λ v bytes, v = from_bytes bytes ∧ len bytes = n).
Proof.
  intros pre rest v d' H0. unfold read_array in H0. st_inv H0.
  apply Decoder_read_consumes in E as (b & post & -> & -> & -> & Hn).
  unfold array_from in E0. case_match; [|done]. injection E0 as <-.
  exists b, post. auto.
Qed.
End Arrays.

Lemma len_to_le_bytes n z : len (to_le_bytes n z) = Z.of_nat n.
Proof. apply len_le_split. Qed.

Lemma read_u32_decodes z : is_u32 z → decodes read_u32 (to_le_bytes 4 z) z.
Proof.
  intros Hz. rewrite <- (u_from_to_u32 z Hz) at 2.
  apply (read_array_decodes u_from_le_bytes). apply len_to_le_bytes.
Qed.

Lemma read_i32_decodes z : is_i32 z → decodes read_i32 (to_le_bytes 4 z) z.
Proof.
  intros Hz. rewrite <- (i32_from_to z Hz) at 2.
  apply (read_array_decodes i32_from_le_bytes). apply len_to_le_bytes.
Qed.

Lemma read_u32_consumes : consumes read_u32 (λ z bytes, is_u32 z ∧ bytes = to_le_bytes 4 z).
Proof.
  eapply consumes_mono; [apply (read_array_consumes u_from_le_bytes)|].
  intros z bytes [-> H4]. assert (length bytes = 4%nat) as Hl by (unfold len in H4; lia).
  split; [|by rewrite to_from_le_bytes].
  pose proof (u_from_le_bytes_range 4 bytes Hl) as Hr.
  change (2 ^ (8 * Z.of_nat 4)) with 4294967296 in Hr. width_lia.
Qed.

Lemma read_i32_consumes : consumes read_i32 (λ z bytes, is_i32 z ∧ bytes = to_le_bytes 4 z).
Proof.
  eapply consumes_mono; [apply (read_array_consumes i32_from_le_bytes)|].
  intros z bytes [-> H4]. destruct (to_from_i32 bytes) as [-> ?]; [unfold len in H4; lia|auto].
Qed.

(** The two halves of a 64-bit value. *)
Lemma u64_halves z :
  is_u64 z → is_u32 (as_u32 z) ∧ is_u32 (as_u32 (Z.shiftr z 32)) ∧
  Z.lor (as_u32 z) (Z.shiftl (as_u32 (Z.shiftr z 32)) 32) = z.
Proof.
  intros Hz. unfold is_u64, u64_max in Hz. unfold as_u32, is_u32, u32_max.
  change (4294967295 + 1) with (2 ^ 32).
  assert (0 ≤ Z.shiftr z 32 < 2 ^ 32) as Hh.
  { rewrite Z.shiftr_div_pow2 by lia. split; [apply Z.div_pos; lia|].
    apply Z.div_lt_upper_bound; lia. }
  rewrite (Z.mod_small (Z.shiftr z 32)) by done.
  pose proof (Z.mod_pos_bound z (2 ^ 32)). split; [lia|]. split; [lia|].
  rewrite <- Z.land_ones by lia. apply Z.bits_inj'. intros n Hn.
  rewrite Z.lor_spec, Z.land_spec. destruct (Z.lt_ge_cases n 32).
  - rewrite Z.ones_spec_low, Z.shiftl_spec_low by lia. by rewrite andb_true_r, orb_false_r.
  - rewrite Z.ones_spec_high, Z.shiftl_spec, Z.shiftr_spec by lia.
    rewrite andb_false_r. simpl. f_equal. lia.
Qed.

Lemma u64_join lo hi :
  is_u32 lo → is_u32 hi →
  is_u64 (Z.lor lo (Z.shiftl hi 32)) ∧
  as_u32 (Z.lor lo (Z.shiftl hi 32)) = lo ∧
  as_u32 (Z.shiftr (Z.lor lo (Z.shiftl hi 32)) 32) = hi.
Proof.
  unfold is_u32, is_u64, as_u32, u32_max, u64_max. intros Hlo Hhi.
  assert (Z.lor lo (Z.shiftl hi 32) = lo + hi * 2 ^ 32) as ->.
  { assert (Z.land lo (Z.shiftl hi 32) = 0) as Hl.
    { apply Z.bits_inj'. intros n Hn. rewrite Z.land_spec, Z.testbit_0_l.
      destruct (Z.lt_ge_cases n 32); [rewrite Z.shiftl_spec_low by lia; apply andb_false_r|].
      rewrite <- (Z.mod_small lo (2 ^ 32)), Z.mod_pow2_bits_high by lia. done. }
    by rewrite <- Z.shiftl_mul_pow2, Z.add_nocarry_lxor, Z.lxor_lor by (lia || done). }
  rewrite Z.shiftr_div_pow2 by lia. change (2 ^ 32) with 4294967296.
  change (4294967295 + 1) with 4294967296.
  rewrite Z.div_add, (Z.div_small lo), Z.mod_add, !Z.mod_small by lia.
  repeat split; lia.
Qed.

Definition u64_bytes (z : Z) : list byte :=
  to_le_bytes 4 (as_u32 z) ++ to_le_bytes 4 (as_u32 (Z.shiftr z 32)).

Lemma read_u64_decodes z : is_u64 z → decodes read_u64 (u64_bytes z) z.
Proof.
  intros (Hlo & Hhi & E)%u64_halves. unfold u64_bytes.
  eapply decodes_bind; [by apply read_u32_decodes|].
  rewrite <- (app_nil_r (to_le_bytes 4 _)). eapply decodes_bind; [by apply read_u32_decodes|].
  rewrite E. apply decodes_ret.
Qed.

Lemma read_u64_consumes : consumes read_u64 (λ z bytes, is_u64 z ∧ bytes = u64_bytes z).
Proof.
  intros pre rest v d' H0. unfold read_u64 in H0. st_inv H0.
  apply read_u32_consumes in E as (b1 & post & -> & -> & Hlo & ->).
  apply read_u32_consumes in E0 as (b2 & post' & -> & -> & Hhi & ->).
  destruct (u64_join a a0 Hlo Hhi) as (H64 & Elo & Ehi).
  exists (to_le_bytes 4 a ++ to_le_bytes 4 a0), post'. unfold u64_bytes.
  by rewrite Elo, Ehi, <- !app_assoc.
Qed.

Lemma write_u32_encodes z : encodes (write_u32 z) (to_le_bytes 4 z).
Proof. apply Encoder_write_encodes. Qed.
Lemma write_i32_encodes z : encodes (write_i32 z) (to_le_bytes 4 z).
Proof. apply Encoder_write_encodes. Qed.
Lemma write_u64_encodes z : encodes (write_u64 z) (u64_bytes z).
Proof. apply encodes_bind; apply write_u32_encodes. Qed.

(** ** Handles *)

Lemma from_placeholder_placeholder h :
  is_u8 (handle_index h) → from_placeholder (placeholder h) (handle_kind h) = Ok h.
Proof.
  destruct h as [i k]. unfold is_u8, from_placeholder, placeholder, HANDLE_PLACEHOLDER_BASE. simpl.
  intros Hi. rewrite (proj2 (Z.leb_le _ _)) by lia. do 2 f_equal. unfold u8_max in *.
  rewrite <- (Z.mod_small i (255 + 1)) at 2 by lia. f_equal. lia.
Qed.

Lemma from_placeholder_Ok value kind h :
  is_u32 value → from_placeholder value kind = Ok h →
  placeholder h = value ∧ handle_kind h = kind ∧ is_u8 (handle_index h).
Proof.
  unfold is_u32, u32_max, from_placeholder, placeholder, HANDLE_PLACEHOLDER_BASE.
  intros Hv. case_match eqn:E; [|done]. intros [= <-]. simpl. rewrite Z.leb_le in E.
  unfold is_u8, u8_max. rewrite Z.mod_small by lia. split_and!; (done || lia).
Qed.

Lemma placeholder_u32 h : is_u8 (handle_index h) → is_u32 (placeholder h).
Proof. unfold placeholder, HANDLE_PLACEHOLDER_BASE. width_lia. Qed.

Lemma read_handle_decodes h :
  is_u8 (handle_index h) →
  decodes (read_handle (handle_kind h)) (to_le_bytes 4 (placeholder h)) h.
Proof.
  intros Hi. rewrite <- (app_nil_r (to_le_bytes _ _)).
  eapply decodes_bind; [by apply read_u32_decodes, placeholder_u32|].
  by apply decodes_lift, from_placeholder_placeholder.
Qed.

Lemma read_handle_consumes kind :
  consumes (read_handle kind)
    (λ h bytes, (is_u8 (handle_index h) ∧ handle_kind h = kind) ∧
                bytes = to_le_bytes 4 (placeholder h)).
Proof.
  intros pre rest v d' H0. unfold read_handle in H0. st_inv H0.
  apply read_u32_consumes in E as (b1 & post & -> & -> & Hv & ->).
  apply from_placeholder_Ok in H0 as (<- & ? & ?); [|done]. eauto 10.
Qed.

(** ** Strings *)

Definition padding (n : Z) : Z := (- n) mod 4.

Lemma padded_size_spec n m :
  padded_size n = Some m → m = n + padding n ∧ m ≤ usize_max.
Proof.
  unfold padded_size, padding. intros [-> ?]%checked_add_inv. split; [|done].
  case_match eqn:E; rewrite ?Z.eqb_eq, ?Z.eqb_neq in E; f_equal.
  - apply (Z.mod_unique _ _ (- (n / 4))); [lia|]. pose proof (Z.div_mod n 4). lia.
  - pose proof (Z.mod_pos_bound n 4). pose proof (Z.div_mod n 4).
    apply (Z.mod_unique _ _ (- (n / 4) - 1)); lia.
Qed.

Lemma padding_range n : 0 ≤ padding n < 4.
Proof. apply Z.mod_pos_bound. lia. Qed.

Lemma padded_size_aligned n : (n + padding n) mod 4 = 0.
Proof.
  unfold padding. rewrite Z.add_mod_idemp_r by lia. by rewrite Z.add_opp_diag_r.
Qed.

Lemma padded_size_Some n : n + 3 ≤ usize_max → padded_size n = Some (n + padding n).
Proof.
  intros Hn. destruct (padded_size n) as [m|] eqn:E; [by apply padded_size_spec in E as [-> _]|].
  unfold padded_size, checked_add in E. pose proof (Z.mod_pos_bound n 4).
  repeat case_match; rewrite ?Z.leb_gt, ?Z.eqb_neq in *; try done; lia.
Qed.

Definition string_bytes (s : list byte) : list byte :=
  to_le_bytes 4 (len s) ++ s ++ replicate (Z.to_nat (padding (len s))) Byte.x00.

Definition is_str (s : list byte) : Prop := utf8_valid s = true ∧ len s ≤ u32_max.

Lemma len_replicate {A} n (x : A) : len (replicate n x) = Z.of_nat n.
Proof. unfold len. by rewrite length_replicate. Qed.

Lemma encodes_lift_bind {A} (r : result EncodeError A) a (k : A → ST Encoder EncodeError unit) b :
  r = Ok a → encodes (k a) b → encodes (lift r ≫= k) b.
Proof. intros -> Hk. exact Hk. Qed.

Lemma write_string_encodes s : is_str s → encodes (write_string s) (string_bytes s).
Proof.
  intros [_ Hs]. pose proof (len_nonneg s). pose proof (padding_range (len s)).
  eapply encodes_lift_bind; [unfold try_from; rewrite !(proj2 (Z.leb_le _ _)) by lia; done|].
  eapply encodes_lift_bind; [by rewrite padded_size_Some by width_lia|].
  cbv beta zeta. replace (len s + padding (len s) - len s) with (padding (len s)) by lia.
  rewrite take_replicate, Nat.min_l by lia.
  do 2 (apply encodes_bind; [apply Encoder_write_encodes|]). apply Encoder_write_encodes.
Qed.

Lemma get_range_prefix {A} (l k : list A) : get_range (l ++ k) 0 (len l) = Some l.
Proof. apply (get_range_app [] l k). Qed.

Lemma read_string_decodes s pad :
  is_str s → len pad = padding (len s) →
  decodes read_string (to_le_bytes 4 (len s) ++ s ++ pad) s.
Proof.
  intros [Hu Hs] Hp. pose proof (len_nonneg s). pose proof (padding_range (len s)).
  eapply decodes_bind; [apply read_u32_decodes; width_lia|].
  eapply decodes_lift_bind; [unfold try_from; rewrite !(proj2 (Z.leb_le _ _)) by width_lia; done|].
  eapply decodes_lift_bind; [by rewrite padded_size_Some by width_lia|].
  rewrite <- (app_nil_r (s ++ _)). eapply decodes_bind.
  - replace (len s + padding (len s)) with (len (s ++ pad)) by (rewrite len_app; lia).
    apply Decoder_read_decodes.
  - eapply decodes_lift_bind; [by rewrite get_range_prefix|]. rewrite Hu. apply decodes_ret.
Qed.

(** A string that decodes is valid UTF-8 behind its length; the padding is whatever the sender
    wrote, as the source says. *)
Lemma read_string_consumes :
  consumes read_string (λ s bytes, is_str s ∧
    ∃ pad, len pad = padding (len s) ∧ bytes = to_le_bytes 4 (len s) ++ s ++ pad).
Proof.
  intros pre rest v d' H0. unfold read_string in H0. st_inv H0.
  apply read_u32_consumes in E as (b1 & post & -> & -> & Hv & ->).
  unfold try_from in E0. case_match; [|done]. injection E0 as ->.
  apply padded_size_spec in E1 as [-> _].
  apply Decoder_read_consumes in E2 as (b2 & post' & -> & -> & -> & Hn).
  rename b2 into a2.
  apply get_range_Some in E3 as (_ & [_ Hle] & Hlen & Hv').
  rewrite Z.sub_0_r in *. rewrite drop_0 in Hv'.
  exists (to_le_bytes 4 a0 ++ a2), post'. rewrite <- !app_assoc.
  repeat split; [by simplify_eq|unfold is_u32 in *; lia|].
  exists (drop (Z.to_nat a0) a2). rewrite Hlen. split.
  - unfold len in *. rewrite length_drop. unfold is_u32 in *. lia.
  - by rewrite Hv', take_drop.
Qed.

(** * Headers and frames on the wire *)

Definition header_bytes (h : Header) : list byte :=
  to_le_bytes 4 (into_raw (header_object_id h)) ++ to_le_bytes 2 (opcode_raw (header_opcode h)) ++
  to_le_bytes 2 (header_message_size h) ++ to_le_bytes 4 (header_sequence_num h).

Definition is_header (h : Header) : Prop :=
  is_u32 (into_raw (header_object_id h)) ∧ is_u16 (opcode_raw (header_opcode h)) ∧
  is_u16 (header_message_size h) ∧ is_u32 (header_sequence_num h).

Lemma len_header_bytes h : len (header_bytes h) = HEADER_SIZE.
Proof. unfold header_bytes. by rewrite !len_app, !len_to_le_bytes. Qed.

Lemma write_at_app pre room post bytes :
  length room = length bytes → len (pre ++ room ++ post) ≤ usize_max →
  write_at (len pre) bytes (pre ++ room ++ post) = (Ok tt, pre ++ bytes ++ post).
Proof.
  intros Hr Hl. assert (len room = len bytes) as Hr' by (unfold len; lia).
  pose proof (len_nonneg post). unfold write_at. rewrite ST_bind_run. simpl.
  rewrite checked_add_Some by (rewrite !len_app in Hl; lia). simpl.
  repeat (rewrite ST_bind_run; simpl). rewrite <- Hr', get_range_app. simpl.
  unfold id. by rewrite put_range_app.
Qed.

Lemma split_room (n : Z) (room : list byte) :
  0 ≤ n ≤ len room → ∃ a b, room = a ++ b ∧ len a = n.
Proof.
  intros Hn. exists (take (Z.to_nat n) room), (drop (Z.to_nat n) room).
  rewrite take_drop. split; [done|]. unfold len in *. rewrite length_take. lia.
Qed.

(** Consecutive writes fill consecutive room. *)
Lemma write_at_next pre bytes rest off :
  off = len pre → len bytes ≤ len rest → len (pre ++ rest) ≤ usize_max →
  ∃ post, write_at off bytes (pre ++ rest) = (Ok tt, (pre ++ bytes) ++ post) ∧
          len post = len rest - len bytes ∧ post = drop (length bytes) rest.
Proof.
  intros -> Hr Hl. destruct (split_room (len bytes) rest) as (a & b & -> & Ha).
  { pose proof (len_nonneg bytes). lia. }
  assert (length a = length bytes) as Hab by (unfold len in Ha; lia).
  exists b. rewrite write_at_app, <- app_assoc by done. split_and!; [done| |].
  - rewrite len_app. lia.
  - by rewrite <- Hab, drop_app_length.
Qed.

Lemma write_at_step pre bytes rest off k :
  off = len pre → length bytes = k → Z.of_nat k ≤ len rest → len (pre ++ rest) ≤ usize_max →
  write_at off bytes (pre ++ rest) = (Ok tt, (pre ++ bytes) ++ drop k rest).
Proof.
  intros Ho <- Hr Hl. destruct (write_at_next pre bytes rest off) as (post & E & _ & ->); done.
Qed.

Lemma length_to_le_bytes n z : length (to_le_bytes n z) = n.
Proof. apply length_le_split. Qed.

Lemma len_drop_Z {A} k (l : list A) : Z.of_nat k ≤ len l → len (drop k l) = len l - Z.of_nat k.
Proof. unfold len. rewrite length_drop. lia. Qed.

Lemma Header_encode_run h out :
  HEADER_SIZE ≤ len out ≤ usize_max →
  Header_encode h out = (Ok tt, header_bytes h ++ drop 12 out).
Proof.
  intros [Hl Hu]. unfold HEADER_SIZE in Hl. unfold Header_encode. rewrite ST_bind_run. simpl gets.
  cbv beta iota. rewrite (proj2 (Z.ltb_ge _ _)) by (unfold HEADER_SIZE; lia).
  rewrite ST_bind_run, (write_at_step [] _ out 0 4); [|done|apply length_to_le_bytes|lia|done].
  rewrite ST_bind_run, (write_at_step _ _ (drop 4 out) 4 2);
    [|by rewrite len_app, len_to_le_bytes|apply length_to_le_bytes|rewrite len_drop_Z; lia
     |rewrite !len_app, len_to_le_bytes, len_drop_Z, len_nil; lia].
  rewrite ST_bind_run, drop_drop, (write_at_step _ _ (drop 6 out) 6 2);
    [|by rewrite !len_app, !len_to_le_bytes|apply length_to_le_bytes|rewrite len_drop_Z; lia
     |rewrite !len_app, !len_to_le_bytes, len_drop_Z, len_nil; lia].
  rewrite drop_drop, (write_at_step _ _ (drop 8 out) 8 4);
    [|by rewrite !len_app, !len_to_le_bytes|apply length_to_le_bytes|rewrite len_drop_Z; lia
     |rewrite !len_app, !len_to_le_bytes, len_drop_Z, len_nil; lia].
  unfold header_bytes. by rewrite drop_drop, <- !app_assoc.
Qed.

Lemma get_range_app_at {A} (pre mid post : list A) a b :
  a = len pre → b = len pre + len mid → get_range (pre ++ mid ++ post) a b = Some mid.
Proof. intros -> ->. apply get_range_app. Qed.

Lemma read_u32_at_app pre z post off :
  is_u32 z → off = len pre → len (pre ++ to_le_bytes 4 z ++ post) ≤ usize_max →
  read_u32_at (pre ++ to_le_bytes 4 z ++ post) off = Ok z.
Proof.
  intros Hz -> Hl. unfold read_u32_at. pose proof (len_nonneg post).
  rewrite !len_app, len_to_le_bytes in Hl.
  rewrite checked_add_Some by lia. cbv [mbind result_bind ok_or].
  rewrite get_range_app_at by (done || by rewrite len_to_le_bytes).
  unfold array_from. rewrite len_to_le_bytes. change (Z.of_nat 4 =? 4) with true. cbv beta iota. unfold mret, result_ret. by rewrite u_from_to_u32.
Qed.

Lemma read_u16_at_app pre z post off :
  is_u16 z → off = len pre → len (pre ++ to_le_bytes 2 z ++ post) ≤ usize_max →
  read_u16_at (pre ++ to_le_bytes 2 z ++ post) off = Ok z.
Proof.
  intros Hz -> Hl. unfold read_u16_at. pose proof (len_nonneg post).
  rewrite !len_app, len_to_le_bytes in Hl.
  rewrite checked_add_Some by lia. cbv [mbind result_bind ok_or].
  rewrite get_range_app_at by (done || by rewrite len_to_le_bytes).
  unfold array_from. rewrite len_to_le_bytes. change (Z.of_nat 2 =? 2) with true. cbv beta iota. unfold mret, result_ret. by rewrite u_from_to_u16.
Qed.

Lemma read_u32_at_range input off :
  0 ≤ off → off + 4 ≤ len input ≤ usize_max → ∃ z, read_u32_at input off = Ok z ∧ is_u32 z ∧
  to_le_bytes 4 z = take 4 (drop (Z.to_nat off) input).
Proof.
  intros H0 [H1 H2]. unfold read_u32_at. rewrite checked_add_Some by lia.
  cbv [mbind result_bind ok_or]. unfold get_range.
  rewrite !(proj2 (Z.leb_le _ _)) by lia. cbn [andb]. replace (off + 4 - off) with 4 by lia.
  set (b := take _ _). assert (length b = 4%nat) as Hb.
  { subst b. rewrite length_take, length_drop. unfold len in H1. lia. }
  unfold array_from. rewrite (proj2 (Z.eqb_eq _ _)) by (unfold len; lia).
  eexists. split; [done|]. rewrite to_from_le_bytes by done. split; [|done].
  pose proof (u_from_le_bytes_range 4 b Hb) as Hr.
  change (2 ^ (8 * Z.of_nat 4)) with 4294967296 in Hr. width_lia.
Qed.

Lemma read_u16_at_range input off :
  0 ≤ off → off + 2 ≤ len input ≤ usize_max → ∃ z, read_u16_at input off = Ok z ∧ is_u16 z ∧
  to_le_bytes 2 z = take 2 (drop (Z.to_nat off) input).
Proof.
  intros H0 [H1 H2]. unfold read_u16_at. rewrite checked_add_Some by lia.
  cbv [mbind result_bind ok_or]. unfold get_range.
  rewrite !(proj2 (Z.leb_le _ _)) by lia. cbn [andb]. replace (off + 2 - off) with 2 by lia.
  set (b := take _ _). assert (length b = 2%nat) as Hb.
  { subst b. rewrite length_take, length_drop. unfold len in H1. lia. }
  unfold array_from. rewrite (proj2 (Z.eqb_eq _ _)) by (unfold len; lia).
  eexists. split; [done|]. rewrite to_from_le_bytes by done. split; [|done].
  pose proof (u_from_le_bytes_range 2 b Hb) as Hr.
  change (2 ^ (8 * Z.of_nat 2)) with 65536 in Hr. width_lia.
Qed.

Lemma Header_decode_bytes h post :
  is_header h → len (header_bytes h ++ post) ≤ usize_max →
  Header_decode (header_bytes h ++ post) = Ok h.
Proof.
  intros (H1 & H2 & H3 & H4) Hl. unfold Header_decode.
  rewrite (proj2 (Z.ltb_ge _ _)) by (rewrite len_app, len_header_bytes; pose proof (len_nonneg post); lia).
  unfold header_bytes in *. set (b1 := to_le_bytes 4 (into_raw _)) in *.
  set (b2 := to_le_bytes 2 (opcode_raw _)) in *.
  set (b3 := to_le_bytes 2 (header_message_size _)) in *.
  set (b4 := to_le_bytes 4 (header_sequence_num _)) in *.
  rewrite <- !app_assoc in *. cbv [mbind result_bind].
  rewrite (read_u32_at_app [] _ _ 0 H1 eq_refl Hl
    : read_u32_at (b1 ++ b2 ++ b3 ++ b4 ++ post) 0 = Ok _).
  assert (len b1 = 4) as L1 by apply len_to_le_bytes.
  assert (len b2 = 2) as L2 by apply len_to_le_bytes.
  assert (len b3 = 2) as L3 by apply len_to_le_bytes.
  rewrite (read_u16_at_app b1 _ (b3 ++ b4 ++ post) 4 H2 (eq_sym L1) Hl
    : read_u16_at (b1 ++ b2 ++ b3 ++ b4 ++ post) 4 = Ok _).
  rewrite (app_assoc b1) in *.
  rewrite (read_u16_at_app (b1 ++ b2) _ (b4 ++ post) 6 H3 ltac:(rewrite len_app; lia) Hl
    : read_u16_at ((b1 ++ b2) ++ b3 ++ b4 ++ post) 6 = Ok _).
  rewrite (app_assoc _ b3) in *.
  rewrite (read_u32_at_app ((b1 ++ b2) ++ b3) _ post 8 H4 ltac:(rewrite !len_app; lia) Hl
    : read_u32_at (((b1 ++ b2) ++ b3) ++ b4 ++ post) 8 = Ok _).
  by destruct h as [[] [] ? ?].
Qed.

Lemma take_drop_split {A} (l : list A) n m k r :
  (n + m)%nat = k → take n l ++ take m (drop n l) ++ r = take k l ++ r.
Proof. intros <-. by rewrite app_assoc, take_take_drop. Qed.

Lemma Header_decode_Ok input h :
  len input ≤ usize_max → Header_decode input = Ok h →
  is_header h ∧ input = header_bytes h ++ drop 12 input.
Proof.
  intros Hu. unfold Header_decode. case_match eqn:E; [done|]. rewrite Z.ltb_ge in E.
  unfold HEADER_SIZE in E.
  destruct (read_u32_at_range input 0) as (z1 & E1 & R1 & B1); [lia..|].
  destruct (read_u16_at_range input 4) as (z2 & E2 & R2 & B2); [lia..|].
  destruct (read_u16_at_range input 6) as (z3 & E3 & R3 & B3); [lia..|].
  destruct (read_u32_at_range input 8) as (z4 & E4 & R4 & B4); [lia..|].
  rewrite E1, E2, E3, E4. cbv [mbind result_bind]. intros [= <-]. split; [exact (conj R1 (conj R2 (conj R3 R4)))|].
  unfold header_bytes. cbn [header_object_id header_opcode header_message_size header_sequence_num into_raw opcode_raw].
  rewrite B1, B2, B3, B4. change (Z.to_nat 0) with 0%nat. change (Z.to_nat 4) with 4%nat.
  change (Z.to_nat 6) with 6%nat. change (Z.to_nat 8) with 8%nat. rewrite drop_0, <- !app_assoc.
  rewrite (take_drop_split input 4 2 6), (take_drop_split input 6 2 8),
    (take_drop_split input 8 4 12) by done.
  by rewrite take_drop.
Qed.

Definition frame_size_ok (packet : list byte) : Prop :=
  HEADER_SIZE ≤ len packet ≤ MAX_MESSAGE_SIZE ∧ len packet mod 4 = 0.

Lemma Frame_decode_parts h p :
  is_header h → header_message_size h = len (header_bytes h ++ p) →
  frame_size_ok (header_bytes h ++ p) →
  Frame_decode (header_bytes h ++ p) = Ok (MkFrame h p).
Proof.
  intros Hh Hm [[Hlo Hhi] Ha]. unfold Frame_decode.
  rewrite Header_decode_bytes by (done || unfold MAX_MESSAGE_SIZE in *; width_lia).
  cbv [mbind result_bind]. rewrite Hm.
  rewrite (proj2 (Z.ltb_ge _ HEADER_SIZE)), (proj2 (Z.ltb_ge MAX_MESSAGE_SIZE _)) by lia.
  rewrite Ha, Z.ltb_irrefl. cbn [Z.eqb negb]. rewrite <- (app_nil_r p) at 1.
  rewrite get_range_app_at by
    (rewrite ?len_app, ?len_header_bytes, ?app_nil_r; unfold HEADER_SIZE; done || lia).
  done.
Qed.

(** C39. [Frame::decode] accepts a packet exactly when it is a header followed by a payload, the
    header declares the packet's own length, and that length is aligned and within the bounds; what
    it answers is those two parts. Every byte of an accepted packet is accounted for. *)
Theorem Frame_decode_iff (packet : list byte) (f : Frame) (Hp : len packet ≤ usize_max) :
  Frame_decode packet = Ok f ↔
  packet = header_bytes (frame_header f) ++ frame_payload f ∧ is_header (frame_header f) ∧
  header_message_size (frame_header f) = len packet ∧ frame_size_ok packet.
Proof.
  split.
  - unfold Frame_decode, frame_size_ok. intros (h & Eh & H0)%result_bind_Ok. apply Header_decode_Ok in Eh as [Hh Hb]; [|done].
    repeat (case_match; [done|]). apply result_bind_Ok in H0 as (p & Eg%ok_or_Ok & [= <-]). cbn.
    rewrite Z.ltb_ge in *. rewrite negb_false_iff, Z.eqb_eq in *.
    assert (header_message_size h = len packet) as Hm by lia. rewrite Hm in *.
    apply get_range_Some in Eg as (_ & _ & _ & ->). split_and!; try done; try lia.
    rewrite Hb at 1. f_equal. change (Z.to_nat HEADER_SIZE) with 12%nat.
    rewrite take_ge; [done|]. rewrite length_drop. unfold len, HEADER_SIZE in *. lia.
  - destruct f as [h p]. cbn [frame_header frame_payload]. intros (-> & Hh & Hm & Hs).
    by apply Frame_decode_parts.
Qed.

Definition ping_frame : list byte :=
  header_bytes (MkHeader (MkObjectId 1) (MkOpcode 2) 16 7) ++ to_le_bytes 4 9.

Lemma Frame_decode_iff_witness :
  Frame_decode ping_frame =
    Ok (MkFrame (MkHeader (MkObjectId 1) (MkOpcode 2) 16 7) (to_le_bytes 4 9)).
Proof. apply (Frame_decode_iff ping_frame); vm_compute; repeat split; discriminate. Defined.

Lemma Header_for_payload_spec object_id opcode sequence_num n :
  0 ≤ n →
  Header_for_payload object_id opcode sequence_num n =
  let size := HEADER_SIZE + n in
  if usize_max <? size then Err EncodeSizeOverflow
  else if MAX_MESSAGE_SIZE <? size then Err (EncodeMessageTooLarge size MAX_MESSAGE_SIZE)
  else if negb (size mod 4 =? 0) then Err (EncodeMisalignedSize size)
  else Ok (MkHeader object_id opcode size sequence_num).
Proof.
  intros Hn. unfold Header_for_payload, checked_add. cbv zeta. rewrite Z.ltb_antisym.
  destruct (HEADER_SIZE + n <=? usize_max); [|done]. cbv [mbind result_bind]. cbn [negb ok_or].
  destruct (MAX_MESSAGE_SIZE <? _) eqn:E2; [done|]. rewrite Z.ltb_ge in E2.
  destruct (negb _); [done|]. unfold try_from, HEADER_SIZE, MAX_MESSAGE_SIZE in *.
  by rewrite !(proj2 (Z.leb_le _ _)) by width_lia.
Qed.

(** What [encode_frame] answers and leaves in the buffer. *)
Definition encode_frame_result (object_id : ObjectId) (opcode : Opcode) (sequence_num : Z)
    (payload out : list byte) : result EncodeError Z * list byte :=
  let n := HEADER_SIZE + len payload in
  if usize_max <? n then (Err EncodeSizeOverflow, out)
  else if MAX_MESSAGE_SIZE <? n then (Err (EncodeMessageTooLarge n MAX_MESSAGE_SIZE), out)
  else if negb (n mod 4 =? 0) then (Err (EncodeMisalignedSize n), out)
  else if len out <? n then (Err (EncodeBufferTooSmall n (len out)), out)
  else (Ok n, header_bytes (MkHeader object_id opcode n sequence_num) ++ payload
                ++ drop (Z.to_nat n) out).

Lemma encode_frame_run object_id opcode sequence_num payload out :
  len out ≤ usize_max →
  encode_frame object_id opcode sequence_num payload out =
  encode_frame_result object_id opcode sequence_num payload out.
Proof.
  intros Ho.  pose proof (len_nonneg payload). unfold encode_frame, encode_frame_result.
  rewrite ST_bind_run. cbn [lift]. rewrite Header_for_payload_spec by done. cbv zeta.
  destruct (usize_max <? _); [done|]. destruct (MAX_MESSAGE_SIZE <? _); [done|].
  destruct (negb _); [done|]. cbn [header_message_size]. rewrite ST_bind_run. cbn [gets].
  destruct (len out <? HEADER_SIZE + len payload) eqn:E4; [done|]. rewrite Z.ltb_ge in E4.
  unfold HEADER_SIZE in *.
  rewrite ST_bind_run, Header_encode_run by (unfold HEADER_SIZE; lia).
  rewrite ST_bind_run, (write_at_step _ _ (drop 12 out) 12 (length payload));
    [|by rewrite len_header_bytes|done|rewrite len_drop_Z by lia; unfold len in *; lia
     |rewrite len_app, len_header_bytes, len_drop_Z by lia; unfold HEADER_SIZE; lia].
  unfold mret, ST_ret. rewrite drop_drop, <- app_assoc.
  replace (Z.to_nat (12 + len payload)) with (12 + length payload)%nat by (unfold len; lia). done.
Qed.

(** [encode_frame] on every branch: an unrepresentable or misaligned size, or a buffer too small
    for the frame, is refused before a byte is written; otherwise the buffer starts with exactly the
    header and the payload, and what followed is as it was. *)
Theorem encode_frame_spec (object_id : ObjectId) (opcode : Opcode) (sequence_num : Z)
    (payload out : list byte) (Ho : len out ≤ usize_max) :
  encode_frame object_id opcode sequence_num payload out =
  encode_frame_result object_id opcode sequence_num payload out.
Proof. by apply encode_frame_run. Qed.

Lemma encode_frame_spec_witness :
  encode_frame (MkObjectId 1) (MkOpcode 2) 7 (to_le_bytes 4 9) (replicate 18 Byte.xff) =
  (Ok 16, ping_frame ++ replicate 2 Byte.xff).
Proof. rewrite encode_frame_spec by (vm_compute; discriminate). vm_compute. reflexivity. Defined.
