(* ===== verification/Messages.v ===== *)
(** Typed messages ([atria-protocol/src/message/mod.rs]): the [EncodePayload] trait, the packet
    encoder built on it, and the contract a payload's two directions keep.

    A payload type is specified by the list of values its layout carries. [PayloadCodec] says that
    encoding writes exactly that list, and that decoding accepts exactly the inputs that read as
    such a list; the packet-level theorems are proved once, against the class. *)
From S2P Require Import Prelude.
From S2P Require Import BTree.
From S2P Require Import Vocabulary.
From S2P Require Import Interface.
From S2P Require Import Wire.

(** An encodable protocol payload. *)
Class EncodePayload (P : Type) := {
  encoded_len : P → result EncodeError Z;
  encode : P → ST Encoder EncodeError unit;
}.

(** Running an encoder over [output.get_mut(HEADER_SIZE..message_len)], a borrowed part of the
    buffer: the bytes it writes land in the buffer whether it succeeds or not. *)
Definition with_slice {A} (start stop : Z) (m : ST Encoder EncodeError A)
    : ST (list byte) EncodeError (A * Z) := λ output,
  match get_range output start stop with
  | None => (Err (EncodeBufferTooSmall stop (len output)), output)
  | Some slice =>
      match m (Encoder_new slice) with
      | (Ok a, e) => (Ok (a, enc_position e), put_range output start (enc_output e))
      | (Err err, e) => (Err err, put_range output start (enc_output e))
      end
  end.

Definition encode_message {P} `{!EncodePayload P} (object_id : ObjectId) (opcode : Opcode)
    (sequence_num : Z) (payload : P) : ST (list byte) EncodeError Z :=
  payload_len ← lift (encoded_len payload);
  header ← lift (Header_for_payload object_id opcode sequence_num payload_len);
  let message_len := header_message_size header in
  available ← gets len;
  if available <? message_len then throw (EncodeBufferTooSmall message_len available)
  else
    _ ← Header_encode header;
    r ← with_slice HEADER_SIZE message_len (encode payload);
    let position := r.2 in
    if negb (position =? payload_len) then throw (EncodedLengthMismatch payload_len position)
    else mret message_len.

(** Decoding a whole payload: a decoder over the input, and what it answers. *)
Definition run_decoder {A} (m : ST Decoder DecodeError A) (input : list byte)
    : result DecodeError A := (m (Decoder_new input)).1.

(** * The values a layout carries *)

Inductive wire_value :=
| VObject (o : ObjectId)
| VHandle (h : HandleIndex)
| VU32 (z : Z)
| VI32 (z : Z)
| VU64 (z : Z)
| VString (s : list byte)
| VArray (zs : list Z).

(** The field of the interface table a value fills, one or two of them. *)
Definition value_field (v : wire_value) : list Field :=
  match v with
  | VObject _ => [FObject]
  | VHandle h => [FHandle (handle_kind h)]
  | VU32 _ => [FU32]
  | VI32 _ => [FI32]
  | VU64 _ => [FU64]
  | VString _ => [FString]
  | VArray _ => [FArray]
  end.

Definition value_ok (v : wire_value) : Prop :=
  match v with
  | VObject o => is_u32 (into_raw o)
  | VHandle h => is_u8 (handle_index h)
  | VU32 z => is_u32 z
  | VI32 z => is_i32 z
  | VU64 z => is_u64 z
  | VString s => is_str s
  | VArray zs => Forall is_u32 zs ∧ len zs ≤ u32_max
  end.

Definition value_bytes (v : wire_value) : list byte :=
  match v with
  | VObject o => to_le_bytes 4 (into_raw o)
  | VHandle h => to_le_bytes 4 (placeholder h)
  | VU32 z | VI32 z => to_le_bytes 4 z
  | VU64 z => u64_bytes z
  | VString s => string_bytes s
  | VArray zs => to_le_bytes 4 (len zs) ++ concat (to_le_bytes 4 <$> zs)
  end.

(** What bytes read as a value: the ones it is written as, but for a string's padding, which the
    decoder does not look at. *)
Definition value_reads (v : wire_value) (bytes : list byte) : Prop :=
  value_ok v ∧
  match v with
  | VString s => ∃ pad, len pad = padding (len s) ∧ bytes = to_le_bytes 4 (len s) ++ s ++ pad
  | _ => bytes = value_bytes v
  end.

Definition fields_ok (vs : list wire_value) : Prop := Forall value_ok vs.
Definition fields_bytes (vs : list wire_value) : list byte := concat (value_bytes <$> vs).
Fixpoint fields_read (vs : list wire_value) (bytes : list byte) : Prop :=
  match vs with
  | [] => bytes = []
  | v :: vs => ∃ b1 b2, bytes = b1 ++ b2 ∧ value_reads v b1 ∧ fields_read vs b2
  end.

Lemma value_reads_bytes v : value_ok v → value_reads v (value_bytes v).
Proof.
  intros Hv. split; [done|]. destruct v; try done. simpl. unfold string_bytes.
  eexists. split; [|reflexivity]. rewrite len_replicate. pose proof (padding_range (len s)). lia.
Qed.

Lemma fields_read_bytes vs : fields_ok vs → fields_read vs (fields_bytes vs).
Proof.
  induction 1 as [|v vs Hv _ IH]; simpl; [done|].
  exists (value_bytes v), (fields_bytes vs). auto using value_reads_bytes.
Qed.

Lemma fields_read_ok vs bytes : fields_read vs bytes → fields_ok vs.
Proof.
  revert bytes. induction vs as [|v vs IH]; intros bytes; simpl; [constructor|].
  intros (b1 & b2 & -> & [Hv _] & H2). constructor; [done|by eapply IH].
Qed.

Lemma len_slots zs : len (concat (to_le_bytes 4 <$> zs)) = len zs * 4.
Proof.
  induction zs as [|z zs IH]; [done|]. rewrite fmap_cons. cbn [concat].
  rewrite len_app, len_to_le_bytes, IH, len_cons. lia.
Qed.

Definition is_string (v : wire_value) : bool := match v with VString _ => true | _ => false end.
Definition stringless (vs : list wire_value) : bool := forallb (λ v, negb (is_string v)) vs.

Lemma fields_bytes_cons v vs : fields_bytes (v :: vs) = value_bytes v ++ fields_bytes vs.
Proof. reflexivity. Qed.
Lemma fields_bytes_nil : fields_bytes [] = [].
Proof. reflexivity. Qed.
Lemma fields_bytes_one v : fields_bytes [v] = value_bytes v.
Proof. apply app_nil_r. Qed.

Lemma value_reads_len v bytes : value_reads v bytes → len bytes = len (value_bytes v).
Proof.
  intros [_ H0]. destruct v; try (by rewrite H0). destruct H0 as (pad & Hp & ->).
  cbn [value_bytes]. unfold string_bytes. rewrite !len_app, Hp. do 2 f_equal.
  rewrite len_replicate. pose proof (padding_range (len s)). lia.
Qed.

Lemma fields_read_len vs bytes : fields_read vs bytes → len bytes = len (fields_bytes vs).
Proof.
  revert bytes. induction vs as [|v vs IH]; intros bytes; [by intros ->|].
  intros (b1 & b2 & -> & H1%value_reads_len & H2%IH). rewrite fields_bytes_cons, !len_app. lia.
Qed.

Lemma fields_read_stringless vs bytes :
  stringless vs = true → fields_read vs bytes → bytes = fields_bytes vs.
Proof.
  revert bytes. induction vs as [|v vs IH]; intros bytes; [by intros _ ->|].
  intros [Hv Hvs]%andb_true_iff (b1 & b2 & -> & [_ H1] & H2). rewrite fields_bytes_cons. f_equal.
  - by destruct v.
  - by apply IH.
Qed.

(** Every value occupies a multiple of four bytes, so every payload does. *)
Lemma value_bytes_aligned v : len (value_bytes v) mod 4 = 0.
Proof.
  destruct v as [o|h|z|z|z|s|zs]; cbn [value_bytes]; try (rewrite len_to_le_bytes; reflexivity).
  - unfold u64_bytes. rewrite len_app, !len_to_le_bytes. reflexivity.
  - unfold string_bytes. rewrite !len_app, len_to_le_bytes, len_replicate.
    pose proof (padding_range (len s)). rewrite Z2Nat.id by lia.
    rewrite Z.add_mod, padded_size_aligned by lia. reflexivity.
  - rewrite len_app, len_to_le_bytes.
    rewrite len_slots, Z.mod_add by lia. reflexivity.
Qed.

Lemma fields_bytes_aligned vs : len (fields_bytes vs) mod 4 = 0.
Proof.
  induction vs as [|v vs IH]; [reflexivity|]. rewrite fields_bytes_cons.
  rewrite len_app, Z.add_mod, IH, value_bytes_aligned by lia. reflexivity.
Qed.

(** * Readers that parse exactly a relation *)

(** [parses m R]: in front of any bytes, [m] answers [v] after a prefix exactly when [R] relates
    [v] to that prefix. *)
Definition parses {A} (m : ST Decoder DecodeError A) (R : A → list byte → Prop) : Prop :=
  consumes m R ∧ ∀ v bytes, R v bytes → decodes m bytes v.

Lemma parses_iff {A} (m : ST Decoder DecodeError A) (R R' : A → list byte → Prop) :
  parses m R → (∀ v bytes, R v bytes ↔ R' v bytes) → parses m R'.
Proof.
  intros [Hc Hd] HR. split.
  - eapply consumes_mono; [done|]. intros. by apply HR.
  - intros v bytes H0. by apply Hd, HR.
Qed.

Lemma parses_ret {A} (v : A) : parses (mret v) (λ w bytes, w = v ∧ bytes = []).
Proof. split; [apply consumes_ret|]. intros w bytes [-> ->]. apply decodes_ret. Qed.

Lemma parses_bind {A B} (m : ST Decoder DecodeError A) (k : A → ST Decoder DecodeError B)
    (R : A → list byte → Prop) (R' : A → B → list byte → Prop) :
  parses m R → (∀ a, parses (k a) (R' a)) →
  parses (m ≫= k) (λ v bytes, ∃ a b1 b2, bytes = b1 ++ b2 ∧ R a b1 ∧ R' a v b2).
Proof.
  intros [Hc Hd] Hk. split.
  - apply consumes_bind; [done|]. intros a. apply Hk.
  - intros v bytes (a & b1 & b2 & -> & Ha & Hv). eapply decodes_bind; [by apply Hd|].
    by apply (Hk a).
Qed.

Lemma parses_guard {A} (b : bool) (e : DecodeError) (m : ST Decoder DecodeError A) R :
  parses m R → parses (if b then throw e else m) (λ v bytes, b = false ∧ R v bytes).
Proof.
  intros [Hc Hd]. destruct b; split.
  - intros pre rest v d' [=].
  - intros v bytes [? _]. discriminate.
  - eapply consumes_mono; [done|]. auto.
  - intros v bytes [_ HR]. by apply Hd.
Qed.

Lemma read_u32_parses : parses read_u32 (λ z, value_reads (VU32 z)).
Proof. split; [apply read_u32_consumes|]. intros z bytes [? ->]. by apply read_u32_decodes. Qed.
Lemma read_i32_parses : parses read_i32 (λ z, value_reads (VI32 z)).
Proof. split; [apply read_i32_consumes|]. intros z bytes [? ->]. by apply read_i32_decodes. Qed.
Lemma read_u64_parses : parses read_u64 (λ z, value_reads (VU64 z)).
Proof. split; [apply read_u64_consumes|]. intros z bytes [? ->]. by apply read_u64_decodes. Qed.
Lemma read_array_len_parses : parses read_array_len (λ z, value_reads (VU32 z)).
Proof. apply read_u32_parses. Qed.
Lemma read_handle_parses kind :
  parses (read_handle kind) (λ h bytes, handle_kind h = kind ∧ value_reads (VHandle h) bytes).
Proof.
  split.
  - eapply consumes_mono; [apply read_handle_consumes|].
    intros h bytes [[??] ->]. split; [done|]. by split.
  - intros h bytes (<- & Hi & ->). by apply read_handle_decodes.
Qed.

Lemma read_string_parses : parses read_string (λ s, value_reads (VString s)).
Proof.
  split; [apply read_string_consumes|]. intros s bytes (Hs & pad & Hp & ->).
  by apply read_string_decodes.
Qed.

(** [whole m R]: a decoder that reads to the end. In front of [rest], [m] answers [v] exactly when
    [R] relates [v] to all of it. *)
Definition whole {A} (m : ST Decoder DecodeError A) (R : A → list byte → Prop) : Prop :=
  ∀ pre rest v, len (pre ++ rest) ≤ usize_max → (m (at_pos pre rest)).1 = Ok v ↔ R v rest.

Lemma whole_finish {A} (a : A) :
  whole (_ ← Decoder_finish; mret a) (λ v rest, v = a ∧ rest = []).
Proof.
  intros pre rest v _. rewrite ST_bind_run. unfold Decoder_finish.
  cbn [at_pos dec_position dec_input]. rewrite len_app. pose proof (len_nonneg rest).
  destruct rest as [|b rest].
  - rewrite len_nil, Z.add_0_r, Z.eqb_refl. simpl. naive_solver.
  - rewrite (proj2 (Z.eqb_neq _ _)) by (rewrite len_cons; pose proof (len_nonneg rest); lia).
    simpl. naive_solver.
Qed.

Lemma whole_bind {A B} (m : ST Decoder DecodeError A) (k : A → ST Decoder DecodeError B)
    (R : A → list byte → Prop) (R' : A → B → list byte → Prop) :
  parses m R → (∀ a, whole (k a) (R' a)) →
  whole (m ≫= k) (λ v rest, ∃ a b1 b2, rest = b1 ++ b2 ∧ R a b1 ∧ R' a v b2).
Proof.
  intros [Hc Hd] Hk pre rest v Hl. rewrite ST_bind_run. split.
  - destruct (m (at_pos pre rest)) as [[a|e] d] eqn:E; [|done].
    apply Hc in E as (bytes & post & -> & -> & HR). intros H0%Hk; [eauto 10|].
    by rewrite <- app_assoc.
  - intros (a & b1 & b2 & -> & HR & HR'). apply Hd in HR. rewrite HR by done.
    apply Hk; [|done]. by rewrite <- app_assoc.
Qed.

Lemma whole_guard {A} (b : bool) (e : DecodeError) (m : ST Decoder DecodeError A) R :
  whole m R → whole (if b then throw e else m) (λ v bytes, b = false ∧ R v bytes).
Proof.
  intros Hm. destruct b; intros pre rest v Hl; simpl; [naive_solver|]. rewrite (Hm pre rest v Hl).
  naive_solver.
Qed.

Lemma run_decoder_iff {A} (m : ST Decoder DecodeError A) R input v :
  whole m R → len input ≤ usize_max → run_decoder m input = Ok v ↔ R v input.
Proof. intros Hm Hl. apply (Hm [] input v Hl). Qed.

(** * The contract of a payload's codec *)

Class PayloadCodec (P : Type) `{!EncodePayload P} (decode : list byte → result DecodeError P) := {
  (** The values of the payload's layout, in order. *)
  payload_fields : P → list wire_value;
  (** What the decoder checks beyond the layout. *)
  payload_admits : P → Prop;
  encode_fields p : fields_ok (payload_fields p) →
    encodes (encode p) (fields_bytes (payload_fields p));
  encoded_len_fields p : fields_ok (payload_fields p) →
    encoded_len p = Ok (len (fields_bytes (payload_fields p)));
  decode_fields input p : len input ≤ usize_max →
    decode input = Ok p ↔ payload_admits p ∧ fields_read (payload_fields p) input;
}.

Lemma write_handle_encodes h : encodes (write_handle h) (to_le_bytes 4 (placeholder h)).
Proof. apply write_u32_encodes. Qed.

Lemma fields_ok_cons v vs : fields_ok (v :: vs) ↔ value_ok v ∧ fields_ok vs.
Proof. apply Forall_cons. Qed.

Create HintDb wire.
#[export] Hint Resolve read_u32_parses read_i32_parses read_u64_parses read_array_len_parses
  read_handle_parses read_string_parses write_u32_encodes write_i32_encodes write_u64_encodes
  write_handle_encodes write_string_encodes Encoder_write_encodes : wire.

(** ** The three obligations, from the codec rules *)

Ltac split_fields_ok H :=
  lazymatch type of H with
  | fields_ok (_ :: _) => let H' := fresh in
      apply fields_ok_cons in H; destruct H as [H' H]; cbn [value_ok] in H'; split_fields_ok H
  | _ => idtac
  end.

Ltac write_value :=
  cbn [value_bytes];
  lazymatch goal with
  | |- encodes _ (string_bytes _) => apply write_string_encodes; assumption
  | |- encodes _ (u64_bytes _) => apply write_u64_encodes
  | |- encodes _ (to_le_bytes 4 (placeholder _)) => apply write_handle_encodes
  | |- encodes _ (to_le_bytes 4 _) => first [apply write_u32_encodes | apply write_i32_encodes]
  end.

Ltac encode_obligation fields :=
  let p := fresh "p" in let H := fresh "H" in
  intros p H; unfold fields in *; split_fields_ok H; rewrite ?fields_bytes_one;
  repeat (rewrite fields_bytes_cons; rewrite ?fields_bytes_one; apply encodes_bind;
          [write_value|]);
  write_value.

Ltac len_obligation fields :=
  let p := fresh "p" in let H := fresh "H" in
  intros p H; unfold fields in *; split_fields_ok H; rewrite ?fields_bytes_cons, ?fields_bytes_nil;
  cbn [value_bytes]; unfold u64_bytes; rewrite ?len_app, ?len_to_le_bytes; reflexivity.

Ltac read_whole :=
  repeat lazymatch goal with
  | |- whole (_ ← Decoder_finish; _) _ => apply whole_finish
  | |- whole (_ ≫= _) _ => apply whole_bind; [solve [eauto with wire]|intros ?]
  | |- whole (if _ then throw _ else _) _ => apply whole_guard
  end.

Ltac destruct_reads :=
  repeat match goal with
  | H : ∃ _, _ |- _ => destruct H
  | H : _ ∧ _ |- _ => destruct H
  end.

Ltac build_reads :=
  repeat first
    [ done
    | lazymatch goal with
      | H : value_reads _ ?b |- value_reads _ ?b => exact H
      | |- _ = _ ++ _ => reflexivity
      | |- ∃ _, _ => eexists
      | |- _ ∧ _ => split
      | |- _ = false => apply Z.ltb_ge; assumption
      | |- _ ≤ _ => apply Z.ltb_ge; assumption
      end ].

Lemma len_fields_bytes_HEADER vs : (HEADER_SIZE + len (fields_bytes vs)) mod 4 = 0.
Proof. unfold HEADER_SIZE. rewrite Z.add_mod, fields_bytes_aligned by lia. reflexivity. Qed.

Lemma with_slice_run m bytes pre room post stop :
  encodes m bytes → length room = length bytes → stop = len pre + len bytes →
  len (pre ++ room ++ post) ≤ usize_max →
  with_slice (len pre) stop m (pre ++ room ++ post) =
  (Ok (tt, len bytes), pre ++ bytes ++ post).
Proof.
  intros Hm Hr -> Hl. unfold with_slice.
  assert (len room = len bytes) as Hr' by (unfold len; lia).
  rewrite get_range_app_at by lia.
  pose proof (Hm [] room [] Hr) as Hrun. rewrite app_nil_r in Hrun. cbn [app] in Hrun.
  change (Encoder_new room) with (MkEncoder room (len (@nil byte))). rewrite Hrun.
  - cbn [enc_position enc_output]. rewrite len_nil, Z.add_0_l, app_nil_r.
    by rewrite put_range_app.
  - pose proof (len_nonneg pre). pose proof (len_nonneg post). rewrite !len_app in Hl. lia.
Qed.

Section Packets.
Context `{HC : PayloadCodec P dec}.

Lemma encode_message_run object_id opcode sequence_num p out :
  fields_ok (payload_fields p) → len out ≤ usize_max →
  encode_message object_id opcode sequence_num p out =
  encode_frame_result object_id opcode sequence_num (fields_bytes (payload_fields p)) out.
Proof.
  intros Hok Ho. pose proof (encode_fields p Hok) as He. unfold encode_message, encode_frame_result.
  rewrite ST_bind_run. cbn [lift]. rewrite (encoded_len_fields p Hok). rewrite ST_bind_run. cbn [lift].
  set (b := fields_bytes (payload_fields p)) in *. pose proof (len_nonneg b).
  rewrite Header_for_payload_spec by done. cbv zeta.
  destruct (usize_max <? _); [done|]. destruct (MAX_MESSAGE_SIZE <? _); [done|].
  destruct (negb _); [done|]. cbn [header_message_size]. rewrite ST_bind_run. cbn [gets].
  destruct (len out <? HEADER_SIZE + len b) eqn:E4; [done|]. rewrite Z.ltb_ge in E4.
  rewrite ST_bind_run, Header_encode_run by (unfold HEADER_SIZE in *; lia).
  assert (drop 12 out = take (length b) (drop 12 out) ++ drop (Z.to_nat (HEADER_SIZE + len b)) out)
    as ->.
  { replace (Z.to_nat (HEADER_SIZE + len b)) with (12 + length b)%nat
      by (unfold HEADER_SIZE, len; lia). by rewrite <- drop_drop, take_drop. }
  rewrite ST_bind_run, <- (len_header_bytes (MkHeader object_id opcode (HEADER_SIZE + len b) sequence_num)).
  erewrite with_slice_run; [|exact He| |by rewrite len_header_bytes|].
  - cbn [snd]. rewrite Z.eqb_refl. by rewrite len_header_bytes.
  - rewrite length_take, length_drop. unfold HEADER_SIZE, len in *. lia.
  - rewrite !len_app, !len_header_bytes. unfold len in *. rewrite length_take, !length_drop.
    unfold HEADER_SIZE in *. lia.
Qed.

(** Encoding a typed message is encoding a frame around its layout: the size the payload
    declares, the payload it writes through a borrowed part of the buffer, and every refusal agree
    with [encode_frame] of the payload's field bytes; [EncodedLengthMismatch] never happens. *)
Theorem encode_message_frame (object_id : ObjectId) (opcode : Opcode) (sequence_num : Z) (p : P)
    (out : list byte) (Hok : fields_ok (payload_fields p)) (Ho : len out ≤ usize_max) :
  encode_message object_id opcode sequence_num p out =
  encode_frame object_id opcode sequence_num (fields_bytes (payload_fields p)) out.
Proof. by rewrite encode_frame_run, encode_message_run. Qed.

Lemma decode_field_bytes p :
  payload_admits p → fields_ok (payload_fields p) →
  len (fields_bytes (payload_fields p)) ≤ usize_max →
  dec (fields_bytes (payload_fields p)) = Ok p.
Proof.
  intros Ha Hok Hl. apply decode_fields; [done|]. auto using fields_read_bytes.
Qed.

(** C38. A message written is a message read: what [encode_message] leaves in the buffer's first
    bytes decodes as a frame with the header asked for, whose payload decodes as the message. *)
Theorem encode_message_round_trip (object_id : ObjectId) (opcode : Opcode) (sequence_num : Z)
    (p : P) (out out' : list byte) (n : Z)
    (Hok : fields_ok (payload_fields p)) (Ha : payload_admits p) (Ho : len out ≤ usize_max)
    (Hid : is_u32 (into_raw object_id)) (Hop : is_u16 (opcode_raw opcode))
    (Hseq : is_u32 sequence_num)
    (Hrun : encode_message object_id opcode sequence_num p out = (Ok n, out')) :
  let header := MkHeader object_id opcode n sequence_num in
  let payload := fields_bytes (payload_fields p) in
  Frame_decode (take (Z.to_nat n) out') = Ok (MkFrame header payload) ∧ dec payload = Ok p ∧
  length out' = length out.
Proof.
  rewrite encode_message_run in Hrun by done. unfold encode_frame_result in Hrun.
  set (b := fields_bytes (payload_fields p)) in *. pose proof (len_nonneg b).
  case_match eqn:E1; [done|]. case_match eqn:E2; [done|]. case_match eqn:E3; [done|].
  case_match eqn:E4; [done|]. apply pair_Ok_inj in Hrun as [<- <-]. rewrite Z.ltb_ge in *.
  rewrite negb_false_iff, Z.eqb_eq in E3. cbv zeta.
  set (h := MkHeader _ _ _ _). assert (Z.to_nat (HEADER_SIZE + len b) = length (header_bytes h ++ b)).
  { rewrite <- to_nat_len, len_app, len_header_bytes. done. }
  rewrite app_assoc. split_and!.
  - rewrite take_app_length' by done. apply Frame_decode_parts.
    + split; [exact Hid|]. split; [exact Hop|]. split; [|exact Hseq].
      unfold MAX_MESSAGE_SIZE, HEADER_SIZE in *. cbn. width_lia.
    + by rewrite len_app, len_header_bytes.
    + unfold frame_size_ok. rewrite len_app, len_header_bytes. split; [lia|done].
  - apply decode_field_bytes; [done|done|]. change (len b ≤ usize_max); unfold HEADER_SIZE in *. width_lia.
  - rewrite length_app, length_drop. unfold len in *. lia.
Qed.

(** A message has one encoding: two inputs that decode to the same message are the same bytes,
    except that a string's padding is not looked at; so a message without strings decodes from its
    own field bytes and from nothing else, and no input decodes that carries anything more. *)
Theorem decode_canonical (input : list byte) (p : P) (Hl : len input ≤ usize_max)
    (Hd : dec input = Ok p) :
  fields_ok (payload_fields p) ∧ payload_admits p ∧ len input = len (fields_bytes (payload_fields p)) ∧
  (stringless (payload_fields p) = true → input = fields_bytes (payload_fields p)).
Proof.
  apply decode_fields in Hd as [Ha Hr]; [|done]. split_and!; [by eapply fields_read_ok|done| |].
  - by apply fields_read_len.
  - intros Hs. by apply fields_read_stringless.
Qed.
End Packets.
