(* ===== verification/Payloads.v ===== *)
(** The protocol's payloads ([atria-protocol/src/message/]): every struct with its [decode] and its
    [EncodePayload] instance, and for each the proof that it is the codec of its field list
    ([Messages.PayloadCodec]). A field named [f] of the struct [X] is [X_f]. *)
From S2P Require Import Prelude.
From S2P Require Import BTree.
From S2P Require Import Vocabulary.
From S2P Require Import Interface.
From S2P Require Import Wire.
From S2P Require Import Messages.

Definition MAX_TITLE_BYTES : Z := 256.

Definition encoded_string_len (value : list byte) : result EncodeError Z :=
  padded ← ok_or (padded_size (len value)) EncodeSizeOverflow;
  ok_or (checked_add usize_max 4 padded) EncodeSizeOverflow.

(** [for slot in out.iter_mut().take(count) { *slot = decoder.read_u32()? }], as the values the
    slots get. *)
Fixpoint read_slots (count : nat) : ST Decoder DecodeError (list Z) :=
  match count with
  | O => mret []
  | S n => slot ← read_u32; rest ← read_slots n; mret (slot :: rest)
  end.

(** [for key in self.held { encoder.write_u32(key)? }]. *)
Fixpoint write_slots (held : list Z) : ST Encoder EncodeError unit :=
  match held with
  | [] => mret tt
  | key :: rest => _ ← write_u32 key; write_slots rest
  end.

Lemma read_slots_parses n :
  parses (read_slots n)
    (λ zs bytes, length zs = n ∧ Forall is_u32 zs ∧ bytes = concat (to_le_bytes 4 <$> zs)).
Proof.
  induction n as [|n IH]; simpl.
  - eapply parses_iff; [apply parses_ret|]. intros zs bytes. split.
    + intros [-> ->]. auto.
    + intros (->%nil_length_inv & _ & ->). auto.
  - eapply parses_iff; [apply parses_bind; [apply read_u32_parses|intros z];
      apply parses_bind; [apply IH|intros zs; apply parses_ret]|].
    intros zs bytes. cbn. split.
    + intros (z & b1 & b2 & -> & [Hz ->] & zs' & b3 & b4 & -> & (Hl & Hf & ->) & -> & ->).
      rewrite app_nil_r. simpl. split_and!; [lia|by constructor|done].
    + intros (Hl & Hf & ->). destruct zs as [|z zs]; [done|]. apply Forall_cons in Hf as [Hz Hf].
      exists z, (to_le_bytes 4 z), (concat (to_le_bytes 4 <$> zs)). split_and!; [done..|].
      exists zs, (concat (to_le_bytes 4 <$> zs)), []. rewrite app_nil_r. simpl in Hl.
      split_and!; auto with lia.
Qed.

Lemma write_slots_encodes zs : encodes (write_slots zs) (concat (to_le_bytes 4 <$> zs)).
Proof.
  induction zs as [|z zs IH]; [apply encodes_ret|]. rewrite fmap_cons. cbn [concat write_slots].
  apply encodes_bind; [apply write_u32_encodes|done].
Qed.

Lemma encoded_string_len_bytes s : is_str s → encoded_string_len s = Ok (len (string_bytes s)).
Proof.
  intros [_ Hs]. pose proof (padding_range (len s)). pose proof (len_nonneg s).
  unfold encoded_string_len, string_bytes. rewrite padded_size_Some by width_lia.
  cbv [mbind result_bind ok_or]. rewrite checked_add_Some by width_lia.
  rewrite !len_app, len_to_le_bytes, len_replicate. f_equal. lia.
Qed.

#[export] Hint Resolve read_slots_parses write_slots_encodes : wire.

Lemma string_len_add n s :
  is_str s → 0 ≤ n ≤ 64 →
  checked_add usize_max n (len (string_bytes s)) = Some (n + len (string_bytes s)) ∧
  checked_add usize_max (len (string_bytes s)) n = Some (len (string_bytes s) + n).
Proof.
  intros [_ Hs] Hn. pose proof (padding_range (len s)).
  assert (len (string_bytes s) ≤ u32_max + 7).
  { unfold string_bytes. rewrite !len_app, len_to_le_bytes, len_replicate. lia. }
  split; apply checked_add_Some; width_lia.
Qed.

Ltac string_len_obligation fields payload :=
  let p := fresh "p" in let H := fresh "H" in
  intros p H; unfold fields in *; split_fields_ok H; rewrite ?fields_bytes_cons, ?fields_bytes_nil, ?app_nil_r;
  cbn [value_bytes]; unfold u64_bytes; rewrite ?len_app, ?len_to_le_bytes;
  unfold encoded_len, payload; rewrite encoded_string_len_bytes by assumption; cbv [mbind result_bind];
  lazymatch goal with
  | |- context [checked_add usize_max ?n (len (string_bytes ?s))] =>
      rewrite (proj1 (string_len_add n s ltac:(assumption) ltac:(lia)))
  | |- context [checked_add usize_max (len (string_bytes ?s)) ?n] =>
      rewrite (proj2 (string_len_add n s ltac:(assumption) ltac:(lia)))
  end;
  cbn [ok_or]; f_equal; lia.

Ltac destruct_newtypes :=
  repeat match goal with
  | o : ObjectId |- _ => destruct o
  | c : WireErrorCode |- _ => destruct c
  end.

Ltac decode_obligation decode_def :=
  let p := fresh "p" in
  intros input p Hl; unfold decode_def;
  etransitivity; [apply run_decoder_iff; [read_whole|exact Hl]|];
  split; [intros; destruct_reads; subst; cbn; build_reads
         |destruct p; destruct_newtypes; cbn; intros; destruct_reads; subst; build_reads].

(** * The core messages ([message/mod.rs]) *)

Record ConnectRequest := MkConnectRequest {
  ConnectRequest_min_version : Z;
  ConnectRequest_max_version : Z;
}.

Definition ConnectRequest_decode (input : list byte) : result DecodeError ConnectRequest := run_decoder (
  min_version ← read_u32;
  max_version ← read_u32;
  _ ← Decoder_finish;
  mret (MkConnectRequest min_version max_version)) input.

#[export] Instance ConnectRequest_payload : EncodePayload ConnectRequest := {|
  encoded_len p := Ok 8;
  encode p :=
    _ ← write_u32 (ConnectRequest_min_version p);
    write_u32 (ConnectRequest_max_version p);
|}.

Definition ConnectRequest_fields (p : ConnectRequest) : list wire_value :=
  [VU32 (ConnectRequest_min_version p); VU32 (ConnectRequest_max_version p)].

#[export] Program Instance ConnectRequest_codec : PayloadCodec ConnectRequest ConnectRequest_decode := {|
  payload_fields := ConnectRequest_fields;
  payload_admits p := True;
|}.
Next Obligation. encode_obligation ConnectRequest_fields. Qed.
Next Obligation. len_obligation ConnectRequest_fields. Qed.
Next Obligation. decode_obligation ConnectRequest_decode. Qed.

Record ConnectAck := MkConnectAck { ConnectAck_negotiated_version : Z }.

Definition ConnectAck_decode (input : list byte) : result DecodeError ConnectAck := run_decoder (
  negotiated_version ← read_u32;
  _ ← Decoder_finish;
  mret (MkConnectAck negotiated_version)) input.

#[export] Instance ConnectAck_payload : EncodePayload ConnectAck := {|
  encoded_len p := Ok 4;
  encode p :=
    write_u32 (ConnectAck_negotiated_version p);
|}.

Definition ConnectAck_fields (p : ConnectAck) : list wire_value :=
  [VU32 (ConnectAck_negotiated_version p)].

#[export] Program Instance ConnectAck_codec : PayloadCodec ConnectAck ConnectAck_decode := {|
  payload_fields := ConnectAck_fields;
  payload_admits p := True;
|}.
Next Obligation. encode_obligation ConnectAck_fields. Qed.
Next Obligation. len_obligation ConnectAck_fields. Qed.
Next Obligation. decode_obligation ConnectAck_decode. Qed.

Record GetRegistry := MkGetRegistry { GetRegistry_new_id : ObjectId }.

Definition GetRegistry_decode (input : list byte) : result DecodeError GetRegistry := run_decoder (
  new_id ← read_u32;
  _ ← Decoder_finish;
  mret (MkGetRegistry (MkObjectId new_id))) input.

#[export] Instance GetRegistry_payload : EncodePayload GetRegistry := {|
  encoded_len p := Ok 4;
  encode p :=
    write_u32 (into_raw (GetRegistry_new_id p));
|}.

Definition GetRegistry_fields (p : GetRegistry) : list wire_value :=
  [VObject (GetRegistry_new_id p)].

#[export] Program Instance GetRegistry_codec : PayloadCodec GetRegistry GetRegistry_decode := {|
  payload_fields := GetRegistry_fields;
  payload_admits p := True;
|}.
Next Obligation. encode_obligation GetRegistry_fields. Qed.
Next Obligation. len_obligation GetRegistry_fields. Qed.
Next Obligation. decode_obligation GetRegistry_decode. Qed.

Record RegistryGlobal := MkRegistryGlobal {
  RegistryGlobal_name : Z;
  RegistryGlobal_interface : list byte;
  RegistryGlobal_version : Z;
}.

Definition RegistryGlobal_decode (input : list byte) : result DecodeError RegistryGlobal := run_decoder (
  name ← read_u32;
  interface ← read_string;
  version ← read_u32;
  _ ← Decoder_finish;
  mret (MkRegistryGlobal name interface version)) input.

#[export] Instance RegistryGlobal_payload : EncodePayload RegistryGlobal := {|
  encoded_len p := string_len ← encoded_string_len (RegistryGlobal_interface p);
    ok_or (checked_add usize_max 8 string_len) EncodeSizeOverflow;
  encode p :=
    _ ← write_u32 (RegistryGlobal_name p);
    _ ← write_string (RegistryGlobal_interface p);
    write_u32 (RegistryGlobal_version p);
|}.

Definition RegistryGlobal_fields (p : RegistryGlobal) : list wire_value :=
  [VU32 (RegistryGlobal_name p); VString (RegistryGlobal_interface p); VU32 (RegistryGlobal_version p)].

#[export] Program Instance RegistryGlobal_codec : PayloadCodec RegistryGlobal RegistryGlobal_decode := {|
  payload_fields := RegistryGlobal_fields;
  payload_admits p := True;
|}.
Next Obligation. encode_obligation RegistryGlobal_fields. Qed.
Next Obligation. string_len_obligation RegistryGlobal_fields RegistryGlobal_payload. Qed.
Next Obligation. decode_obligation RegistryGlobal_decode. Qed.

Record NewId := MkNewId { NewId_new_id : ObjectId }.

Definition NewId_decode (input : list byte) : result DecodeError NewId := run_decoder (
  new_id ← read_u32;
  _ ← Decoder_finish;
  mret (MkNewId (MkObjectId new_id))) input.

#[export] Instance NewId_payload : EncodePayload NewId := {|
  encoded_len p := Ok 4;
  encode p :=
    write_u32 (into_raw (NewId_new_id p));
|}.

Definition NewId_fields (p : NewId) : list wire_value :=
  [VObject (NewId_new_id p)].

#[export] Program Instance NewId_codec : PayloadCodec NewId NewId_decode := {|
  payload_fields := NewId_fields;
  payload_admits p := True;
|}.
Next Obligation. encode_obligation NewId_fields. Qed.
Next Obligation. len_obligation NewId_fields. Qed.
Next Obligation. decode_obligation NewId_decode. Qed.

Record CreateBuffer := MkCreateBuffer {
  CreateBuffer_new_id : ObjectId;
  CreateBuffer_offset : Z;
  CreateBuffer_width : Z;
  CreateBuffer_height : Z;
  CreateBuffer_stride : Z;
  CreateBuffer_format : Z;
}.

Definition CreateBuffer_decode (input : list byte) : result DecodeError CreateBuffer := run_decoder (
  new_id ← read_u32;
  offset ← read_u32;
  width ← read_u32;
  height ← read_u32;
  stride ← read_u32;
  format ← read_u32;
  _ ← Decoder_finish;
  mret (MkCreateBuffer (MkObjectId new_id) offset width height stride format)) input.

#[export] Instance CreateBuffer_payload : EncodePayload CreateBuffer := {|
  encoded_len p := Ok 24;
  encode p :=
    _ ← write_u32 (into_raw (CreateBuffer_new_id p));
    _ ← write_u32 (CreateBuffer_offset p);
    _ ← write_u32 (CreateBuffer_width p);
    _ ← write_u32 (CreateBuffer_height p);
    _ ← write_u32 (CreateBuffer_stride p);
    write_u32 (CreateBuffer_format p);
|}.

Definition CreateBuffer_fields (p : CreateBuffer) : list wire_value :=
  [VObject (CreateBuffer_new_id p); VU32 (CreateBuffer_offset p); VU32 (CreateBuffer_width p); VU32 (CreateBuffer_height p); VU32 (CreateBuffer_stride p); VU32 (CreateBuffer_format p)].

#[export] Program Instance CreateBuffer_codec : PayloadCodec CreateBuffer CreateBuffer_decode := {|
  payload_fields := CreateBuffer_fields;
  payload_admits p := True;
|}.
Next Obligation. encode_obligation CreateBuffer_fields. Qed.
Next Obligation. len_obligation CreateBuffer_fields. Qed.
Next Obligation. decode_obligation CreateBuffer_decode. Qed.

Record Attach := MkAttach { Attach_buffer : ObjectId; Attach_x_offset : Z; Attach_y_offset : Z }.

Definition Attach_decode (input : list byte) : result DecodeError Attach := run_decoder (
  buffer ← read_u32;
  x_offset ← read_i32;
  y_offset ← read_i32;
  _ ← Decoder_finish;
  mret (MkAttach (MkObjectId buffer) x_offset y_offset)) input.

#[export] Instance Attach_payload : EncodePayload Attach := {|
  encoded_len p := Ok 12;
  encode p :=
    _ ← write_u32 (into_raw (Attach_buffer p));
    _ ← write_i32 (Attach_x_offset p);
    write_i32 (Attach_y_offset p);
|}.

Definition Attach_fields (p : Attach) : list wire_value :=
  [VObject (Attach_buffer p); VI32 (Attach_x_offset p); VI32 (Attach_y_offset p)].

#[export] Program Instance Attach_codec : PayloadCodec Attach Attach_decode := {|
  payload_fields := Attach_fields;
  payload_admits p := True;
|}.
Next Obligation. encode_obligation Attach_fields. Qed.
Next Obligation. len_obligation Attach_fields. Qed.
Next Obligation. decode_obligation Attach_decode. Qed.

Record DamageBuffer := MkDamageBuffer {
  DamageBuffer_x : Z;
  DamageBuffer_y : Z;
  DamageBuffer_width : Z;
  DamageBuffer_height : Z;
}.

Definition DamageBuffer_decode (input : list byte) : result DecodeError DamageBuffer := run_decoder (
  x ← read_i32;
  y ← read_i32;
  width ← read_u32;
  height ← read_u32;
  _ ← Decoder_finish;
  mret (MkDamageBuffer x y width height)) input.

#[export] Instance DamageBuffer_payload : EncodePayload DamageBuffer := {|
  encoded_len p := Ok 16;
  encode p :=
    _ ← write_i32 (DamageBuffer_x p);
    _ ← write_i32 (DamageBuffer_y p);
    _ ← write_u32 (DamageBuffer_width p);
    write_u32 (DamageBuffer_height p);
|}.

Definition DamageBuffer_fields (p : DamageBuffer) : list wire_value :=
  [VI32 (DamageBuffer_x p); VI32 (DamageBuffer_y p); VU32 (DamageBuffer_width p); VU32 (DamageBuffer_height p)].

#[export] Program Instance DamageBuffer_codec : PayloadCodec DamageBuffer DamageBuffer_decode := {|
  payload_fields := DamageBuffer_fields;
  payload_admits p := True;
|}.
Next Obligation. encode_obligation DamageBuffer_fields. Qed.
Next Obligation. len_obligation DamageBuffer_fields. Qed.
Next Obligation. decode_obligation DamageBuffer_decode. Qed.

Record Commit := MkCommit { Commit_commit_id : Z; Commit_configure_serial : Z }.

Definition Commit_decode (input : list byte) : result DecodeError Commit := run_decoder (
  commit_id ← read_u64;
  configure_serial ← read_u32;
  _ ← Decoder_finish;
  mret (MkCommit commit_id configure_serial)) input.

#[export] Instance Commit_payload : EncodePayload Commit := {|
  encoded_len p := Ok 12;
  encode p :=
    _ ← write_u64 (Commit_commit_id p);
    write_u32 (Commit_configure_serial p);
|}.

Definition Commit_fields (p : Commit) : list wire_value :=
  [VU64 (Commit_commit_id p); VU32 (Commit_configure_serial p)].

#[export] Program Instance Commit_codec : PayloadCodec Commit Commit_decode := {|
  payload_fields := Commit_fields;
  payload_admits p := True;
|}.
Next Obligation. encode_obligation Commit_fields. Qed.
Next Obligation. len_obligation Commit_fields. Qed.
Next Obligation. decode_obligation Commit_decode. Qed.

Record GlobalName := MkGlobalName { GlobalName_name : Z }.

Definition GlobalName_decode (input : list byte) : result DecodeError GlobalName := run_decoder (
  name ← read_u32;
  _ ← Decoder_finish;
  mret (MkGlobalName name)) input.

#[export] Instance GlobalName_payload : EncodePayload GlobalName := {|
  encoded_len p := Ok 4;
  encode p :=
    write_u32 (GlobalName_name p);
|}.

Definition GlobalName_fields (p : GlobalName) : list wire_value :=
  [VU32 (GlobalName_name p)].

#[export] Program Instance GlobalName_codec : PayloadCodec GlobalName GlobalName_decode := {|
  payload_fields := GlobalName_fields;
  payload_admits p := True;
|}.
Next Obligation. encode_obligation GlobalName_fields. Qed.
Next Obligation. len_obligation GlobalName_fields. Qed.
Next Obligation. decode_obligation GlobalName_decode. Qed.

Record Bind := MkBind { Bind_name : Z; Bind_version : Z; Bind_new_id : ObjectId }.

Definition Bind_decode (input : list byte) : result DecodeError Bind := run_decoder (
  name ← read_u32;
  version ← read_u32;
  new_id ← read_u32;
  _ ← Decoder_finish;
  mret (MkBind name version (MkObjectId new_id))) input.

#[export] Instance Bind_payload : EncodePayload Bind := {|
  encoded_len p := Ok 12;
  encode p :=
    _ ← write_u32 (Bind_name p);
    _ ← write_u32 (Bind_version p);
    write_u32 (into_raw (Bind_new_id p));
|}.

Definition Bind_fields (p : Bind) : list wire_value :=
  [VU32 (Bind_name p); VU32 (Bind_version p); VObject (Bind_new_id p)].

#[export] Program Instance Bind_codec : PayloadCodec Bind Bind_decode := {|
  payload_fields := Bind_fields;
  payload_admits p := True;
|}.
Next Obligation. encode_obligation Bind_fields. Qed.
Next Obligation. len_obligation Bind_fields. Qed.
Next Obligation. decode_obligation Bind_decode. Qed.

Record GetToplevel := MkGetToplevel {
  GetToplevel_surface : ObjectId;
  GetToplevel_new_id : ObjectId;
}.

Definition GetToplevel_decode (input : list byte) : result DecodeError GetToplevel := run_decoder (
  surface ← read_u32;
  new_id ← read_u32;
  _ ← Decoder_finish;
  mret (MkGetToplevel (MkObjectId surface) (MkObjectId new_id))) input.

#[export] Instance GetToplevel_payload : EncodePayload GetToplevel := {|
  encoded_len p := Ok 8;
  encode p :=
    _ ← write_u32 (into_raw (GetToplevel_surface p));
    write_u32 (into_raw (GetToplevel_new_id p));
|}.

Definition GetToplevel_fields (p : GetToplevel) : list wire_value :=
  [VObject (GetToplevel_surface p); VObject (GetToplevel_new_id p)].

#[export] Program Instance GetToplevel_codec : PayloadCodec GetToplevel GetToplevel_decode := {|
  payload_fields := GetToplevel_fields;
  payload_admits p := True;
|}.
Next Obligation. encode_obligation GetToplevel_fields. Qed.
Next Obligation. len_obligation GetToplevel_fields. Qed.
Next Obligation. decode_obligation GetToplevel_decode. Qed.

Record SetTitle := MkSetTitle { SetTitle_title : list byte }.

Definition SetTitle_decode (input : list byte) : result DecodeError SetTitle := run_decoder (
  title ← read_string;
  _ ← Decoder_finish;
  mret (MkSetTitle title)) input.

#[export] Instance SetTitle_payload : EncodePayload SetTitle := {|
  encoded_len p := padded ← ok_or (padded_size (len (SetTitle_title p))) EncodeSizeOverflow;
    mret (4 + padded);
  encode p :=
    write_string (SetTitle_title p);
|}.

Definition SetTitle_fields (p : SetTitle) : list wire_value :=
  [VString (SetTitle_title p)].

#[export] Program Instance SetTitle_codec : PayloadCodec SetTitle SetTitle_decode := {|
  payload_fields := SetTitle_fields;
  payload_admits p := True;
|}.
Next Obligation. encode_obligation SetTitle_fields. Qed.
Next Obligation.
  intros p [Hs _]%fields_ok_cons. unfold SetTitle_fields. rewrite fields_bytes_one.
  destruct Hs as [_ Hs]. unfold encoded_len, SetTitle_payload. cbn [value_bytes].
  pose proof (padding_range (len (SetTitle_title p))).
  rewrite padded_size_Some by width_lia. unfold string_bytes.
  rewrite !len_app, len_to_le_bytes, len_replicate. cbv [mbind result_bind mret result_ret ok_or].
  f_equal. lia.
Qed.
Next Obligation. decode_obligation SetTitle_decode. Qed.

Record SizeHint := MkSizeHint { SizeHint_width : Z; SizeHint_height : Z }.

Definition SizeHint_decode (input : list byte) : result DecodeError SizeHint := run_decoder (
  width ← read_u32;
  height ← read_u32;
  _ ← Decoder_finish;
  mret (MkSizeHint width height)) input.

#[export] Instance SizeHint_payload : EncodePayload SizeHint := {|
  encoded_len p := Ok 8;
  encode p :=
    _ ← write_u32 (SizeHint_width p);
    write_u32 (SizeHint_height p);
|}.

Definition SizeHint_fields (p : SizeHint) : list wire_value :=
  [VU32 (SizeHint_width p); VU32 (SizeHint_height p)].

#[export] Program Instance SizeHint_codec : PayloadCodec SizeHint SizeHint_decode := {|
  payload_fields := SizeHint_fields;
  payload_admits p := True;
|}.
Next Obligation. encode_obligation SizeHint_fields. Qed.
Next Obligation. len_obligation SizeHint_fields. Qed.
Next Obligation. decode_obligation SizeHint_decode. Qed.

Record Configure := MkConfigure {
  Configure_serial : Z;
  Configure_width : Z;
  Configure_height : Z;
  Configure_state : Z;
}.

Definition Configure_decode (input : list byte) : result DecodeError Configure := run_decoder (
  serial ← read_u32;
  width ← read_u32;
  height ← read_u32;
  state ← read_u32;
  _ ← Decoder_finish;
  mret (MkConfigure serial width height state)) input.

#[export] Instance Configure_payload : EncodePayload Configure := {|
  encoded_len p := Ok 16;
  encode p :=
    _ ← write_u32 (Configure_serial p);
    _ ← write_u32 (Configure_width p);
    _ ← write_u32 (Configure_height p);
    write_u32 (Configure_state p);
|}.

Definition Configure_fields (p : Configure) : list wire_value :=
  [VU32 (Configure_serial p); VU32 (Configure_width p); VU32 (Configure_height p); VU32 (Configure_state p)].

#[export] Program Instance Configure_codec : PayloadCodec Configure Configure_decode := {|
  payload_fields := Configure_fields;
  payload_admits p := True;
|}.
Next Obligation. encode_obligation Configure_fields. Qed.
Next Obligation. len_obligation Configure_fields. Qed.
Next Obligation. decode_obligation Configure_decode. Qed.

Record FrameDone := MkFrameDone { FrameDone_serial : Z; FrameDone_timestamp_ns : Z }.

Definition FrameDone_decode (input : list byte) : result DecodeError FrameDone := run_decoder (
  serial ← read_u32;
  timestamp_ns ← read_u64;
  _ ← Decoder_finish;
  mret (MkFrameDone serial timestamp_ns)) input.

#[export] Instance FrameDone_payload : EncodePayload FrameDone := {|
  encoded_len p := Ok 12;
  encode p :=
    _ ← write_u32 (FrameDone_serial p);
    write_u64 (FrameDone_timestamp_ns p);
|}.

Definition FrameDone_fields (p : FrameDone) : list wire_value :=
  [VU32 (FrameDone_serial p); VU64 (FrameDone_timestamp_ns p)].

#[export] Program Instance FrameDone_codec : PayloadCodec FrameDone FrameDone_decode := {|
  payload_fields := FrameDone_fields;
  payload_admits p := True;
|}.
Next Obligation. encode_obligation FrameDone_fields. Qed.
Next Obligation. len_obligation FrameDone_fields. Qed.
Next Obligation. decode_obligation FrameDone_decode. Qed.

Record CreatePool := MkCreatePool {
  CreatePool_new_id : ObjectId;
  CreatePool_memory : HandleIndex;
  CreatePool_size : Z;
}.

Definition CreatePool_decode (input : list byte) : result DecodeError CreatePool := run_decoder (
  new_id ← read_u32;
  memory ← read_handle SharedMemory;
  size ← read_u32;
  _ ← Decoder_finish;
  mret (MkCreatePool (MkObjectId new_id) memory size)) input.

#[export] Instance CreatePool_payload : EncodePayload CreatePool := {|
  encoded_len p := Ok 12;
  encode p :=
    _ ← write_u32 (into_raw (CreatePool_new_id p));
    _ ← write_handle (CreatePool_memory p);
    write_u32 (CreatePool_size p);
|}.

Definition CreatePool_fields (p : CreatePool) : list wire_value :=
  [VObject (CreatePool_new_id p); VHandle (CreatePool_memory p); VU32 (CreatePool_size p)].

#[export] Program Instance CreatePool_codec : PayloadCodec CreatePool CreatePool_decode := {|
  payload_fields := CreatePool_fields;
  payload_admits p := handle_kind (CreatePool_memory p) = SharedMemory;
|}.
Next Obligation. encode_obligation CreatePool_fields. Qed.
Next Obligation. len_obligation CreatePool_fields. Qed.
Next Obligation. decode_obligation CreatePool_decode. Qed.

Record AttachWithFence := MkAttachWithFence {
  AttachWithFence_buffer_id : ObjectId;
  AttachWithFence_fence : HandleIndex;
  AttachWithFence_x_offset : Z;
  AttachWithFence_y_offset : Z;
}.

Definition AttachWithFence_decode (input : list byte) : result DecodeError AttachWithFence := run_decoder (
  buffer_id ← read_u32;
  fence ← read_handle Fence;
  x_offset ← read_i32;
  y_offset ← read_i32;
  _ ← Decoder_finish;
  mret (MkAttachWithFence (MkObjectId buffer_id) fence x_offset y_offset)) input.

#[export] Instance AttachWithFence_payload : EncodePayload AttachWithFence := {|
  encoded_len p := Ok 16;
  encode p :=
    _ ← write_u32 (into_raw (AttachWithFence_buffer_id p));
    _ ← write_handle (AttachWithFence_fence p);
    _ ← write_i32 (AttachWithFence_x_offset p);
    write_i32 (AttachWithFence_y_offset p);
|}.

Definition AttachWithFence_fields (p : AttachWithFence) : list wire_value :=
  [VObject (AttachWithFence_buffer_id p); VHandle (AttachWithFence_fence p); VI32 (AttachWithFence_x_offset p); VI32 (AttachWithFence_y_offset p)].

#[export] Program Instance AttachWithFence_codec : PayloadCodec AttachWithFence AttachWithFence_decode := {|
  payload_fields := AttachWithFence_fields;
  payload_admits p := handle_kind (AttachWithFence_fence p) = Fence;
|}.
Next Obligation. encode_obligation AttachWithFence_fields. Qed.
Next Obligation. len_obligation AttachWithFence_fields. Qed.
Next Obligation. decode_obligation AttachWithFence_decode. Qed.

Record ReleaseWithFence := MkReleaseWithFence { ReleaseWithFence_fence : HandleIndex }.

Definition ReleaseWithFence_decode (input : list byte) : result DecodeError ReleaseWithFence := run_decoder (
  fence ← read_handle Fence;
  _ ← Decoder_finish;
  mret (MkReleaseWithFence fence)) input.

#[export] Instance ReleaseWithFence_payload : EncodePayload ReleaseWithFence := {|
  encoded_len p := Ok 4;
  encode p :=
    write_handle (ReleaseWithFence_fence p);
|}.

Definition ReleaseWithFence_fields (p : ReleaseWithFence) : list wire_value :=
  [VHandle (ReleaseWithFence_fence p)].

#[export] Program Instance ReleaseWithFence_codec : PayloadCodec ReleaseWithFence ReleaseWithFence_decode := {|
  payload_fields := ReleaseWithFence_fields;
  payload_admits p := handle_kind (ReleaseWithFence_fence p) = Fence;
|}.
Next Obligation. encode_obligation ReleaseWithFence_fields. Qed.
Next Obligation. len_obligation ReleaseWithFence_fields. Qed.
Next Obligation. decode_obligation ReleaseWithFence_decode. Qed.

Record DisplayError := MkDisplayError {
  DisplayError_object_id : ObjectId;
  DisplayError_code : WireErrorCode;
  DisplayError_message : list byte;
}.

Definition DisplayError_decode (input : list byte) : result DecodeError DisplayError := run_decoder (
  object_id ← read_u32;
  code ← read_u32;
  message ← read_string;
  _ ← Decoder_finish;
  mret (MkDisplayError (MkObjectId object_id) (MkWireErrorCode code) message)) input.

#[export] Instance DisplayError_payload : EncodePayload DisplayError := {|
  encoded_len p := string_len ← encoded_string_len (DisplayError_message p);
    ok_or (checked_add usize_max 8 string_len) EncodeSizeOverflow;
  encode p :=
    _ ← write_u32 (into_raw (DisplayError_object_id p));
    _ ← write_u32 (wire_error_raw (DisplayError_code p));
    write_string (DisplayError_message p);
|}.

Definition DisplayError_fields (p : DisplayError) : list wire_value :=
  [VObject (DisplayError_object_id p); VU32 (wire_error_raw (DisplayError_code p)); VString (DisplayError_message p)].

#[export] Program Instance DisplayError_codec : PayloadCodec DisplayError DisplayError_decode := {|
  payload_fields := DisplayError_fields;
  payload_admits p := True;
|}.
Next Obligation. encode_obligation DisplayError_fields. Qed.
Next Obligation. string_len_obligation DisplayError_fields DisplayError_payload. Qed.
Next Obligation. decode_obligation DisplayError_decode. Qed.

(** * A seat ([message/input.rs]) *)

Record PointerEnter := MkPointerEnter {
  PointerEnter_serial : Z;
  PointerEnter_surface : ObjectId;
  PointerEnter_x : Z;
  PointerEnter_y : Z;
  PointerEnter_epoch : Z;
}.

Definition PointerEnter_decode (input : list byte) : result DecodeError PointerEnter := run_decoder (
  serial ← read_u32;
  surface ← read_u32;
  x ← read_i32;
  y ← read_i32;
  epoch ← read_u32;
  _ ← Decoder_finish;
  mret (MkPointerEnter serial (MkObjectId surface) x y epoch)) input.

#[export] Instance PointerEnter_payload : EncodePayload PointerEnter := {|
  encoded_len p := Ok 20;
  encode p :=
    _ ← write_u32 (PointerEnter_serial p);
    _ ← write_u32 (into_raw (PointerEnter_surface p));
    _ ← write_i32 (PointerEnter_x p);
    _ ← write_i32 (PointerEnter_y p);
    write_u32 (PointerEnter_epoch p);
|}.

Definition PointerEnter_fields (p : PointerEnter) : list wire_value :=
  [VU32 (PointerEnter_serial p); VObject (PointerEnter_surface p); VI32 (PointerEnter_x p); VI32 (PointerEnter_y p); VU32 (PointerEnter_epoch p)].

#[export] Program Instance PointerEnter_codec : PayloadCodec PointerEnter PointerEnter_decode := {|
  payload_fields := PointerEnter_fields;
  payload_admits p := True;
|}.
Next Obligation. encode_obligation PointerEnter_fields. Qed.
Next Obligation. len_obligation PointerEnter_fields. Qed.
Next Obligation. decode_obligation PointerEnter_decode. Qed.

Record PointerLeave := MkPointerLeave {
  PointerLeave_serial : Z;
  PointerLeave_surface : ObjectId;
  PointerLeave_epoch : Z;
}.

Definition PointerLeave_decode (input : list byte) : result DecodeError PointerLeave := run_decoder (
  serial ← read_u32;
  surface ← read_u32;
  epoch ← read_u32;
  _ ← Decoder_finish;
  mret (MkPointerLeave serial (MkObjectId surface) epoch)) input.

#[export] Instance PointerLeave_payload : EncodePayload PointerLeave := {|
  encoded_len p := Ok 12;
  encode p :=
    _ ← write_u32 (PointerLeave_serial p);
    _ ← write_u32 (into_raw (PointerLeave_surface p));
    write_u32 (PointerLeave_epoch p);
|}.

Definition PointerLeave_fields (p : PointerLeave) : list wire_value :=
  [VU32 (PointerLeave_serial p); VObject (PointerLeave_surface p); VU32 (PointerLeave_epoch p)].

#[export] Program Instance PointerLeave_codec : PayloadCodec PointerLeave PointerLeave_decode := {|
  payload_fields := PointerLeave_fields;
  payload_admits p := True;
|}.
Next Obligation. encode_obligation PointerLeave_fields. Qed.
Next Obligation. len_obligation PointerLeave_fields. Qed.
Next Obligation. decode_obligation PointerLeave_decode. Qed.

Record PointerMotion := MkPointerMotion {
  PointerMotion_time_ns : Z;
  PointerMotion_x : Z;
  PointerMotion_y : Z;
  PointerMotion_epoch : Z;
}.

Definition PointerMotion_decode (input : list byte) : result DecodeError PointerMotion := run_decoder (
  time_ns ← read_u64;
  x ← read_i32;
  y ← read_i32;
  epoch ← read_u32;
  _ ← Decoder_finish;
  mret (MkPointerMotion time_ns x y epoch)) input.

#[export] Instance PointerMotion_payload : EncodePayload PointerMotion := {|
  encoded_len p := Ok 20;
  encode p :=
    _ ← write_u64 (PointerMotion_time_ns p);
    _ ← write_i32 (PointerMotion_x p);
    _ ← write_i32 (PointerMotion_y p);
    write_u32 (PointerMotion_epoch p);
|}.

Definition PointerMotion_fields (p : PointerMotion) : list wire_value :=
  [VU64 (PointerMotion_time_ns p); VI32 (PointerMotion_x p); VI32 (PointerMotion_y p); VU32 (PointerMotion_epoch p)].

#[export] Program Instance PointerMotion_codec : PayloadCodec PointerMotion PointerMotion_decode := {|
  payload_fields := PointerMotion_fields;
  payload_admits p := True;
|}.
Next Obligation. encode_obligation PointerMotion_fields. Qed.
Next Obligation. len_obligation PointerMotion_fields. Qed.
Next Obligation. decode_obligation PointerMotion_decode. Qed.

Record PointerButton := MkPointerButton {
  PointerButton_serial : Z;
  PointerButton_time_ns : Z;
  PointerButton_button : Z;
  PointerButton_state : Z;
  PointerButton_epoch : Z;
}.

Definition PointerButton_decode (input : list byte) : result DecodeError PointerButton := run_decoder (
  serial ← read_u32;
  time_ns ← read_u64;
  button ← read_u32;
  state ← read_u32;
  epoch ← read_u32;
  _ ← Decoder_finish;
  mret (MkPointerButton serial time_ns button state epoch)) input.

#[export] Instance PointerButton_payload : EncodePayload PointerButton := {|
  encoded_len p := Ok 24;
  encode p :=
    _ ← write_u32 (PointerButton_serial p);
    _ ← write_u64 (PointerButton_time_ns p);
    _ ← write_u32 (PointerButton_button p);
    _ ← write_u32 (PointerButton_state p);
    write_u32 (PointerButton_epoch p);
|}.

Definition PointerButton_fields (p : PointerButton) : list wire_value :=
  [VU32 (PointerButton_serial p); VU64 (PointerButton_time_ns p); VU32 (PointerButton_button p); VU32 (PointerButton_state p); VU32 (PointerButton_epoch p)].

#[export] Program Instance PointerButton_codec : PayloadCodec PointerButton PointerButton_decode := {|
  payload_fields := PointerButton_fields;
  payload_admits p := True;
|}.
Next Obligation. encode_obligation PointerButton_fields. Qed.
Next Obligation. len_obligation PointerButton_fields. Qed.
Next Obligation. decode_obligation PointerButton_decode. Qed.

Record PointerAxis := MkPointerAxis {
  PointerAxis_time_ns : Z;
  PointerAxis_axis : Z;
  PointerAxis_value : Z;
  PointerAxis_epoch : Z;
}.

Definition PointerAxis_decode (input : list byte) : result DecodeError PointerAxis := run_decoder (
  time_ns ← read_u64;
  axis ← read_u32;
  value ← read_i32;
  epoch ← read_u32;
  _ ← Decoder_finish;
  mret (MkPointerAxis time_ns axis value epoch)) input.

#[export] Instance PointerAxis_payload : EncodePayload PointerAxis := {|
  encoded_len p := Ok 20;
  encode p :=
    _ ← write_u64 (PointerAxis_time_ns p);
    _ ← write_u32 (PointerAxis_axis p);
    _ ← write_i32 (PointerAxis_value p);
    write_u32 (PointerAxis_epoch p);
|}.

Definition PointerAxis_fields (p : PointerAxis) : list wire_value :=
  [VU64 (PointerAxis_time_ns p); VU32 (PointerAxis_axis p); VI32 (PointerAxis_value p); VU32 (PointerAxis_epoch p)].

#[export] Program Instance PointerAxis_codec : PayloadCodec PointerAxis PointerAxis_decode := {|
  payload_fields := PointerAxis_fields;
  payload_admits p := True;
|}.
Next Obligation. encode_obligation PointerAxis_fields. Qed.
Next Obligation. len_obligation PointerAxis_fields. Qed.
Next Obligation. decode_obligation PointerAxis_decode. Qed.

Record ShellInteraction := MkShellInteraction {
  ShellInteraction_seat : Z;
  ShellInteraction_handle : Z;
  ShellInteraction_serial : Z;
  ShellInteraction_kind : Z;
  ShellInteraction_x : Z;
  ShellInteraction_y : Z;
}.

Definition ShellInteraction_decode (input : list byte) : result DecodeError ShellInteraction := run_decoder (
  seat ← read_u64;
  handle ← read_u64;
  serial ← read_u32;
  kind ← read_u32;
  x ← read_i32;
  y ← read_i32;
  _ ← Decoder_finish;
  mret (MkShellInteraction seat handle serial kind x y)) input.

#[export] Instance ShellInteraction_payload : EncodePayload ShellInteraction := {|
  encoded_len p := Ok 32;
  encode p :=
    _ ← write_u64 (ShellInteraction_seat p);
    _ ← write_u64 (ShellInteraction_handle p);
    _ ← write_u32 (ShellInteraction_serial p);
    _ ← write_u32 (ShellInteraction_kind p);
    _ ← write_i32 (ShellInteraction_x p);
    write_i32 (ShellInteraction_y p);
|}.

Definition ShellInteraction_fields (p : ShellInteraction) : list wire_value :=
  [VU64 (ShellInteraction_seat p); VU64 (ShellInteraction_handle p); VU32 (ShellInteraction_serial p); VU32 (ShellInteraction_kind p); VI32 (ShellInteraction_x p); VI32 (ShellInteraction_y p)].

#[export] Program Instance ShellInteraction_codec : PayloadCodec ShellInteraction ShellInteraction_decode := {|
  payload_fields := ShellInteraction_fields;
  payload_admits p := True;
|}.
Next Obligation. encode_obligation ShellInteraction_fields. Qed.
Next Obligation. len_obligation ShellInteraction_fields. Qed.
Next Obligation. decode_obligation ShellInteraction_decode. Qed.

Record SeatHandle := MkSeatHandle { SeatHandle_seat : Z; SeatHandle_handle : Z }.

Definition SeatHandle_decode (input : list byte) : result DecodeError SeatHandle := run_decoder (
  seat ← read_u64;
  handle ← read_u64;
  _ ← Decoder_finish;
  mret (MkSeatHandle seat handle)) input.

#[export] Instance SeatHandle_payload : EncodePayload SeatHandle := {|
  encoded_len p := Ok 16;
  encode p :=
    _ ← write_u64 (SeatHandle_seat p);
    write_u64 (SeatHandle_handle p);
|}.

Definition SeatHandle_fields (p : SeatHandle) : list wire_value :=
  [VU64 (SeatHandle_seat p); VU64 (SeatHandle_handle p)].

#[export] Program Instance SeatHandle_codec : PayloadCodec SeatHandle SeatHandle_decode := {|
  payload_fields := SeatHandle_fields;
  payload_admits p := True;
|}.
Next Obligation. encode_obligation SeatHandle_fields. Qed.
Next Obligation. len_obligation SeatHandle_fields. Qed.
Next Obligation. decode_obligation SeatHandle_decode. Qed.

Record SeatPoint := MkSeatPoint { SeatPoint_seat : Z; SeatPoint_x : Z; SeatPoint_y : Z }.

Definition SeatPoint_decode (input : list byte) : result DecodeError SeatPoint := run_decoder (
  seat ← read_u64;
  x ← read_i32;
  y ← read_i32;
  _ ← Decoder_finish;
  mret (MkSeatPoint seat x y)) input.

#[export] Instance SeatPoint_payload : EncodePayload SeatPoint := {|
  encoded_len p := Ok 16;
  encode p :=
    _ ← write_u64 (SeatPoint_seat p);
    _ ← write_i32 (SeatPoint_x p);
    write_i32 (SeatPoint_y p);
|}.

Definition SeatPoint_fields (p : SeatPoint) : list wire_value :=
  [VU64 (SeatPoint_seat p); VI32 (SeatPoint_x p); VI32 (SeatPoint_y p)].

#[export] Program Instance SeatPoint_codec : PayloadCodec SeatPoint SeatPoint_decode := {|
  payload_fields := SeatPoint_fields;
  payload_admits p := True;
|}.
Next Obligation. encode_obligation SeatPoint_fields. Qed.
Next Obligation. len_obligation SeatPoint_fields. Qed.
Next Obligation. decode_obligation SeatPoint_decode. Qed.

Record SeatName := MkSeatName { SeatName_seat : Z }.

Definition SeatName_decode (input : list byte) : result DecodeError SeatName := run_decoder (
  seat ← read_u64;
  _ ← Decoder_finish;
  mret (MkSeatName seat)) input.

#[export] Instance SeatName_payload : EncodePayload SeatName := {|
  encoded_len p := Ok 8;
  encode p :=
    write_u64 (SeatName_seat p);
|}.

Definition SeatName_fields (p : SeatName) : list wire_value :=
  [VU64 (SeatName_seat p)].

#[export] Program Instance SeatName_codec : PayloadCodec SeatName SeatName_decode := {|
  payload_fields := SeatName_fields;
  payload_admits p := True;
|}.
Next Obligation. encode_obligation SeatName_fields. Qed.
Next Obligation. len_obligation SeatName_fields. Qed.
Next Obligation. decode_obligation SeatName_decode. Qed.

Record KeyboardEnter := MkKeyboardEnter {
  KeyboardEnter_serial : Z;
  KeyboardEnter_surface : ObjectId;
  KeyboardEnter_modifiers : Z;
  KeyboardEnter_epoch : Z;
  KeyboardEnter_held : list Z;
}.

Definition KeyboardEnter_decode (out : list Z) (input : list byte) : result DecodeError KeyboardEnter := run_decoder (
  serial ← read_u32;
  surface ← read_u32;
  modifiers ← read_u32;
  epoch ← read_u32;
  count ← read_array_len;
  if len out <? count then throw SizeOverflow
  else
  held ← read_slots (Z.to_nat count);
  _ ← Decoder_finish;
  mret (MkKeyboardEnter serial (MkObjectId surface) modifiers epoch held)) input.

#[export] Instance KeyboardEnter_payload : EncodePayload KeyboardEnter := {|
  encoded_len p := keys ← ok_or (checked_mul usize_max (len (KeyboardEnter_held p)) 4) EncodeSizeOverflow;
    ok_or (checked_add usize_max 20 keys) EncodeSizeOverflow;
  encode p :=
    _ ← write_u32 (KeyboardEnter_serial p);
    _ ← write_u32 (into_raw (KeyboardEnter_surface p));
    _ ← write_u32 (KeyboardEnter_modifiers p);
    _ ← write_u32 (KeyboardEnter_epoch p);
    count ← lift (ok_or (try_from u32_max (len (KeyboardEnter_held p))) EncodeSizeOverflow);
    _ ← write_array_len count;
    write_slots (KeyboardEnter_held p);
|}.

Definition KeyboardEnter_fields (p : KeyboardEnter) : list wire_value :=
  [VU32 (KeyboardEnter_serial p); VObject (KeyboardEnter_surface p); VU32 (KeyboardEnter_modifiers p); VU32 (KeyboardEnter_epoch p); VArray (KeyboardEnter_held p)].

#[export] Program Instance KeyboardEnter_codec (out : list Z) : PayloadCodec KeyboardEnter (KeyboardEnter_decode out) := {|
  payload_fields := KeyboardEnter_fields;
  payload_admits p := len (KeyboardEnter_held p) ≤ len out;
|}.
Next Obligation.
  intros _ p H. unfold KeyboardEnter_fields in H. split_fields_ok H.
  match goal with Hv : Forall is_u32 _ ∧ _ |- _ => destruct Hv as [_ Hl] end.
  unfold KeyboardEnter_fields. rewrite !fields_bytes_cons, fields_bytes_nil, app_nil_r.
  unfold encode, KeyboardEnter_payload. do 4 (apply encodes_bind; [write_value|]).
  pose proof (len_nonneg (KeyboardEnter_held p)).
  eapply encodes_lift_bind; [unfold try_from; by rewrite !(proj2 (Z.leb_le _ _)) by lia|].
  apply encodes_bind; [apply write_u32_encodes|apply write_slots_encodes].
Qed.
Next Obligation.
  intros _ p H. unfold KeyboardEnter_fields in H. split_fields_ok H.
  match goal with Hv : Forall is_u32 _ ∧ _ |- _ => destruct Hv as [_ Hl] end.
  unfold KeyboardEnter_fields. rewrite !fields_bytes_cons, fields_bytes_nil, app_nil_r.
  unfold encoded_len, KeyboardEnter_payload. cbn [value_bytes].
  rewrite !len_app, len_slots, !len_to_le_bytes. unfold checked_mul.
  rewrite (proj2 (Z.leb_le _ _)) by width_lia. cbv [mbind result_bind ok_or].
  rewrite checked_add_Some by width_lia. f_equal. lia.
Qed.
Next Obligation.
  intros out input p Hl. unfold KeyboardEnter_decode.
  etransitivity; [apply run_decoder_iff; [read_whole|exact Hl]|].
  split.
  - intros (z1 & b1 & ? & -> & R1 & z2 & b2 & ? & -> & R2 & z3 & b3 & ? & -> & R3 &
      z4 & b4 & ? & -> & R4 & n & b5 & ? & -> & [Hn ->] & Hg & zs & b6 & ? & -> &
      (Hz & Hf & ->) & -> & ->).
    cbn [value_ok] in Hn. rewrite Z.ltb_ge in Hg. unfold is_u32 in Hn.
    assert (len zs = n) as <- by (unfold len; lia).
    split; [done|]. exists b1. eexists. split; [done|]. split; [exact R1|].
    exists b2. eexists. split; [done|]. split; [exact R2|].
    exists b3. eexists. split; [done|]. split; [exact R3|].
    exists b4. eexists. split; [done|]. split; [exact R4|].
    eexists _, []. rewrite !app_nil_r. split; [done|]. split; [|done].
    split; [split; [done|]|]; cbn; [lia|done].
  - destruct p as [z1 [z2] z3 z4 zs]. cbn [payload_fields fields_read]. unfold KeyboardEnter_fields.
    cbn [fields_read KeyboardEnter_held KeyboardEnter_serial KeyboardEnter_surface
      KeyboardEnter_modifiers KeyboardEnter_epoch].
    intros (Ho & b1 & ? & -> & R1 & b2 & ? & -> & R2 & b3 & ? & -> & R3 & b4 & ? & -> & R4 &
      b5 & ? & -> & [[Hf Hn] ->] & ->). cbn [value_bytes].
    exists z1, b1. eexists. split; [done|]. split; [exact R1|].
    exists z2, b2. eexists. split; [done|]. split; [exact R2|].
    exists z3, b3. eexists. split; [done|]. split; [exact R3|].
    exists z4, b4. eexists. split; [done|]. split; [exact R4|].
    exists (len zs). eexists. eexists. rewrite app_nil_r. split; [done|].
    split; [split; [|done]; cbn; pose proof (len_nonneg zs); width_lia|].
    split; [by apply Z.ltb_ge|].
    exists zs. eexists _, []. rewrite app_nil_r. split; [done|]. split; [|done].
    split_and!; [unfold len; lia|done|done].
Qed.

Record KeyboardLeave := MkKeyboardLeave {
  KeyboardLeave_serial : Z;
  KeyboardLeave_surface : ObjectId;
  KeyboardLeave_epoch : Z;
}.

Definition KeyboardLeave_decode (input : list byte) : result DecodeError KeyboardLeave := run_decoder (
  serial ← read_u32;
  surface ← read_u32;
  epoch ← read_u32;
  _ ← Decoder_finish;
  mret (MkKeyboardLeave serial (MkObjectId surface) epoch)) input.

#[export] Instance KeyboardLeave_payload : EncodePayload KeyboardLeave := {|
  encoded_len p := Ok 12;
  encode p :=
    _ ← write_u32 (KeyboardLeave_serial p);
    _ ← write_u32 (into_raw (KeyboardLeave_surface p));
    write_u32 (KeyboardLeave_epoch p);
|}.

Definition KeyboardLeave_fields (p : KeyboardLeave) : list wire_value :=
  [VU32 (KeyboardLeave_serial p); VObject (KeyboardLeave_surface p); VU32 (KeyboardLeave_epoch p)].

#[export] Program Instance KeyboardLeave_codec : PayloadCodec KeyboardLeave KeyboardLeave_decode := {|
  payload_fields := KeyboardLeave_fields;
  payload_admits p := True;
|}.
Next Obligation. encode_obligation KeyboardLeave_fields. Qed.
Next Obligation. len_obligation KeyboardLeave_fields. Qed.
Next Obligation. decode_obligation KeyboardLeave_decode. Qed.

Record KeyboardKey := MkKeyboardKey {
  KeyboardKey_serial : Z;
  KeyboardKey_time_ns : Z;
  KeyboardKey_key : Z;
  KeyboardKey_state : Z;
  KeyboardKey_epoch : Z;
}.

Definition KeyboardKey_decode (input : list byte) : result DecodeError KeyboardKey := run_decoder (
  serial ← read_u32;
  time_ns ← read_u64;
  key ← read_u32;
  state ← read_u32;
  epoch ← read_u32;
  _ ← Decoder_finish;
  mret (MkKeyboardKey serial time_ns key state epoch)) input.

#[export] Instance KeyboardKey_payload : EncodePayload KeyboardKey := {|
  encoded_len p := Ok 24;
  encode p :=
    _ ← write_u32 (KeyboardKey_serial p);
    _ ← write_u64 (KeyboardKey_time_ns p);
    _ ← write_u32 (KeyboardKey_key p);
    _ ← write_u32 (KeyboardKey_state p);
    write_u32 (KeyboardKey_epoch p);
|}.

Definition KeyboardKey_fields (p : KeyboardKey) : list wire_value :=
  [VU32 (KeyboardKey_serial p); VU64 (KeyboardKey_time_ns p); VU32 (KeyboardKey_key p); VU32 (KeyboardKey_state p); VU32 (KeyboardKey_epoch p)].

#[export] Program Instance KeyboardKey_codec : PayloadCodec KeyboardKey KeyboardKey_decode := {|
  payload_fields := KeyboardKey_fields;
  payload_admits p := True;
|}.
Next Obligation. encode_obligation KeyboardKey_fields. Qed.
Next Obligation. len_obligation KeyboardKey_fields. Qed.
Next Obligation. decode_obligation KeyboardKey_decode. Qed.

Record KeyboardModifiers := MkKeyboardModifiers {
  KeyboardModifiers_depressed : Z;
  KeyboardModifiers_latched : Z;
  KeyboardModifiers_locked : Z;
  KeyboardModifiers_group : Z;
  KeyboardModifiers_epoch : Z;
}.

Definition KeyboardModifiers_decode (input : list byte) : result DecodeError KeyboardModifiers := run_decoder (
  depressed ← read_u32;
  latched ← read_u32;
  locked ← read_u32;
  group ← read_u32;
  epoch ← read_u32;
  _ ← Decoder_finish;
  mret (MkKeyboardModifiers depressed latched locked group epoch)) input.

#[export] Instance KeyboardModifiers_payload : EncodePayload KeyboardModifiers := {|
  encoded_len p := Ok 20;
  encode p :=
    _ ← write_u32 (KeyboardModifiers_depressed p);
    _ ← write_u32 (KeyboardModifiers_latched p);
    _ ← write_u32 (KeyboardModifiers_locked p);
    _ ← write_u32 (KeyboardModifiers_group p);
    write_u32 (KeyboardModifiers_epoch p);
|}.

Definition KeyboardModifiers_fields (p : KeyboardModifiers) : list wire_value :=
  [VU32 (KeyboardModifiers_depressed p); VU32 (KeyboardModifiers_latched p); VU32 (KeyboardModifiers_locked p); VU32 (KeyboardModifiers_group p); VU32 (KeyboardModifiers_epoch p)].

#[export] Program Instance KeyboardModifiers_codec : PayloadCodec KeyboardModifiers KeyboardModifiers_decode := {|
  payload_fields := KeyboardModifiers_fields;
  payload_admits p := True;
|}.
Next Obligation. encode_obligation KeyboardModifiers_fields. Qed.
Next Obligation. len_obligation KeyboardModifiers_fields. Qed.
Next Obligation. decode_obligation KeyboardModifiers_decode. Qed.

Record Number := MkNumber { Number_value : Z }.

Definition Number_decode (input : list byte) : result DecodeError Number := run_decoder (
  value ← read_u32;
  _ ← Decoder_finish;
  mret (MkNumber value)) input.

#[export] Instance Number_payload : EncodePayload Number := {|
  encoded_len p := Ok 4;
  encode p :=
    write_u32 (Number_value p);
|}.

Definition Number_fields (p : Number) : list wire_value :=
  [VU32 (Number_value p)].

#[export] Program Instance Number_codec : PayloadCodec Number Number_decode := {|
  payload_fields := Number_fields;
  payload_admits p := True;
|}.
Next Obligation. encode_obligation Number_fields. Qed.
Next Obligation. len_obligation Number_fields. Qed.
Next Obligation. decode_obligation Number_decode. Qed.

Record ShortcutRegistration := MkShortcutRegistration {
  ShortcutRegistration_shortcut : Z;
  ShortcutRegistration_seat : Z;
  ShortcutRegistration_trigger : Z;
  ShortcutRegistration_modifiers : Z;
  ShortcutRegistration_mode : Z;
}.

Definition ShortcutRegistration_decode (input : list byte) : result DecodeError ShortcutRegistration := run_decoder (
  shortcut ← read_u32;
  seat ← read_u64;
  trigger ← read_u32;
  modifiers ← read_u32;
  mode ← read_u32;
  _ ← Decoder_finish;
  mret (MkShortcutRegistration shortcut seat trigger modifiers mode)) input.

#[export] Instance ShortcutRegistration_payload : EncodePayload ShortcutRegistration := {|
  encoded_len p := Ok 24;
  encode p :=
    _ ← write_u32 (ShortcutRegistration_shortcut p);
    _ ← write_u64 (ShortcutRegistration_seat p);
    _ ← write_u32 (ShortcutRegistration_trigger p);
    _ ← write_u32 (ShortcutRegistration_modifiers p);
    write_u32 (ShortcutRegistration_mode p);
|}.

Definition ShortcutRegistration_fields (p : ShortcutRegistration) : list wire_value :=
  [VU32 (ShortcutRegistration_shortcut p); VU64 (ShortcutRegistration_seat p); VU32 (ShortcutRegistration_trigger p); VU32 (ShortcutRegistration_modifiers p); VU32 (ShortcutRegistration_mode p)].

#[export] Program Instance ShortcutRegistration_codec : PayloadCodec ShortcutRegistration ShortcutRegistration_decode := {|
  payload_fields := ShortcutRegistration_fields;
  payload_admits p := True;
|}.
Next Obligation. encode_obligation ShortcutRegistration_fields. Qed.
Next Obligation. len_obligation ShortcutRegistration_fields. Qed.
Next Obligation. decode_obligation ShortcutRegistration_decode. Qed.

Record ShortcutTriggered := MkShortcutTriggered {
  ShortcutTriggered_shortcut : Z;
  ShortcutTriggered_seat : Z;
  ShortcutTriggered_serial : Z;
  ShortcutTriggered_time_ns : Z;
  ShortcutTriggered_epoch : Z;
}.

Definition ShortcutTriggered_decode (input : list byte) : result DecodeError ShortcutTriggered := run_decoder (
  shortcut ← read_u32;
  seat ← read_u64;
  serial ← read_u32;
  time_ns ← read_u64;
  epoch ← read_u32;
  _ ← Decoder_finish;
  mret (MkShortcutTriggered shortcut seat serial time_ns epoch)) input.

#[export] Instance ShortcutTriggered_payload : EncodePayload ShortcutTriggered := {|
  encoded_len p := Ok 28;
  encode p :=
    _ ← write_u32 (ShortcutTriggered_shortcut p);
    _ ← write_u64 (ShortcutTriggered_seat p);
    _ ← write_u32 (ShortcutTriggered_serial p);
    _ ← write_u64 (ShortcutTriggered_time_ns p);
    write_u32 (ShortcutTriggered_epoch p);
|}.

Definition ShortcutTriggered_fields (p : ShortcutTriggered) : list wire_value :=
  [VU32 (ShortcutTriggered_shortcut p); VU64 (ShortcutTriggered_seat p); VU32 (ShortcutTriggered_serial p); VU64 (ShortcutTriggered_time_ns p); VU32 (ShortcutTriggered_epoch p)].

#[export] Program Instance ShortcutTriggered_codec : PayloadCodec ShortcutTriggered ShortcutTriggered_decode := {|
  payload_fields := ShortcutTriggered_fields;
  payload_admits p := True;
|}.
Next Obligation. encode_obligation ShortcutTriggered_fields. Qed.
Next Obligation. len_obligation ShortcutTriggered_fields. Qed.
Next Obligation. decode_obligation ShortcutTriggered_decode. Qed.

(** * A display describing itself ([message/output.rs]) *)

Record OutputIdentity := MkOutputIdentity { OutputIdentity_high : Z; OutputIdentity_low : Z }.

Definition OutputIdentity_decode (input : list byte) : result DecodeError OutputIdentity := run_decoder (
  high ← read_u64;
  low ← read_u64;
  _ ← Decoder_finish;
  mret (MkOutputIdentity high low)) input.

#[export] Instance OutputIdentity_payload : EncodePayload OutputIdentity := {|
  encoded_len p := Ok 16;
  encode p :=
    _ ← write_u64 (OutputIdentity_high p);
    write_u64 (OutputIdentity_low p);
|}.

Definition OutputIdentity_fields (p : OutputIdentity) : list wire_value :=
  [VU64 (OutputIdentity_high p); VU64 (OutputIdentity_low p)].

#[export] Program Instance OutputIdentity_codec : PayloadCodec OutputIdentity OutputIdentity_decode := {|
  payload_fields := OutputIdentity_fields;
  payload_admits p := True;
|}.
Next Obligation. encode_obligation OutputIdentity_fields. Qed.
Next Obligation. len_obligation OutputIdentity_fields. Qed.
Next Obligation. decode_obligation OutputIdentity_decode. Qed.

Record OutputGeometry := MkOutputGeometry {
  OutputGeometry_x : Z;
  OutputGeometry_y : Z;
  OutputGeometry_physical_width_millimetres : Z;
  OutputGeometry_physical_height_millimetres : Z;
  OutputGeometry_identity_source : Z;
}.

Definition OutputGeometry_decode (input : list byte) : result DecodeError OutputGeometry := run_decoder (
  x ← read_i32;
  y ← read_i32;
  physical_width_millimetres ← read_u32;
  physical_height_millimetres ← read_u32;
  identity_source ← read_u32;
  _ ← Decoder_finish;
  mret (MkOutputGeometry x y physical_width_millimetres physical_height_millimetres identity_source)) input.

#[export] Instance OutputGeometry_payload : EncodePayload OutputGeometry := {|
  encoded_len p := Ok 20;
  encode p :=
    _ ← write_i32 (OutputGeometry_x p);
    _ ← write_i32 (OutputGeometry_y p);
    _ ← write_u32 (OutputGeometry_physical_width_millimetres p);
    _ ← write_u32 (OutputGeometry_physical_height_millimetres p);
    write_u32 (OutputGeometry_identity_source p);
|}.

Definition OutputGeometry_fields (p : OutputGeometry) : list wire_value :=
  [VI32 (OutputGeometry_x p); VI32 (OutputGeometry_y p); VU32 (OutputGeometry_physical_width_millimetres p); VU32 (OutputGeometry_physical_height_millimetres p); VU32 (OutputGeometry_identity_source p)].

#[export] Program Instance OutputGeometry_codec : PayloadCodec OutputGeometry OutputGeometry_decode := {|
  payload_fields := OutputGeometry_fields;
  payload_admits p := True;
|}.
Next Obligation. encode_obligation OutputGeometry_fields. Qed.
Next Obligation. len_obligation OutputGeometry_fields. Qed.
Next Obligation. decode_obligation OutputGeometry_decode. Qed.

Record OutputMode := MkOutputMode {
  OutputMode_width : Z;
  OutputMode_height : Z;
  OutputMode_refresh_millihertz : Z;
}.

Definition OutputMode_decode (input : list byte) : result DecodeError OutputMode := run_decoder (
  width ← read_u32;
  height ← read_u32;
  refresh_millihertz ← read_u32;
  _ ← Decoder_finish;
  mret (MkOutputMode width height refresh_millihertz)) input.

#[export] Instance OutputMode_payload : EncodePayload OutputMode := {|
  encoded_len p := Ok 12;
  encode p :=
    _ ← write_u32 (OutputMode_width p);
    _ ← write_u32 (OutputMode_height p);
    write_u32 (OutputMode_refresh_millihertz p);
|}.

Definition OutputMode_fields (p : OutputMode) : list wire_value :=
  [VU32 (OutputMode_width p); VU32 (OutputMode_height p); VU32 (OutputMode_refresh_millihertz p)].

#[export] Program Instance OutputMode_codec : PayloadCodec OutputMode OutputMode_decode := {|
  payload_fields := OutputMode_fields;
  payload_admits p := True;
|}.
Next Obligation. encode_obligation OutputMode_fields. Qed.
Next Obligation. len_obligation OutputMode_fields. Qed.
Next Obligation. decode_obligation OutputMode_decode. Qed.

Record OutputScale := MkOutputScale { OutputScale_numerator : Z; OutputScale_denominator : Z }.

Definition OutputScale_decode (input : list byte) : result DecodeError OutputScale := run_decoder (
  numerator ← read_u32;
  denominator ← read_u32;
  _ ← Decoder_finish;
  mret (MkOutputScale numerator denominator)) input.

#[export] Instance OutputScale_payload : EncodePayload OutputScale := {|
  encoded_len p := Ok 8;
  encode p :=
    _ ← write_u32 (OutputScale_numerator p);
    write_u32 (OutputScale_denominator p);
|}.

Definition OutputScale_fields (p : OutputScale) : list wire_value :=
  [VU32 (OutputScale_numerator p); VU32 (OutputScale_denominator p)].

#[export] Program Instance OutputScale_codec : PayloadCodec OutputScale OutputScale_decode := {|
  payload_fields := OutputScale_fields;
  payload_admits p := True;
|}.
Next Obligation. encode_obligation OutputScale_fields. Qed.
Next Obligation. len_obligation OutputScale_fields. Qed.
Next Obligation. decode_obligation OutputScale_decode. Qed.

(** * Shell and compositor ([message/shell.rs]) *)

Record ShellHandle := MkShellHandle { ShellHandle_handle : Z }.

Definition ShellHandle_decode (input : list byte) : result DecodeError ShellHandle := run_decoder (
  handle ← read_u64;
  _ ← Decoder_finish;
  mret (MkShellHandle handle)) input.

#[export] Instance ShellHandle_payload : EncodePayload ShellHandle := {|
  encoded_len p := Ok 8;
  encode p :=
    write_u64 (ShellHandle_handle p);
|}.

Definition ShellHandle_fields (p : ShellHandle) : list wire_value :=
  [VU64 (ShellHandle_handle p)].

#[export] Program Instance ShellHandle_codec : PayloadCodec ShellHandle ShellHandle_decode := {|
  payload_fields := ShellHandle_fields;
  payload_admits p := True;
|}.
Next Obligation. encode_obligation ShellHandle_fields. Qed.
Next Obligation. len_obligation ShellHandle_fields. Qed.
Next Obligation. decode_obligation ShellHandle_decode. Qed.

Record ShellConfigure := MkShellConfigure {
  ShellConfigure_handle : Z;
  ShellConfigure_width : Z;
  ShellConfigure_height : Z;
  ShellConfigure_state : Z;
}.

Definition ShellConfigure_decode (input : list byte) : result DecodeError ShellConfigure := run_decoder (
  handle ← read_u64;
  width ← read_u32;
  height ← read_u32;
  state ← read_u32;
  _ ← Decoder_finish;
  mret (MkShellConfigure handle width height state)) input.

#[export] Instance ShellConfigure_payload : EncodePayload ShellConfigure := {|
  encoded_len p := Ok 20;
  encode p :=
    _ ← write_u64 (ShellConfigure_handle p);
    _ ← write_u32 (ShellConfigure_width p);
    _ ← write_u32 (ShellConfigure_height p);
    write_u32 (ShellConfigure_state p);
|}.

Definition ShellConfigure_fields (p : ShellConfigure) : list wire_value :=
  [VU64 (ShellConfigure_handle p); VU32 (ShellConfigure_width p); VU32 (ShellConfigure_height p); VU32 (ShellConfigure_state p)].

#[export] Program Instance ShellConfigure_codec : PayloadCodec ShellConfigure ShellConfigure_decode := {|
  payload_fields := ShellConfigure_fields;
  payload_admits p := True;
|}.
Next Obligation. encode_obligation ShellConfigure_fields. Qed.
Next Obligation. len_obligation ShellConfigure_fields. Qed.
Next Obligation. decode_obligation ShellConfigure_decode. Qed.

Record ShellPlace := MkShellPlace { ShellPlace_handle : Z; ShellPlace_x : Z; ShellPlace_y : Z }.

Definition ShellPlace_decode (input : list byte) : result DecodeError ShellPlace := run_decoder (
  handle ← read_u64;
  x ← read_i32;
  y ← read_i32;
  _ ← Decoder_finish;
  mret (MkShellPlace handle x y)) input.

#[export] Instance ShellPlace_payload : EncodePayload ShellPlace := {|
  encoded_len p := Ok 16;
  encode p :=
    _ ← write_u64 (ShellPlace_handle p);
    _ ← write_i32 (ShellPlace_x p);
    write_i32 (ShellPlace_y p);
|}.

Definition ShellPlace_fields (p : ShellPlace) : list wire_value :=
  [VU64 (ShellPlace_handle p); VI32 (ShellPlace_x p); VI32 (ShellPlace_y p)].

#[export] Program Instance ShellPlace_codec : PayloadCodec ShellPlace ShellPlace_decode := {|
  payload_fields := ShellPlace_fields;
  payload_admits p := True;
|}.
Next Obligation. encode_obligation ShellPlace_fields. Qed.
Next Obligation. len_obligation ShellPlace_fields. Qed.
Next Obligation. decode_obligation ShellPlace_decode. Qed.

Record ShellToplevel := MkShellToplevel {
  ShellToplevel_handle : Z;
  ShellToplevel_title : list byte;
}.

Definition ShellToplevel_decode (input : list byte) : result DecodeError ShellToplevel := run_decoder (
  handle ← read_u64;
  title ← read_string;
  _ ← Decoder_finish;
  mret (MkShellToplevel handle title)) input.

#[export] Instance ShellToplevel_payload : EncodePayload ShellToplevel := {|
  encoded_len p := string_len ← encoded_string_len (ShellToplevel_title p);
    ok_or (checked_add usize_max 8 string_len) EncodeSizeOverflow;
  encode p :=
    _ ← write_u64 (ShellToplevel_handle p);
    write_string (ShellToplevel_title p);
|}.

Definition ShellToplevel_fields (p : ShellToplevel) : list wire_value :=
  [VU64 (ShellToplevel_handle p); VString (ShellToplevel_title p)].

#[export] Program Instance ShellToplevel_codec : PayloadCodec ShellToplevel ShellToplevel_decode := {|
  payload_fields := ShellToplevel_fields;
  payload_admits p := True;
|}.
Next Obligation. encode_obligation ShellToplevel_fields. Qed.
Next Obligation. string_len_obligation ShellToplevel_fields ShellToplevel_payload. Qed.
Next Obligation. decode_obligation ShellToplevel_decode. Qed.

(** * Text and the method that produces it ([message/text.rs]) *)

Definition MAX_TEXT_BYTES : Z := 4096.

(** What a text field is for. *)
Inductive TextPurpose := Normal | Password | Digits.

#[global] Instance TextPurpose_eq_dec : EqDecision TextPurpose.
Proof. solve_decision. Defined.

Definition TextPurpose_from_raw (raw : Z) : option TextPurpose :=
  if raw =? 0 then Some Normal
  else if raw =? 1 then Some Password
  else if raw =? 2 then Some Digits
  else None.

Definition TextPurpose_into_raw (p : TextPurpose) : Z :=
  match p with Normal => 0 | Password => 1 | Digits => 2 end.

Definition admits_composition (p : TextPurpose) : bool :=
  match p with Password => false | _ => true end.

Record Preedit := MkPreedit {
  Preedit_composition : Z;
  Preedit_text : list byte;
  Preedit_cursor_begin : Z;
  Preedit_cursor_end : Z;
}.

Definition Preedit_decode (input : list byte) : result DecodeError Preedit := run_decoder (
  composition ← read_u32;
  text ← read_string;
  if MAX_TEXT_BYTES <? len text then throw SizeOverflow
  else
  cursor_begin ← read_i32;
  cursor_end ← read_i32;
  _ ← Decoder_finish;
  mret (MkPreedit composition text cursor_begin cursor_end)) input.

#[export] Instance Preedit_payload : EncodePayload Preedit := {|
  encoded_len p := string_len ← encoded_string_len (Preedit_text p);
    ok_or (checked_add usize_max string_len 12) EncodeSizeOverflow;
  encode p :=
    _ ← write_u32 (Preedit_composition p);
    _ ← write_string (Preedit_text p);
    _ ← write_i32 (Preedit_cursor_begin p);
    write_i32 (Preedit_cursor_end p);
|}.

Definition Preedit_fields (p : Preedit) : list wire_value :=
  [VU32 (Preedit_composition p); VString (Preedit_text p); VI32 (Preedit_cursor_begin p); VI32 (Preedit_cursor_end p)].

#[export] Program Instance Preedit_codec : PayloadCodec Preedit Preedit_decode := {|
  payload_fields := Preedit_fields;
  payload_admits p := len (Preedit_text p) ≤ MAX_TEXT_BYTES;
|}.
Next Obligation. encode_obligation Preedit_fields. Qed.
Next Obligation. string_len_obligation Preedit_fields Preedit_payload. Qed.
Next Obligation. decode_obligation Preedit_decode. Qed.

Record CommitText := MkCommitText { CommitText_composition : Z; CommitText_text : list byte }.

Definition CommitText_decode (input : list byte) : result DecodeError CommitText := run_decoder (
  composition ← read_u32;
  text ← read_string;
  if MAX_TEXT_BYTES <? len text then throw SizeOverflow
  else
  _ ← Decoder_finish;
  mret (MkCommitText composition text)) input.

#[export] Instance CommitText_payload : EncodePayload CommitText := {|
  encoded_len p := string_len ← encoded_string_len (CommitText_text p);
    ok_or (checked_add usize_max string_len 4) EncodeSizeOverflow;
  encode p :=
    _ ← write_u32 (CommitText_composition p);
    write_string (CommitText_text p);
|}.

Definition CommitText_fields (p : CommitText) : list wire_value :=
  [VU32 (CommitText_composition p); VString (CommitText_text p)].

#[export] Program Instance CommitText_codec : PayloadCodec CommitText CommitText_decode := {|
  payload_fields := CommitText_fields;
  payload_admits p := len (CommitText_text p) ≤ MAX_TEXT_BYTES;
|}.
Next Obligation. encode_obligation CommitText_fields. Qed.
Next Obligation. string_len_obligation CommitText_fields CommitText_payload. Qed.
Next Obligation. decode_obligation CommitText_decode. Qed.

Record CursorArea := MkCursorArea {
  CursorArea_x : Z;
  CursorArea_y : Z;
  CursorArea_width : Z;
  CursorArea_height : Z;
}.

Definition CursorArea_decode (input : list byte) : result DecodeError CursorArea := run_decoder (
  x ← read_i32;
  y ← read_i32;
  width ← read_u32;
  height ← read_u32;
  _ ← Decoder_finish;
  mret (MkCursorArea x y width height)) input.

#[export] Instance CursorArea_payload : EncodePayload CursorArea := {|
  encoded_len p := Ok 16;
  encode p :=
    _ ← write_i32 (CursorArea_x p);
    _ ← write_i32 (CursorArea_y p);
    _ ← write_u32 (CursorArea_width p);
    write_u32 (CursorArea_height p);
|}.

Definition CursorArea_fields (p : CursorArea) : list wire_value :=
  [VI32 (CursorArea_x p); VI32 (CursorArea_y p); VU32 (CursorArea_width p); VU32 (CursorArea_height p)].

#[export] Program Instance CursorArea_codec : PayloadCodec CursorArea CursorArea_decode := {|
  payload_fields := CursorArea_fields;
  payload_admits p := True;
|}.
Next Obligation. encode_obligation CursorArea_fields. Qed.
Next Obligation. len_obligation CursorArea_fields. Qed.
Next Obligation. decode_obligation CursorArea_decode. Qed.

Record InputMethodActivation := MkInputMethodActivation {
  InputMethodActivation_surface : ObjectId;
  InputMethodActivation_purpose : Z;
  InputMethodActivation_composition : Z;
}.

Definition InputMethodActivation_decode (input : list byte) : result DecodeError InputMethodActivation := run_decoder (
  surface ← read_u32;
  purpose ← read_u32;
  composition ← read_u32;
  _ ← Decoder_finish;
  mret (MkInputMethodActivation (MkObjectId surface) purpose composition)) input.

#[export] Instance InputMethodActivation_payload : EncodePayload InputMethodActivation := {|
  encoded_len p := Ok 12;
  encode p :=
    _ ← write_u32 (into_raw (InputMethodActivation_surface p));
    _ ← write_u32 (InputMethodActivation_purpose p);
    write_u32 (InputMethodActivation_composition p);
|}.

Definition InputMethodActivation_fields (p : InputMethodActivation) : list wire_value :=
  [VObject (InputMethodActivation_surface p); VU32 (InputMethodActivation_purpose p); VU32 (InputMethodActivation_composition p)].

#[export] Program Instance InputMethodActivation_codec : PayloadCodec InputMethodActivation InputMethodActivation_decode := {|
  payload_fields := InputMethodActivation_fields;
  payload_admits p := True;
|}.
Next Obligation. encode_obligation InputMethodActivation_fields. Qed.
Next Obligation. len_obligation InputMethodActivation_fields. Qed.
Next Obligation. decode_obligation InputMethodActivation_decode. Qed.

Record CompositionRound := MkCompositionRound {
  CompositionRound_composition : Z;
  CompositionRound_serial : Z;
}.

Definition CompositionRound_decode (input : list byte) : result DecodeError CompositionRound := run_decoder (
  composition ← read_u32;
  serial ← read_u32;
  _ ← Decoder_finish;
  mret (MkCompositionRound composition serial)) input.

#[export] Instance CompositionRound_payload : EncodePayload CompositionRound := {|
  encoded_len p := Ok 8;
  encode p :=
    _ ← write_u32 (CompositionRound_composition p);
    write_u32 (CompositionRound_serial p);
|}.

Definition CompositionRound_fields (p : CompositionRound) : list wire_value :=
  [VU32 (CompositionRound_composition p); VU32 (CompositionRound_serial p)].

#[export] Program Instance CompositionRound_codec : PayloadCodec CompositionRound CompositionRound_decode := {|
  payload_fields := CompositionRound_fields;
  payload_admits p := True;
|}.
Next Obligation. encode_obligation CompositionRound_fields. Qed.
Next Obligation. len_obligation CompositionRound_fields. Qed.
Next Obligation. decode_obligation CompositionRound_decode. Qed.

(** * The packet theorems at concrete messages *)

Definition a_commit : Commit := MkCommit 0x100000007 3.

Lemma a_commit_ok : fields_ok (payload_fields a_commit).
Proof. repeat constructor; vm_compute; discriminate. Qed.

Lemma encode_message_frame_witness :
  encode_message (MkObjectId 5) (MkOpcode 3) 9 a_commit (replicate 30 Byte.xff) =
  encode_frame (MkObjectId 5) (MkOpcode 3) 9 (fields_bytes (payload_fields a_commit))
    (replicate 30 Byte.xff) ∧
  (encode_message (MkObjectId 5) (MkOpcode 3) 9 a_commit (replicate 30 Byte.xff)).1 = Ok 24.
Proof.
  split; [|vm_compute; reflexivity].
  apply (encode_message_frame (P := Commit)); [apply a_commit_ok|vm_compute; discriminate].
Defined.

Lemma encode_message_round_trip_witness :
  let out := replicate 30 Byte.xff in
  let packet := take 24 (encode_message (MkObjectId 5) (MkOpcode 3) 9 a_commit out).2 in
  Frame_decode packet =
    Ok (MkFrame (MkHeader (MkObjectId 5) (MkOpcode 3) 24 9) (fields_bytes (Commit_fields a_commit)))
  ∧ Commit_decode (fields_bytes (Commit_fields a_commit)) = Ok a_commit.
Proof.
  destruct (encode_message_round_trip (P := Commit) (MkObjectId 5) (MkOpcode 3) 9 a_commit
    (replicate 30 Byte.xff) (encode_message (MkObjectId 5) (MkOpcode 3) 9 a_commit
    (replicate 30 Byte.xff)).2 24) as (H1 & H2 & _);
    [apply a_commit_ok|exact I|vm_compute; discriminate
    |split; vm_compute; discriminate..|vm_compute; reflexivity|].
  split; [exact H1|exact H2].
Defined.

Lemma decode_canonical_witness :
  let input := fields_bytes (Commit_fields a_commit) in
  Commit_decode input = Ok a_commit ∧ len input = 12 ∧
  fields_ok (payload_fields a_commit).
Proof.
  split; [vm_compute; reflexivity|]. split; [vm_compute; reflexivity|].
  apply (decode_canonical (P := Commit) (fields_bytes (Commit_fields a_commit)));
    [vm_compute; discriminate|vm_compute; reflexivity].
Defined.
