(* ===== verification/Model.v ===== *)
(** The compositor's data: what a client may ask, what it is told, and the errors in between
    ([atria-compositor/src/{model,error,resolve,shell}.rs]). Constructors are prefixed where two
    enums of the source share a name: [K] for object kinds, [Rq] for requests, [Ev] for events. *)
From S2P Require Import Prelude.
From S2P Require Import BTree.
From S2P Require Import Vocabulary.
From S2P Require Import Interface.
From S2P Require Import Wire.
From S2P Require Import Payloads.

(** * Names ([model.rs], [shell.rs]) *)

Record SeatId := MkSeatId { seat_id : Z }.
Record ConnectionId := MkConnectionId { connection_id : Z }.
Record CommitId := MkCommitId { commit_id : Z }.
Record ToplevelHandle := MkToplevelHandle { toplevel_handle_id : Z }.
Record SurfaceKey := MkSurfaceKey { key_connection : ConnectionId; key_object : ObjectId }.

#[global] Instance SeatId_eq_dec : EqDecision SeatId.
Proof. solve_decision. Defined.
#[global] Instance ConnectionId_eq_dec : EqDecision ConnectionId.
Proof. solve_decision. Defined.
#[global] Instance CommitId_eq_dec : EqDecision CommitId.
Proof. solve_decision. Defined.
#[global] Instance ToplevelHandle_eq_dec : EqDecision ToplevelHandle.
Proof. solve_decision. Defined.
#[global] Instance SurfaceKey_eq_dec : EqDecision SurfaceKey.
Proof. solve_decision. Defined.

#[global] Instance SeatId_countable : Countable SeatId :=
  inj_countable' seat_id MkSeatId (λ x, match x with MkSeatId _ => eq_refl end).
#[global] Instance ConnectionId_countable : Countable ConnectionId :=
  inj_countable' connection_id MkConnectionId (λ x, match x with MkConnectionId _ => eq_refl end).
#[global] Instance ToplevelHandle_countable : Countable ToplevelHandle :=
  inj_countable' toplevel_handle_id MkToplevelHandle
    (λ x, match x with MkToplevelHandle _ => eq_refl end).
#[global] Instance SurfaceKey_countable : Countable SurfaceKey :=
  inj_countable' (λ k, (key_connection k, key_object k)) (λ p, MkSurfaceKey p.1 p.2)
    (λ x, match x with MkSurfaceKey _ _ => eq_refl end).

#[global] Instance SeatId_ord_key : OrdKey SeatId := λ s, [seat_id s].
#[global] Instance ConnectionId_ord_key : OrdKey ConnectionId := λ c, [connection_id c].
#[global] Instance ToplevelHandle_ord_key : OrdKey ToplevelHandle := λ h, [toplevel_handle_id h].
#[global] Instance SurfaceKey_ord_key : OrdKey SurfaceKey :=
  λ k, [connection_id (key_connection k); into_raw (key_object k)].

(** The one seat the compositor has. *)
Definition SEAT_ONE : SeatId := MkSeatId 1.

(** * Chords *)

Inductive ChordMatch := Exact | AtLeast.

#[global] Instance ChordMatch_eq_dec : EqDecision ChordMatch.
Proof. solve_decision. Defined.

Definition ChordMatch_from_raw (raw : Z) : option ChordMatch :=
  if raw =? 0 then Some Exact else if raw =? 1 then Some AtLeast else None.

Definition ChordMatch_index (m : ChordMatch) : Z := match m with Exact => 0 | AtLeast => 1 end.

Record Chord := MkChord { chord_trigger : PhysicalKey; chord_modifiers : Z; chord_mode : ChordMatch }.

#[global] Instance Chord_eq_dec : EqDecision Chord.
Proof. solve_decision. Defined.
#[global] Instance ChordMatch_countable : Countable ChordMatch :=
  inj_countable' (λ m, match m with Exact => true | AtLeast => false end)
    (λ b : bool, if b then Exact else AtLeast)
    (λ x, match x with Exact => eq_refl | AtLeast => eq_refl end).
#[global] Instance Chord_countable : Countable Chord :=
  inj_countable' (λ c, (chord_trigger c, chord_modifiers c, chord_mode c))
    (λ p, MkChord p.1.1 p.1.2 p.2) (λ x, match x with MkChord _ _ _ => eq_refl end).
#[global] Instance Chord_ord_key : OrdKey Chord :=
  λ c, [usage (chord_trigger c); chord_modifiers c; ChordMatch_index (chord_mode c)].

Definition Chord_accepts (self : Chord) (held : Modifiers) : bool :=
  match chord_mode self with
  | Exact => modifier_bits held =? chord_modifiers self
  | AtLeast => Z.land (modifier_bits held) (chord_modifiers self) =? chord_modifiers self
  end.

Inductive InteractionKind := PointerPress.
Definition InteractionKind_into_raw (k : InteractionKind) : Z := match k with PointerPress => 0 end.

(** * Objects *)

Inductive ObjectKind :=
| KDisplay | KRegistry | KCompositor | KShm | KShell | KToplevel | KShmPool | KSeat | KSession
| KSurface | KBuffer | KFence | KInputStream | KShellControl | KPointer | KKeyboard | KShortcuts
| KTextInput | KInputMethod | KOutput.

#[global] Instance ObjectKind_eq_dec : EqDecision ObjectKind.
Proof. solve_decision. Defined.

Record Point := MkPoint { point_x : Z; point_y : Z }.
Record Size := MkSize { size_width : Z; size_height : Z }.
Record Rect := MkRect { rect_x : Z; rect_y : Z; rect_width : Z; rect_height : Z }.

#[global] Instance Point_eq_dec : EqDecision Point.
Proof. solve_decision. Defined.
#[global] Instance Size_eq_dec : EqDecision Size.
Proof. solve_decision. Defined.
#[global] Instance Rect_eq_dec : EqDecision Rect.
Proof. solve_decision. Defined.

Definition Point_default : Point := MkPoint 0 0.
Definition Rect_default : Rect := MkRect 0 0 0 0.

Definition checked_add_i64 (a b : Z) : option Z :=
  if (i64_min <=? a + b) && (a + b <=? i64_max) then Some (a + b) else None.

Definition Rect_contains (self : Rect) (point : Point) : bool :=
  match checked_add_i64 (rect_x self) (rect_width self) with
  | None => false
  | Some right_edge =>
      match checked_add_i64 (rect_y self) (rect_height self) with
      | None => false
      | Some bottom =>
          let x := point_x point in
          let y := point_y point in
          (rect_x self <=? x) && (x <? right_edge) && (rect_y self <=? y) && (y <? bottom)
      end
  end.

Inductive Damage := DamageFull | DamageRect (rect : Rect).

Record SurfaceRole := MkSurfaceRole { surface_role_raw : Z }.

#[global] Instance SurfaceRole_eq_dec : EqDecision SurfaceRole.
Proof. solve_decision. Defined.

Record TitleText := MkTitleText { title_str : list byte }.
Definition TitleText_new (text : list byte) : option TitleText :=
  if len text <=? MAX_TITLE_BYTES then Some (MkTitleText text) else None.
Definition TitleText_default : TitleText := MkTitleText [].

Record TextBuffer := MkTextBuffer { text_str : list byte }.
Definition TextBuffer_new (text : list byte) : option TextBuffer :=
  if len text <=? MAX_TEXT_BYTES then Some (MkTextBuffer text) else None.
Definition TextBuffer_default : TextBuffer := MkTextBuffer [].

Definition FORMAT_XRGB8888 : Z := 0.
Definition FORMAT_ARGB8888 : Z := 1.
Definition FORMAT_RGB565 : Z := 2.
Definition pixel_format_is_known (format : Z) : bool :=
  (format =? FORMAT_XRGB8888) || (format =? FORMAT_ARGB8888) || (format =? FORMAT_RGB565).

Inductive BufferTransport := ShmTransport | PrimeTransport.

#[global] Instance BufferTransport_eq_dec : EqDecision BufferTransport.
Proof. solve_decision. Defined.

Definition transport_capability (t : BufferTransport) : Capability :=
  match t with ShmTransport => SoftwareShm | PrimeTransport => GpuPrime end.

Record BufferDescriptor := MkBufferDescriptor {
  bd_transport : BufferTransport;
  bd_size : Size;
  bd_stride : Z;
  bd_byte_len : Z;
}.

Definition is_structurally_valid (d : BufferDescriptor) : bool :=
  if (size_width (bd_size d) =? 0) || (size_height (bd_size d) =? 0) || (bd_stride d =? 0)
  then false
  else match checked_mul u64_max (bd_stride d) (size_height (bd_size d)) with
       | Some minimum => minimum <=? bd_byte_len d
       | None => false
       end.

Inductive BufferState :=
| Available
| Pending (surface : SurfaceKey)
| CompositorHeld (surface : SurfaceKey) (commit : CommitId).

#[global] Instance BufferState_eq_dec : EqDecision BufferState.
Proof. solve_decision. Defined.

Record SeatCapabilities := MkSeatCapabilities { seat_cap_bits : Z }.
Definition SeatCapabilities_empty : SeatCapabilities := MkSeatCapabilities 0.
Definition with_pointer (c : SeatCapabilities) := MkSeatCapabilities (Z.lor (seat_cap_bits c) 1).
Definition with_keyboard (c : SeatCapabilities) := MkSeatCapabilities (Z.lor (seat_cap_bits c) 2).
Definition with_touch (c : SeatCapabilities) := MkSeatCapabilities (Z.lor (seat_cap_bits c) 4).
Definition has_pointer (c : SeatCapabilities) : bool := negb (Z.land (seat_cap_bits c) 1 =? 0).
Definition has_keyboard (c : SeatCapabilities) : bool := negb (Z.land (seat_cap_bits c) 2 =? 0).
Definition has_touch (c : SeatCapabilities) : bool := negb (Z.land (seat_cap_bits c) 4 =? 0).

Record SeatSnapshot := MkSeatSnapshot { ss_capabilities : SeatCapabilities; ss_active : bool }.
Record SessionSnapshot := MkSessionSnapshot { sn_seat : option ObjectId; sn_active : bool }.

(** * Resolution of handles ([resolve.rs]) *)

Inductive ResolveError :=
| SlotEmpty (slot : Z)
| WrongKind (slot : Z) (expected : HandleKind)
| InsufficientRights (slot : Z)
| TooSmall (slot needed actual : Z)
| TitleTooLong (bytes maximum : Z)
| TextTooLong (bytes maximum : Z).

(** [SharedMemory]: opaque to the compositor but for its name and its size. *)
Record SharedMem := MkSharedMem { memory_id : Z; memory_size : Z }.

(** * Errors ([error.rs], [shell.rs]) *)

Inductive ErrorCode :=
| CodeInvalidObject | CodeInvalidObjectId | CodeObjectIdAlreadyUsed | CodeWrongObjectType
| CodeUnknownOpcode | CodeConnectionClosed | CodeInvalidState | CodeUnsupportedCapability
| CodeQuotaExceeded | CodeEventQueueOverflow.

(** [self as u32]. *)
Definition ErrorCode_raw (c : ErrorCode) : Z :=
  match c with
  | CodeInvalidObject => 0x0001
  | CodeInvalidObjectId => 0x0002
  | CodeObjectIdAlreadyUsed => 0x0003
  | CodeWrongObjectType => 0x0004
  | CodeUnknownOpcode => 0x0005
  | CodeConnectionClosed => 0x0006
  | CodeInvalidState => 0x0100
  | CodeUnsupportedCapability => 0x0101
  | CodeQuotaExceeded => 0x0200
  | CodeEventQueueOverflow => 0x0201
  end.

Definition ErrorCode_category (c : ErrorCode) : ErrorCategory :=
  match c with
  | CodeInvalidObject | CodeInvalidObjectId | CodeObjectIdAlreadyUsed | CodeWrongObjectType
  | CodeUnknownOpcode | CodeConnectionClosed => CatProtocol
  | CodeInvalidState | CodeUnsupportedCapability => CatObject
  | CodeQuotaExceeded | CodeEventQueueOverflow => CatResource
  end.

Inductive StateError :=
| InvalidObject (object_id : ObjectId)
| InvalidObjectId (object_id : ObjectId)
| ObjectIdAlreadyUsed (object_id : ObjectId)
| WrongObjectType (object_id : ObjectId) (expected actual : ObjectKind)
| ErrUnknownOpcode (object_id : ObjectId) (opcode : Opcode)
| ConnectionClosed
| InvalidState (object_id : ObjectId)
| UnsupportedCapability (object_id : ObjectId) (capability : Capability)
| QuotaExceeded (object_id : ObjectId)
| EventQueueOverflow (queued : Z).

#[global] Instance StateError_eq_dec : EqDecision StateError.
Proof. solve_decision. Defined.

Definition error_code (e : StateError) : ErrorCode :=
  match e with
  | InvalidObject _ => CodeInvalidObject
  | InvalidObjectId _ => CodeInvalidObjectId
  | ObjectIdAlreadyUsed _ => CodeObjectIdAlreadyUsed
  | WrongObjectType _ _ _ => CodeWrongObjectType
  | ErrUnknownOpcode _ _ => CodeUnknownOpcode
  | ConnectionClosed => CodeConnectionClosed
  | InvalidState _ => CodeInvalidState
  | UnsupportedCapability _ _ => CodeUnsupportedCapability
  | QuotaExceeded _ => CodeQuotaExceeded
  | EventQueueOverflow _ => CodeEventQueueOverflow
  end.

Definition error_category (e : StateError) : ErrorCategory := ErrorCode_category (error_code e).

Definition error_object_id (e : StateError) : ObjectId :=
  match e with
  | InvalidObject o | InvalidObjectId o | ObjectIdAlreadyUsed o | WrongObjectType o _ _
  | ErrUnknownOpcode o _ | InvalidState o | UnsupportedCapability o _ | QuotaExceeded o => o
  | ConnectionClosed | EventQueueOverflow _ => ObjectId_DISPLAY
  end.

Inductive SceneFault :=
| ConnectionGone (key : SurfaceKey)
| ObjectGone (key : SurfaceKey)
| NotASurface (key : SurfaceKey)
| NoContent (key : SurfaceKey)
| NoPosition (key : SurfaceKey).

Inductive ShellError :=
| NotGranted
| UnknownHandle (handle : ToplevelHandle)
| UnknownSeat (seat : SeatId).

Record ToplevelRecord := MkToplevelRecord {
  tr_handle : ToplevelHandle;
  tr_connection : ConnectionId;
  tr_object_id : ObjectId;
  tr_title : list byte;
  tr_configured : option Size;
}.

(** * Displays' identities ([output.rs]) *)

Record OutputId := MkOutputId { output_id : Z }.

#[global] Instance OutputId_eq_dec : EqDecision OutputId.
Proof. solve_decision. Defined.
#[global] Instance OutputId_countable : Countable OutputId :=
  inj_countable' output_id MkOutputId (λ x, match x with MkOutputId _ => eq_refl end).
#[global] Instance OutputId_ord_key : OrdKey OutputId := λ o, [output_id o].

Inductive IdentitySource := FromPanel | FromPosition.

#[global] Instance IdentitySource_eq_dec : EqDecision IdentitySource.
Proof. solve_decision. Defined.

(** * Requests *)

Inductive ClientRequest :=
| RqCreateRegistry (new_id : ObjectId)
| RqBind (name version : Z) (new_id : ObjectId)
| RqCreatePool (new_id : ObjectId) (memory : SharedMem)
| RqCreateBuffer (new_id pool : ObjectId) (offset : Z) (size : Size) (stride format : Z)
| RqCreateSurface (new_id : ObjectId)
| RqImportBuffer (new_id : ObjectId) (descriptor : BufferDescriptor)
| RqShellConfigure (control : ObjectId) (handle : ToplevelHandle) (size : Size) (state : Z)
| RqShellPlace (control : ObjectId) (handle : ToplevelHandle) (position : Point)
| RqShellRaise (control : ObjectId) (handle : ToplevelHandle)
| RqShellFocus (control : ObjectId) (seat : SeatId) (handle : ToplevelHandle)
| RqShellClose (control : ObjectId) (handle : ToplevelHandle)
| RqShellGrab (control : ObjectId) (seat : SeatId) (handle : ToplevelHandle)
| RqGetPointer (seat new_id : ObjectId)
| RqGetKeyboard (seat new_id : ObjectId)
| RqRegisterShortcut (manager : ObjectId) (shortcut : Z) (seat : SeatId) (chord : Chord)
| RqUnregisterShortcut (manager : ObjectId) (shortcut : Z)
| RqEnableText (text_input : ObjectId) (purpose : TextPurpose)
| RqDisableText (text_input : ObjectId)
| RqSetCursorArea (text_input : ObjectId) (area : Rect)
| RqSetPreedit (method : ObjectId) (composition : Z) (text : TextBuffer)
    (cursor_begin cursor_end : Z)
| RqCommitText (method : ObjectId) (composition : Z) (text : TextBuffer)
| RqTextDone (method : ObjectId) (composition serial : Z)
| RqGetToplevel (surface new_id : ObjectId)
| RqSetTitle (toplevel : ObjectId) (title : TitleText)
| RqSetMinSize (toplevel : ObjectId) (size : Size)
| RqSetMaxSize (toplevel : ObjectId) (size : Size)
| RqAttach (surface buffer : ObjectId) (offset : Point) (acquire_fence : option ObjectId)
| RqDamage (surface : ObjectId) (rect : Rect)
| RqCommit (surface : ObjectId)
| RqSetRole (surface : ObjectId) (role : SurfaceRole)
| RqRequestFrame (surface : ObjectId) (serial : Z)
| RqSetRefreshRange (surface : ObjectId) (min_hz max_hz : Z)
| RqDestroy (object : ObjectId)
| RqUnknown (object : ObjectId) (opcode : Opcode).

(** * Events *)

Inductive EventKind :=
| EvError (error : StateError)
| EvCapabilityRevoked (capability : Capability)
| EvObjectDestroyed (kind : ObjectKind)
| EvIdRetired
| EvConfigure (serial : Z) (size : Size) (state : Z)
| EvClose
| EvGlobal (name : Z) (interface : Interface) (version : Z)
| EvGlobalRemove (name : Z)
| EvBufferRelease
| EvBufferReleaseWithFence (fence : ObjectId)
| EvFrameDone (serial timestamp_ns : Z)
| EvFrameDeadline (deadline_ns refresh_interval_ns : Z)
| EvFrameLate
| EvKeyboardLeave
| EvKeyboardEnter
| EvKeyFocusGained (serial : Z) (surface : ObjectId) (modifiers : Modifiers) (epoch : Z)
    (held : list PhysicalKey)
| EvKeyFocusLost (serial : Z) (surface : ObjectId) (epoch : Z)
| EvKey (serial time_ns : Z) (key : PhysicalKey) (pressed : bool) (epoch : Z)
| EvKeyModifiers (modifiers : Modifiers) (epoch : Z)
| EvTextEnter (surface : ObjectId)
| EvTextLeave (surface : ObjectId)
| EvTextPreedit (composition : Z) (text : TextBuffer) (cursor_begin cursor_end : Z)
| EvTextCommit (composition : Z) (text : TextBuffer)
| EvTextDone (serial : Z)
| EvMethodActivated (surface : ObjectId) (purpose : TextPurpose) (composition : Z)
| EvMethodDeactivated
| EvShortcutTriggered (shortcut : Z) (seat : SeatId) (serial time_ns epoch : Z)
| EvPointerEnter (serial : Z) (surface : ObjectId) (position : Point) (epoch : Z)
| EvPointerLeave (serial : Z) (surface : ObjectId) (epoch : Z)
| EvPointerMotion (time_ns : Z) (position : Point) (epoch : Z)
| EvPointerButton (serial time_ns button : Z) (pressed : bool) (epoch : Z)
| EvShellInteraction (seat : SeatId) (handle : ToplevelHandle) (serial : Z)
    (kind : InteractionKind) (position : Point)
| EvShellGrabMotion (seat : SeatId) (position : Point)
| EvShellGrabEnd (seat : SeatId)
| EvOutputIdentity (identity : Z)
| EvOutputGeometry (position : Point) (physical_millimetres : Size)
    (identity_source : IdentitySource)
| EvOutputMode (size : Size) (refresh_millihertz : Z)
| EvOutputScale (numerator denominator : Z)
| EvShellToplevel (handle : ToplevelHandle) (title : list byte)
| EvShellToplevelGone (handle : ToplevelHandle)
| EvShellFocusChanged (seat : SeatId) (handle : ToplevelHandle)
| EvShellSnapshotDone
| EvOutputDone.

Record Event := MkEvent {
  event_connection : ConnectionId;
  event_object : ObjectId;
  event_kind : EventKind;
}.

Inductive FocusEvent :=
| FocusKeyboardLeave (surface : SurfaceKey)
| FocusKeyboardEnter (surface : SurfaceKey).

Record SurfaceSnapshot := MkSurfaceSnapshot {
  snap_role : option SurfaceRole;
  snap_buffer : ObjectId;
  snap_offset : Point;
  snap_damage : list Damage;
  snap_commit : CommitId;
  snap_refresh_range : option (Z * Z);
  snap_acquire_fence : option ObjectId;
}.

(** * Properties of the data *)

(** Every code is in the wire range of its category, which is what a client classifies it by. *)
Lemma ErrorCode_ranges c :
  wire_error_category (MkWireErrorCode (ErrorCode_raw c)) = Some (ErrorCode_category c).
Proof. by destruct c. Qed.

Definition is_point (p : Point) : Prop := is_i32 (point_x p) ∧ is_i32 (point_y p).
Definition is_rect (r : Rect) : Prop :=
  is_i32 (rect_x r) ∧ is_i32 (rect_y r) ∧ is_u32 (rect_width r) ∧ is_u32 (rect_height r).

Lemma checked_add_i64_small a b :
  is_i32 a → is_u32 b → checked_add_i64 a b = Some (a + b).
Proof.
  intros Ha Hb. unfold checked_add_i64. by rewrite !(proj2 (Z.leb_le _ _)) by width_lia.
Qed.

Lemma Rect_contains_spec r p :
  is_rect r →
  Rect_contains r p = true ↔
  rect_x r ≤ point_x p < rect_x r + rect_width r ∧ rect_y r ≤ point_y p < rect_y r + rect_height r.
Proof.
  intros (Hx & Hy & Hw & Hh). unfold Rect_contains. rewrite !checked_add_i64_small by done.
  rewrite !andb_true_iff, !Z.leb_le, !Z.ltb_lt. tauto.
Qed.

Lemma is_structurally_valid_spec d :
  is_structurally_valid d = true ↔
  size_width (bd_size d) ≠ 0 ∧ size_height (bd_size d) ≠ 0 ∧ bd_stride d ≠ 0 ∧
  bd_stride d * size_height (bd_size d) ≤ u64_max ∧
  bd_stride d * size_height (bd_size d) ≤ bd_byte_len d.
Proof.
  unfold is_structurally_valid, checked_mul. destruct (_ || _) eqn:E.
  - split; [done|]. intros (?%Z.eqb_neq & ?%Z.eqb_neq & ?%Z.eqb_neq & _). exfalso.
    rewrite !orb_true_iff in E. destruct E as [[?|?]|?]; congruence.
  - rewrite !orb_false_iff, !Z.eqb_neq in E. case_match eqn:Hm.
    + rewrite Z.leb_le. case_match eqn:Hu; [|done]. injection Hm as <-. rewrite Z.leb_le in *. lia.
    + case_match eqn:Hu; [done|]. rewrite Z.leb_gt in Hu. split; [done|lia].
Qed.
