(* ===== verification/Registry.v ===== *)
(** A connection's objects ([atria-compositor/src/registry.rs]): allocation, lookup and the order
    objects were made in. The value an object carries is a parameter, as it is in the source. *)
From S2P Require Import Prelude.
From S2P Require Import BTree.
From S2P Require Import Vocabulary.
From S2P Require Import Interface.
From S2P Require Import Wire.
From S2P Require Import Payloads.
From S2P Require Import Model.

Section Registry.
Context {T : Type}.

Record RegistryEntry := MkRegistryEntry { entry_kind : ObjectKind; entry_value : T }.

Record ObjectRegistry := MkObjectRegistry {
  reg_live : gmap ObjectId RegistryEntry;
  reg_used : gset ObjectId;
  reg_creation_order : list ObjectId;
}.

Definition ObjectRegistry_new (display : T) : ObjectRegistry :=
  MkObjectRegistry {[ ObjectId_DISPLAY := MkRegistryEntry KDisplay display ]}
    {[ ObjectId_DISPLAY ]} [ObjectId_DISPLAY].

Definition reg_len (r : ObjectRegistry) : Z := Z.of_nat (size (reg_live r)).
Definition reg_is_empty (r : ObjectRegistry) : bool := reg_len r =? 0.

(** [!self.live.contains_key(&id) && self.used.remove(&id)]. *)
Definition retire (id : ObjectId) (r : ObjectRegistry) : bool * ObjectRegistry :=
  match reg_live r !! id with
  | Some _ => (false, r)
  | None => (bool_decide (id ∈ reg_used r),
             MkObjectRegistry (reg_live r) (reg_used r ∖ {[ id ]}) (reg_creation_order r))
  end.

Definition kind_of (r : ObjectRegistry) (id : ObjectId) : option ObjectKind :=
  entry_kind <$> reg_live r !! id.

Definition allocate (id : ObjectId) (kind : ObjectKind) (value : T)
    : ST ObjectRegistry StateError unit := λ r,
  if bool_decide (id ∈ reg_used r) then (Err (ObjectIdAlreadyUsed id), r)
  else (Ok tt, MkObjectRegistry (<[ id := MkRegistryEntry kind value ]> (reg_live r))
                 ({[ id ]} ∪ reg_used r) (reg_creation_order r ++ [id])).

Definition reg_allocate_client (id : ObjectId) (kind : ObjectKind) (value : T)
    : ST ObjectRegistry StateError unit :=
  if negb (is_client_allocatable id) then throw (InvalidObjectId id)
  else allocate id kind value.

Definition entry (r : ObjectRegistry) (id : ObjectId) : result StateError RegistryEntry :=
  ok_or (reg_live r !! id) (InvalidObject id).

(** Writing through [entry_mut]'s reference, or through [live.values_mut()]. *)
Definition set_live (live : gmap ObjectId RegistryEntry) (r : ObjectRegistry) : ObjectRegistry :=
  MkObjectRegistry live (reg_used r) (reg_creation_order r).
Definition set_entry_value (id : ObjectId) (value : T) (r : ObjectRegistry) : ObjectRegistry :=
  set_live (alter (λ e, MkRegistryEntry (entry_kind e) value) id (reg_live r)) r.

Definition reg_remove (id : ObjectId) (r : ObjectRegistry) : option RegistryEntry * ObjectRegistry :=
  (reg_live r !! id, set_live (delete id (reg_live r)) r).

Definition ids_reverse_creation (r : ObjectRegistry) : list ObjectId := rev (reg_creation_order r).
Definition ids (r : ObjectRegistry) : list ObjectId := btree_keys (reg_live r).

Definition reg_kind (r : ObjectRegistry) (id : ObjectId) : result StateError ObjectKind :=
  e ← entry r id; mret (entry_kind e).

(** * Well-formedness: a live identifier is a taken one, and was created *)

Definition registry_wf (r : ObjectRegistry) : Prop :=
  ∀ id, is_Some (reg_live r !! id) → id ∈ reg_used r ∧ id ∈ reg_creation_order r.

Lemma ObjectRegistry_new_wf display : registry_wf (ObjectRegistry_new display).
Proof.
  intros id [e He]. simpl in *. apply lookup_singleton_Some in He as [<- _]. set_solver.
Qed.

Lemma allocate_wf id kind value : preserves registry_wf (allocate id kind value).
Proof.
  intros r Hr. unfold allocate. case_bool_decide; [done|]. intros id' Hl. simpl in *.
  destruct (decide (id = id')) as [<-|]; [split; set_solver|].
  rewrite lookup_insert_ne in Hl by done. apply Hr in Hl. set_solver.
Qed.

Lemma reg_allocate_client_wf id kind value :
  preserves registry_wf (reg_allocate_client id kind value).
Proof.
  unfold reg_allocate_client. case_match; [apply preserves_throw|apply allocate_wf].
Qed.

Lemma reg_remove_wf id r : registry_wf r → registry_wf (reg_remove id r).2.
Proof.
  intros Hr id' Hl. apply Hr. simpl in Hl. destruct (decide (id = id')) as [<-|].
  - rewrite lookup_delete_eq in Hl. by destruct Hl.
  - by rewrite lookup_delete_ne in Hl.
Qed.

Lemma retire_wf id r : registry_wf r → registry_wf (retire id r).2.
Proof.
  intros Hr id' Hl. unfold retire in *. destruct (reg_live r !! id) eqn:E; simpl in *; [by apply Hr|].
  destruct (Hr id' Hl) as [??]. split; [|done].
  assert (id' ≠ id) by (intros ->; rewrite E in Hl; by destruct Hl). set_solver.
Qed.

Lemma set_entry_value_wf id value r : registry_wf r → registry_wf (set_entry_value id value r).
Proof. intros Hr id' Hl. apply Hr. simpl in Hl. by rewrite lookup_alter_is_Some in Hl. Qed.

Lemma elem_of_ids r id : id ∈ ids r ↔ is_Some (reg_live r !! id).
Proof. apply elem_of_btree_keys. Qed.

(** * An identifier's life *)

(** What a client's allocation answers, and what it leaves behind. *)
Lemma reg_allocate_client_Ok id kind value r r' :
  reg_allocate_client id kind value r = (Ok tt, r') ↔
  is_client_allocatable id = true ∧ id ∉ reg_used r ∧
  r' = MkObjectRegistry (<[ id := MkRegistryEntry kind value ]> (reg_live r))
         ({[ id ]} ∪ reg_used r) (reg_creation_order r ++ [id]).
Proof.
  unfold reg_allocate_client, allocate, throw. destruct (is_client_allocatable id); simpl;
    [case_bool_decide|]; naive_solver.
Qed.

Lemma reg_allocate_client_Err id kind value r e r' :
  reg_allocate_client id kind value r = (Err e, r') →
  r' = r ∧ ((e = InvalidObjectId id ∧ is_client_allocatable id = false) ∨
            (e = ObjectIdAlreadyUsed id ∧ id ∈ reg_used r)).
Proof.
  unfold reg_allocate_client, allocate, throw. destruct (is_client_allocatable id); simpl;
    [case_bool_decide|]; naive_solver.
Qed.

Definition destroy_and_retire (id : ObjectId) (r : ObjectRegistry) : ObjectRegistry :=
  (retire id (reg_remove id r).2).2.

Definition cycle (id : ObjectId) (kind : ObjectKind) (value : T) (r : ObjectRegistry)
    : ObjectRegistry :=
  destroy_and_retire id (reg_allocate_client id kind value r).2.

Lemma cycle_spec id kind value r :
  registry_wf r → is_client_allocatable id = true → id ∉ reg_used r →
  cycle id kind value r =
  MkObjectRegistry (reg_live r) (reg_used r) (reg_creation_order r ++ [id]).
Proof.
  intros Hr Ha Hu. unfold cycle.
  destruct (reg_allocate_client id kind value r) as [o r1] eqn:E. simpl.
  assert (reg_live r !! id = None) as Hn.
  { destruct (reg_live r !! id) eqn:El; [|done]. destruct (Hr id); [by eexists|done]. }
  assert (r1 = MkObjectRegistry (<[ id := MkRegistryEntry kind value ]> (reg_live r))
         ({[ id ]} ∪ reg_used r) (reg_creation_order r ++ [id])) as ->.
  { unfold reg_allocate_client, allocate in E. rewrite Ha in E. simpl in E.
    rewrite bool_decide_eq_false_2 in E by done. by injection E as <- <-. }
  unfold destroy_and_retire, retire, reg_remove. simpl. rewrite lookup_delete_eq.
  rewrite delete_insert_id by done. simpl. f_equal. set_solver.
Qed.

Fixpoint cycles (n : nat) (id : ObjectId) (kind : ObjectKind) (value : T) (r : ObjectRegistry)
    : ObjectRegistry :=
  match n with
  | O => r
  | S n => cycles n id kind value (cycle id kind value r)
  end.
End Registry.

Arguments RegistryEntry : clear implicits.
Arguments ObjectRegistry : clear implicits.

(** The registry never holds two objects at one identifier, and an identifier becomes available
    again exactly when it has been removed and retired: allocation takes an identifier iff it is a
    client's and not taken, refuses it otherwise without changing anything, and after removal and
    retirement the same identifier can be allocated again, with every other object where it was. *)
Theorem registry_lifecycle {T} (r : ObjectRegistry T) (id : ObjectId) (kind : ObjectKind) (value : T)
    (Hwf : registry_wf r) :
  let (answer, r1) := reg_allocate_client id kind value r in
  registry_wf r1 ∧
  (answer = Ok tt ↔ is_client_allocatable id = true ∧ id ∉ reg_used r) ∧
  (answer ≠ Ok tt → r1 = r) ∧
  (answer = Ok tt →
     kind_of r id = None ∧ kind_of r1 id = Some kind ∧
     (∀ id', id' ≠ id → kind_of r1 id' = kind_of r id') ∧
     let r2 := destroy_and_retire id r1 in
     registry_wf r2 ∧ reg_live r2 = reg_live r ∧ id ∉ reg_used r2).
Proof.
  pose proof (reg_allocate_client_wf id kind value r Hwf) as Hwf1.
  destruct (reg_allocate_client id kind value r) as [answer r1] eqn:E. simpl in Hwf1.
  split; [done|]. destruct answer as [[]|e].
  - pose proof E as E'. apply reg_allocate_client_Ok in E as (Ha & Hu & ->).
    assert (reg_live r !! id = None) as Hn.
    { destruct (reg_live r !! id) eqn:El; [|done]. destruct (Hwf id); [by eexists|done]. }
    split_and!; [done|done|]. intros _. unfold kind_of. simpl. split_and!.
    + by rewrite Hn.
    + by rewrite lookup_insert_eq.
    + intros id' Hid. by rewrite lookup_insert_ne.
    + apply retire_wf, reg_remove_wf, Hwf1.
    + pose proof (cycle_spec id kind value r Hwf Ha Hu) as Hc. unfold cycle in Hc.
      rewrite E' in Hc. simpl in Hc. by rewrite Hc.
    + pose proof (cycle_spec id kind value r Hwf Ha Hu) as Hc. unfold cycle in Hc.
      rewrite E' in Hc. simpl in Hc. by rewrite Hc.
  - apply reg_allocate_client_Err in E as [-> Hc]. split_and!; [|done|done].
    split; [done|]. intros [Ha Hu]. destruct Hc as [[_ ?]|[_ ?]]; congruence.
Qed.

Lemma registry_lifecycle_witness :
  let r := ObjectRegistry_new tt in
  (reg_allocate_client (MkObjectId 2) KSurface tt r).1 = Ok tt ∧
  registry_wf (reg_allocate_client (MkObjectId 2) KSurface tt r).2.
Proof.
  split; [vm_compute; reflexivity|].
  exact (proj1 (registry_lifecycle (ObjectRegistry_new tt) (MkObjectId 2) KSurface tt
    (ObjectRegistry_new_wf tt))).
Defined.

(** The creation order is never pruned: a client that creates and destroys one object over and
    over leaves the live objects and the taken identifiers as they were, and one more entry in the
    creation order each time, beyond any bound on the objects it may hold. *)
Theorem creation_order_unbounded {T} (n : nat) (r : ObjectRegistry T) (id : ObjectId)
    (kind : ObjectKind) (value : T) (Hwf : registry_wf r) (Ha : is_client_allocatable id = true)
    (Hu : id ∉ reg_used r) :
  let r' := cycles n id kind value r in
  reg_live r' = reg_live r ∧ reg_used r' = reg_used r ∧
  length (reg_creation_order r') = (length (reg_creation_order r) + n)%nat.
Proof.
  revert r Hwf Hu. induction n as [|n IH]; intros r Hwf Hu; simpl; [split_and!; [done|done|lia]|].
  pose proof (cycle_spec id kind value r Hwf Ha Hu) as Hc.
  destruct (IH (cycle id kind value r)) as (H1 & H2 & H3).
  - rewrite Hc. intros id' Hl. destruct (Hwf id' Hl). simpl. set_solver.
  - by rewrite Hc.
  - rewrite Hc in H1, H2, H3. simpl in *. rewrite length_app in H3. simpl in H3.
    rewrite Hc. split_and!; [done|done|lia].
Qed.

Lemma creation_order_unbounded_witness :
  length (reg_creation_order (cycles 1000 (MkObjectId 2) KSurface tt (ObjectRegistry_new tt))) =
  1001%nat.
Proof.
  apply (creation_order_unbounded 1000 (ObjectRegistry_new tt) (MkObjectId 2) KSurface tt);
    [apply ObjectRegistry_new_wf|reflexivity|].
  intros H0. apply (bool_decide_eq_true_2 _) in H0. vm_compute in H0. discriminate.
Defined.
