(* ===== verification/Outputs.v ===== *)
(** Displays, and the identity that survives one being unplugged
    ([atria-compositor/src/output.rs]). *)
From S2P Require Import Prelude.
From S2P Require Import BTree.
From S2P Require Import Vocabulary.
From S2P Require Import Interface.
From S2P Require Import Wire.
From S2P Require Import Payloads.
From S2P Require Import Model.

(** * A display's properties *)

Record OutputInfo := MkOutputInfo {
  oi_size : Size;
  oi_physical_millimetres : Size;
  oi_scale_numerator : Z;
  oi_scale_denominator : Z;
  oi_refresh_millihertz : Z;
}.

#[global] Instance OutputInfo_eq_dec : EqDecision OutputInfo.
Proof. solve_decision. Defined.

Definition MAX_SCALE_TERM : Z := 65536.

(** [while b != 0 { next = a % b; a = b; b = next }]. *)
Fixpoint gcd_loop (fuel : nat) (a b : Z) : Z :=
  match fuel with
  | O => a
  | S n => if b =? 0 then a else gcd_loop n b (a mod b)
  end.
(** The second argument shrinks at every step, so its value is fuel enough. *)
Definition greatest_common_divisor (a b : Z) : Z := gcd_loop (S (Z.to_nat b)) a b.

Definition scale_is_canonical (i : OutputInfo) : bool :=
  if (oi_scale_numerator i =? 0) || (oi_scale_denominator i =? 0) then false
  else if (MAX_SCALE_TERM <? oi_scale_numerator i) || (MAX_SCALE_TERM <? oi_scale_denominator i)
  then false
  else greatest_common_divisor (oi_scale_numerator i) (oi_scale_denominator i) =? 1.

(** * Geometry *)

Definition overlaps (a b : Rect) : bool :=
  let a_right := saturating_add_unsigned (rect_x a) (rect_width a) in
  let a_bottom := saturating_add_unsigned (rect_y a) (rect_height a) in
  let b_right := saturating_add_unsigned (rect_x b) (rect_width b) in
  let b_bottom := saturating_add_unsigned (rect_y b) (rect_height b) in
  (rect_x a <? b_right) && (rect_x b <? a_right) && (rect_y a <? b_bottom)
  && (rect_y b <? a_bottom).

Definition clamp_into (screen area : Rect) : Point :=
  let max_x := saturating_add_unsigned (rect_x screen)
    (saturating_sub_u (rect_width screen) (rect_width area)) in
  let max_y := saturating_add_unsigned (rect_y screen)
    (saturating_sub_u (rect_height screen) (rect_height area)) in
  let x := if rect_x area <? rect_x screen then rect_x screen
           else if max_x <? rect_x area then max_x else rect_x area in
  let y := if rect_y area <? rect_y screen then rect_y screen
           else if max_y <? rect_y area then max_y else rect_y area in
  MkPoint x y.

(** * The set of displays *)

Record Output := MkOutput {
  output_info : OutputInfo;
  output_source : IdentitySource;
  output_present : bool;
  output_position : option Point;
}.

Record TopologyDelta := MkTopologyDelta {
  arrived : list OutputId;
  returned : list OutputId;
  departed : list OutputId;
  reconfigured : list OutputId;
}.

Definition TopologyDelta_default : TopologyDelta := MkTopologyDelta [] [] [] [].

Definition TopologyDelta_is_empty (d : TopologyDelta) : bool :=
  match d with MkTopologyDelta [] [] [] [] => true | _ => false end.

Definition push_arrived i d :=
  MkTopologyDelta (arrived d ++ [i]) (returned d) (departed d) (reconfigured d).
Definition push_returned i d :=
  MkTopologyDelta (arrived d) (returned d ++ [i]) (departed d) (reconfigured d).
Definition push_departed i d :=
  MkTopologyDelta (arrived d) (returned d) (departed d ++ [i]) (reconfigured d).
Definition push_reconfigured i d :=
  MkTopologyDelta (arrived d) (returned d) (departed d) (reconfigured d ++ [i]).

Abbreviation OutputSet := (gmap OutputId Output).

Definition OutputSet_new : OutputSet := ∅.

(** One display of the listed set. *)
Definition apply_listed (os : OutputSet * TopologyDelta)
    (listed : OutputId * IdentitySource * OutputInfo) : OutputSet * TopologyDelta :=
  let '(outputs, delta) := os in
  let '(id, source, info) := listed in
  match outputs !! id with
  | Some output =>
      if output_present output then
        (<[ id := MkOutput info source true (output_position output) ]> outputs,
         if decide (output_info output = info) then delta else push_reconfigured id delta)
      else
        (<[ id := MkOutput info source true (output_position output) ]> outputs,
         push_returned id delta)
  | None =>
      (<[ id := MkOutput info source true None ]> outputs, push_arrived id delta)
  end.

Definition is_listed (present : list (OutputId * IdentitySource * OutputInfo)) (i : OutputId) : bool :=
  bool_decide (i ∈ present.*1.*1).

(** One known display, in the second pass. *)
Definition apply_unlisted (present : list (OutputId * IdentitySource * OutputInfo))
    (os : OutputSet * TopologyDelta) (identity : OutputId) : OutputSet * TopologyDelta :=
  let '(outputs, delta) := os in
  match outputs !! identity with
  | Some output =>
      if output_present output && negb (is_listed present identity) then
        (<[ identity := MkOutput (output_info output) (output_source output) false
              (output_position output) ]> outputs, push_departed identity delta)
      else os
  | None => os
  end.

Definition OutputSet_apply (present : list (OutputId * IdentitySource * OutputInfo))
    (self : OutputSet) : OutputSet * TopologyDelta :=
  let os := foldl apply_listed (self, TopologyDelta_default) present in
  foldl (apply_unlisted present) os (btree_keys os.1).

Definition OutputSet_place (identity : OutputId) (position : Point) (self : OutputSet)
    : bool * OutputSet :=
  match self !! identity with
  | Some output =>
      (true, <[ identity := MkOutput (output_info output) (output_source output)
                  (output_present output) (Some position) ]> self)
  | None => (false, self)
  end.

Definition output_area (self : OutputSet) (identity : OutputId) : option Rect :=
  output ← self !! identity;
  if negb (output_present output) then None
  else
    position ← output_position output;
    Some (MkRect (point_x position) (point_y position)
      (size_width (oi_size (output_info output))) (size_height (oi_size (output_info output)))).

Definition OutputSet_source (self : OutputSet) (identity : OutputId) : option IdentitySource :=
  output_source <$> self !! identity.
Definition OutputSet_info (self : OutputSet) (identity : OutputId) : option OutputInfo :=
  output_info <$> self !! identity.

(** [self.outputs.keys().filter_map(|identity| self.area(identity))]. *)
Definition screens (self : OutputSet) : list Rect := omap (output_area self) (btree_keys self).

Definition is_reachable (self : OutputSet) (area : Rect) : bool :=
  existsb (λ screen, overlaps screen area) (screens self).

(** [i64] arithmetic outside its range wraps in a release build (and panics in a debug one). *)
Definition wrap_i64 (z : Z) : Z := (z - i64_min) mod (u64_max + 1) + i64_min.

Definition distance (area : Rect) (candidate : Point) : Z :=
  let dx := point_x candidate - rect_x area in
  let dy := point_y candidate - rect_y area in
  wrap_i64 (wrap_i64 (dx * dx) + wrap_i64 (dy * dy)).

(** [Iterator::min_by_key]: the first of the least. *)
Fixpoint min_by_key {A} (key : A → Z) (l : list A) : option A :=
  match l with
  | [] => None
  | x :: l' =>
      match min_by_key key l' with
      | None => Some x
      | Some y => if key y <? key x then Some y else Some x
      end
  end.

Definition nearest_reachable (self : OutputSet) (area : Rect) : option Point :=
  if is_reachable self area then Some (MkPoint (rect_x area) (rect_y area))
  else min_by_key (distance area) ((λ screen, clamp_into screen area) <$> screens self).

Definition is_present (self : OutputSet) (identity : OutputId) : bool :=
  match self !! identity with Some output => output_present output | None => false end.
Definition is_known (self : OutputSet) (identity : OutputId) : bool :=
  match self !! identity with Some _ => true | None => false end.
Definition OutputSet_present (self : OutputSet) : list OutputId :=
  filter (λ i, is_present self i = true) (btree_keys self).
Definition OutputSet_len (self : OutputSet) : Z := Z.of_nat (size self).
Definition OutputSet_is_empty (self : OutputSet) : bool := OutputSet_len self =? 0.
Definition OutputSet_forget (identity : OutputId) (self : OutputSet) : bool * OutputSet :=
  (is_known self identity, delete identity self).

(** * The scale *)

Lemma gcd_loop_spec fuel a b :
  0 ≤ a → 0 ≤ b < Z.of_nat fuel → gcd_loop fuel a b = Z.gcd a b.
Proof.
  revert a b. induction fuel as [|fuel IH]; intros a b Ha Hb; [lia|]. simpl.
  destruct (Z.eqb_spec b 0) as [->|Hb0].
  - by rewrite Z.gcd_0_r_nonneg.
  - rewrite IH.
    + rewrite Z.gcd_comm, Z.gcd_mod, Z.gcd_comm by done. reflexivity.
    + lia.
    + pose proof (Z.mod_pos_bound a b). lia.
Qed.

(** The Euclidean loop ends and computes the greatest common divisor, so a scale is canonical
    exactly when both terms are positive, bounded and coprime: two canonical scales are the same
    ratio only when their fields are equal. *)
Theorem scale_canonical_spec (i j : OutputInfo)
    (Hi : is_u32 (oi_scale_numerator i) ∧ is_u32 (oi_scale_denominator i))
    (Hj : is_u32 (oi_scale_numerator j) ∧ is_u32 (oi_scale_denominator j)) :
  (scale_is_canonical i = true ↔
     1 ≤ oi_scale_numerator i ≤ MAX_SCALE_TERM ∧ 1 ≤ oi_scale_denominator i ≤ MAX_SCALE_TERM ∧
     Z.gcd (oi_scale_numerator i) (oi_scale_denominator i) = 1) ∧
  (scale_is_canonical i = true → scale_is_canonical j = true →
     oi_scale_numerator i * oi_scale_denominator j = oi_scale_numerator j * oi_scale_denominator i →
     oi_scale_numerator i = oi_scale_numerator j ∧ oi_scale_denominator i = oi_scale_denominator j).
Proof.
  assert (∀ k, is_u32 (oi_scale_numerator k) ∧ is_u32 (oi_scale_denominator k) →
    scale_is_canonical k = true ↔
     1 ≤ oi_scale_numerator k ≤ MAX_SCALE_TERM ∧ 1 ≤ oi_scale_denominator k ≤ MAX_SCALE_TERM ∧
     Z.gcd (oi_scale_numerator k) (oi_scale_denominator k) = 1) as Hs.
  { intros k [Hn Hd]. unfold is_u32 in *. unfold scale_is_canonical, greatest_common_divisor.
    rewrite gcd_loop_spec by lia.
    destruct (Z.eqb_spec (oi_scale_numerator k) 0), (Z.eqb_spec (oi_scale_denominator k) 0);
      cbn [orb]; try (split; [done|lia]).
    destruct (Z.ltb_spec MAX_SCALE_TERM (oi_scale_numerator k)),
      (Z.ltb_spec MAX_SCALE_TERM (oi_scale_denominator k)); cbn [orb]; try (split; [done|lia]).
    rewrite Z.eqb_eq. lia. }
  split; [by apply Hs|]. rewrite !Hs by done. intros (Hn & Hd & Hg) (Hn' & Hd' & Hg') He.
  assert ((oi_scale_numerator i | oi_scale_numerator j)) as D1.
  { apply (Z.gauss _ (oi_scale_denominator i)); [|done]. exists (oi_scale_denominator j). lia. }
  assert ((oi_scale_numerator j | oi_scale_numerator i)) as D2.
  { apply (Z.gauss _ (oi_scale_denominator j)); [|done]. exists (oi_scale_denominator i). lia. }
  assert (oi_scale_numerator i = oi_scale_numerator j) as E
    by (apply Z.divide_antisym_nonneg; lia || done).
  split; [done|]. rewrite E in He. nia.
Qed.

Definition info_3_2 : OutputInfo := MkOutputInfo (MkSize 1920 1080) (MkSize 527 296) 3 2 59940.

Lemma scale_canonical_spec_witness :
  scale_is_canonical info_3_2 = true ∧ Z.gcd 3 2 = 1.
Proof.
  split; [vm_compute; reflexivity|].
  refine (proj2 (proj2 (proj1 (proj1 (scale_canonical_spec info_3_2 info_3_2 _ _)) _)));
    [split; split; vm_compute; discriminate|split; split; vm_compute; discriminate
    |vm_compute; reflexivity].
Defined.

(** * Topology *)

Definition known_as (o : Output) (info : OutputInfo) (source : IdentitySource) (present : bool)
    (position : option Point) : Prop :=
  o = MkOutput info source present position.

(** What one listed display does to the set, whatever the delta. *)
Lemma apply_listed_outputs os i source info :
  (apply_listed os (i, source, info)).1 =
  <[ i := MkOutput info source true (os.1 !! i ≫= output_position) ]> os.1.
Proof.
  destruct os as [outputs delta]. simpl. destruct (outputs !! i) as [o|]; simpl; [|done].
  by destruct (output_present o).
Qed.

Lemma apply_listed_all present os i :
  NoDup present.*1.*1 →
  (foldl apply_listed os present).1 !! i =
  match list_find_first (λ l, bool_decide (l.1.1 = i)) present with
  | Some l => Some (MkOutput l.2 l.1.2 true (os.1 !! i ≫= output_position))
  | None => os.1 !! i
  end.
Proof.
  revert os. induction present as [|[[j source] info] present IH]; intros os Hnd; [done|].
  rewrite !fmap_cons in Hnd. apply NoDup_cons in Hnd as [Hj Hnd]. cbn [foldl list_find_first].
  rewrite IH, apply_listed_outputs by done. cbn [fst snd]. case_bool_decide as E.
  - subst j. destruct (list_find_first _ present) as [l|] eqn:El.
    + apply list_find_first_Some in El as (b & a & -> & E%bool_decide_eq_true & _). exfalso.
      apply Hj. rewrite <- E, !fmap_app, !fmap_cons. set_solver.
    + by rewrite lookup_insert_eq.
  - by rewrite !lookup_insert_ne.
Qed.

(** Where a display stands in the delta after the first pass. *)
Definition delta_after (before : option Output) (i : OutputId) (d : TopologyDelta)
    (listed : option OutputInfo) : Prop :=
  (i ∈ arrived d ↔ before = None ∧ listed ≠ None) ∧
  (i ∈ returned d ↔ (∃ o, before = Some o ∧ output_present o = false) ∧ listed ≠ None) ∧
  (i ∈ reconfigured d ↔ ∃ o info, before = Some o ∧ output_present o = true ∧
                                  listed = Some info ∧ output_info o ≠ info) ∧
  i ∉ departed d.

Lemma apply_listed_delta_other os j source info i :
  i ≠ j →
  let d := os.2 in let d' := (apply_listed os (j, source, info)).2 in
  (i ∈ arrived d' ↔ i ∈ arrived d) ∧ (i ∈ returned d' ↔ i ∈ returned d) ∧
  (i ∈ reconfigured d' ↔ i ∈ reconfigured d) ∧ departed d' = departed d.
Proof.
  intros Hij. destruct os as [outputs d]. simpl. destruct (outputs !! j) as [o|].
  - destruct (output_present o); simpl; [case_decide; simpl|]; split_and!; done || set_solver.
  - simpl. split_and!; done || set_solver.
Qed.

Lemma foldl_listed_delta_other present os i :
  i ∉ present.*1.*1 →
  let d := os.2 in let d' := (foldl apply_listed os present).2 in
  (i ∈ arrived d' ↔ i ∈ arrived d) ∧ (i ∈ returned d' ↔ i ∈ returned d) ∧
  (i ∈ reconfigured d' ↔ i ∈ reconfigured d) ∧ departed d' = departed d.
Proof.
  revert os. induction present as [|[[j source] info] present IH]; intros os Hi; [done|].
  rewrite !fmap_cons in Hi. apply not_elem_of_cons in Hi as [Hij Hi]. cbn [foldl].
  destruct (IH (apply_listed os (j, source, info)) Hi) as (H1 & H2 & H3 & H4).
  destruct (apply_listed_delta_other os j source info i Hij) as (H5 & H6 & H7 & H8).
  cbv zeta in *. rewrite H1, H2, H3, H4, H5, H6, H7, H8. done.
Qed.

Definition listed_as (present : list (OutputId * IdentitySource * OutputInfo)) (i : OutputId)
    : option (OutputId * IdentitySource * OutputInfo) :=
  list_find_first (λ l, bool_decide (l.1.1 = i)) present.

Lemma listed_as_None present i : listed_as present i = None ↔ i ∉ present.*1.*1.
Proof.
  unfold listed_as. rewrite list_find_first_None. induction present as [|l present IH].
  - simpl. split; [set_solver|auto].
  - rewrite Forall_cons, !fmap_cons, not_elem_of_cons, IH, bool_decide_eq_false. naive_solver.
Qed.

Lemma is_listed_as present i :
  is_listed present i = match listed_as present i with Some _ => true | None => false end.
Proof.
  unfold is_listed. destruct (listed_as present i) eqn:E.
  - apply bool_decide_eq_true_2, dec_stable. intros H0%listed_as_None. congruence.
  - by apply bool_decide_eq_false_2, listed_as_None.
Qed.

Definition untold (i : OutputId) (d : TopologyDelta) : Prop :=
  i ∉ arrived d ∧ i ∉ returned d ∧ i ∉ reconfigured d ∧ i ∉ departed d.

Lemma elem_of_snoc {A} (x : A) l : x ∈ l ++ [x].
Proof. apply elem_of_app. right. by apply list_elem_of_singleton. Qed.

Lemma apply_listed_delta_own os i source info :
  untold i os.2 →
  delta_after (os.1 !! i) i (apply_listed os (i, source, info)).2 (Some info).
Proof.
  destruct os as [outputs d]. intros (Ha & Hr & Hc & Hd). simpl in *. unfold delta_after.
  destruct (outputs !! i) as [o|] eqn:Eo; simpl; [destruct (output_present o) eqn:Ep; simpl;
    [case_decide as Ei; simpl|]|]; split_and!; try done; split.
  all: try (intros ?; exfalso; done).
  all: try (by intros [? ?]).
  all: try (intros _; apply elem_of_snoc).
  - intros [(o' & [= <-] & ?) _]. congruence.
  - intros (o' & info' & [= <-] & _ & [= <-] & ?). done.
  - intros [(o' & [= <-] & ?) _]. congruence.
  - intros _. by exists o, info.
  - intros _. split; [by exists o|done].
  - intros (o' & info' & [= <-] & ? & _). congruence.
  - by intros _.
  - intros [(o' & Hn & _) _]. discriminate.
  - intros (o' & info' & Hn & _). discriminate.
Qed.

Lemma foldl_listed_delta present os i :
  NoDup present.*1.*1 →
  i ∉ arrived os.2 → i ∉ returned os.2 → i ∉ reconfigured os.2 → i ∉ departed os.2 →
  delta_after (os.1 !! i) i (foldl apply_listed os present).2 (snd <$> listed_as present i).
Proof.
  revert os. induction present as [|[[j source] info] present IH];
    intros os Hnd Ha Hr Hc Hd; cbn [foldl]; unfold listed_as; cbn [list_find_first fst].
  - unfold delta_after. simpl. split_and!; naive_solver.
  - rewrite !fmap_cons in Hnd. apply NoDup_cons in Hnd as [Hj Hnd]. case_bool_decide as E.
    + subst j. cbn. destruct (foldl_listed_delta_other present (apply_listed os (i, source, info)) i Hj)
        as (H1 & H2 & H3 & H4). cbv zeta in *. unfold delta_after. rewrite H1, H2, H3, H4.
      apply (apply_listed_delta_own os i source info). by repeat split.
    + destruct (apply_listed_delta_other os j source info i) as (H1 & H2 & H3 & H4); [done|].
      cbv zeta in *. specialize (IH (apply_listed os (j, source, info)) Hnd).
      rewrite apply_listed_outputs, lookup_insert_ne in IH by done.
      apply IH; rewrite ?H1, ?H2, ?H3, ?H4; done.
Qed.

(** The second pass, at one identity. *)
Definition unlisted_result (present : list (OutputId * IdentitySource * OutputInfo)) (i : OutputId)
    (o : Output) : Output :=
  if output_present o && negb (is_listed present i)
  then MkOutput (output_info o) (output_source o) false (output_position o) else o.

Lemma apply_unlisted_at present os i :
  apply_unlisted present os i =
  (alter (unlisted_result present i) i os.1,
   match os.1 !! i with
   | Some o => if output_present o && negb (is_listed present i)
               then push_departed i os.2 else os.2
   | None => os.2
   end).
Proof.
  destruct os as [outputs d]. unfold apply_unlisted, unlisted_result. cbn [fst snd].
  destruct (outputs !! i) as [o|] eqn:E.
  - destruct (_ && _) eqn:Eb; f_equal.
    + apply map_eq. intros j. destruct (decide (i = j)) as [<-|].
      * rewrite lookup_insert_eq, lookup_alter_eq, E. simpl. by rewrite Eb.
      * by rewrite lookup_insert_ne, lookup_alter_ne.
    + symmetry. apply map_eq. intros j. destruct (decide (i = j)) as [<-|].
      * rewrite lookup_alter_eq, E. simpl. by rewrite Eb.
      * by rewrite lookup_alter_ne.
  - by rewrite alter_id_strong || (f_equal; symmetry; apply map_eq; intros j;
      destruct (decide (i = j)) as [<-|]; [by rewrite lookup_alter_eq, E|by rewrite lookup_alter_ne]).
Qed.

Lemma foldl_unlisted present os keys i :
  NoDup keys →
  let r := foldl (apply_unlisted present) os keys in
  r.1 !! i = (if decide (i ∈ keys) then unlisted_result present i <$> os.1 !! i else os.1 !! i) ∧
  (arrived r.2 = arrived os.2 ∧ returned r.2 = returned os.2 ∧
   reconfigured r.2 = reconfigured os.2) ∧
  (i ∈ departed r.2 ↔ i ∈ departed os.2 ∨
     (i ∈ keys ∧ ∃ o, os.1 !! i = Some o ∧ output_present o = true ∧ is_listed present i = false)).
Proof.
  revert os. induction keys as [|j keys IH]; intros os Hnd; cbn [foldl].
  - split_and!; try done. split; [auto|set_solver].
  - apply NoDup_cons in Hnd as [Hj Hnd]. destruct (IH (apply_unlisted present os j) Hnd)
      as (H1 & (H2 & H3 & H4) & H5). cbv zeta in *. rewrite H1, H2, H3, H4, H5. clear IH H1 H2 H3 H4 H5.
    rewrite apply_unlisted_at. cbn [fst snd]. split_and!.
    + destruct (decide (i = j)) as [->|Hij].
      * rewrite decide_False by done. rewrite decide_True by set_solver. apply lookup_alter_eq.
      * rewrite lookup_alter_ne by done. destruct (decide (i ∈ keys)).
        -- by rewrite decide_True by set_solver.
        -- by rewrite decide_False by set_solver.
    + repeat case_match; done.
    + repeat case_match; done.
    + repeat case_match; done.
    + destruct (decide (i = j)) as [->|Hij].
      * rewrite lookup_alter_eq, elem_of_cons.
        destruct (os.1 !! j) as [o|] eqn:Eo.
        -- split.
           ++ intros [Hd|[? _]]; [|done]. destruct (_ && _) eqn:Eb; [|by left].
              apply andb_true_iff in Eb as [? ?%negb_true_iff].
              right. split; [by left|]. by exists o.
           ++ intros [Hd|(_ & o' & [= <-] & Hp & Hl)].
              ** left. destruct (_ && _); [|done]. simpl. apply elem_of_app. by left.
              ** left. rewrite Hp, Hl. apply elem_of_snoc.
        -- split; [intros [?|[? _]]; [by left|done]|].
           intros [?|(_ & o' & ? & _)]; [by left|done].
      * rewrite lookup_alter_ne, elem_of_cons by done.
        assert (∀ d, i ∈ departed (push_departed j d) ↔ i ∈ departed d) as Hp.
        { intros d. simpl. rewrite elem_of_app, list_elem_of_singleton. tauto. }
        destruct (os.1 !! j) as [o|]; [destruct (_ && _)|]; rewrite ?Hp; tauto.
Qed.

(** One topology change, whole: afterwards a display is present exactly when it is listed, with
    what the list says of it; a display that is not listed is kept, absent, with everything that was
    known of it; the position a shell gave it survives either way. The delta says of every display
    which of the four things happened to it, and nothing else. *)
Theorem OutputSet_apply_spec (self : OutputSet)
    (present : list (OutputId * IdentitySource * OutputInfo)) (i : OutputId)
    (Hnd : NoDup present.*1.*1) :
  let before := self !! i in
  let listed := listed_as present i in
  let (after, delta) := OutputSet_apply present self in
  after !! i =
    match listed with
    | Some l => Some (MkOutput l.2 l.1.2 true (before ≫= output_position))
    | None => (λ o, MkOutput (output_info o) (output_source o) false (output_position o)) <$> before
    end ∧
  (i ∈ arrived delta ↔ before = None ∧ listed ≠ None) ∧
  (i ∈ returned delta ↔ (∃ o, before = Some o ∧ output_present o = false) ∧ listed ≠ None) ∧
  (i ∈ reconfigured delta ↔ ∃ o l, before = Some o ∧ output_present o = true ∧
                                   listed = Some l ∧ output_info o ≠ l.2) ∧
  (i ∈ departed delta ↔ (∃ o, before = Some o ∧ output_present o = true) ∧ listed = None).
Proof.
  cbv zeta. unfold OutputSet_apply.
  set (os := foldl apply_listed (self, TopologyDelta_default) present).
  pose proof (apply_listed_all present (self, TopologyDelta_default) i Hnd) as Hall.
  fold os in Hall. cbn [fst] in Hall. fold (listed_as present i) in Hall.
  destruct (foldl_listed_delta present (self, TopologyDelta_default) i Hnd) as (D1 & D2 & D3 & D4);
    [apply not_elem_of_nil..|]. fold os in D1, D2, D3, D4. cbn [fst] in D1, D2, D3.
  destruct (foldl_unlisted present os (btree_keys os.1) i (btree_keys_NoDup _))
    as (U1 & (U2 & U3 & U4) & U5).
  cbv zeta in *. destruct (foldl (apply_unlisted present) os (btree_keys os.1)) as [after delta].
  cbn [fst snd] in *.
  assert (after !! i = unlisted_result present i <$> os.1 !! i) as U1'.
  { rewrite U1. case_decide as Hk; [done|]. rewrite elem_of_btree_keys in Hk.
    destruct (os.1 !! i); [destruct Hk; by eexists|done]. }
  rewrite U1', U2, U3, U4, U5, D1, D2, D3, elem_of_btree_keys, Hall. clear U1 U1' U2 U3 U4 U5 D1 D2 D3.
  unfold unlisted_result. rewrite is_listed_as.
  destruct (listed_as present i) as [l|] eqn:El; cbn [fmap option_fmap option_map].
  - split_and!; [done|naive_solver|naive_solver|naive_solver|naive_solver].
  - split_and!; [|naive_solver|naive_solver|naive_solver|].
    + destruct (self !! i) as [[? ? [] ?]|]; done.
    + split; [intros [?|(_ & o & ? & ? & _)]; [done|by eauto]|].
      intros [(o & -> & ?) _]. right. split; [by eexists|by eexists].
Qed.

Definition dock : list (OutputId * IdentitySource * OutputInfo) :=
  [(MkOutputId 7, FromPanel, info_3_2); (MkOutputId 9, FromPosition, info_3_2)].

Lemma OutputSet_apply_spec_witness :
  let r := OutputSet_apply dock ∅ in
  (MkOutputId 7 ∈ arrived r.2 ↔ (∅ : OutputSet) !! MkOutputId 7 = None ∧
    listed_as dock (MkOutputId 7) ≠ None) ∧
  arrived r.2 = [MkOutputId 7; MkOutputId 9].
Proof.
  split; [|vm_compute; reflexivity].
  pose proof (OutputSet_apply_spec ∅ dock (MkOutputId 7)) as H0. cbv zeta in H0.
  destruct (OutputSet_apply dock ∅) as [after delta].
  apply H0. apply (bool_decide_eq_true_1 _). vm_compute. reflexivity.
Defined.

(** * Reachability *)

(** A display worth putting a window on: some area, and edges that are representable. *)
Definition good_screen (r : Rect) : Prop :=
  is_rect r ∧ 1 ≤ rect_width r ∧ 1 ≤ rect_height r ∧
  rect_x r + rect_width r ≤ i32_max ∧ rect_y r + rect_height r ≤ i32_max.

Definition moved (area : Rect) (p : Point) : Rect :=
  MkRect (point_x p) (point_y p) (rect_width area) (rect_height area).

(** One axis of [clamp_into]. *)
Lemma clamp_axis s sw a aw :
  is_i32 s → 1 ≤ sw → s + sw ≤ i32_max → 1 ≤ aw →
  let m := saturating_add_unsigned s (saturating_sub_u sw aw) in
  let c := if a <? s then s else if m <? a then m else a in
  s ≤ c < s + sw ∧ s < saturating_add_unsigned c aw ∧ saturating_add_unsigned s sw = s + sw ∧
  (a < s → c = s) ∧ (m < a → c = m).
Proof.
  unfold saturating_add_unsigned, saturating_i32, saturating_sub_u. intros Hs Hsw Hm Haw. cbv zeta.
  unfold_widths. repeat case_match; rewrite ?Z.ltb_lt, ?Z.ltb_ge in *; lia.
Qed.

Lemma clamp_into_overlaps screen area :
  good_screen screen → 1 ≤ rect_width area → 1 ≤ rect_height area →
  overlaps screen (moved area (clamp_into screen area)) = true.
Proof.
  intros ((Hx & Hy & _) & Hw & Hh & Hr & Hb) Haw Hah.
  destruct (clamp_axis (rect_x screen) (rect_width screen) (rect_x area) (rect_width area))
    as (X1 & X2 & X3 & _); [done..|].
  destruct (clamp_axis (rect_y screen) (rect_height screen) (rect_y area) (rect_height area))
    as (Y1 & Y2 & Y3 & _); [done..|].
  unfold overlaps, moved, clamp_into. cbn [rect_x rect_y rect_width rect_height point_x point_y].
  rewrite !andb_true_iff, !Z.ltb_lt, X3, Y3. lia.
Qed.

Lemma min_by_key_Some {A} (key : A → Z) l x :
  min_by_key key l = Some x → x ∈ l ∧ ∀ y, y ∈ l → key x ≤ key y.
Proof.
  revert x. induction l as [|y l IH]; intros x; simpl; [done|].
  destruct (min_by_key key l) as [z|] eqn:E.
  - destruct (IH z eq_refl) as [Hz Hmin]. destruct (Z.ltb_spec (key z) (key y)); intros [= <-].
    + split; [set_solver|]. intros w [->|Hw]%elem_of_cons; [lia|by apply Hmin].
    + split; [set_solver|]. intros w [->|Hw]%elem_of_cons; [lia|].
      specialize (Hmin w Hw). lia.
  - intros [= <-]. destruct l as [|w l]; [|by simpl in E; repeat case_match].
    split; [set_solver|]. intros w ->%list_elem_of_singleton. lia.
Qed.

Lemma min_by_key_None {A} (key : A → Z) l : min_by_key key l = None ↔ l = [].
Proof. destruct l; simpl; [done|]. repeat case_match; done. Qed.

Definition near_origin (p : Point) : Prop :=
  - 2 ^ 30 < point_x p < 2 ^ 30 ∧ - 2 ^ 30 < point_y p < 2 ^ 30.

Definition true_distance (area : Rect) (p : Point) : Z :=
  (point_x p - rect_x area) * (point_x p - rect_x area) +
  (point_y p - rect_y area) * (point_y p - rect_y area).

Lemma wrap_i64_id z : i64_min ≤ z ≤ i64_max → wrap_i64 z = z.
Proof. intros Hz. unfold wrap_i64. rewrite Z.mod_small; width_lia. Qed.

Lemma square_bound d b : - b < d < b → 0 ≤ d * d ≤ (b - 1) * (b - 1).
Proof.
  intros Hd. rewrite <- Z.abs_square. pose proof (Z.abs_nonneg d).
  split; [lia|]. apply Z.mul_le_mono_nonneg; lia.
Qed.

Lemma distance_true area p :
  near_origin p → near_origin (MkPoint (rect_x area) (rect_y area)) →
  distance area p = true_distance area p.
Proof.
  unfold near_origin, distance, true_distance. cbn [point_x point_y]. cbv zeta.
  set (dx := point_x p - rect_x area). set (dy := point_y p - rect_y area). intros [Hx Hy] [Hx' Hy'].
  assert (- 2 ^ 31 < dx < 2 ^ 31) by (unfold dx; lia).
  assert (- 2 ^ 31 < dy < 2 ^ 31) by (unfold dy; lia).
  assert (0 ≤ dx * dx ≤ (2 ^ 31 - 1) * (2 ^ 31 - 1)) by (by apply square_bound).
  assert (0 ≤ dy * dy ≤ (2 ^ 31 - 1) * (2 ^ 31 - 1)) by (by apply square_bound).
  clearbody dx dy. rewrite (wrap_i64_id (dx * dx)), (wrap_i64_id (dy * dy)), wrap_i64_id;
    unfold i64_min, i64_max; lia.
Qed.

(** Nothing a user owns is left where it cannot be reached: when any display is attached and
    placed, the position answered for a window overlaps one, a window already reachable stays where
    it is, and otherwise it goes to the display that moves it least (away from the coordinate
    range's far ends); the only way to get no answer is to have no display to answer with. *)
Theorem nearest_reachable_spec (self : OutputSet) (area : Rect)
    (Ha : 1 ≤ rect_width area ∧ 1 ≤ rect_height area) (Hs : Forall good_screen (screens self)) :
  match nearest_reachable self area with
  | None => screens self = []
  | Some p =>
      is_reachable self (moved area p) = true ∧
      (is_reachable self area = true → p = MkPoint (rect_x area) (rect_y area)) ∧
      (is_reachable self area = false →
       near_origin (MkPoint (rect_x area) (rect_y area)) →
       Forall (λ s, near_origin (clamp_into s area)) (screens self) →
       ∀ s, s ∈ screens self → true_distance area p ≤ true_distance area (clamp_into s area))
  end.
Proof.
  destruct Ha as [Hw Hh]. unfold nearest_reachable. destruct (is_reachable self area) eqn:E.
  - split_and!; [|done|done]. by destruct area.
  - destruct (min_by_key _ _) as [p|] eqn:Em.
    + apply min_by_key_Some in Em as [(s & -> & Hin)%list_elem_of_fmap Hmin].
      split_and!; [|done|].
      * unfold is_reachable. apply existsb_exists. exists s. rewrite <- list_elem_of_In. split; [done|].
        apply clamp_into_overlaps; [|done|done]. rewrite Forall_forall in Hs. by apply Hs.
      * intros _ Ho Hn s' Hs'. rewrite Forall_forall in Hn.
        rewrite <- !distance_true by auto. apply Hmin. apply list_elem_of_fmap. by exists s'.
    + by apply min_by_key_None, fmap_nil_inv in Em.
Qed.

Definition two_screens : OutputSet :=
  <[ MkOutputId 1 := MkOutput info_3_2 FromPanel true (Some (MkPoint 1000000000 0)) ]>
  {[ MkOutputId 2 := MkOutput info_3_2 FromPanel true (Some (MkPoint 0 0)) ]}.

Definition lost_window : Rect := MkRect (-500) (-5000) 400 300.

Lemma nearest_reachable_spec_witness :
  nearest_reachable two_screens lost_window = Some (MkPoint 0 0) ∧
  is_reachable two_screens (moved lost_window (MkPoint 0 0)) = true.
Proof.
  split; [vm_compute; reflexivity|].
  refine (proj1 (nearest_reachable_spec two_screens lost_window _ _)).
  - split; vm_compute; discriminate.
  - assert (screens two_screens = [MkRect 1000000000 0 1920 1080; MkRect 0 0 1920 1080]) as ->
      by (vm_compute; reflexivity).
    repeat constructor; vm_compute; discriminate.
Defined.

Definition far_window : Rect := MkRect (-2147483648) 0 400 300.

(** At the far ends of the coordinate range the squared distance does not fit the [i64] it is
    computed in: the wrapped value of the farther display is negative, and a window is put on it
    rather than on the nearer one (a build with overflow checks panics instead). *)
Theorem nearest_reachable_overflow :
  nearest_reachable two_screens far_window = Some (MkPoint 1000000000 0) ∧
  is_reachable two_screens far_window = false ∧
  true_distance far_window (clamp_into (MkRect 0 0 1920 1080) far_window) <
  true_distance far_window (MkPoint 1000000000 0).
Proof. vm_compute. repeat split. Qed.
