(* ===== verification/Binding.v ===== *)
(** From a frame to a request ([atria-compositor/src/{binding,resolve}.rs]): decoding by the kind of the
    object a frame is addressed to, and resolving the handles a request names. *)
From S2P Require Import Prelude.
From S2P Require Import BTree.
From S2P Require Import Vocabulary.
From S2P Require Import Interface.
From S2P Require Import Wire.
From S2P Require Import Messages.
From S2P Require Import Payloads.
From S2P Require Import Model.

(** The interface an object of this kind speaks. *)
Definition interface_of (kind : ObjectKind) : option Interface :=
  match kind with
  | KDisplay => Some IDisplay
  | KRegistry => Some IRegistry
  | KCompositor => Some ICompositor
  | KShm => Some IShm
  | KShell => Some IShell
  | KToplevel => Some IToplevel
  | KShmPool => Some IShmPool
  | KBuffer => Some IBuffer
  | KSurface => Some ISurface
  | KOutput => Some IOutput
  | KShellControl => Some IShellControl
  | KSeat => Some ISeat
  | KPointer => Some IPointer
  | KKeyboard => Some IKeyboard
  | KShortcuts => Some IShortcuts
  | KTextInput => Some ITextInput
  | KInputMethod => Some IInputMethod
  | KSession | KFence | KInputStream => None
  end.

Inductive BindError :=
| BindUnknownOpcode (opcode : Opcode)
| Unmodelled (operation : Operation)
| InterfaceUnassigned (kind : ObjectKind)
| BindPayload (error : DecodeError).

(** A request as the wire described it, with handle slots still unresolved. *)
Inductive DecodedRequest :=
| DqCreateRegistry (new_id : ObjectId)
| DqCreatePool (new_id : ObjectId) (memory : HandleIndex) (size : Z)
| DqCreateBuffer (new_id pool : ObjectId) (offset : Z) (size : Size) (stride format : Z)
| DqCreateSurface (new_id : ObjectId)
| DqBind (name version : Z) (new_id : ObjectId)
| DqGetToplevel (surface new_id : ObjectId)
| DqSetTitle (toplevel : ObjectId) (title : list byte)
| DqGetPointer (seat new_id : ObjectId)
| DqGetKeyboard (seat new_id : ObjectId)
| DqRegisterShortcut (manager : ObjectId) (shortcut : Z) (seat : SeatId) (chord : Chord)
| DqUnregisterShortcut (manager : ObjectId) (shortcut : Z)
| DqEnableText (text_input : ObjectId) (purpose : TextPurpose)
| DqDisableText (text_input : ObjectId)
| DqSetCursorArea (text_input : ObjectId) (area : Rect)
| DqSetPreedit (method : ObjectId) (composition : Z) (text : list byte) (cursor_begin cursor_end : Z)
| DqCommitText (method : ObjectId) (composition : Z) (text : list byte)
| DqTextDone (method : ObjectId) (composition serial : Z)
| DqShellConfigure (control : ObjectId) (handle : ToplevelHandle) (size : Size) (state : Z)
| DqShellPlace (control : ObjectId) (handle : ToplevelHandle) (position : Point)
| DqShellRaise (control : ObjectId) (handle : ToplevelHandle)
| DqShellFocus (control : ObjectId) (seat : SeatId) (handle : ToplevelHandle)
| DqShellClose (control : ObjectId) (handle : ToplevelHandle)
| DqShellGrab (control : ObjectId) (seat : SeatId) (handle : ToplevelHandle)
| DqSetMinSize (toplevel : ObjectId) (size : Size)
| DqSetMaxSize (toplevel : ObjectId) (size : Size)
| DqAttach (surface buffer : ObjectId) (offset : Point)
| DqDamage (surface : ObjectId) (rect : Rect)
| DqCommit (surface : ObjectId)
| DqRequestFrame (surface : ObjectId) (serial : Z)
| DqDestroy (object : ObjectId).

(** [X::decode(frame.payload)?] in a function that fails with a [BindError]. *)
Definition payload_of {P} (r : result DecodeError P) : result BindError P := map_err BindPayload r.

(** The [match] on the operation. *)
Definition decode_method (object : ObjectId) (operation : Operation) (payload : list byte)
    : result BindError DecodedRequest :=
  match operation with
  | OpDisplayGetRegistry =>
      p ← payload_of (GetRegistry_decode payload);
      mret (DqCreateRegistry (GetRegistry_new_id p))
  | OpShmCreatePool =>
      p ← payload_of (CreatePool_decode payload);
      mret (DqCreatePool (CreatePool_new_id p) (CreatePool_memory p) (CreatePool_size p))
  | OpShmPoolCreateBuffer =>
      p ← payload_of (CreateBuffer_decode payload);
      mret (DqCreateBuffer (CreateBuffer_new_id p) object (CreateBuffer_offset p)
        (MkSize (CreateBuffer_width p) (CreateBuffer_height p)) (CreateBuffer_stride p)
        (CreateBuffer_format p))
  | OpRegistryBind =>
      p ← payload_of (Bind_decode payload);
      mret (DqBind (Bind_name p) (Bind_version p) (Bind_new_id p))
  | OpShellGetToplevel =>
      p ← payload_of (GetToplevel_decode payload);
      mret (DqGetToplevel (GetToplevel_surface p) (GetToplevel_new_id p))
  | OpToplevelSetTitle =>
      p ← payload_of (SetTitle_decode payload);
      mret (DqSetTitle object (SetTitle_title p))
  | OpSeatGetPointer =>
      p ← payload_of (NewId_decode payload);
      mret (DqGetPointer object (NewId_new_id p))
  | OpSeatGetKeyboard =>
      p ← payload_of (NewId_decode payload);
      mret (DqGetKeyboard object (NewId_new_id p))
  | OpShortcutsRegister =>
      p ← payload_of (ShortcutRegistration_decode payload);
      mode ← payload_of (ok_or (ChordMatch_from_raw (ShortcutRegistration_mode p)) SizeOverflow);
      mret (DqRegisterShortcut object (ShortcutRegistration_shortcut p)
        (MkSeatId (ShortcutRegistration_seat p))
        (MkChord (MkPhysicalKey (ShortcutRegistration_trigger p))
          (ShortcutRegistration_modifiers p) mode))
  | OpTextInputEnable =>
      p ← payload_of (Number_decode payload);
      purpose ← payload_of (ok_or (TextPurpose_from_raw (Number_value p)) SizeOverflow);
      mret (DqEnableText object purpose)
  | OpTextInputDisable => Ok (DqDisableText object)
  | OpTextInputSetCursorArea =>
      p ← payload_of (CursorArea_decode payload);
      mret (DqSetCursorArea object (MkRect (CursorArea_x p) (CursorArea_y p) (CursorArea_width p)
        (CursorArea_height p)))
  | OpInputMethodSetPreedit =>
      p ← payload_of (Preedit_decode payload);
      mret (DqSetPreedit object (Preedit_composition p) (Preedit_text p) (Preedit_cursor_begin p)
        (Preedit_cursor_end p))
  | OpInputMethodCommit =>
      p ← payload_of (CommitText_decode payload);
      mret (DqCommitText object (CommitText_composition p) (CommitText_text p))
  | OpInputMethodDone =>
      p ← payload_of (CompositionRound_decode payload);
      mret (DqTextDone object (CompositionRound_composition p) (CompositionRound_serial p))
  | OpShortcutsUnregister =>
      p ← payload_of (Number_decode payload);
      mret (DqUnregisterShortcut object (Number_value p))
  | OpShellControlConfigure =>
      p ← payload_of (ShellConfigure_decode payload);
      mret (DqShellConfigure object (MkToplevelHandle (ShellConfigure_handle p))
        (MkSize (ShellConfigure_width p) (ShellConfigure_height p)) (ShellConfigure_state p))
  | OpShellControlPlace =>
      p ← payload_of (ShellPlace_decode payload);
      mret (DqShellPlace object (MkToplevelHandle (ShellPlace_handle p))
        (MkPoint (ShellPlace_x p) (ShellPlace_y p)))
  | OpShellControlRaise =>
      p ← payload_of (ShellHandle_decode payload);
      mret (DqShellRaise object (MkToplevelHandle (ShellHandle_handle p)))
  | OpShellControlFocus =>
      p ← payload_of (SeatHandle_decode payload);
      mret (DqShellFocus object (MkSeatId (SeatHandle_seat p)) (MkToplevelHandle (SeatHandle_handle p)))
  | OpShellControlClose =>
      p ← payload_of (ShellHandle_decode payload);
      mret (DqShellClose object (MkToplevelHandle (ShellHandle_handle p)))
  | OpShellControlGrab =>
      p ← payload_of (SeatHandle_decode payload);
      mret (DqShellGrab object (MkSeatId (SeatHandle_seat p)) (MkToplevelHandle (SeatHandle_handle p)))
  | OpToplevelSetMinSize =>
      p ← payload_of (SizeHint_decode payload);
      mret (DqSetMinSize object (MkSize (SizeHint_width p) (SizeHint_height p)))
  | OpToplevelSetMaxSize =>
      p ← payload_of (SizeHint_decode payload);
      mret (DqSetMaxSize object (MkSize (SizeHint_width p) (SizeHint_height p)))
  | OpCompositorCreateSurface =>
      p ← payload_of (NewId_decode payload);
      mret (DqCreateSurface (NewId_new_id p))
  | OpSurfaceAttach =>
      p ← payload_of (Attach_decode payload);
      mret (DqAttach object (Attach_buffer p) (MkPoint (Attach_x_offset p) (Attach_y_offset p)))
  | OpSurfaceDamageBuffer =>
      p ← payload_of (DamageBuffer_decode payload);
      mret (DqDamage object (MkRect (DamageBuffer_x p) (DamageBuffer_y p) (DamageBuffer_width p)
        (DamageBuffer_height p)))
  | OpSurfaceFrame =>
      p ← payload_of (Number_decode payload);
      mret (DqRequestFrame object (Number_value p))
  | OpSurfaceCommit =>
      _ ← payload_of (Commit_decode payload);
      mret (DqCommit object)
  | OpSurfaceDestroy | OpBufferDestroy | OpShmPoolDestroy | OpToplevelDestroy =>
      Ok (DqDestroy object)
  | _ => Err (Unmodelled operation)
  end.

Definition decode (kind : ObjectKind) (frame : Frame) : result BindError DecodedRequest :=
  let object := header_object_id (frame_header frame) in
  let opcode := header_opcode (frame_header frame) in
  match interface_of kind with
  | None => Err (InterfaceUnassigned kind)
  | Some interface =>
      operation ← map_err (λ _, BindUnknownOpcode opcode)
                    (decode_operation interface KMethod opcode);
      decode_method object operation (frame_payload frame)
  end.

(** * Resolving handles *)

(** What a transport answers; it may be asked for a slot once, so asking changes it. *)
Class HandleResolver (R : Type) := shared_memory : HandleIndex → ST R ResolveError SharedMem.

Section Resolve.
Context {R : Type} `{!HandleResolver R}.

Definition resolve (request : DecodedRequest) : ST R ResolveError ClientRequest :=
  match request with
  | DqCreateRegistry new_id => mret (RqCreateRegistry new_id)
  | DqCreateBuffer new_id pool offset size stride format =>
      mret (RqCreateBuffer new_id pool offset size stride format)
  | DqCreateSurface new_id => mret (RqCreateSurface new_id)
  | DqBind name version new_id => mret (RqBind name version new_id)
  | DqGetToplevel surface new_id => mret (RqGetToplevel surface new_id)
  | DqSetTitle toplevel title =>
      title ← lift (ok_or (TitleText_new title) (TitleTooLong (len title) MAX_TITLE_BYTES));
      mret (RqSetTitle toplevel title)
  | DqGetPointer seat new_id => mret (RqGetPointer seat new_id)
  | DqGetKeyboard seat new_id => mret (RqGetKeyboard seat new_id)
  | DqRegisterShortcut manager shortcut seat chord =>
      mret (RqRegisterShortcut manager shortcut seat chord)
  | DqUnregisterShortcut manager shortcut => mret (RqUnregisterShortcut manager shortcut)
  | DqEnableText text_input purpose => mret (RqEnableText text_input purpose)
  | DqDisableText text_input => mret (RqDisableText text_input)
  | DqSetCursorArea text_input area => mret (RqSetCursorArea text_input area)
  | DqSetPreedit method composition text cursor_begin cursor_end =>
      text ← lift (ok_or (TextBuffer_new text) (TextTooLong (len text) MAX_TEXT_BYTES));
      mret (RqSetPreedit method composition text cursor_begin cursor_end)
  | DqCommitText method composition text =>
      text ← lift (ok_or (TextBuffer_new text) (TextTooLong (len text) MAX_TEXT_BYTES));
      mret (RqCommitText method composition text)
  | DqTextDone method composition serial => mret (RqTextDone method composition serial)
  | DqShellConfigure control handle size state => mret (RqShellConfigure control handle size state)
  | DqShellPlace control handle position => mret (RqShellPlace control handle position)
  | DqShellRaise control handle => mret (RqShellRaise control handle)
  | DqShellFocus control seat handle => mret (RqShellFocus control seat handle)
  | DqShellClose control handle => mret (RqShellClose control handle)
  | DqShellGrab control seat handle => mret (RqShellGrab control seat handle)
  | DqSetMinSize toplevel size => mret (RqSetMinSize toplevel size)
  | DqSetMaxSize toplevel size => mret (RqSetMaxSize toplevel size)
  | DqAttach surface buffer offset => mret (RqAttach surface buffer offset None)
  | DqDamage surface rect => mret (RqDamage surface rect)
  | DqCommit surface => mret (RqCommit surface)
  | DqRequestFrame surface serial => mret (RqRequestFrame surface serial)
  | DqDestroy object => mret (RqDestroy object)
  | DqCreatePool new_id memory size =>
      resource ← shared_memory memory;
      if memory_size resource <? size
      then throw (TooSmall (handle_index memory) size (memory_size resource))
      else mret (RqCreatePool new_id (MkSharedMem (memory_id resource) size))
  end.

(** Resolution asks for one slot at most. *)
Lemma resolve_claims (request : DecodedRequest) (h : R) :
  (resolve request h).2 = h ∨ ∃ slot, (resolve request h).2 = (shared_memory slot h).2.
Proof.
  destruct request; try (left; reflexivity).
  all: try (left; cbn; rewrite ST_bind_run; cbn; by case_match).
  right. exists memory. cbn. rewrite ST_bind_run.
  destruct (shared_memory memory h) as [[resource|e] h']; [|done]. by case_match.
Qed.
End Resolve.

(** * What a frame says, by the request it becomes

    The operations that become the request, the object the request names as the frame's own, and
    what the payload must be. [read] below is [fields_read]: the payload is these values, in this
    order, and nothing more. *)

Definition request_ops (r : DecodedRequest) : list Operation :=
  match r with
  | DqCreateRegistry _ => [OpDisplayGetRegistry]
  | DqCreatePool _ _ _ => [OpShmCreatePool]
  | DqCreateBuffer _ _ _ _ _ _ => [OpShmPoolCreateBuffer]
  | DqCreateSurface _ => [OpCompositorCreateSurface]
  | DqBind _ _ _ => [OpRegistryBind]
  | DqGetToplevel _ _ => [OpShellGetToplevel]
  | DqSetTitle _ _ => [OpToplevelSetTitle]
  | DqGetPointer _ _ => [OpSeatGetPointer]
  | DqGetKeyboard _ _ => [OpSeatGetKeyboard]
  | DqRegisterShortcut _ _ _ _ => [OpShortcutsRegister]
  | DqUnregisterShortcut _ _ => [OpShortcutsUnregister]
  | DqEnableText _ _ => [OpTextInputEnable]
  | DqDisableText _ => [OpTextInputDisable]
  | DqSetCursorArea _ _ => [OpTextInputSetCursorArea]
  | DqSetPreedit _ _ _ _ _ => [OpInputMethodSetPreedit]
  | DqCommitText _ _ _ => [OpInputMethodCommit]
  | DqTextDone _ _ _ => [OpInputMethodDone]
  | DqShellConfigure _ _ _ _ => [OpShellControlConfigure]
  | DqShellPlace _ _ _ => [OpShellControlPlace]
  | DqShellRaise _ _ => [OpShellControlRaise]
  | DqShellFocus _ _ _ => [OpShellControlFocus]
  | DqShellClose _ _ => [OpShellControlClose]
  | DqShellGrab _ _ _ => [OpShellControlGrab]
  | DqSetMinSize _ _ => [OpToplevelSetMinSize]
  | DqSetMaxSize _ _ => [OpToplevelSetMaxSize]
  | DqAttach _ _ _ => [OpSurfaceAttach]
  | DqDamage _ _ => [OpSurfaceDamageBuffer]
  | DqCommit _ => [OpSurfaceCommit]
  | DqRequestFrame _ _ => [OpSurfaceFrame]
  | DqDestroy _ => [OpSurfaceDestroy; OpBufferDestroy; OpShmPoolDestroy; OpToplevelDestroy]
  end.

Definition request_object (r : DecodedRequest) : option ObjectId :=
  match r with
  | DqCreateRegistry _ | DqCreatePool _ _ _ | DqCreateSurface _ | DqBind _ _ _
  | DqGetToplevel _ _ => None
  | DqCreateBuffer _ o _ _ _ _ | DqSetTitle o _ | DqGetPointer o _ | DqGetKeyboard o _
  | DqRegisterShortcut o _ _ _ | DqUnregisterShortcut o _ | DqEnableText o _ | DqDisableText o
  | DqSetCursorArea o _ | DqSetPreedit o _ _ _ _ | DqCommitText o _ _ | DqTextDone o _ _
  | DqShellConfigure o _ _ _ | DqShellPlace o _ _ | DqShellRaise o _ | DqShellFocus o _ _
  | DqShellClose o _ | DqShellGrab o _ _ | DqSetMinSize o _ | DqSetMaxSize o _ | DqAttach o _ _
  | DqDamage o _ | DqCommit o | DqRequestFrame o _ | DqDestroy o => Some o
  end.

Definition request_reads (r : DecodedRequest) (payload : list byte) : Prop :=
  let read vs := fields_read vs payload in
  match r with
  | DqCreateRegistry o => read [VObject o]
  | DqCreatePool o memory size =>
      handle_kind memory = SharedMemory ∧ read [VObject o; VHandle memory; VU32 size]
  | DqCreateBuffer o _ offset size stride format =>
      read [VObject o; VU32 offset; VU32 (size_width size); VU32 (size_height size); VU32 stride;
            VU32 format]
  | DqCreateSurface o => read [VObject o]
  | DqBind name version o => read [VU32 name; VU32 version; VObject o]
  | DqGetToplevel surface o => read [VObject surface; VObject o]
  | DqSetTitle _ title => read [VString title]
  | DqGetPointer _ o | DqGetKeyboard _ o => read [VObject o]
  | DqRegisterShortcut _ shortcut seat chord =>
      read [VU32 shortcut; VU64 (seat_id seat); VU32 (usage (chord_trigger chord));
            VU32 (chord_modifiers chord); VU32 (ChordMatch_index (chord_mode chord))]
  | DqUnregisterShortcut _ shortcut => read [VU32 shortcut]
  | DqEnableText _ purpose => read [VU32 (TextPurpose_into_raw purpose)]
  | DqSetCursorArea _ area =>
      read [VI32 (rect_x area); VI32 (rect_y area); VU32 (rect_width area); VU32 (rect_height area)]
  | DqSetPreedit _ composition text cursor_begin cursor_end =>
      len text ≤ MAX_TEXT_BYTES ∧
      read [VU32 composition; VString text; VI32 cursor_begin; VI32 cursor_end]
  | DqCommitText _ composition text =>
      len text ≤ MAX_TEXT_BYTES ∧ read [VU32 composition; VString text]
  | DqTextDone _ composition serial => read [VU32 composition; VU32 serial]
  | DqShellConfigure _ handle size state =>
      read [VU64 (toplevel_handle_id handle); VU32 (size_width size); VU32 (size_height size);
            VU32 state]
  | DqShellPlace _ handle position =>
      read [VU64 (toplevel_handle_id handle); VI32 (point_x position); VI32 (point_y position)]
  | DqShellRaise _ handle | DqShellClose _ handle => read [VU64 (toplevel_handle_id handle)]
  | DqShellFocus _ seat handle | DqShellGrab _ seat handle =>
      read [VU64 (seat_id seat); VU64 (toplevel_handle_id handle)]
  | DqSetMinSize _ size | DqSetMaxSize _ size =>
      read [VU32 (size_width size); VU32 (size_height size)]
  | DqAttach _ buffer offset =>
      read [VObject buffer; VI32 (point_x offset); VI32 (point_y offset)]
  | DqDamage _ rect =>
      read [VI32 (rect_x rect); VI32 (rect_y rect); VU32 (rect_width rect); VU32 (rect_height rect)]
  | DqCommit _ => ∃ commit_id configure_serial, read [VU64 commit_id; VU32 configure_serial]
  | DqRequestFrame _ serial => read [VU32 serial]
  | DqDisableText _ | DqDestroy _ => True
  end.

Lemma payload_bind {P} `{PC : PayloadCodec P dec} payload (k : P → result BindError DecodedRequest) r :
  len payload ≤ usize_max →
  (payload_of (dec payload) ≫= k) = Ok r ↔
  ∃ p, payload_admits p ∧ fields_read (payload_fields p) payload ∧ k p = Ok r.
Proof.
  intros Hl. unfold payload_of. split.
  - destruct (dec payload) as [p|e] eqn:E; [|done]. intros Hk. exists p.
    apply decode_fields in E as [Ha Hr]; [|done]. done.
  - intros (p & Ha & Hr & Hk). rewrite (proj2 (decode_fields payload p Hl) (conj Ha Hr)). exact Hk.
Qed.

Lemma ChordMatch_raw_iff raw m : ChordMatch_from_raw raw = Some m ↔ raw = ChordMatch_index m.
Proof.
  unfold ChordMatch_from_raw. destruct (raw =? 0) eqn:E0; [|destruct (raw =? 1) eqn:E1];
    rewrite ?Z.eqb_eq, ?Z.eqb_neq in *; destruct m; simpl; split; try done; lia.
Qed.

Lemma TextPurpose_raw_iff raw p : TextPurpose_from_raw raw = Some p ↔ raw = TextPurpose_into_raw p.
Proof.
  unfold TextPurpose_from_raw. repeat case_match; rewrite ?Z.eqb_eq, ?Z.eqb_neq in *;
    destruct p; simpl; split; try done; try lia.
Qed.

Definition names_object (r : DecodedRequest) (object : ObjectId) : Prop :=
  match request_object r with Some o => o = object | None => True end.

Lemma decode_method_sound object op payload r :
  len payload ≤ usize_max → decode_method object op payload = Ok r →
  op ∈ request_ops r ∧ names_object r object ∧ request_reads r payload.
Proof.
  intros Hl. destruct op; cbn [decode_method]; try done; intros H;
    try (apply payload_bind in H as (p & Ha & Hr & H); [|exact Hl]);
    try (let m := fresh "m" in let Hm := fresh "Hm" in
         apply result_bind_Ok in H as (m & Hm & H); unfold payload_of in Hm;
         match type of Hm with map_err _ (ok_or ?o _) = _ => destruct o eqn:Eo; [|done] end;
         injection Hm as <-;
         first [apply ChordMatch_raw_iff in Eo|apply TextPurpose_raw_iff in Eo]);
    injection H as <-; (split; [cbn; repeat (first [left|right])|]);
    (split; [reflexivity || exact I|]); cbn [request_reads]; try exact I;
    try destruct p; cbn in *; subst; eauto.
Qed.

(** Give the payload a request is decoded from. *)
Ltac from_payload dec p :=
  apply (payload_bind (dec := dec) _ _ _ ltac:(eassumption)); exists p; split_and!; [done|done|].

Lemma decode_method_complete object op payload r :
  len payload ≤ usize_max → op ∈ request_ops r → names_object r object →
  request_reads r payload → decode_method object op payload = Ok r.
Proof.
  intros Hl Hop Ho Hr. destruct r; cbn in Ho; try subst object; cbn in Hr;
    repeat (apply elem_of_cons in Hop as [->|Hop]); try (by apply elem_of_nil in Hop);
    cbn [decode_method]; try reflexivity.
  - from_payload GetRegistry_decode (MkGetRegistry new_id). done.
  - destruct Hr. from_payload CreatePool_decode (MkCreatePool new_id memory size). done.
  - destruct size. from_payload CreateBuffer_decode (MkCreateBuffer new_id offset size_width size_height stride format). done.
  - from_payload NewId_decode (MkNewId new_id). done.
  - from_payload Bind_decode (MkBind name version new_id). done.
  - from_payload GetToplevel_decode (MkGetToplevel surface new_id). done.
  - from_payload SetTitle_decode (MkSetTitle title). done.
  - from_payload NewId_decode (MkNewId new_id). done.
  - from_payload NewId_decode (MkNewId new_id). done.
  - destruct seat, chord as [[] ? mode]. cbn in Hr.
    from_payload ShortcutRegistration_decode (MkShortcutRegistration shortcut seat_id usage chord_modifiers
      (ChordMatch_index mode)). cbn. by rewrite (proj2 (ChordMatch_raw_iff _ mode)).
  - from_payload Number_decode (MkNumber shortcut). done.
  - from_payload Number_decode (MkNumber (TextPurpose_into_raw purpose)). cbn.
    by rewrite (proj2 (TextPurpose_raw_iff _ purpose)).
  - destruct area. from_payload CursorArea_decode (MkCursorArea rect_x rect_y rect_width rect_height). done.
  - destruct Hr. from_payload Preedit_decode (MkPreedit composition text cursor_begin cursor_end). done.
  - destruct Hr. from_payload CommitText_decode (MkCommitText composition text). done.
  - from_payload CompositionRound_decode (MkCompositionRound composition serial). done.
  - destruct handle, size.
    from_payload ShellConfigure_decode (MkShellConfigure toplevel_handle_id size_width size_height state). done.
  - destruct handle, position. from_payload ShellPlace_decode (MkShellPlace toplevel_handle_id point_x point_y). done.
  - destruct handle. from_payload ShellHandle_decode (MkShellHandle toplevel_handle_id). done.
  - destruct handle, seat. from_payload SeatHandle_decode (MkSeatHandle seat_id toplevel_handle_id). done.
  - destruct handle. from_payload ShellHandle_decode (MkShellHandle toplevel_handle_id). done.
  - destruct handle, seat. from_payload SeatHandle_decode (MkSeatHandle seat_id toplevel_handle_id). done.
  - destruct size. from_payload SizeHint_decode (MkSizeHint size_width size_height). done.
  - destruct size. from_payload SizeHint_decode (MkSizeHint size_width size_height). done.
  - destruct offset. from_payload Attach_decode (MkAttach buffer point_x point_y). done.
  - destruct rect. from_payload DamageBuffer_decode (MkDamageBuffer rect_x rect_y rect_width rect_height). done.
  - destruct Hr as (commit_id & configure_serial & Hr).
    from_payload Commit_decode (MkCommit commit_id configure_serial). done.
  - from_payload Number_decode (MkNumber serial). done.
Qed.

(** A frame becomes a request exactly when it says one: the object's kind speaks the interface of
    one of the request's operations, the opcode is that operation's, the object the request acts on
    is the one the frame is addressed to, and the payload is the operation's values with the
    request's in them and nothing more (a destruction or a disabling looks at none). *)
Theorem decode_iff (kind : ObjectKind) (frame : Frame) (r : DecodedRequest)
    (Hl : len (frame_payload frame) ≤ usize_max)
    (Hop : is_u16 (opcode_raw (header_opcode (frame_header frame)))) :
  decode kind frame = Ok r ↔
  (∃ op, op ∈ request_ops r ∧ interface_of kind = Some (op_interface op) ∧ op_kind op = KMethod ∧
         opcode_raw (header_opcode (frame_header frame)) = op_opcode op) ∧
  names_object r (header_object_id (frame_header frame)) ∧
  request_reads r (frame_payload frame).
Proof.
  unfold decode. split.
  - destruct (interface_of kind) as [i|] eqn:Ei; [|done]. intros H.
    apply result_bind_Ok in H as (op & Hd & H). destruct (decode_operation i _ _) as [op'|] eqn:Eo;
      [|done]. injection Hd as <-. apply decode_method_sound in H as (Hin & Hn & Hr); [|done].
    split; [|done]. exists op'. unfold decode_operation in Eo. apply ok_or_Ok in Eo.
    destruct (listed_spec i KMethod _ op' Eo) as (E1 & E2 & E3). rewrite E3.
    split_and!; [done|by rewrite E1|done|]. unfold is_u16 in Hop. lia.
  - intros ((op & Hin & Hi & Hk & Ho) & Hn & Hr). rewrite Hi.
    destruct (header_opcode (frame_header frame)) as [raw] eqn:Eraw. cbn [opcode_raw] in Ho. subst raw.
    rewrite <- Hk, spec_listed. by apply decode_method_complete.
Qed.

(** A client asks the registry for the first global. *)
Definition bind_frame : Frame :=
  MkFrame (MkHeader (MkObjectId 2) (MkOpcode 0) 24 0) (fields_bytes [VU32 1; VU32 1; VObject (MkObjectId 3)]).

Lemma decode_iff_witness : decode KRegistry bind_frame = Ok (DqBind 1 1 (MkObjectId 3)).
Proof.
  apply (decode_iff KRegistry bind_frame (DqBind 1 1 (MkObjectId 3)));
    [vm_compute; discriminate|vm_compute; split; discriminate|].
  split; [|split; [exact I|]].
  - exists OpRegistryBind. split; [left|]. split_and!; reflexivity.
  - apply fields_read_bytes. repeat constructor; vm_compute; discriminate.
Defined.

(** A pool is never larger than the memory behind it: resolving asks the transport once, refuses a
    pool that claims more than the resource holds, and otherwise the request carries the resource's
    name and the size the client asked for; no other request asks the transport for anything, and
    text that is too long is refused, never cut. *)
Theorem resolve_outcome {R} `{!HandleResolver R} (r : DecodedRequest) (h h' : R)
    (answer : result ResolveError ClientRequest) (Hr : resolve r h = (answer, h')) :
  match r with
  | DqCreatePool new_id memory size =>
      match shared_memory memory h with
      | (Ok resource, h1) =>
          h' = h1 ∧
          answer = if memory_size resource <? size
                   then Err (TooSmall (handle_index memory) size (memory_size resource))
                   else Ok (RqCreatePool new_id (MkSharedMem (memory_id resource) size))
      | (Err e, h1) => h' = h1 ∧ answer = Err e
      end
  | DqSetTitle toplevel title =>
      h' = h ∧ answer = if len title <=? MAX_TITLE_BYTES then Ok (RqSetTitle toplevel (MkTitleText title))
                        else Err (TitleTooLong (len title) MAX_TITLE_BYTES)
  | DqSetPreedit _ _ text _ _ | DqCommitText _ _ text =>
      h' = h ∧ (is_ok answer = true ↔ len text ≤ MAX_TEXT_BYTES)
  | _ => h' = h ∧ is_ok answer = true
  end.
Proof.
  destruct r; cbn [resolve] in Hr; try (injection Hr as <- <-; done).
  - rewrite ST_bind_run in Hr. destruct (shared_memory memory h) as [[resource|e] h1].
    + by case_match; injection Hr as <- <-.
    + by injection Hr as <- <-.
  - rewrite ST_bind_run in Hr. cbn [lift] in Hr. unfold TitleText_new in Hr.
    destruct (len title <=? MAX_TITLE_BYTES); by injection Hr as <- <-.
  - rewrite ST_bind_run in Hr. cbn [lift] in Hr. unfold TextBuffer_new in Hr.
    destruct (len text <=? MAX_TEXT_BYTES) eqn:E; injection Hr as <- <-; split; try done;
      [rewrite Z.leb_le in E|rewrite Z.leb_gt in E]; cbn; split; try done; lia.
  - rewrite ST_bind_run in Hr. cbn [lift] in Hr. unfold TextBuffer_new in Hr.
    destruct (len text <=? MAX_TEXT_BYTES) eqn:E; injection Hr as <- <-; split; try done;
      [rewrite Z.leb_le in E|rewrite Z.leb_gt in E]; cbn; split; try done; lia.
Qed.

(** A transport that carried one region of a page. *)
#[export] Instance one_page : HandleResolver (option SharedMem) := λ h memory,
  match memory with
  | Some m => (Ok m, None)
  | None => (Err (SlotEmpty (handle_index h)), None)
  end.

Lemma resolve_outcome_witness :
  let r := DqCreatePool (MkObjectId 4) (MkHandleIndex 0 SharedMemory) 8192 in
  (resolve r (Some (MkSharedMem 9 4096))).1 = Err (TooSmall 0 8192 4096).
Proof.
  exact (proj2 (resolve_outcome (DqCreatePool (MkObjectId 4) (MkHandleIndex 0 SharedMemory) 8192)
    (Some (MkSharedMem 9 4096)) None _ eq_refl)).
Defined.
