(* ===== verification/Emit.v ===== *)
(** From an event to bytes for the client ([atria-compositor/src/emit.rs]). *)
From S2P Require Import Prelude.
From S2P Require Import BTree.
From S2P Require Import Vocabulary.
From S2P Require Import Interface.
From S2P Require Import Wire.
From S2P Require Import Messages.
From S2P Require Import Payloads.
From S2P Require Import Model.
From Stdlib Require Strings.String.

Inductive EmitError := EmitUnassigned | EmitEncode (error : EncodeError).

(** A [&'static str] of the source: its bytes. *)
Definition bytes_of (s : string) : list byte := Stdlib.Strings.String.list_byte_of_string s.

Definition error_name (error : StateError) : list byte :=
  bytes_of match error with
  | InvalidObject _ => "invalid_object"
  | InvalidObjectId _ => "invalid_object_id"
  | ObjectIdAlreadyUsed _ => "object_id_already_used"
  | WrongObjectType _ _ _ => "wrong_object_type"
  | ErrUnknownOpcode _ _ => "unknown_opcode"
  | ConnectionClosed => "connection_closed"
  | InvalidState _ => "invalid_state"
  | UnsupportedCapability _ _ => "unsupported_capability"
  | QuotaExceeded _ => "quota_exceeded"
  | EventQueueOverflow _ => "event_queue_overflow"
  end.

Definition emit {P} `{!EncodePayload P} (object : ObjectId) (operation : Operation) (sequence : Z)
    (payload : P) : ST (list byte) EmitError Z :=
  ST_map_err EmitEncode
    (encode_message object (MkOpcode (op_opcode operation)) sequence payload).

Inductive Empty := MkEmpty.

#[export] Instance Empty_payload : EncodePayload Empty := {|
  encoded_len p := Ok 0;
  encode p := mret tt;
|}.

Definition emit_empty (object : ObjectId) (operation : Operation) (sequence : Z)
    : ST (list byte) EmitError Z := emit object operation sequence MkEmpty.

Definition source_raw (source : IdentitySource) : Z :=
  match source with FromPanel => 0 | FromPosition => 1 end.

(** [u32::from(pressed)]. *)
Definition u32_of_bool (b : bool) : Z := if b then 1 else 0.

Definition encode_event (event : Event) (sequence : Z) : ST (list byte) EmitError Z :=
  let object := event_object event in
  match event_kind event with
  | EvError error =>
      emit ObjectId_DISPLAY OpDisplayError sequence
        (MkDisplayError (error_object_id error) (MkWireErrorCode (ErrorCode_raw (error_code error)))
          (error_name error))
  | EvIdRetired => emit ObjectId_DISPLAY OpDisplayDeleteId sequence (MkNewId object)
  | EvGlobal name interface version =>
      emit object OpRegistryGlobal sequence
        (MkRegistryGlobal name (bytes_of (Interface_name interface)) version)
  | EvGlobalRemove name => emit object OpRegistryGlobalRemove sequence (MkGlobalName name)
  | EvOutputIdentity identity =>
      emit object OpOutputIdentity sequence
        (MkOutputIdentity (as_u64 (Z.shiftr identity 64)) (as_u64 identity))
  | EvOutputGeometry position physical source =>
      emit object OpOutputGeometry sequence
        (MkOutputGeometry (point_x position) (point_y position) (size_width physical)
          (size_height physical) (source_raw source))
  | EvOutputMode size refresh =>
      emit object OpOutputMode sequence (MkOutputMode (size_width size) (size_height size) refresh)
  | EvOutputScale numerator denominator =>
      emit object OpOutputScale sequence (MkOutputScale numerator denominator)
  | EvOutputDone => emit_empty object OpOutputDone sequence
  | EvShellToplevel handle title =>
      emit object OpShellControlToplevel sequence (MkShellToplevel (toplevel_handle_id handle) title)
  | EvShellToplevelGone handle =>
      emit object OpShellControlToplevelGone sequence (MkShellHandle (toplevel_handle_id handle))
  | EvShellFocusChanged seat handle =>
      emit object OpShellControlFocusChanged sequence
        (MkSeatHandle (seat_id seat) (toplevel_handle_id handle))
  | EvPointerEnter serial surface position epoch =>
      emit object OpPointerEnter sequence
        (MkPointerEnter serial surface (point_x position) (point_y position) epoch)
  | EvPointerLeave serial surface epoch =>
      emit object OpPointerLeave sequence (MkPointerLeave serial surface epoch)
  | EvPointerMotion time_ns position epoch =>
      emit object OpPointerMotion sequence
        (MkPointerMotion time_ns (point_x position) (point_y position) epoch)
  | EvPointerButton serial time_ns button pressed epoch =>
      emit object OpPointerButton sequence
        (MkPointerButton serial time_ns button (u32_of_bool pressed) epoch)
  | EvShellInteraction seat handle serial kind position =>
      emit object OpShellControlInteraction sequence
        (MkShellInteraction (seat_id seat) (toplevel_handle_id handle) serial
          (InteractionKind_into_raw kind) (point_x position) (point_y position))
  | EvKeyFocusGained serial surface modifiers epoch held =>
      emit object OpKeyboardEnter sequence
        (MkKeyboardEnter serial surface (modifier_bits modifiers) epoch (usage <$> held))
  | EvKeyFocusLost serial surface epoch =>
      emit object OpKeyboardLeave sequence (MkKeyboardLeave serial surface epoch)
  | EvKey serial time_ns key pressed epoch =>
      emit object OpKeyboardKey sequence
        (MkKeyboardKey serial time_ns (usage key) (u32_of_bool pressed) epoch)
  | EvKeyModifiers modifiers epoch =>
      emit object OpKeyboardModifiers sequence
        (MkKeyboardModifiers (modifier_bits modifiers) 0 0 0 epoch)
  | EvTextEnter surface => emit object OpTextInputEnter sequence (MkNewId surface)
  | EvTextLeave surface => emit object OpTextInputLeave sequence (MkNewId surface)
  | EvTextPreedit composition text cursor_begin cursor_end =>
      emit object OpTextInputPreedit sequence
        (MkPreedit composition (text_str text) cursor_begin cursor_end)
  | EvTextCommit composition text =>
      emit object OpTextInputCommit sequence (MkCommitText composition (text_str text))
  | EvTextDone serial => emit object OpTextInputDone sequence (MkNumber serial)
  | EvMethodActivated surface purpose composition =>
      emit object OpInputMethodActivate sequence
        (MkInputMethodActivation surface (TextPurpose_into_raw purpose) composition)
  | EvMethodDeactivated => emit_empty object OpInputMethodDeactivate sequence
  | EvShortcutTriggered shortcut seat serial time_ns epoch =>
      emit object OpShortcutsTriggered sequence
        (MkShortcutTriggered shortcut (seat_id seat) serial time_ns epoch)
  | EvShellGrabMotion seat position =>
      emit object OpShellControlGrabMotion sequence
        (MkSeatPoint (seat_id seat) (point_x position) (point_y position))
  | EvShellGrabEnd seat => emit object OpShellControlGrabEnd sequence (MkSeatName (seat_id seat))
  | EvShellSnapshotDone => emit_empty object OpShellControlSnapshotDone sequence
  | EvConfigure serial size state =>
      emit object OpToplevelConfigure sequence
        (MkConfigure serial (size_width size) (size_height size) state)
  | EvClose => emit_empty object OpToplevelClose sequence
  | EvBufferRelease => emit_empty object OpBufferRelease sequence
  | EvFrameDone serial timestamp_ns =>
      emit object OpSurfaceFrameDone sequence (MkFrameDone serial timestamp_ns)
  | EvCapabilityRevoked _ | EvObjectDestroyed _ | EvBufferReleaseWithFence _
  | EvFrameDeadline _ _ | EvFrameLate | EvKeyboardLeave | EvKeyboardEnter => throw EmitUnassigned
  end.

(** * What an event says on the wire *)

(** The object it is addressed to, the operation, and the values, in order. *)
Definition event_wire (event : Event) : option (ObjectId * Operation * list wire_value) :=
  let to op vs := Some (event_object event, op, vs) in
  match event_kind event with
  | EvError error =>
      Some (ObjectId_DISPLAY, OpDisplayError,
        [VObject (error_object_id error); VU32 (ErrorCode_raw (error_code error));
         VString (error_name error)])
  | EvIdRetired => Some (ObjectId_DISPLAY, OpDisplayDeleteId, [VObject (event_object event)])
  | EvGlobal name interface version =>
      to OpRegistryGlobal [VU32 name; VString (bytes_of (Interface_name interface)); VU32 version]
  | EvGlobalRemove name => to OpRegistryGlobalRemove [VU32 name]
  | EvOutputIdentity identity =>
      to OpOutputIdentity [VU64 (as_u64 (Z.shiftr identity 64)); VU64 (as_u64 identity)]
  | EvOutputGeometry position physical source =>
      to OpOutputGeometry [VI32 (point_x position); VI32 (point_y position);
        VU32 (size_width physical); VU32 (size_height physical); VU32 (source_raw source)]
  | EvOutputMode size refresh =>
      to OpOutputMode [VU32 (size_width size); VU32 (size_height size); VU32 refresh]
  | EvOutputScale numerator denominator => to OpOutputScale [VU32 numerator; VU32 denominator]
  | EvOutputDone => to OpOutputDone []
  | EvShellToplevel handle title =>
      to OpShellControlToplevel [VU64 (toplevel_handle_id handle); VString title]
  | EvShellToplevelGone handle => to OpShellControlToplevelGone [VU64 (toplevel_handle_id handle)]
  | EvShellFocusChanged seat handle =>
      to OpShellControlFocusChanged [VU64 (seat_id seat); VU64 (toplevel_handle_id handle)]
  | EvPointerEnter serial surface position epoch =>
      to OpPointerEnter [VU32 serial; VObject surface; VI32 (point_x position);
        VI32 (point_y position); VU32 epoch]
  | EvPointerLeave serial surface epoch =>
      to OpPointerLeave [VU32 serial; VObject surface; VU32 epoch]
  | EvPointerMotion time_ns position epoch =>
      to OpPointerMotion [VU64 time_ns; VI32 (point_x position); VI32 (point_y position); VU32 epoch]
  | EvPointerButton serial time_ns button pressed epoch =>
      to OpPointerButton [VU32 serial; VU64 time_ns; VU32 button; VU32 (u32_of_bool pressed);
        VU32 epoch]
  | EvShellInteraction seat handle serial kind position =>
      to OpShellControlInteraction [VU64 (seat_id seat); VU64 (toplevel_handle_id handle);
        VU32 serial; VU32 (InteractionKind_into_raw kind); VI32 (point_x position);
        VI32 (point_y position)]
  | EvKeyFocusGained serial surface modifiers epoch held =>
      to OpKeyboardEnter [VU32 serial; VObject surface; VU32 (modifier_bits modifiers); VU32 epoch;
        VArray (usage <$> held)]
  | EvKeyFocusLost serial surface epoch =>
      to OpKeyboardLeave [VU32 serial; VObject surface; VU32 epoch]
  | EvKey serial time_ns key pressed epoch =>
      to OpKeyboardKey [VU32 serial; VU64 time_ns; VU32 (usage key); VU32 (u32_of_bool pressed);
        VU32 epoch]
  | EvKeyModifiers modifiers epoch =>
      to OpKeyboardModifiers [VU32 (modifier_bits modifiers); VU32 0; VU32 0; VU32 0; VU32 epoch]
  | EvTextEnter surface => to OpTextInputEnter [VObject surface]
  | EvTextLeave surface => to OpTextInputLeave [VObject surface]
  | EvTextPreedit composition text cursor_begin cursor_end =>
      to OpTextInputPreedit [VU32 composition; VString (text_str text); VI32 cursor_begin;
        VI32 cursor_end]
  | EvTextCommit composition text => to OpTextInputCommit [VU32 composition; VString (text_str text)]
  | EvTextDone serial => to OpTextInputDone [VU32 serial]
  | EvMethodActivated surface purpose composition =>
      to OpInputMethodActivate [VObject surface; VU32 (TextPurpose_into_raw purpose);
        VU32 composition]
  | EvMethodDeactivated => to OpInputMethodDeactivate []
  | EvShortcutTriggered shortcut seat serial time_ns epoch =>
      to OpShortcutsTriggered [VU32 shortcut; VU64 (seat_id seat); VU32 serial; VU64 time_ns;
        VU32 epoch]
  | EvShellGrabMotion seat position =>
      to OpShellControlGrabMotion [VU64 (seat_id seat); VI32 (point_x position);
        VI32 (point_y position)]
  | EvShellGrabEnd seat => to OpShellControlGrabEnd [VU64 (seat_id seat)]
  | EvShellSnapshotDone => to OpShellControlSnapshotDone []
  | EvConfigure serial size state =>
      to OpToplevelConfigure [VU32 serial; VU32 (size_width size); VU32 (size_height size); VU32 state]
  | EvClose => to OpToplevelClose []
  | EvBufferRelease => to OpBufferRelease []
  | EvFrameDone serial timestamp_ns => to OpSurfaceFrameDone [VU32 serial; VU64 timestamp_ns]
  | EvCapabilityRevoked _ | EvObjectDestroyed _ | EvBufferReleaseWithFence _
  | EvFrameDeadline _ _ | EvFrameLate | EvKeyboardLeave | EvKeyboardEnter => None
  end.

(** The layout of values, in the table's terms. *)
Definition layout_of (vs : list wire_value) : list Field := vs ≫= value_field.

Definition Empty_decode (input : list byte) : result DecodeError Empty :=
  run_decoder (_ ← Decoder_finish; mret MkEmpty) input.

#[export] Program Instance Empty_codec : PayloadCodec Empty Empty_decode := {|
  payload_fields p := [];
  payload_admits p := True;
|}.
Next Obligation.
  intros p _ pre room post Hl _. destruct room; [|done]. cbn. by rewrite Z.add_0_r.
Qed.
Next Obligation. done. Qed.
Next Obligation.
  intros input p Hl. unfold Empty_decode.
  etransitivity; [apply run_decoder_iff; [apply whole_finish|exact Hl]|]. destruct p. cbn.
  naive_solver.
Qed.

Lemma emit_frame {P} `{PC : PayloadCodec P dec} object op sequence (p : P) vs out :
  payload_fields p = vs → fields_ok vs → len out ≤ usize_max →
  emit object op sequence p out =
  ST_map_err EmitEncode (encode_frame object (MkOpcode (op_opcode op)) sequence (fields_bytes vs)) out.
Proof.
  intros <- Hok Ho. unfold emit, ST_map_err. by rewrite encode_message_run, encode_frame_run.
Qed.

(** An event is sent as the table says or reported as unassigned: if the draw path assigns it an
    operation, what is written is the frame of that operation, an event of the interface of the
    object it is addressed to, around the event's values; if it assigns none, that is the answer and
    the buffer is untouched; nothing else can happen but a frame that does not fit. *)
Theorem encode_event_frame (event : Event) (sequence : Z) (out : list byte)
    (Ho : len out ≤ usize_max) :
  match event_wire event with
  | None => encode_event event sequence out = (Err EmitUnassigned, out)
  | Some (target, op, vs) =>
      op_kind op = KEvent ∧
      (fields_ok vs →
       encode_event event sequence out =
       ST_map_err EmitEncode
         (encode_frame target (MkOpcode (op_opcode op)) sequence (fields_bytes vs)) out)
  end.
Proof.
  destruct event as [c o k]. unfold event_wire, encode_event. cbn [event_kind event_object].
  destruct k; try reflexivity; (split; [reflexivity|]); intros Hok; unfold emit_empty;
    try (apply emit_frame; [reflexivity|exact Hok|exact Ho]).
  Unshelve. exact [].
Qed.

Lemma encode_event_frame_witness :
  let event := MkEvent (MkConnectionId 1) (MkObjectId 5) EvBufferRelease in
  (encode_event event 0 (replicate 12 Byte.x00)).1 = Ok 12.
Proof.
  cbv zeta.
  pose proof (encode_event_frame (MkEvent (MkConnectionId 1) (MkObjectId 5) EvBufferRelease) 0
    (replicate 12 Byte.x00) ltac:(vm_compute; discriminate)) as [_ H].
  cbn [event_wire event_kind event_object] in H. rewrite H by constructor.
  vm_compute. reflexivity.
Defined.

(** What is sent has the table's layout, except for two events: every assigned event's values are
    the fields its operation's row lists, but a composed text and a committed one carry a composition
    number ahead of the fields the table lists for them. *)
Theorem encode_event_layout (event : Event) (target : ObjectId) (op : Operation)
    (vs : list wire_value) (Hw : event_wire event = Some (target, op, vs)) :
  match op with
  | OpTextInputPreedit | OpTextInputCommit => layout_of vs = FU32 :: spec_payload (spec op)
  | _ => layout_of vs = spec_payload (spec op)
  end.
Proof.
  destruct event as [c o k]. unfold event_wire in Hw. cbn [event_kind event_object] in Hw.
  destruct k; try done; injection Hw as <- <- <-; reflexivity.
Qed.

Lemma encode_event_layout_witness :
  layout_of [VU32 3; VString []] = FU32 :: spec_payload (spec OpTextInputCommit).
Proof.
  exact (encode_event_layout
    (MkEvent (MkConnectionId 1) (MkObjectId 5) (EvTextCommit 3 (MkTextBuffer []))) (MkObjectId 5)
    OpTextInputCommit [VU32 3; VString []] eq_refl).
Defined.
