(* ===== verification/State.v ===== *)
(** The compositor's state ([atria-compositor/src/state/mod.rs], the types), with a setter for each
    field a method assigns: [set_f x r] is [r.f = x]. *)
From S2P Require Import Prelude.
From S2P Require Import BTree.
From S2P Require Import Vocabulary.
From S2P Require Import Interface.
From S2P Require Import Wire.
From S2P Require Import Payloads.
From S2P Require Import Model.
From S2P Require Import Registry.
From S2P Require Import Outputs.

Record ServerLimits := MkServerLimits {
  max_connections : Z;
}.

Record ConnectionLimits := MkConnectionLimits {
  max_objects : Z;
  max_surfaces : Z;
  max_buffers : Z;
  max_imported_handles : Z;
  max_damage_rects_per_commit : Z;
  max_pending_events : Z;
}.

Record SeatState := MkSeatState {
  seat_capabilities : SeatCapabilities;
  seat_active : bool;
}.

Record SessionState := MkSessionState {
  session_seat : option ObjectId;
  session_active : bool;
}.

(** What a commit will do to the surface's content. *)
Inductive PendingAttachment := Unchanged | SetTo (buffer : ObjectId) (offset : Point) | Detach.

#[global] Instance PendingAttachment_eq_dec : EqDecision PendingAttachment.
Proof. solve_decision. Defined.

Record PendingSurface := MkPendingSurface {
  ps_attachment : PendingAttachment;
  ps_acquire_fence : option ObjectId;
  ps_damage : list Damage;
  ps_refresh_range : option (Z * Z);
}.

Record CurrentSurface := MkCurrentSurface {
  cur_snapshot : SurfaceSnapshot;
  cur_frame_callback : bool;
  cur_frame_serial : Z;
}.

Record SurfaceState := MkSurfaceState {
  su_session : ObjectId;
  su_role : option SurfaceRole;
  su_pending : PendingSurface;
  su_current : option CurrentSurface;
  su_frame_requested : bool;
  su_frame_serial : Z;
  su_consecutive_deadline_misses : Z;
}.

Record BufferSource := MkBufferSource {
  bs_memory : SharedMem;
  bs_offset : Z;
  bs_descriptor : BufferDescriptor;
}.

Record BufferObject := MkBufferObject {
  bo_descriptor : BufferDescriptor;
  bo_state : BufferState;
  bo_source : option BufferSource;
}.

Record ToplevelState := MkToplevelState {
  tl_surface : ObjectId;
  tl_title : TitleText;
  tl_minimum : option Size;
  tl_maximum : option Size;
  tl_last_configure : Z;
  tl_configured : option Size;
  tl_handle : ToplevelHandle;
}.

Record FenceState := MkFenceState {
  fence_signaled : bool;
}.

Inductive Object :=
| ODisplay
| ORegistry
| OToplevel (state : ToplevelState)
| OGlobal
| OShmPool (memory : SharedMem)
| OSeat (state : SeatState)
| OSession (state : SessionState)
| OSurface (state : SurfaceState)
| OBuffer (buffer : BufferObject)
| OFence (state : FenceState)
| OInputStream.

Record Connection := MkConnection {
  cn_pending_events : Z;
  cn_session : option ObjectId;
  cn_available_capabilities : CapabilitySet;
  cn_capabilities : CapabilitySet;
  cn_registry : ObjectRegistry Object;
}.

Record Scene := MkScene {
  scene_positions : gmap SurfaceKey Point;
  scene_stack : list SurfaceKey;
}.

Record PointerRouting := MkPointerRouting {
  pr_position : Point;
  pr_target : option SurfaceKey;
  pr_buttons_held : Z;
  pr_shell_grab : option (ConnectionId * ObjectId);
}.

Record KeyboardRouting := MkKeyboardRouting {
  kr_modifiers : Modifiers;
  kr_held : gset PhysicalKey;
  kr_consumed : gset PhysicalKey;
}.

Record SeatRouting := MkSeatRouting {
  sr_epoch : Z;
  sr_serial : Z;
  sr_pointer : PointerRouting;
  sr_keyboard : KeyboardRouting;
}.

Record TextField := MkTextField {
  tf_connection : ConnectionId;
  tf_object : ObjectId;
  tf_purpose : TextPurpose;
  tf_caret : Rect;
}.

Record ShortcutClaim := MkShortcutClaim {
  sc_holder : ConnectionId;
  sc_manager : ObjectId;
  sc_shortcut : Z;
}.

Record Global := MkGlobal {
  gl_interface : Interface;
  gl_kind : ObjectKind;
  gl_version : Z;
  gl_output : option OutputId;
}.

Record CompositorState := MkCompositorState {
  cs_server_capabilities : CapabilitySet;
  cs_globals : gmap Z Global;
  cs_next_global : Z;
  cs_outputs : OutputSet;
  cs_seat : SeatRouting;
  cs_shortcuts : gmap (SeatId * Chord) ShortcutClaim;
  cs_fields : gmap (ConnectionId * ObjectId) TextField;
  cs_method : option (ConnectionId * ObjectId);
  cs_composing : option TextField;
  cs_composition : Z;
  cs_next_configure : Z;
  cs_toplevels : gmap ToplevelHandle (ConnectionId * ObjectId);
  cs_next_handle : Z;
  cs_server_limits : ServerLimits;
  cs_limits : ConnectionLimits;
  cs_next_connection : Z;
  cs_next_commit : Z;
  cs_connections : gmap ConnectionId Connection;
  cs_scene : Scene;
  cs_keyboard_focus : option SurfaceKey;
  cs_pointer_target : option SurfaceKey;
  cs_events : list Event;
}.
Inductive NegotiationError :=
| UnsupportedCapabilities (required available : CapabilitySet)
| ConnectionIdExhausted
| ConnectionLimitReached (limit : Z).

Definition ServerLimits_default : ServerLimits := MkServerLimits 64.
Definition ConnectionLimits_default : ConnectionLimits :=
  MkConnectionLimits 1024 256 64 64 256 256.

(** Keys a keyboard can hold at once. *)
Definition MAX_HELD_KEYS : Z := 32.
(** Chords that may be claimed at once, across every holder and seat. *)
Definition MAX_SHORTCUTS : Z := 256.
(** Fields that may want text at once. *)
Definition MAX_TEXT_FIELDS : Z := 256.

Definition PendingSurface_default : PendingSurface := MkPendingSurface Unchanged None [] None.
Definition Scene_default : Scene := MkScene ∅ [].
Definition SeatRouting_default : SeatRouting :=
  MkSeatRouting 0 0 (MkPointerRouting Point_default None 0 None)
    (MkKeyboardRouting Modifiers_default ∅ ∅).

Definition CompositorState_new (server_capabilities : CapabilitySet) (server_limits : ServerLimits)
    (limits : ConnectionLimits) : CompositorState :=
  MkCompositorState
    (cap_with (cap_with server_capabilities SurfaceCreate) BufferImport)
    ∅ 1 OutputSet_new SeatRouting_default ∅ ∅ None None 0 1 ∅ 1 server_limits limits 1 1 ∅
    Scene_default None None [].

(** * Assigning a field *)

(** ** [PendingSurface] *)

Definition set_ps_attachment (x : PendingAttachment) (r : PendingSurface) : PendingSurface :=
  MkPendingSurface x (ps_acquire_fence r) (ps_damage r) (ps_refresh_range r).
Definition set_ps_acquire_fence (x : option ObjectId) (r : PendingSurface) : PendingSurface :=
  MkPendingSurface (ps_attachment r) x (ps_damage r) (ps_refresh_range r).
Definition set_ps_damage (x : list Damage) (r : PendingSurface) : PendingSurface :=
  MkPendingSurface (ps_attachment r) (ps_acquire_fence r) x (ps_refresh_range r).
Definition set_ps_refresh_range (x : option (Z * Z)) (r : PendingSurface) : PendingSurface :=
  MkPendingSurface (ps_attachment r) (ps_acquire_fence r) (ps_damage r) x.

(** ** [CurrentSurface] *)

Definition set_cur_snapshot (x : SurfaceSnapshot) (r : CurrentSurface) : CurrentSurface :=
  MkCurrentSurface x (cur_frame_callback r) (cur_frame_serial r).
Definition set_cur_frame_callback (x : bool) (r : CurrentSurface) : CurrentSurface :=
  MkCurrentSurface (cur_snapshot r) x (cur_frame_serial r).
Definition set_cur_frame_serial (x : Z) (r : CurrentSurface) : CurrentSurface :=
  MkCurrentSurface (cur_snapshot r) (cur_frame_callback r) x.

(** ** [SurfaceState] *)

Definition set_su_session (x : ObjectId) (r : SurfaceState) : SurfaceState :=
  MkSurfaceState x (su_role r) (su_pending r) (su_current r) (su_frame_requested r)
    (su_frame_serial r) (su_consecutive_deadline_misses r).
Definition set_su_role (x : option SurfaceRole) (r : SurfaceState) : SurfaceState :=
  MkSurfaceState (su_session r) x (su_pending r) (su_current r) (su_frame_requested r)
    (su_frame_serial r) (su_consecutive_deadline_misses r).
Definition set_su_pending (x : PendingSurface) (r : SurfaceState) : SurfaceState :=
  MkSurfaceState (su_session r) (su_role r) x (su_current r) (su_frame_requested r)
    (su_frame_serial r) (su_consecutive_deadline_misses r).
Definition set_su_current (x : option CurrentSurface) (r : SurfaceState) : SurfaceState :=
  MkSurfaceState (su_session r) (su_role r) (su_pending r) x (su_frame_requested r)
    (su_frame_serial r) (su_consecutive_deadline_misses r).
Definition set_su_frame_requested (x : bool) (r : SurfaceState) : SurfaceState :=
  MkSurfaceState (su_session r) (su_role r) (su_pending r) (su_current r) x (su_frame_serial r)
    (su_consecutive_deadline_misses r).
Definition set_su_frame_serial (x : Z) (r : SurfaceState) : SurfaceState :=
  MkSurfaceState (su_session r) (su_role r) (su_pending r) (su_current r) (su_frame_requested r)
    x (su_consecutive_deadline_misses r).
Definition set_su_consecutive_deadline_misses (x : Z) (r : SurfaceState) : SurfaceState :=
  MkSurfaceState (su_session r) (su_role r) (su_pending r) (su_current r) (su_frame_requested r)
    (su_frame_serial r) x.

(** ** [BufferObject] *)

Definition set_bo_descriptor (x : BufferDescriptor) (r : BufferObject) : BufferObject :=
  MkBufferObject x (bo_state r) (bo_source r).
Definition set_bo_state (x : BufferState) (r : BufferObject) : BufferObject :=
  MkBufferObject (bo_descriptor r) x (bo_source r).
Definition set_bo_source (x : option BufferSource) (r : BufferObject) : BufferObject :=
  MkBufferObject (bo_descriptor r) (bo_state r) x.

(** ** [ToplevelState] *)

Definition set_tl_surface (x : ObjectId) (r : ToplevelState) : ToplevelState :=
  MkToplevelState x (tl_title r) (tl_minimum r) (tl_maximum r) (tl_last_configure r)
    (tl_configured r) (tl_handle r).
Definition set_tl_title (x : TitleText) (r : ToplevelState) : ToplevelState :=
  MkToplevelState (tl_surface r) x (tl_minimum r) (tl_maximum r) (tl_last_configure r)
    (tl_configured r) (tl_handle r).
Definition set_tl_minimum (x : option Size) (r : ToplevelState) : ToplevelState :=
  MkToplevelState (tl_surface r) (tl_title r) x (tl_maximum r) (tl_last_configure r)
    (tl_configured r) (tl_handle r).
Definition set_tl_maximum (x : option Size) (r : ToplevelState) : ToplevelState :=
  MkToplevelState (tl_surface r) (tl_title r) (tl_minimum r) x (tl_last_configure r)
    (tl_configured r) (tl_handle r).
Definition set_tl_last_configure (x : Z) (r : ToplevelState) : ToplevelState :=
  MkToplevelState (tl_surface r) (tl_title r) (tl_minimum r) (tl_maximum r) x (tl_configured r)
    (tl_handle r).
Definition set_tl_configured (x : option Size) (r : ToplevelState) : ToplevelState :=
  MkToplevelState (tl_surface r) (tl_title r) (tl_minimum r) (tl_maximum r) (tl_last_configure r)
    x (tl_handle r).
Definition set_tl_handle (x : ToplevelHandle) (r : ToplevelState) : ToplevelState :=
  MkToplevelState (tl_surface r) (tl_title r) (tl_minimum r) (tl_maximum r) (tl_last_configure r)
    (tl_configured r) x.

(** ** [Connection] *)

Definition set_cn_pending_events (x : Z) (r : Connection) : Connection :=
  MkConnection x (cn_session r) (cn_available_capabilities r) (cn_capabilities r) (cn_registry r).
Definition set_cn_session (x : option ObjectId) (r : Connection) : Connection :=
  MkConnection (cn_pending_events r) x (cn_available_capabilities r) (cn_capabilities r)
    (cn_registry r).
Definition set_cn_available_capabilities (x : CapabilitySet) (r : Connection) : Connection :=
  MkConnection (cn_pending_events r) (cn_session r) x (cn_capabilities r) (cn_registry r).
Definition set_cn_capabilities (x : CapabilitySet) (r : Connection) : Connection :=
  MkConnection (cn_pending_events r) (cn_session r) (cn_available_capabilities r) x
    (cn_registry r).
Definition set_cn_registry (x : ObjectRegistry Object) (r : Connection) : Connection :=
  MkConnection (cn_pending_events r) (cn_session r) (cn_available_capabilities r)
    (cn_capabilities r) x.

(** ** [Scene] *)

Definition set_scene_positions (x : gmap SurfaceKey Point) (r : Scene) : Scene :=
  MkScene x (scene_stack r).
Definition set_scene_stack (x : list SurfaceKey) (r : Scene) : Scene :=
  MkScene (scene_positions r) x.

(** ** [PointerRouting] *)

Definition set_pr_position (x : Point) (r : PointerRouting) : PointerRouting :=
  MkPointerRouting x (pr_target r) (pr_buttons_held r) (pr_shell_grab r).
Definition set_pr_target (x : option SurfaceKey) (r : PointerRouting) : PointerRouting :=
  MkPointerRouting (pr_position r) x (pr_buttons_held r) (pr_shell_grab r).
Definition set_pr_buttons_held (x : Z) (r : PointerRouting) : PointerRouting :=
  MkPointerRouting (pr_position r) (pr_target r) x (pr_shell_grab r).
Definition set_pr_shell_grab (x : option (ConnectionId * ObjectId)) (r : PointerRouting) : PointerRouting :=
  MkPointerRouting (pr_position r) (pr_target r) (pr_buttons_held r) x.

(** ** [KeyboardRouting] *)

Definition set_kr_modifiers (x : Modifiers) (r : KeyboardRouting) : KeyboardRouting :=
  MkKeyboardRouting x (kr_held r) (kr_consumed r).
Definition set_kr_held (x : gset PhysicalKey) (r : KeyboardRouting) : KeyboardRouting :=
  MkKeyboardRouting (kr_modifiers r) x (kr_consumed r).
Definition set_kr_consumed (x : gset PhysicalKey) (r : KeyboardRouting) : KeyboardRouting :=
  MkKeyboardRouting (kr_modifiers r) (kr_held r) x.

(** ** [SeatRouting] *)

Definition set_sr_epoch (x : Z) (r : SeatRouting) : SeatRouting :=
  MkSeatRouting x (sr_serial r) (sr_pointer r) (sr_keyboard r).
Definition set_sr_serial (x : Z) (r : SeatRouting) : SeatRouting :=
  MkSeatRouting (sr_epoch r) x (sr_pointer r) (sr_keyboard r).
Definition set_sr_pointer (x : PointerRouting) (r : SeatRouting) : SeatRouting :=
  MkSeatRouting (sr_epoch r) (sr_serial r) x (sr_keyboard r).
Definition set_sr_keyboard (x : KeyboardRouting) (r : SeatRouting) : SeatRouting :=
  MkSeatRouting (sr_epoch r) (sr_serial r) (sr_pointer r) x.

(** ** [TextField] *)

Definition set_tf_connection (x : ConnectionId) (r : TextField) : TextField :=
  MkTextField x (tf_object r) (tf_purpose r) (tf_caret r).
Definition set_tf_object (x : ObjectId) (r : TextField) : TextField :=
  MkTextField (tf_connection r) x (tf_purpose r) (tf_caret r).
Definition set_tf_purpose (x : TextPurpose) (r : TextField) : TextField :=
  MkTextField (tf_connection r) (tf_object r) x (tf_caret r).
Definition set_tf_caret (x : Rect) (r : TextField) : TextField :=
  MkTextField (tf_connection r) (tf_object r) (tf_purpose r) x.

(** ** [Global] *)

Definition set_gl_interface (x : Interface) (r : Global) : Global :=
  MkGlobal x (gl_kind r) (gl_version r) (gl_output r).
Definition set_gl_kind (x : ObjectKind) (r : Global) : Global :=
  MkGlobal (gl_interface r) x (gl_version r) (gl_output r).
Definition set_gl_version (x : Z) (r : Global) : Global :=
  MkGlobal (gl_interface r) (gl_kind r) x (gl_output r).
Definition set_gl_output (x : option OutputId) (r : Global) : Global :=
  MkGlobal (gl_interface r) (gl_kind r) (gl_version r) x.

(** ** [CompositorState] *)

Definition set_cs_server_capabilities (x : CapabilitySet) (s : CompositorState) : CompositorState :=
  MkCompositorState x (cs_globals s) (cs_next_global s) (cs_outputs s) (cs_seat s)
    (cs_shortcuts s) (cs_fields s) (cs_method s) (cs_composing s) (cs_composition s)
    (cs_next_configure s) (cs_toplevels s) (cs_next_handle s) (cs_server_limits s) (cs_limits s)
    (cs_next_connection s) (cs_next_commit s) (cs_connections s) (cs_scene s)
    (cs_keyboard_focus s) (cs_pointer_target s) (cs_events s).
Definition set_cs_globals (x : gmap Z Global) (s : CompositorState) : CompositorState :=
  MkCompositorState (cs_server_capabilities s) x (cs_next_global s) (cs_outputs s) (cs_seat s)
    (cs_shortcuts s) (cs_fields s) (cs_method s) (cs_composing s) (cs_composition s)
    (cs_next_configure s) (cs_toplevels s) (cs_next_handle s) (cs_server_limits s) (cs_limits s)
    (cs_next_connection s) (cs_next_commit s) (cs_connections s) (cs_scene s)
    (cs_keyboard_focus s) (cs_pointer_target s) (cs_events s).
Definition set_cs_next_global (x : Z) (s : CompositorState) : CompositorState :=
  MkCompositorState (cs_server_capabilities s) (cs_globals s) x (cs_outputs s) (cs_seat s)
    (cs_shortcuts s) (cs_fields s) (cs_method s) (cs_composing s) (cs_composition s)
    (cs_next_configure s) (cs_toplevels s) (cs_next_handle s) (cs_server_limits s) (cs_limits s)
    (cs_next_connection s) (cs_next_commit s) (cs_connections s) (cs_scene s)
    (cs_keyboard_focus s) (cs_pointer_target s) (cs_events s).
Definition set_cs_outputs (x : OutputSet) (s : CompositorState) : CompositorState :=
  MkCompositorState (cs_server_capabilities s) (cs_globals s) (cs_next_global s) x (cs_seat s)
    (cs_shortcuts s) (cs_fields s) (cs_method s) (cs_composing s) (cs_composition s)
    (cs_next_configure s) (cs_toplevels s) (cs_next_handle s) (cs_server_limits s) (cs_limits s)
    (cs_next_connection s) (cs_next_commit s) (cs_connections s) (cs_scene s)
    (cs_keyboard_focus s) (cs_pointer_target s) (cs_events s).
Definition set_cs_seat (x : SeatRouting) (s : CompositorState) : CompositorState :=
  MkCompositorState (cs_server_capabilities s) (cs_globals s) (cs_next_global s) (cs_outputs s) x
    (cs_shortcuts s) (cs_fields s) (cs_method s) (cs_composing s) (cs_composition s)
    (cs_next_configure s) (cs_toplevels s) (cs_next_handle s) (cs_server_limits s) (cs_limits s)
    (cs_next_connection s) (cs_next_commit s) (cs_connections s) (cs_scene s)
    (cs_keyboard_focus s) (cs_pointer_target s) (cs_events s).
Definition set_cs_shortcuts (x : gmap (SeatId * Chord) ShortcutClaim) (s : CompositorState) : CompositorState :=
  MkCompositorState (cs_server_capabilities s) (cs_globals s) (cs_next_global s) (cs_outputs s)
    (cs_seat s) x (cs_fields s) (cs_method s) (cs_composing s) (cs_composition s)
    (cs_next_configure s) (cs_toplevels s) (cs_next_handle s) (cs_server_limits s) (cs_limits s)
    (cs_next_connection s) (cs_next_commit s) (cs_connections s) (cs_scene s)
    (cs_keyboard_focus s) (cs_pointer_target s) (cs_events s).
Definition set_cs_fields (x : gmap (ConnectionId * ObjectId) TextField) (s : CompositorState) : CompositorState :=
  MkCompositorState (cs_server_capabilities s) (cs_globals s) (cs_next_global s) (cs_outputs s)
    (cs_seat s) (cs_shortcuts s) x (cs_method s) (cs_composing s) (cs_composition s)
    (cs_next_configure s) (cs_toplevels s) (cs_next_handle s) (cs_server_limits s) (cs_limits s)
    (cs_next_connection s) (cs_next_commit s) (cs_connections s) (cs_scene s)
    (cs_keyboard_focus s) (cs_pointer_target s) (cs_events s).
Definition set_cs_method (x : option (ConnectionId * ObjectId)) (s : CompositorState) : CompositorState :=
  MkCompositorState (cs_server_capabilities s) (cs_globals s) (cs_next_global s) (cs_outputs s)
    (cs_seat s) (cs_shortcuts s) (cs_fields s) x (cs_composing s) (cs_composition s)
    (cs_next_configure s) (cs_toplevels s) (cs_next_handle s) (cs_server_limits s) (cs_limits s)
    (cs_next_connection s) (cs_next_commit s) (cs_connections s) (cs_scene s)
    (cs_keyboard_focus s) (cs_pointer_target s) (cs_events s).
Definition set_cs_composing (x : option TextField) (s : CompositorState) : CompositorState :=
  MkCompositorState (cs_server_capabilities s) (cs_globals s) (cs_next_global s) (cs_outputs s)
    (cs_seat s) (cs_shortcuts s) (cs_fields s) (cs_method s) x (cs_composition s)
    (cs_next_configure s) (cs_toplevels s) (cs_next_handle s) (cs_server_limits s) (cs_limits s)
    (cs_next_connection s) (cs_next_commit s) (cs_connections s) (cs_scene s)
    (cs_keyboard_focus s) (cs_pointer_target s) (cs_events s).
Definition set_cs_composition (x : Z) (s : CompositorState) : CompositorState :=
  MkCompositorState (cs_server_capabilities s) (cs_globals s) (cs_next_global s) (cs_outputs s)
    (cs_seat s) (cs_shortcuts s) (cs_fields s) (cs_method s) (cs_composing s) x
    (cs_next_configure s) (cs_toplevels s) (cs_next_handle s) (cs_server_limits s) (cs_limits s)
    (cs_next_connection s) (cs_next_commit s) (cs_connections s) (cs_scene s)
    (cs_keyboard_focus s) (cs_pointer_target s) (cs_events s).
Definition set_cs_next_configure (x : Z) (s : CompositorState) : CompositorState :=
  MkCompositorState (cs_server_capabilities s) (cs_globals s) (cs_next_global s) (cs_outputs s)
    (cs_seat s) (cs_shortcuts s) (cs_fields s) (cs_method s) (cs_composing s) (cs_composition s)
    x (cs_toplevels s) (cs_next_handle s) (cs_server_limits s) (cs_limits s)
    (cs_next_connection s) (cs_next_commit s) (cs_connections s) (cs_scene s)
    (cs_keyboard_focus s) (cs_pointer_target s) (cs_events s).
Definition set_cs_toplevels (x : gmap ToplevelHandle (ConnectionId * ObjectId)) (s : CompositorState) : CompositorState :=
  MkCompositorState (cs_server_capabilities s) (cs_globals s) (cs_next_global s) (cs_outputs s)
    (cs_seat s) (cs_shortcuts s) (cs_fields s) (cs_method s) (cs_composing s) (cs_composition s)
    (cs_next_configure s) x (cs_next_handle s) (cs_server_limits s) (cs_limits s)
    (cs_next_connection s) (cs_next_commit s) (cs_connections s) (cs_scene s)
    (cs_keyboard_focus s) (cs_pointer_target s) (cs_events s).
Definition set_cs_next_handle (x : Z) (s : CompositorState) : CompositorState :=
  MkCompositorState (cs_server_capabilities s) (cs_globals s) (cs_next_global s) (cs_outputs s)
    (cs_seat s) (cs_shortcuts s) (cs_fields s) (cs_method s) (cs_composing s) (cs_composition s)
    (cs_next_configure s) (cs_toplevels s) x (cs_server_limits s) (cs_limits s)
    (cs_next_connection s) (cs_next_commit s) (cs_connections s) (cs_scene s)
    (cs_keyboard_focus s) (cs_pointer_target s) (cs_events s).
Definition set_cs_server_limits (x : ServerLimits) (s : CompositorState) : CompositorState :=
  MkCompositorState (cs_server_capabilities s) (cs_globals s) (cs_next_global s) (cs_outputs s)
    (cs_seat s) (cs_shortcuts s) (cs_fields s) (cs_method s) (cs_composing s) (cs_composition s)
    (cs_next_configure s) (cs_toplevels s) (cs_next_handle s) x (cs_limits s)
    (cs_next_connection s) (cs_next_commit s) (cs_connections s) (cs_scene s)
    (cs_keyboard_focus s) (cs_pointer_target s) (cs_events s).
Definition set_cs_limits (x : ConnectionLimits) (s : CompositorState) : CompositorState :=
  MkCompositorState (cs_server_capabilities s) (cs_globals s) (cs_next_global s) (cs_outputs s)
    (cs_seat s) (cs_shortcuts s) (cs_fields s) (cs_method s) (cs_composing s) (cs_composition s)
    (cs_next_configure s) (cs_toplevels s) (cs_next_handle s) (cs_server_limits s) x
    (cs_next_connection s) (cs_next_commit s) (cs_connections s) (cs_scene s)
    (cs_keyboard_focus s) (cs_pointer_target s) (cs_events s).
Definition set_cs_next_connection (x : Z) (s : CompositorState) : CompositorState :=
  MkCompositorState (cs_server_capabilities s) (cs_globals s) (cs_next_global s) (cs_outputs s)
    (cs_seat s) (cs_shortcuts s) (cs_fields s) (cs_method s) (cs_composing s) (cs_composition s)
    (cs_next_configure s) (cs_toplevels s) (cs_next_handle s) (cs_server_limits s) (cs_limits s)
    x (cs_next_commit s) (cs_connections s) (cs_scene s) (cs_keyboard_focus s)
    (cs_pointer_target s) (cs_events s).
Definition set_cs_next_commit (x : Z) (s : CompositorState) : CompositorState :=
  MkCompositorState (cs_server_capabilities s) (cs_globals s) (cs_next_global s) (cs_outputs s)
    (cs_seat s) (cs_shortcuts s) (cs_fields s) (cs_method s) (cs_composing s) (cs_composition s)
    (cs_next_configure s) (cs_toplevels s) (cs_next_handle s) (cs_server_limits s) (cs_limits s)
    (cs_next_connection s) x (cs_connections s) (cs_scene s) (cs_keyboard_focus s)
    (cs_pointer_target s) (cs_events s).
Definition set_cs_connections (x : gmap ConnectionId Connection) (s : CompositorState) : CompositorState :=
  MkCompositorState (cs_server_capabilities s) (cs_globals s) (cs_next_global s) (cs_outputs s)
    (cs_seat s) (cs_shortcuts s) (cs_fields s) (cs_method s) (cs_composing s) (cs_composition s)
    (cs_next_configure s) (cs_toplevels s) (cs_next_handle s) (cs_server_limits s) (cs_limits s)
    (cs_next_connection s) (cs_next_commit s) x (cs_scene s) (cs_keyboard_focus s)
    (cs_pointer_target s) (cs_events s).
Definition set_cs_scene (x : Scene) (s : CompositorState) : CompositorState :=
  MkCompositorState (cs_server_capabilities s) (cs_globals s) (cs_next_global s) (cs_outputs s)
    (cs_seat s) (cs_shortcuts s) (cs_fields s) (cs_method s) (cs_composing s) (cs_composition s)
    (cs_next_configure s) (cs_toplevels s) (cs_next_handle s) (cs_server_limits s) (cs_limits s)
    (cs_next_connection s) (cs_next_commit s) (cs_connections s) x (cs_keyboard_focus s)
    (cs_pointer_target s) (cs_events s).
Definition set_cs_keyboard_focus (x : option SurfaceKey) (s : CompositorState) : CompositorState :=
  MkCompositorState (cs_server_capabilities s) (cs_globals s) (cs_next_global s) (cs_outputs s)
    (cs_seat s) (cs_shortcuts s) (cs_fields s) (cs_method s) (cs_composing s) (cs_composition s)
    (cs_next_configure s) (cs_toplevels s) (cs_next_handle s) (cs_server_limits s) (cs_limits s)
    (cs_next_connection s) (cs_next_commit s) (cs_connections s) (cs_scene s) x
    (cs_pointer_target s) (cs_events s).
Definition set_cs_pointer_target (x : option SurfaceKey) (s : CompositorState) : CompositorState :=
  MkCompositorState (cs_server_capabilities s) (cs_globals s) (cs_next_global s) (cs_outputs s)
    (cs_seat s) (cs_shortcuts s) (cs_fields s) (cs_method s) (cs_composing s) (cs_composition s)
    (cs_next_configure s) (cs_toplevels s) (cs_next_handle s) (cs_server_limits s) (cs_limits s)
    (cs_next_connection s) (cs_next_commit s) (cs_connections s) (cs_scene s)
    (cs_keyboard_focus s) x (cs_events s).
Definition set_cs_events (x : list Event) (s : CompositorState) : CompositorState :=
  MkCompositorState (cs_server_capabilities s) (cs_globals s) (cs_next_global s) (cs_outputs s)
    (cs_seat s) (cs_shortcuts s) (cs_fields s) (cs_method s) (cs_composing s) (cs_composition s)
    (cs_next_configure s) (cs_toplevels s) (cs_next_handle s) (cs_server_limits s) (cs_limits s)
    (cs_next_connection s) (cs_next_commit s) (cs_connections s) (cs_scene s)
    (cs_keyboard_focus s) (cs_pointer_target s) x.
(** * Reaching an object

    [Object::Surface(..)] and its like carry a state only at the kind they are created with; the
    lookups check both, as the source does. *)

Definition connection (c : ConnectionId) (s : CompositorState) : result StateError Connection :=
  ok_or (cs_connections s !! c) ConnectionClosed.

(** [connection_mut], and an assignment through the reference. *)
Definition update_connection (c : ConnectionId) (f : Connection → Connection)
    (s : CompositorState) : CompositorState :=
  set_cs_connections (alter f c (cs_connections s)) s.

Definition object (c : ConnectionId) (id : ObjectId) (expected : ObjectKind) (s : CompositorState)
    : result StateError Object :=
  client ← connection c s;
  e ← entry (cn_registry client) id;
  if decide (entry_kind e = expected) then Ok (entry_value e)
  else Err (WrongObjectType id expected (entry_kind e)).

(** Assigning through [object_mut]'s reference. *)
Definition update_object (c : ConnectionId) (id : ObjectId) (value : Object)
    : CompositorState → CompositorState :=
  update_connection c (λ client, set_cn_registry (set_entry_value id value (cn_registry client)) client).

Definition surface (c : ConnectionId) (id : ObjectId) (s : CompositorState)
    : result StateError SurfaceState :=
  o ← object c id KSurface s;
  match o with OSurface surface => Ok surface | _ => Err (InvalidState id) end.

(** [surface_mut] and what the caller does with the reference. *)
Definition surface_mut (c : ConnectionId) (id : ObjectId) (f : SurfaceState → SurfaceState)
    : ST CompositorState StateError unit :=
  state ← reads (surface c id);
  modify (update_object c id (OSurface (f state))).

Definition buffer (c : ConnectionId) (id : ObjectId) (s : CompositorState)
    : result StateError BufferObject :=
  o ← object c id KBuffer s;
  match o with OBuffer buffer => Ok buffer | _ => Err (InvalidState id) end.

Definition set_buffer_state (c : ConnectionId) (id : ObjectId) (state : BufferState)
    : ST CompositorState StateError unit :=
  b ← reads (buffer c id);
  modify (update_object c id (OBuffer (set_bo_state state b))).

Definition toplevel (c : ConnectionId) (id : ObjectId) (s : CompositorState)
    : result StateError ToplevelState :=
  client ← connection c s;
  e ← entry (cn_registry client) id;
  match entry_value e with
  | OToplevel state => Ok state
  | _ => Err (WrongObjectType id KToplevel (entry_kind e))
  end.

(** [toplevel_mut] and what the caller does with the reference. *)
Definition toplevel_mut (c : ConnectionId) (id : ObjectId) (f : ToplevelState → ToplevelState)
    : ST CompositorState StateError unit :=
  state ← reads (toplevel c id);
  modify (update_object c id (OToplevel (f state))).

Definition expect_any (c : ConnectionId) (id : ObjectId) (s : CompositorState)
    : result StateError unit :=
  client ← connection c s;
  _ ← entry (cn_registry client) id;
  mret tt.

Definition expect_kind (c : ConnectionId) (id : ObjectId) (expected : ObjectKind)
    (s : CompositorState) : result StateError unit :=
  _ ← object c id expected s;
  mret tt.

Definition live_entry (c : ConnectionId) (id : ObjectId) (s : CompositorState)
    : option (RegistryEntry Object) :=
  client ← cs_connections s !! c;
  reg_live (cn_registry client) !! id.

Definition object_kind (c : ConnectionId) (id : ObjectId) (s : CompositorState)
    : option ObjectKind :=
  entry_kind <$> live_entry c id s.

Definition surface_snapshot (c : ConnectionId) (id : ObjectId) (s : CompositorState)
    : option SurfaceSnapshot :=
  st ← result_ok (surface c id s);
  cur_snapshot <$> su_current st.

Definition toplevel_handle (c : ConnectionId) (id : ObjectId) (s : CompositorState)
    : option ToplevelHandle :=
  e ← live_entry c id s;
  match entry_value e with OToplevel state => Some (tl_handle state) | _ => None end.

Definition toplevel_surface (c : ConnectionId) (id : ObjectId) (s : CompositorState)
    : option ObjectId :=
  e ← live_entry c id s;
  match entry_value e with OToplevel state => Some (tl_surface state) | _ => None end.

Definition toplevel_title (c : ConnectionId) (id : ObjectId) (s : CompositorState)
    : option (list byte) :=
  e ← live_entry c id s;
  match entry_value e with OToplevel state => Some (title_str (tl_title state)) | _ => None end.

(** The objects of a kind one connection holds, and every connection's. *)
Definition objects_of_kind (kind : ObjectKind) (client : Connection) : list ObjectId :=
  list_retain (λ id, bool_decide (kind_of (cn_registry client) id = Some kind))
    (ids (cn_registry client)).

Definition connection_objects (kind : ObjectKind) (c : ConnectionId) (s : CompositorState)
    : list ObjectId :=
  match cs_connections s !! c with
  | Some client => objects_of_kind kind client
  | None => []
  end.

Definition bound_objects (kind : ObjectKind) (s : CompositorState)
    : list (ConnectionId * ObjectId) :=
  flat_map (λ kv, pair kv.1 <$> objects_of_kind kind kv.2) (btree_items (cs_connections s)).

(** The window handle for a surface, if that surface is a window. *)
Definition handle_of_surface (surface : SurfaceKey) (s : CompositorState) : option ToplevelHandle :=
  fst <$> list_find_first (λ item : ToplevelHandle * (ConnectionId * ObjectId),
    bool_decide (item.2.1 = key_connection surface) &&
    bool_decide (toplevel_surface item.2.1 item.2.2 s = Some (key_object surface)))
    (btree_items (cs_toplevels s)).
