(* ===== verification/Queue.v ===== *)
(** Telling a client something, and disconnecting one that does not listen
    ([atria-compositor/src/state/mod.rs]: [push_event], [close_connection], [tell_shells];
    [state/text.rs]: [refresh_composition]).

    The four call each other: an event that does not fit closes the connection, and closing a
    connection tells others, whose queues may be full too. The recursion is written open, over the
    [close] an event may cause, and tied with fuel; [close_connection_unfold] shows that the number
    of connections is fuel enough, so that the tied functions satisfy the source's own equations. *)
From S2P Require Import Prelude.
From S2P Require Import BTree.
From S2P Require Import Vocabulary.
From S2P Require Import Interface.
From S2P Require Import Wire.
From S2P Require Import Payloads.
From S2P Require Import Model.
From S2P Require Import Registry.
From S2P Require Import Outputs.
From S2P Require Import State.

Record Teardown := MkTeardown { td_destroyed : list (ObjectId * ObjectKind) }.
Definition Teardown_default : Teardown := MkTeardown [].

(** [self.events.push(event)]. *)
Definition events_push (e : Event) (s : CompositorState) : CompositorState :=
  set_cs_events (cs_events s ++ [e]) s.

(** The field the keyboard focus's connection wants text for, if a method may compose into it. *)
Definition wanted_field (s : CompositorState) : option TextField :=
  focus ← cs_keyboard_focus s;
  field ← list_find_first (λ f, bool_decide (tf_connection f = key_connection focus))
            (btree_values (cs_fields s));
  if admits_composition (tf_purpose field) then Some field else None.

Definition same_composition (composing wanted : option TextField) : bool :=
  match composing, wanted with
  | Some was, Some now =>
      bool_decide (tf_connection was = tf_connection now) &&
      bool_decide (tf_object was = tf_object now)
  | None, None => true
  | _, _ => false
  end.

Definition focus_object (s : CompositorState) : ObjectId :=
  match cs_keyboard_focus s with Some key => key_object key | None => ObjectId_NULL end.

(** The objects a registry destroys on its way out, newest first. *)
Definition teardown_registry (r : ObjectRegistry Object) : list (ObjectId * ObjectKind) :=
  (foldl (λ acc id,
     let '(destroyed, r) := acc in
     let '(removed, r) := reg_remove id r in
     match removed with
     | Some e => (destroyed ++ [(id, entry_kind e)], r)
     | None => (destroyed, r)
     end) ([], r) (ids_reverse_creation r)).1.

(** The handles of a connection's windows. *)
Definition retired_handles (c : ConnectionId) (s : CompositorState) : list ToplevelHandle :=
  (list_retain (λ item : ToplevelHandle * (ConnectionId * ObjectId), bool_decide (item.2.1 = c))
     (btree_items (cs_toplevels s))).*1.

Definition clear_of_connection (c : ConnectionId) (key : option SurfaceKey) : option SurfaceKey :=
  match key with
  | Some k => if decide (key_connection k = c) then None else Some k
  | None => None
  end.

(** The part of [close_connection] up to the first event it queues: everything the connection owns
    is dropped. *)
Definition forget_connection (c : ConnectionId) (s : CompositorState) : CompositorState :=
  let s := set_cs_connections (delete c (cs_connections s)) s in
  let s := set_cs_toplevels
    (btree_retain (λ _ owner, negb (bool_decide (owner.1 = c))) (cs_toplevels s)) s in
  let s := set_cs_scene (MkScene
    (btree_retain (λ key _, negb (bool_decide (key_connection key = c)))
       (scene_positions (cs_scene s)))
    (list_retain (λ key, negb (bool_decide (key_connection key = c)))
       (scene_stack (cs_scene s)))) s in
  let s := set_cs_keyboard_focus (clear_of_connection c (cs_keyboard_focus s)) s in
  let s := set_cs_pointer_target (clear_of_connection c (cs_pointer_target s)) s in
  let s := set_cs_shortcuts
    (btree_retain (λ _ claim, negb (bool_decide (sc_holder claim = c))) (cs_shortcuts s)) s in
  set_cs_fields
    (btree_retain (λ owner _, negb (bool_decide (owner.1 = c))) (cs_fields s)) s.

Definition owned_by {A} (c : ConnectionId) (o : option (ConnectionId * A)) : bool :=
  match o with Some (owner, _) => bool_decide (owner = c) | None => false end.

Section Open.
Context (close : ConnectionId → CompositorState → CompositorState).

Definition push_event_with (c : ConnectionId) (object_id : ObjectId) (kind : EventKind)
    (s : CompositorState) : CompositorState :=
  match cs_connections s !! c with
  | None => s
  | Some client =>
      if max_pending_events (cs_limits s) <=? cn_pending_events client then
        let queued := cn_pending_events client in
        close c (events_push (MkEvent c ObjectId_DISPLAY (EvError (EventQueueOverflow queued))) s)
      else
        let s := set_cs_connections
          (<[ c := set_cn_pending_events (cn_pending_events client + 1) client ]>
             (cs_connections s)) s in
        events_push (MkEvent c object_id kind) s
  end.

(** One event to each of a list of objects. *)
Definition push_each_with (event : EventKind) (bound : list (ConnectionId * ObjectId))
    (s : CompositorState) : CompositorState :=
  foldl (λ s o, push_event_with o.1 o.2 event s) s bound.

Definition tell_shells_with (event : EventKind) (s : CompositorState) : CompositorState :=
  push_each_with event (bound_objects KShellControl s) s.

Definition withdraw_preedit_with (field : TextField) (surface : ObjectId) (s : CompositorState)
    : CompositorState :=
  let s := push_event_with (tf_connection field) (tf_object field)
    (EvTextPreedit (cs_composition s) TextBuffer_default (-1) (-1)) s in
  push_event_with (tf_connection field) (tf_object field) (EvTextLeave surface) s.

(** Letting go of the field being composed into: its proposal is withdrawn, and the method told. *)
Definition leave_composition_with (s : CompositorState) : CompositorState :=
  match cs_composing s with
  | Some was =>
      let s := set_cs_composing None s in
      let s := withdraw_preedit_with was (focus_object s) s in
      match cs_method s with
      | Some (c, object) => push_event_with c object EvMethodDeactivated s
      | None => s
      end
  | None => s
  end.

(** Starting a composition, when there is a field for it and a method to do it. *)
Definition enter_composition_with (wanted : option TextField) (s : CompositorState)
    : CompositorState :=
  match wanted, cs_method s with
  | Some now, Some (c, object) =>
      let surface := focus_object s in
      let s := set_cs_composition (wrapping_add_u32 (cs_composition s) 1) s in
      let s := set_cs_composing (Some now) s in
      let s := push_event_with (tf_connection now) (tf_object now) (EvTextEnter surface) s in
      push_event_with c object (EvMethodActivated surface (tf_purpose now) (cs_composition s)) s
  | _, _ => s
  end.

Definition refresh_composition_with (s : CompositorState) : CompositorState :=
  let wanted := wanted_field s in
  if same_composition (cs_composing s) wanted then s
  else enter_composition_with wanted (leave_composition_with s).

(** The input method's share of a teardown: the composition goes with the method. *)
Definition drop_method_with (c : ConnectionId) (s : CompositorState) : CompositorState :=
  if owned_by c (cs_method s) then
    let s := set_cs_method None s in
    match cs_composing s with
    | Some field =>
        let s := set_cs_composing None s in
        let s := set_cs_composition (wrapping_add_u32 (cs_composition s) 1) s in
        withdraw_preedit_with field ObjectId_NULL s
    | None => s
    end
  else s.

Definition drop_composing (c : ConnectionId) (s : CompositorState) : CompositorState :=
  match cs_composing s with
  | Some field => if decide (tf_connection field = c) then set_cs_composing None s else s
  | None => s
  end.

Definition close_connection_step (c : ConnectionId) (s : CompositorState)
    : Teardown * CompositorState :=
  match cs_connections s !! c with
  | None => (Teardown_default, s)
  | Some client =>
      let destroyed := teardown_registry (cn_registry client) in
      let retired := retired_handles c s in
      let s := forget_connection c s in
      let s := drop_method_with c s in
      let s := drop_composing c s in
      let s := refresh_composition_with s in
      let s := foldl (λ s handle, tell_shells_with (EvShellToplevelGone handle) s) s retired in
      (MkTeardown destroyed, s)
  end.
End Open.

Fixpoint close_fuel (fuel : nat) (c : ConnectionId) (s : CompositorState) : CompositorState :=
  match fuel with
  | O => s
  | S n => (close_connection_step (close_fuel n) c s).2
  end.

(** Every nested close has one connection fewer to close. *)
Definition close_connection (c : ConnectionId) (s : CompositorState) : Teardown * CompositorState :=
  close_connection_step (close_fuel (size (cs_connections s))) c s.

Definition close_state (c : ConnectionId) (s : CompositorState) : CompositorState :=
  (close_connection c s).2.

Definition push_event := push_event_with close_state.
Definition push_each := push_each_with close_state.
Definition tell_shells := tell_shells_with close_state.
Definition refresh_composition := refresh_composition_with close_state.
Definition withdraw_preedit := withdraw_preedit_with close_state.
Definition drop_method := drop_method_with close_state.

(** * The recursion ends *)

Definition population (s : CompositorState) : nat := size (cs_connections s).
Definition conns (s : CompositorState) : gset ConnectionId := dom (cs_connections s).

Lemma conns_population s t : conns s ⊆ conns t → (population s ≤ population t)%nat.
Proof. unfold population. rewrite <- !size_dom. apply subseteq_size. Qed.

(** Two closings that agree, and do not add connections, wherever at most [n] are left. *)
Record agree (n : nat) (f g : ConnectionId → CompositorState → CompositorState) : Prop := {
  agree_eq c s : (population s ≤ n)%nat → f c s = g c s;
  agree_le c s : (population s ≤ n)%nat → conns (g c s) ⊆ conns s;
}.

(** What an open operation makes of two closings that agree. *)
Definition congruent (n : nat) (f g : ConnectionId → CompositorState → CompositorState)
    (op : (ConnectionId → CompositorState → CompositorState) → CompositorState → CompositorState)
    : Prop :=
  ∀ s, (population s ≤ n)%nat → op f s = op g s ∧ conns (op g s) ⊆ conns s.

Section Agreement.
Context (n : nat) (f g : ConnectionId → CompositorState → CompositorState) (H : agree n f g).

Lemma congruent_pure (h : CompositorState → CompositorState) :
  (∀ s, conns (h s) = conns s) → congruent n f g (λ _, h).
Proof. intros Hh s _. split; [done|]. by rewrite Hh. Qed.

Lemma congruent_id : congruent n f g (λ _ s, s).
Proof. by apply congruent_pure. Qed.

Lemma congruent_seq op1 op2 :
  congruent n f g op1 → congruent n f g op2 → congruent n f g (λ close s, op2 close (op1 close s)).
Proof.
  intros H1 H2 s Hs. destruct (H1 s Hs) as [E1 L1]. rewrite E1.
  pose proof (conns_population _ _ L1).
  destruct (H2 (op1 g s)) as [E2 L2]; [lia|]. split; [done|]. by etransitivity.
Qed.

(** An operation chosen by the state it starts in. *)
Lemma congruent_state (op : CompositorState →
    (ConnectionId → CompositorState → CompositorState) → CompositorState → CompositorState) :
  (∀ s0, congruent n f g (op s0)) → congruent n f g (λ close s, op s close s).
Proof. intros Hop s Hs. by apply Hop. Qed.

Lemma congruent_push c o k : congruent n f g (λ close, push_event_with close c o k).
Proof.
  intros s Hs. unfold push_event_with. destruct (cs_connections s !! c) as [client|] eqn:Ec; [|done].
  case_match.
  - set (s' := events_push _ s). change (population s' ≤ n)%nat in Hs.
    split; [by apply (agree_eq _ _ _ H)|]. change (conns s) with (conns s').
    by apply (agree_le _ _ _ H).
  - split; [done|]. unfold conns. simpl. rewrite dom_insert_lookup_L; [done|by eexists].
Qed.

Lemma congruent_fold {A} (op : A →
    (ConnectionId → CompositorState → CompositorState) → CompositorState → CompositorState) l :
  (∀ x, congruent n f g (op x)) →
  congruent n f g (λ close s, foldl (λ s x, op x close s) s l).
Proof.
  intros Hop. induction l as [|x l IH]; [apply congruent_id|]. cbn [foldl].
  apply (congruent_seq (op x) (λ close s, foldl (λ s x, op x close s) s l)); [apply Hop|done].
Qed.
End Agreement.

Lemma congruent_if (n : nat) f g (b : bool) op1 op2 :
  congruent n f g op1 → congruent n f g op2 →
  congruent n f g (λ close s, if b then op1 close s else op2 close s).
Proof. by destruct b. Qed.

Section AgreementParts.
Context (n : nat) (f g : ConnectionId → CompositorState → CompositorState) (H : agree n f g).

Lemma congruent_push_each event bound :
  congruent n f g (λ close, push_each_with close event bound).
Proof.
  apply (congruent_fold n f g (λ o close, push_event_with close o.1 o.2 event)).
  intros o. by apply congruent_push.
Qed.

Lemma congruent_tell_shells event : congruent n f g (λ close, tell_shells_with close event).
Proof.
  apply (congruent_state n f g (λ s close, push_each_with close event (bound_objects KShellControl s))).
  intros s. apply congruent_push_each.
Qed.

Lemma congruent_withdraw field surface :
  congruent n f g (λ close, withdraw_preedit_with close field surface).
Proof.
  apply (congruent_seq n f g (λ close s, push_event_with close _ _ (EvTextPreedit (cs_composition s)
    TextBuffer_default (-1) (-1)) s) (λ close, push_event_with close _ _ (EvTextLeave surface)));
    [|by apply congruent_push].
  apply (congruent_state n f g (λ s close, push_event_with close (tf_connection field)
    (tf_object field) (EvTextPreedit (cs_composition s) TextBuffer_default (-1) (-1)))).
  intros s. by apply congruent_push.
Qed.

Lemma congruent_method_event (k : CompositorState → EventKind) :
  congruent n f g (λ close s, match cs_method s with
    | Some (c, object) => push_event_with close c object (k s) s
    | None => s end).
Proof.
  intros s Hs. destruct (cs_method s) as [[c o]|]; [by apply (congruent_push n f g H)|done].
Qed.

Lemma congruent_leave : congruent n f g leave_composition_with.
Proof.
  intros s Hs. unfold leave_composition_with. destruct (cs_composing s) as [was|]; [|done].
  set (s1 := set_cs_composing None s).
  destruct (congruent_withdraw was (focus_object s1) s1) as [E1 L1]; [exact Hs|]. rewrite E1.
  change (conns s1) with (conns s) in L1. pose proof (conns_population _ _ L1).
  destruct (congruent_method_event (λ _, EvMethodDeactivated)
    (withdraw_preedit_with g was (focus_object s1) s1)) as [E2 L2]; [lia|].
  split; [exact E2|]. etransitivity; [exact L2|exact L1].
Qed.

Lemma congruent_enter wanted : congruent n f g (λ close, enter_composition_with close wanted).
Proof.
  intros s Hs. unfold enter_composition_with. destruct wanted as [now|]; [|done].
  destruct (cs_method s) as [[c o]|]; [|done]. set (s1 := set_cs_composing _ _).
  destruct (congruent_push n f g H (tf_connection now) (tf_object now)
    (EvTextEnter (focus_object s)) s1) as [E1 L1]; [exact Hs|]. rewrite E1.
  change (conns s1) with (conns s) in L1. pose proof (conns_population _ _ L1).
  destruct (congruent_push n f g H c o (EvMethodActivated (focus_object s) (tf_purpose now)
    (cs_composition (push_event_with g (tf_connection now) (tf_object now)
      (EvTextEnter (focus_object s)) s1)))
    (push_event_with g (tf_connection now) (tf_object now) (EvTextEnter (focus_object s)) s1))
    as [E2 L2]; [lia|].
  split; [exact E2|]. etransitivity; [exact L2|exact L1].
Qed.

Lemma congruent_refresh : congruent n f g refresh_composition_with.
Proof.
  intros s Hs. unfold refresh_composition_with. case_match; [done|].
  by apply (congruent_seq n f g leave_composition_with
    (λ close, enter_composition_with close (wanted_field s)));
    [apply congruent_leave|apply congruent_enter|].
Qed.

Lemma congruent_drop_method c : congruent n f g (λ close, drop_method_with close c).
Proof.
  intros s Hs. unfold drop_method_with. destruct (owned_by c (cs_method s)); [|done].
  cbn [cs_composing set_cs_method]. destruct (cs_composing s) as [field|]; [|done].
  by apply (congruent_withdraw field ObjectId_NULL (set_cs_composition _ (set_cs_composing None
    (set_cs_method None s)))).
Qed.

Lemma congruent_gone handles :
  congruent n f g (λ close s, foldl (λ s h, tell_shells_with close (EvShellToplevelGone h) s) s handles).
Proof.
  apply (congruent_fold n f g (λ h close, tell_shells_with close (EvShellToplevelGone h))).
  intros h. apply congruent_tell_shells.
Qed.
End AgreementParts.

Lemma drop_composing_conns c s : conns (drop_composing c s) = conns s.
Proof. unfold drop_composing. repeat case_match; done. Qed.

(** A close of a connection that is there removes it before anything else. *)
Lemma forget_population c s client :
  cs_connections s !! c = Some client →
  population s = S (population (forget_connection c s)) ∧
  conns (forget_connection c s) = conns s ∖ {[ c ]}.
Proof.
  intros Hc. unfold population, conns, forget_connection. simpl. split; [|apply dom_delete_L].
  assert (is_Some (cs_connections s !! c)) as Hs by (by eexists).
  rewrite map_size_delete_Some by done. apply map_size_ne_0_lookup_2 in Hs. lia.
Qed.

Lemma step_agree n f g c s client :
  agree n f g → (population s ≤ S n)%nat → cs_connections s !! c = Some client →
  (close_connection_step f c s).2 = (close_connection_step g c s).2 ∧
  conns (close_connection_step g c s).2 ⊆ conns s ∖ {[ c ]}.
Proof.
  intros H Hs Ec. unfold close_connection_step. rewrite Ec. cbn [snd].
  destruct (forget_population c s client Ec) as [Hf Hd]. rewrite <- Hd. clear Hd.
  set (s1 := forget_connection c s) in *.
  destruct (congruent_drop_method n f g H c s1) as [E1 L1]; [lia|]. rewrite E1.
  set (s2 := drop_composing c (drop_method_with g c s1)).
  assert (conns s2 ⊆ conns s1) as L2 by (unfold s2; by rewrite drop_composing_conns).
  pose proof (conns_population _ _ L2).
  destruct (congruent_refresh n f g H s2) as [E3 L3]; [lia|]. rewrite E3.
  pose proof (conns_population _ _ L3).
  destruct (congruent_gone n f g H (retired_handles c s) (refresh_composition_with g s2))
    as [E4 L4]; [lia|]. split; [exact E4|]. cbn beta in L4. by do 2 (etransitivity; [done|]).
Qed.

Lemma congruent_step n f g c :
  agree n f g → congruent (S n) f g (λ close s, (close_connection_step close c s).2).
Proof.
  intros H s Hs. destruct (cs_connections s !! c) as [client|] eqn:Ec.
  - destruct (step_agree n f g c s client H Hs Ec) as [E L]. split; [done|].
    intros x Hx%L. by apply elem_of_difference in Hx as [? _].
  - unfold close_connection_step. by rewrite Ec.
Qed.

Lemma close_fuel_agree n m k :
  (k ≤ n)%nat → (k ≤ m)%nat → agree k (close_fuel n) (close_fuel m).
Proof.
  revert n m. induction k as [|k IH]; intros n m Hn Hm.
  - assert (∀ j c s, (population s ≤ 0)%nat → close_fuel j c s = s) as H0.
    { intros j c s Hs. destruct j; [done|]. simpl. unfold close_connection_step.
      assert (cs_connections s = ∅) as -> by (apply map_size_empty_inv; unfold population in Hs; lia).
      by rewrite lookup_empty. }
    split; intros c s Hs; rewrite !H0 by done; done.
  - destruct n as [|n]; [lia|]. destruct m as [|m]; [lia|].
    assert (agree k (close_fuel n) (close_fuel m)) as H by (apply IH; lia).
    split; intros c s Hs; by apply (congruent_step k _ _ c H).
Qed.

Lemma close_fuel_state n c s : (population s ≤ n)%nat → close_fuel n c s = close_state c s.
Proof.
  intros Hn. destruct n as [|n].
  - unfold close_state, close_connection, close_connection_step. simpl.
    assert (cs_connections s = ∅) as -> by (apply map_size_empty_inv; unfold population in Hn; lia).
    done.
  - unfold close_state, close_connection.
    change ((close_connection_step (close_fuel (size (cs_connections s))) c s).2)
      with (close_fuel (S (population s)) c s).
    apply (agree_eq _ _ _ (close_fuel_agree (S n) (S (population s)) (population s)
      ltac:(lia) ltac:(lia))). lia.
Qed.

Lemma agree_close_state n k : (k ≤ n)%nat → agree k (close_fuel n) close_state.
Proof.
  intros Hk. split; intros c s Hs.
  - apply close_fuel_state. lia.
  - rewrite <- (close_fuel_state n) by lia.
    by apply (agree_le _ _ _ (close_fuel_agree n n k Hk Hk)).
Qed.

Lemma close_connection_run c s :
  close_connection c s = close_connection_step close_state c s ∧
  conns (close_connection c s).2 ⊆ conns s ∖ {[ c ]}.
Proof.
  destruct (cs_connections s !! c) as [client|] eqn:Ec.
  - destruct (step_agree (population s) (close_fuel (population s)) close_state c s client) as [E L];
      [by apply agree_close_state|lia|done|].
    split; [|unfold close_connection; change (size (cs_connections s)) with (population s);
      by rewrite E].
    apply injective_projections; [|exact E].
    unfold close_connection, close_connection_step. rewrite Ec. cbn [fst]. reflexivity.
  - unfold close_connection, close_connection_step. rewrite Ec. split; [done|]. cbn [snd].
    intros x Hx. apply elem_of_difference. split; [done|]. intros ->%elem_of_singleton.
    unfold conns in Hx. apply elem_of_dom in Hx. rewrite Ec in Hx. by destruct Hx.
Qed.

(** C40. Disconnecting ends, however many full queues it runs into: the fuel the definition runs on
    is enough, so [close_connection] satisfies the source's own recursive equation, with every event
    it queues closing connections by the same function; and it never adds a connection. *)
Theorem close_connection_unfold (c : ConnectionId) (s : CompositorState) :
  close_connection c s = close_connection_step close_state c s ∧
  conns (close_connection c s).2 ⊆ conns s ∖ {[ c ]}.
Proof. apply close_connection_run. Qed.

Lemma agree_refl n : agree n close_state close_state.
Proof. split; [done|]. intros c s Hs. by apply (agree_le _ _ _ (agree_close_state n n (le_n n))). Qed.

#[global] Arguments push_event : simpl never.
#[global] Arguments push_each : simpl never.
#[global] Arguments tell_shells : simpl never.
#[global] Arguments refresh_composition : simpl never.
#[global] Arguments close_connection : simpl never.
#[global] Arguments close_state : simpl never.

Lemma close_state_step c s client :
  cs_connections s !! c = Some client →
  close_state c s =
  foldl (λ s h, tell_shells (EvShellToplevelGone h) s)
    (refresh_composition (drop_composing c (drop_method c (forget_connection c s))))
    (retired_handles c s).
Proof.
  intros Hc. unfold close_state at 1. rewrite (proj1 (close_connection_run c s)).
  unfold close_connection_step. rewrite Hc. cbn [snd].
  unfold tell_shells, refresh_composition, drop_method. reflexivity.
Qed.

Lemma close_state_absent c s : cs_connections s !! c = None → close_state c s = s.
Proof. intros Hc. unfold close_state, close_connection, close_connection_step. by rewrite Hc. Qed.

(** * Keeping an invariant through an event

    An invariant kept by queueing one event and by forgetting a connection is kept by everything
    an event can set off. The method can only be dropped, and what is being composed can only
    become nothing or the field some state of the invariant wants. *)

Definition may_compose (field : option TextField) : Prop :=
  match field with Some f => admits_composition (tf_purpose f) = true | None => True end.

Lemma wanted_field_admits s : may_compose (wanted_field s).
Proof.
  unfold wanted_field. destruct (cs_keyboard_focus s) as [key|]; [|done]. cbn.
  destruct (list_find_first _ _) as [f|]; [|done]. cbn.
  by destruct (admits_composition (tf_purpose f)) eqn:E.
Qed.

Definition queued (c : ConnectionId) (client : Connection) (e : Event) (s : CompositorState)
    : CompositorState :=
  events_push e (set_cs_connections
    (<[ c := set_cn_pending_events (cn_pending_events client + 1) client ]> (cs_connections s)) s).

Definition overflow_event (c : ConnectionId) (client : Connection) : Event :=
  MkEvent c ObjectId_DISPLAY (EvError (EventQueueOverflow (cn_pending_events client))).

Class Teardown_stable (I : CompositorState → Prop) : Prop := {
  stable_queue s c client o k :
    I s → cs_connections s !! c = Some client →
    cn_pending_events client < max_pending_events (cs_limits s) →
    I (queued c client (MkEvent c o k) s);
  stable_forget s c client :
    I s → cs_connections s !! c = Some client → I (forget_connection c s);
  stable_overflow s c client :
    I s → cs_connections s !! c = Some client →
    max_pending_events (cs_limits s) ≤ cn_pending_events client →
    I (forget_connection c (events_push (overflow_event c client) s));
  stable_method s : I s → I (set_cs_method None s);
  stable_compose s0 s : I s0 → I s → I (set_cs_composing (wanted_field s0) s);
  stable_decompose s : I s → I (set_cs_composing None s);
  stable_composition s x : I s → I (set_cs_composition x s);
}.

Create HintDb kept.

(** [kept I f]: [f] takes states of [I] to states of [I]. *)
Definition kept (I : CompositorState → Prop) (f : CompositorState → CompositorState) : Prop :=
  ∀ s, I s → I (f s).

Section Keeping.
Context (I : CompositorState → Prop) `{!Teardown_stable I}.

(** The invariant of an induction on the connections left. *)
Definition upto (m : nat) (s : CompositorState) : Prop := I s ∧ (population s ≤ m)%nat.

Definition closes_upto (m : nat) : Prop :=
  ∀ c s, upto m s →
    I (close_state c s) ∧
    ∀ client, cs_connections s !! c = Some client →
      max_pending_events (cs_limits s) ≤ cn_pending_events client →
      I (close_state c (events_push (overflow_event c client) s)).

Lemma kept_fold {A} (J : CompositorState → Prop) (f : A → CompositorState → CompositorState) l :
  (∀ x, kept J (f x)) → kept J (λ s, foldl (λ s x, f x s) s l).
Proof.
  intros Hf. induction l as [|x l IH]; intros s Hs; [done|]. cbn [foldl]. by apply IH, Hf.
Qed.

Lemma upto_push m c o k : closes_upto m → kept (upto m) (push_event c o k).
Proof.
  intros Hm s [Hs Hp]. split.
  - unfold push_event, push_event_with. destruct (cs_connections s !! c) as [client|] eqn:Ec; [|done].
    case_match eqn:E; [rewrite Z.leb_le in E|rewrite Z.leb_gt in E].
    + by apply (Hm c s).
    + by apply (stable_queue s c client o k).
  - etransitivity; [|exact Hp]. apply conns_population.
    by apply (congruent_push (population s) _ _ (agree_refl _) c o k s).
Qed.

Lemma upto_push_each m event bound : closes_upto m → kept (upto m) (push_each event bound).
Proof.
  intros Hm. apply (kept_fold (upto m) (λ o, push_event o.1 o.2 event)).
  intros o. by apply upto_push.
Qed.

Lemma upto_tell_shells m event : closes_upto m → kept (upto m) (tell_shells event).
Proof. intros Hm s Hs. apply (upto_push_each m _ _ Hm), Hs. Qed.

Lemma upto_withdraw m field surface : closes_upto m → kept (upto m) (withdraw_preedit field surface).
Proof. intros Hm s Hs. unfold withdraw_preedit, withdraw_preedit_with. 
  apply (upto_push m _ _ _ Hm), (upto_push m _ _ _ Hm), Hs.
Qed.

Lemma upto_drop_method m c : closes_upto m → kept (upto m) (drop_method c).
Proof.
  intros Hm s Hs. unfold drop_method, drop_method_with. case_match; [|done].
  destruct Hs as [Hs Hp]. cbn [cs_composing set_cs_method].
  destruct (cs_composing s) as [field|].
  - apply (upto_withdraw m _ _ Hm). split; [|done].
    by apply stable_composition, stable_decompose, stable_method.
  - split; [by apply stable_method|done].
Qed.

Lemma upto_drop_composing m c : kept (upto m) (drop_composing c).
Proof.
  intros s [Hs Hp]. unfold drop_composing. repeat case_match; split; try done.
  by apply stable_decompose.
Qed.

Lemma upto_refresh m : closes_upto m → kept (upto m) refresh_composition.
Proof.
  intros Hm s Hs. unfold refresh_composition, refresh_composition_with. case_match; [done|].
  assert (upto m (leave_composition_with close_state s)) as Hl.
  { unfold leave_composition_with. destruct (cs_composing s) as [was|]; [|done].
    assert (upto m (withdraw_preedit was (focus_object (set_cs_composing None s))
      (set_cs_composing None s))) as Hw.
    { apply (upto_withdraw m _ _ Hm). destruct Hs. split; [by apply stable_decompose|done]. }
    unfold withdraw_preedit in Hw. cbv zeta.
    destruct (cs_method _) as [[c o]|]; [apply (upto_push m _ _ _ Hm), Hw|exact Hw]. }
  unfold enter_composition_with. destruct (wanted_field s) as [now|] eqn:Ew; [|done].
  destruct (cs_method _) as [[c o]|]; [|done]. cbv zeta.
  apply (upto_push m _ _ _ Hm), (upto_push m _ _ _ Hm).
  destruct Hl, Hs. split; [rewrite <- Ew; by apply stable_compose, stable_composition|done].
Qed.

Lemma upto_close_tail m c handles :
  closes_upto m →
  kept (upto m) (λ s, foldl (λ s h, tell_shells (EvShellToplevelGone h) s)
    (refresh_composition (drop_composing c (drop_method c s))) handles).
Proof.
  intros Hm s Hs. apply (kept_fold (upto m) (λ h, tell_shells (EvShellToplevelGone h))).
  - intros h. by apply upto_tell_shells.
  - apply (upto_refresh m Hm), upto_drop_composing, (upto_drop_method m c Hm), Hs.
Qed.

Lemma closes_all m : closes_upto m.
Proof.
  induction m as [|m IH]; intros c s [Hs Hp].
  - assert (cs_connections s = ∅) as He
      by (apply map_size_empty_inv; unfold population in Hp; lia).
    assert (cs_connections s !! c = None) as Hn by (by rewrite He, lookup_empty).
    split; [by rewrite close_state_absent|]. intros client Hc. congruence.
  - split.
    + destruct (cs_connections s !! c) as [client|] eqn:Ec; [|by rewrite close_state_absent].
      rewrite (close_state_step c s client Ec). apply (upto_close_tail m c _ IH).
      split; [by eapply stable_forget|]. destruct (forget_population c s client Ec). lia.
    + intros client Ec Hq. set (s' := events_push _ s).
      rewrite (close_state_step c s' client Ec). apply (upto_close_tail m c _ IH).
      split; [by eapply stable_overflow|]. destruct (forget_population c s' client Ec) as [Hf _].
      change (population s') with (population s) in Hf. lia.
Qed.

Lemma kept_upto (f : CompositorState → CompositorState) :
  (∀ m, kept (upto m) f) → kept I f.
Proof. intros Hf s Hs. exact (proj1 (Hf (population s) s (conj Hs (le_n _)))). Qed.

Lemma kept_push c o k : kept I (push_event c o k).
Proof. apply kept_upto. intros m. apply upto_push, closes_all. Qed.
Lemma kept_push_each event bound : kept I (push_each event bound).
Proof. apply kept_upto. intros m. apply upto_push_each, closes_all. Qed.
Lemma kept_tell_shells event : kept I (tell_shells event).
Proof. apply kept_upto. intros m. apply upto_tell_shells, closes_all. Qed.
Lemma kept_refresh : kept I refresh_composition.
Proof. apply kept_upto. intros m. apply upto_refresh, closes_all. Qed.
Lemma kept_drop_method c : kept I (drop_method c).
Proof. apply kept_upto. intros m. apply upto_drop_method, closes_all. Qed.

(** What holds once a connection is forgotten holds once it is closed. *)
Lemma close_establishes c s client :
  cs_connections s !! c = Some client → I (forget_connection c s) → I (close_state c s).
Proof.
  intros Hc Hs. rewrite (close_state_step c s client Hc).
  apply (kept_fold I (λ h, tell_shells (EvShellToplevelGone h))); [intros h; apply kept_tell_shells|].
  apply kept_refresh. unfold drop_composing.
  pose proof (kept_drop_method c _ Hs). repeat case_match; try done. by apply stable_decompose.
Qed.
Lemma kept_close c : kept I (close_state c).
Proof. intros s Hs. exact (proj1 (closes_all (population s) c s (conj Hs (le_n _)))). Qed.
End Keeping.

#[export] Hint Resolve kept_push kept_push_each kept_tell_shells kept_refresh kept_close : kept.
