(* ===== verification/Objects.v ===== *)
(** Connections and the objects they hold ([atria-compositor/src/state/mod.rs]): negotiation,
    capabilities, allocation against quotas, and destruction with everything that depends on the
    object destroyed. *)
From S2P Require Import Prelude.
From S2P Require Import BTree.
From S2P Require Import Vocabulary.
From S2P Require Import Interface.
From S2P Require Import Wire.
From S2P Require Import Payloads.
From S2P Require Import Model.
From S2P Require Import Registry.
From S2P Require Import Outputs.
From S2P Require Import State.
From S2P Require Import Queue.

(** * Connections and capabilities *)

(** ADR-0012's backend semantics. *)
Definition advertised_facts : list Capability :=
  [SoftwareShm; GpuPrime; ExplicitGpuFence; RevocableSeat].

Definition connect (client_capabilities required : CapabilitySet)
    : ST CompositorState NegotiationError ConnectionId := λ s,
  let available := cap_with (cap_with
    (cap_intersection (cs_server_capabilities s) client_capabilities) SurfaceCreate) BufferImport in
  if negb (cap_satisfies available required) then (Err (UnsupportedCapabilities required available), s)
  else if max_connections (cs_server_limits s) <=? Z.of_nat (size (cs_connections s))
  then (Err (ConnectionLimitReached (max_connections (cs_server_limits s))), s)
  else if cs_next_connection s =? u64_max then (Err ConnectionIdExhausted, s)
  else
    let id := MkConnectionId (cs_next_connection s) in
    let s := set_cs_next_connection (cs_next_connection s + 1) s in
    let capabilities := foldl
      (λ caps c, if cap_contains available c then cap_with caps c else caps)
      (cap_intersection available default_grants) advertised_facts in
    let client := MkConnection 0 None available capabilities (ObjectRegistry_new ODisplay) in
    (Ok id, set_cs_connections (<[ id := client ]> (cs_connections s)) s).

Definition is_connected (c : ConnectionId) (s : CompositorState) : bool :=
  bool_decide (is_Some (cs_connections s !! c)).

Definition capabilities (c : ConnectionId) (s : CompositorState) : option CapabilitySet :=
  cn_capabilities <$> cs_connections s !! c.

(** [self.capabilities(connection).is_some_and(|held| held.contains(capability))]. *)
Definition holds_capability (c : ConnectionId) (cap : Capability) (s : CompositorState) : bool :=
  match capabilities c s with Some held => cap_contains held cap | None => false end.

Definition grant_capability (c : ConnectionId) (cap : Capability)
    : ST CompositorState StateError unit :=
  client ← reads (connection c);
  let available := cn_available_capabilities client in
  if negb (cap_contains available cap) then throw (UnsupportedCapability ObjectId_DISPLAY cap)
  else modify (update_connection c (λ client,
         set_cn_capabilities (cap_with (cn_capabilities client) cap) client)).

Definition require_capability (c : ConnectionId) (object_id : ObjectId) (cap : Capability)
    (s : CompositorState) : result StateError unit :=
  client ← connection c s;
  if cap_contains (cn_capabilities client) cap then Ok tt
  else Err (UnsupportedCapability object_id cap).

(** * Allocation *)

Definition kind_maximum (kind : ObjectKind) (l : ConnectionLimits) : Z :=
  match kind with
  | KSurface => max_surfaces l
  | KBuffer => Z.min (max_buffers l) (max_imported_handles l)
  | KShmPool => max_imported_handles l
  | KToplevel => max_surfaces l
  | _ => max_objects l
  end.

Definition count_of_kind (kind : ObjectKind) (client : Connection) : Z :=
  len (objects_of_kind kind client).

Definition check_kind_quota (c : ConnectionId) (kind : ObjectKind) (s : CompositorState)
    : result StateError unit :=
  client ← connection c s;
  let count := count_of_kind kind client in
  let maximum := kind_maximum kind (cs_limits s) in
  if maximum <=? count then Err (QuotaExceeded ObjectId_DISPLAY) else Ok tt.

Definition allocate_client (c : ConnectionId) (id : ObjectId) (kind : ObjectKind) (value : Object)
    : ST CompositorState StateError unit := λ s,
  let limit := max_objects (cs_limits s) in
  match cs_connections s !! c with
  | None => (Err ConnectionClosed, s)
  | Some client =>
      if limit <=? reg_len (cn_registry client) then (Err (QuotaExceeded id), s)
      else
        let (r, registry) := reg_allocate_client id kind value (cn_registry client) in
        (r, set_cs_connections (<[ c := set_cn_registry registry client ]> (cs_connections s)) s)
  end.

Definition create_seat (c : ConnectionId) (id : ObjectId) (caps : SeatCapabilities) (active : bool)
    : ST CompositorState StateError unit :=
  allocate_client c id KSeat (OSeat (MkSeatState caps active)).

Definition create_session (c : ConnectionId) (id : ObjectId) (seat : option ObjectId)
    (active : bool) : ST CompositorState StateError unit :=
  _ ← match seat with
      | Some seat_id => reads (expect_kind c seat_id KSeat)
      | None => mret tt
      end;
  client ← reads (connection c);
  match cn_session client with
  | Some _ => throw (InvalidState id)
  | None =>
      _ ← allocate_client c id KSession (OSession (MkSessionState seat active));
      _ ← reads (connection c);
      modify (update_connection c (set_cn_session (Some id)))
  end.

Definition session_of (c : ConnectionId) (s : CompositorState) : option ObjectId :=
  client ← cs_connections s !! c;
  cn_session client.

Definition create_fence (c : ConnectionId) (id : ObjectId) : ST CompositorState StateError unit :=
  _ ← reads (require_capability c id ExplicitGpuFence);
  allocate_client c id KFence (OFence (MkFenceState false)).

Definition create_input_stream (c : ConnectionId) (id : ObjectId)
    : ST CompositorState StateError unit :=
  _ ← reads (require_capability c id ExtendedInput);
  allocate_client c id KInputStream OInputStream.

Definition pool_memory (c : ConnectionId) (id : ObjectId) (s : CompositorState)
    : option SharedMem :=
  e ← live_entry c id s;
  match entry_value e with OShmPool memory => Some memory | _ => None end.

(** * Sessions and seats *)

Definition expect_active_session (c : ConnectionId) (session : ObjectId) (s : CompositorState)
    : result StateError unit :=
  o ← object c session KSession s;
  match o with
  | OSession session_state =>
      if negb (session_active session_state) then Err (InvalidState session)
      else match session_seat session_state with
      | None => Ok tt
      | Some seat_id =>
          seat ← object c seat_id KSeat s;
          match seat with
          | OSeat seat_state =>
              if negb (seat_active seat_state) then Err (InvalidState session) else Ok tt
          | _ => Err (InvalidState seat_id)
          end
      end
  | _ => Err (InvalidState session)
  end.

Definition focusable (key : SurfaceKey) (s : CompositorState) : result StateError unit :=
  st ← surface (key_connection key) (key_object key) s;
  match su_current st, scene_positions (cs_scene s) !! key with
  | Some _, Some _ => expect_active_session (key_connection key) (su_session st) s
  | _, _ => Err (InvalidState (key_object key))
  end.

Definition session_snapshot (c : ConnectionId) (session : ObjectId) (s : CompositorState)
    : option SessionSnapshot :=
  match object c session KSession s with
  | Ok (OSession state) => Some (MkSessionSnapshot (session_seat state) (session_active state))
  | _ => None
  end.

Definition seat_snapshot (c : ConnectionId) (seat : ObjectId) (s : CompositorState)
    : option SeatSnapshot :=
  match object c seat KSeat s with
  | Ok (OSeat state) => Some (MkSeatSnapshot (seat_capabilities state) (seat_active state))
  | _ => None
  end.

Definition set_seat_active (c : ConnectionId) (seat : ObjectId) (active : bool)
    : ST CompositorState StateError unit :=
  o ← reads (object c seat KSeat);
  match o with
  | OSeat state =>
      modify (update_object c seat (OSeat (MkSeatState (seat_capabilities state) active)))
  | _ => throw (InvalidState seat)
  end.

Definition set_seat_capabilities (c : ConnectionId) (seat : ObjectId) (caps : SeatCapabilities)
    : ST CompositorState StateError unit :=
  o ← reads (object c seat KSeat);
  match o with
  | OSeat state => modify (update_object c seat (OSeat (MkSeatState caps (seat_active state))))
  | _ => throw (InvalidState seat)
  end.

(** * Destruction *)

(** The connection's identifiers, newest first, that satisfy a predicate. *)
Definition ids_where (c : ConnectionId) (p : ObjectId → bool) (s : CompositorState) : list ObjectId :=
  match cs_connections s !! c with
  | Some client => list_retain p (ids_reverse_creation (cn_registry client))
  | None => []
  end.

Definition session_children (c : ConnectionId) (session : ObjectId) (s : CompositorState)
    : list ObjectId :=
  ids_where c (λ id, match surface c id s with
                     | Ok st => bool_decide (su_session st = session)
                     | Err _ => false
                     end) s.

Definition seat_sessions (c : ConnectionId) (seat : ObjectId) (s : CompositorState)
    : list ObjectId :=
  ids_where c (λ id, match object c id KSession s with
                     | Ok (OSession state) => bool_decide (session_seat state = Some seat)
                     | _ => false
                     end) s.

Definition fence_dependents (c : ConnectionId) (fence : ObjectId) (s : CompositorState)
    : list ObjectId :=
  ids_where c (λ id, match surface c id s with
                     | Ok st =>
                         bool_decide (ps_acquire_fence (su_pending st) = Some fence) ||
                         match su_current st with
                         | Some current =>
                             bool_decide (snap_acquire_fence (cur_snapshot current) = Some fence)
                         | None => false
                         end
                     | Err _ => false
                     end) s.

Definition buffer_related (key : SurfaceKey) (state : BufferState) : bool :=
  match state with
  | Pending surface | CompositorHeld surface _ => bool_decide (surface = key)
  | Available => false
  end.

(** A buffer a dying surface holds goes back to the client. *)
Definition release_related (key : SurfaceKey) (buffer_id : ObjectId) (s : CompositorState)
    : CompositorState :=
  let c := key_connection key in
  match buffer c buffer_id s with
  | Ok b =>
      if buffer_related key (bo_state b) then
        let s := (set_buffer_state c buffer_id Available s).2 in
        push_event c buffer_id EvBufferRelease s
      else s
  | Err _ => s
  end.

Definition destroy_surface_part (key : SurfaceKey) (s : CompositorState) : CompositorState :=
  let c := key_connection key in
  let buffer_ids := match cs_connections s !! c with
                    | Some client => ids (cn_registry client)
                    | None => []
                    end in
  let s := foldl (λ s buffer_id, release_related key buffer_id s) s buffer_ids in
  let s := set_cs_scene (MkScene (delete key (scene_positions (cs_scene s)))
    (list_retain (λ value, negb (bool_decide (value = key))) (scene_stack (cs_scene s)))) s in
  let s := if decide (cs_keyboard_focus s = Some key)
           then set_cs_keyboard_focus None (push_event c (key_object key) EvKeyboardLeave s)
           else s in
  if decide (cs_pointer_target s = Some key) then set_cs_pointer_target None s else s.

(** What a surface forgets of a destroyed buffer. *)
Definition forget_buffer (id : ObjectId) (o : Object) : Object :=
  match o with
  | OSurface st =>
      let st := match ps_attachment (su_pending st) with
                | SetTo b _ => if decide (b = id)
                               then set_su_pending (set_ps_attachment Unchanged (su_pending st)) st
                               else st
                | _ => st
                end in
      let st := match su_current st with
                | Some current => if decide (snap_buffer (cur_snapshot current) = id)
                                  then set_su_current None st else st
                | None => st
                end in
      OSurface st
  | _ => o
  end.

Definition destroy_buffer_part (c : ConnectionId) (id : ObjectId) (s : CompositorState)
    : CompositorState :=
  update_connection c (λ client,
    set_cn_registry (set_live
      ((λ e, MkRegistryEntry (entry_kind e) (forget_buffer id (entry_value e)))
         <$> reg_live (cn_registry client)) (cn_registry client)) client) s.

Definition destroy_toplevel_part (c : ConnectionId) (id : ObjectId) (s : CompositorState)
    : CompositorState :=
  match toplevel_handle c id s with
  | Some handle =>
      let s := set_cs_toplevels (delete handle (cs_toplevels s)) s in
      tell_shells (EvShellToplevelGone handle) s
  | None => s
  end.

Abbreviation destroyed_list := (list (ObjectId * ObjectKind)).

(** The entry itself: removed, announced, and its number freed once the client is told. *)
Definition remove_object (c : ConnectionId) (id : ObjectId) (kind : ObjectKind)
    (acc : destroyed_list * CompositorState) : destroyed_list * CompositorState :=
  let (destroyed, s) := acc in
  match cs_connections s !! c with
  | None => acc
  | Some client =>
      let '(removed, registry) := reg_remove id (cn_registry client) in
      match removed with
      | None => acc
      | Some _ =>
          let s := set_cs_connections
            (<[ c := set_cn_registry registry client ]> (cs_connections s)) s in
          let s := push_event c id (EvObjectDestroyed kind) s in
          let s := push_event c id EvIdRetired s in
          (destroyed ++ [(id, kind)],
           update_connection c (λ client,
             set_cn_registry (retire id (cn_registry client)).2 client) s)
      end
  end.

Section OpenDestroy.
Context (destroy : ConnectionId → ObjectId →
  destroyed_list * CompositorState → destroyed_list * CompositorState).

Definition destroy_all_with (c : ConnectionId) (children : list ObjectId)
    (acc : destroyed_list * CompositorState) : destroyed_list * CompositorState :=
  foldl (λ acc child, destroy c child acc) acc children.

Definition on_state (f : CompositorState → CompositorState)
    (acc : destroyed_list * CompositorState) : destroyed_list * CompositorState :=
  (acc.1, f acc.2).

Definition destroy_object_step (c : ConnectionId) (id : ObjectId)
    (acc : destroyed_list * CompositorState) : destroyed_list * CompositorState :=
  match (client ← connection c acc.2; reg_kind (cn_registry client) id) with
  | Err _ => acc
  | Ok kind =>
      let acc := if decide (kind = KSession)
                 then destroy_all_with c (session_children c id acc.2) acc else acc in
      let acc := if decide (kind = KSeat)
                 then destroy_all_with c (seat_sessions c id acc.2) acc else acc in
      let acc := if decide (kind = KSurface)
                 then on_state (destroy_surface_part (MkSurfaceKey c id)) acc else acc in
      let acc := if decide (kind = KBuffer)
                 then on_state (destroy_buffer_part c id) acc else acc in
      let acc := if decide (kind = KFence)
                 then destroy_all_with c (fence_dependents c id acc.2) acc else acc in
      let acc := if decide (kind = KToplevel)
                 then on_state (destroy_toplevel_part c id) acc else acc in
      remove_object c id kind acc
  end.
End OpenDestroy.

(** A seat takes its sessions, a session its surfaces, a fence its surfaces; a surface nothing
    further. Three levels are enough ([destroy_object_unfold]). *)
Fixpoint destroy_fuel (fuel : nat) (c : ConnectionId) (id : ObjectId)
    (acc : destroyed_list * CompositorState) : destroyed_list * CompositorState :=
  match fuel with
  | O => acc
  | S n => destroy_object_step (destroy_fuel n) c id acc
  end.

Definition destroy_depth : nat := 3.
Definition destroy_acc := destroy_fuel destroy_depth.

Definition destroy_object (c : ConnectionId) (id : ObjectId) (s : CompositorState)
    : destroyed_list * CompositorState := destroy_acc c id ([], s).

(** * Revocation *)

Definition object_requires (c : ConnectionId) (id : ObjectId) (cap : Capability)
    (s : CompositorState) : bool :=
  match (client ← connection c s; reg_kind (cn_registry client) id) with
  | Err _ => false
  | Ok kind =>
      match kind, cap with
      | KSurface, SurfaceCreate | KBuffer, BufferImport | KFence, ExplicitGpuFence
      | KInputStream, ExtendedInput | KSession, PrivilegedSession | KSeat, RevocableSeat => true
      | _, _ => false
      end ||
      (bool_decide (kind = KBuffer) &&
       match buffer c id s with
       | Ok b => bool_decide (transport_capability (bd_transport (bo_descriptor b)) = cap)
       | Err _ => false
       end)
  end.

Definition revoke_capability (c : ConnectionId) (cap : Capability)
    : ST CompositorState StateError destroyed_list := λ s,
  match cs_connections s !! c with
  | None => (Err ConnectionClosed, s)
  | Some client =>
      let s := set_cs_connections
        (<[ c := set_cn_capabilities (cap_without (cn_capabilities client) cap) client ]>
           (cs_connections s)) s in
      let revoked := ids_reverse_creation (cn_registry client) in
      let s := push_event c ObjectId_DISPLAY (EvCapabilityRevoked cap) s in
      let acc := foldl (λ acc id,
        if object_requires c id cap acc.2 then destroy_acc c id acc else acc) ([], s) revoked in
      (Ok acc.1, acc.2)
  end.
