(* ===== verification/Destruction.v ===== *)
(** What destruction can and cannot do: it leaves every other object's kind, and whatever else of it
    a buffer's release does not touch, as it was, which is what makes the recursion of
    [destroy_object] at most three deep ([destroy_object_unfold]) and complete. *)
From S2P Require Import Prelude.
From S2P Require Import BTree.
From S2P Require Import Vocabulary.
From S2P Require Import Interface.
From S2P Require Import Wire.
From S2P Require Import Payloads.
From S2P Require Import Model.
From S2P Require Import Registry.
From S2P Require Import Outputs.
From S2P Require Import State.
From S2P Require Import Queue.
From S2P Require Import Objects.

(** * Looking up after an update *)

Lemma live_entry_connections s c id m :
  live_entry c id (set_cs_connections m s) =
  (client ← m !! c; reg_live (cn_registry client) !! id).
Proof. reflexivity. Qed.

Lemma live_entry_Some c id s e :
  live_entry c id s = Some e ↔
  ∃ client, cs_connections s !! c = Some client ∧ reg_live (cn_registry client) !! id = Some e.
Proof.
  unfold live_entry. destruct (cs_connections s !! c) as [client|]; simpl; naive_solver.
Qed.

Lemma live_entry_insert s c c' client' id :
  live_entry c id (set_cs_connections (<[ c' := client' ]> (cs_connections s)) s) =
  if decide (c' = c) then reg_live (cn_registry client') !! id else live_entry c id s.
Proof.
  rewrite live_entry_connections. case_decide as E.
  - subst. by rewrite lookup_insert_eq.
  - by rewrite lookup_insert_ne.
Qed.

Lemma live_entry_update_connection s c c' f id :
  live_entry c id (update_connection c' f s) =
  if decide (c' = c) then (client ← cs_connections s !! c; reg_live (cn_registry (f client)) !! id)
  else live_entry c id s.
Proof.
  unfold update_connection. rewrite live_entry_connections. case_decide as E.
  - subst. rewrite lookup_alter_eq. by destruct (cs_connections s !! c).
  - by rewrite lookup_alter_ne.
Qed.

Lemma live_entry_update_object s c id value c' id' :
  live_entry c' id' (update_object c id value s) =
  if decide (c = c' ∧ id = id')
  then (λ e, MkRegistryEntry (entry_kind e) value) <$> live_entry c' id' s
  else live_entry c' id' s.
Proof.
  unfold update_object. rewrite live_entry_update_connection.
  unfold live_entry. destruct (decide (c = c')) as [<-|Hc].
  - destruct (cs_connections s !! c) as [client|]; simpl; [|by case_decide].
    destruct (decide (id = id')) as [<-|Hi].
    + rewrite decide_True by done. apply lookup_alter_eq.
    + rewrite decide_False by naive_solver. by apply lookup_alter_ne.
  - rewrite decide_False by naive_solver. done.
Qed.

Lemma object_kind_update_object s c id value c' id' :
  object_kind c' id' (update_object c id value s) = object_kind c' id' s.
Proof.
  unfold object_kind. rewrite live_entry_update_object. case_decide; [|done].
  by destruct (live_entry c' id' s).
Qed.

Lemma live_entry_forget s c c' id :
  live_entry c' id (forget_connection c s) = if decide (c = c') then None else live_entry c' id s.
Proof.
  unfold live_entry, forget_connection. simpl. case_decide as E.
  - subst. by rewrite lookup_delete_eq.
  - by rewrite lookup_delete_ne.
Qed.

Lemma live_entry_queued s c client e c' id :
  cs_connections s !! c = Some client → live_entry c' id (queued c client e s) = live_entry c' id s.
Proof.
  intros Hc. unfold queued, events_push. change (live_entry c' id (set_cs_events ?x ?s0))
    with (live_entry c' id s0). rewrite live_entry_insert. case_decide as E; [|done].
  subst. unfold live_entry. by rewrite Hc.
Qed.

Lemma entry_lookup c id s e client :
  cs_connections s !! c = Some client → reg_live (cn_registry client) !! id = Some e →
  live_entry c id s = Some e.
Proof. intros Hc He. apply live_entry_Some. eauto. Qed.

Lemma reg_kind_object_kind c id s :
  (client ← connection c s; reg_kind (cn_registry client) id) =
  match cs_connections s !! c with
  | None => Err ConnectionClosed
  | Some _ => ok_or (object_kind c id s) (InvalidObject id)
  end.
Proof.
  unfold connection, object_kind, live_entry. destruct (cs_connections s !! c) as [client|]; [|done].
  simpl. unfold reg_kind, entry. by destruct (reg_live (cn_registry client) !! id).
Qed.

Lemma object_Ok c id k s o :
  object c id k s = Ok o ↔ ∃ e, live_entry c id s = Some e ∧ entry_kind e = k ∧ entry_value e = o.
Proof.
  unfold object, connection, live_entry. destruct (cs_connections s !! c) as [client|]; simpl;
    [|split; [done|naive_solver]].
  unfold entry. destruct (reg_live (cn_registry client) !! id) as [e|]; simpl;
    [|split; [done|naive_solver]].
  case_decide; split; try naive_solver.
Qed.

(** * What destruction keeps of the objects it leaves

    A trait of an object that releasing a buffer and forgetting one do not change: its kind, the
    session of a surface, the transport of a buffer. Destruction leaves every object's trait as it
    was, or the object is gone. *)

Class Trait {X} (fp : RegistryEntry Object → X) : Prop := {
  trait_buffer e b state : entry_value e = OBuffer b →
    fp (MkRegistryEntry (entry_kind e) (OBuffer (set_bo_state state b))) = fp e;
  trait_forget e id : fp (MkRegistryEntry (entry_kind e) (forget_buffer id (entry_value e))) = fp e;
}.

#[export] Instance kind_trait : Trait (@entry_kind Object).
Proof. done. Qed.

Lemma buffer_Ok c id s b :
  buffer c id s = Ok b ↔ ∃ e, live_entry c id s = Some e ∧ entry_kind e = KBuffer ∧
                              entry_value e = OBuffer b.
Proof.
  unfold buffer. rewrite result_bind_Ok. split.
  - intros (o & (e & He & Hk & Hv)%object_Ok & Ho). exists e. destruct o; naive_solver.
  - intros (e & He & Hk & Hv). exists (OBuffer b). split; [|done]. apply object_Ok. eauto.
Qed.

(** What an entry may be, or that there is none, that destruction does not undo. *)
Class Lasting (P : option (RegistryEntry Object) → Prop) : Prop := {
  lasting_none : P None;
  lasting_buffer e b state : entry_value e = OBuffer b → P (Some e) →
    P (Some (MkRegistryEntry (entry_kind e) (OBuffer (set_bo_state state b))));
  lasting_forget e id : P (Some e) →
    P (Some (MkRegistryEntry (entry_kind e) (forget_buffer id (entry_value e))));
}.

(** An entry that stays as it is or goes, where nothing else happens to entries. *)
Section Entries.
Context (P : option (RegistryEntry Object) → Prop) (HP : P None).
Context (c0 : ConnectionId) (id0 : ObjectId).

Definition entry_holds (s : CompositorState) : Prop := P (live_entry c0 id0 s).
Let K := entry_holds.

Lemma entry_holds_mono s s' :
  (live_entry c0 id0 s' = None ∨ live_entry c0 id0 s' = live_entry c0 id0 s) → K s → K s'.
Proof. unfold K, entry_holds. by intros [-> | ->]. Qed.

Lemma entry_holds_stable : Teardown_stable K.
Proof.
  split; try done.
  - intros s c' client o ev HK Hc _. eapply entry_holds_mono; [|exact HK]. right.
    by rewrite live_entry_queued.
  - intros s c' client HK _. eapply entry_holds_mono; [|exact HK].
    rewrite live_entry_forget. case_decide; auto.
  - intros s c' client HK _ _. eapply entry_holds_mono; [|exact HK].
    rewrite live_entry_forget. case_decide; auto.
Qed.
End Entries.

Section KeepsEntries.
Context (P : option (RegistryEntry Object) → Prop) `{HP : !Lasting P}.
Context (c0 : ConnectionId) (id0 : ObjectId).
Let K := entry_holds P c0 id0.

#[local] Instance lasting_stable : Teardown_stable K := entry_holds_stable P lasting_none c0 id0.

Lemma entries_set_buffer_state c id state : kept K (λ s, (set_buffer_state c id state s).2).
Proof.
  intros s Hs. unfold set_buffer_state. rewrite ST_bind_run. cbn [reads].
  destruct (buffer c id s) as [b|] eqn:Eb; [|done]. cbn [modify snd].
  unfold K, entry_holds in *. rewrite live_entry_update_object. case_decide as E; [|done].
  destruct E as [<- <-]. apply buffer_Ok in Eb as (e & He & _ & Hv). rewrite He in *. cbn.
  by eapply lasting_buffer.
Qed.

Lemma entries_release_related key id : kept K (release_related key id).
Proof.
  intros s Hs. unfold release_related. repeat case_match; try done.
  by apply kept_push, entries_set_buffer_state; [apply _|].
Qed.

Lemma entries_surface_part key : kept K (destroy_surface_part key).
Proof.
  intros s Hs. unfold destroy_surface_part.
  set (s1 := foldl _ s _). assert (K s1) as H1.
  { apply (kept_fold K (release_related key)); [apply entries_release_related|done]. }
  set (s2 := set_cs_scene _ s1). assert (K s2) as H2 by exact H1.
  repeat case_decide; try done; apply (kept_push K _ _ _ s2 H2).
Qed.

Lemma entries_buffer_part c id : kept K (destroy_buffer_part c id).
Proof.
  intros s Hs. unfold destroy_buffer_part, K, entry_holds in *.
  rewrite live_entry_update_connection. case_decide as E; [subst|done].
  unfold live_entry in *. destruct (cs_connections s !! c0); simpl in *; [|done].
  rewrite lookup_fmap. destruct (reg_live _ !! id0) as [e|]; [|done]. by apply lasting_forget.
Qed.

Lemma entries_toplevel_part c id : kept K (destroy_toplevel_part c id).
Proof.
  intros s Hs. unfold destroy_toplevel_part. case_match; [|done]. by apply kept_tell_shells; [apply _|].
Qed.

Lemma live_entry_retire c id c' id' s :
  live_entry c' id' (update_connection c
    (λ client, set_cn_registry (retire id (cn_registry client)).2 client) s) = live_entry c' id' s.
Proof.
  rewrite live_entry_update_connection. case_decide as E; [subst|done].
  unfold live_entry. destruct (cs_connections s !! c'); simpl; [|done].
  unfold retire. by destruct (reg_live _ !! id).
Qed.

Lemma entries_retire c id :
  kept K (update_connection c (λ client, set_cn_registry (retire id (cn_registry client)).2 client)).
Proof. intros s. apply entry_holds_mono; [apply lasting_none|]. right. by rewrite live_entry_retire. Qed.

Lemma entries_remove_object c id kind acc : K acc.2 → K (remove_object c id kind acc).2.
Proof.
  intros Hs. destruct acc as [destroyed s]. unfold remove_object.
  destruct (cs_connections s !! c) as [client|] eqn:Ec; [|done]. simpl in *.
  destruct (reg_live (cn_registry client) !! id) eqn:Ei; [|done]. simpl.
  apply entries_retire, kept_push, kept_push; [apply _..|].
  eapply entry_holds_mono; [apply lasting_none| |exact Hs]. rewrite live_entry_insert.
  case_decide as E; [subst|by right]. simpl. unfold live_entry. rewrite Ec. simpl.
  destruct (decide (id = id0)) as [->|].
  - rewrite lookup_delete_eq. by left.
  - rewrite lookup_delete_ne by done. by right.
Qed.

Definition acc_kept (f : destroyed_list * CompositorState → destroyed_list * CompositorState) : Prop :=
  ∀ acc, K acc.2 → K (f acc).2.

Lemma entries_destroy_all destroy c l :
  (∀ c id, acc_kept (destroy c id)) → acc_kept (destroy_all_with destroy c l).
Proof.
  intros Hd. induction l as [|x l IH]; intros acc' Ha; [done|]. cbn. apply IH, Hd, Ha.
Qed.

Lemma entries_destroy_step destroy c id :
  (∀ c id, acc_kept (destroy c id)) → acc_kept (destroy_object_step destroy c id).
Proof.
  intros Hd acc Hs. unfold destroy_object_step. case_match; [|done].
  apply entries_remove_object.
  repeat case_decide; cbn [on_state fst snd];
    repeat first [apply entries_toplevel_part | apply entries_buffer_part | apply entries_surface_part
                 | apply (entries_destroy_all destroy c _ Hd) | exact Hs].
Qed.

Lemma entries_destroy_fuel n c id : acc_kept (destroy_fuel n c id).
Proof.
  revert c id. induction n as [|n IH]; intros c id; [intros acc Ha; exact Ha|].
  cbn [destroy_fuel]. by apply entries_destroy_step.
Qed.
End KeepsEntries.

Section KeepsTraits.
Context {X : Type} (fp : RegistryEntry Object → X) `{!Trait fp}.
Context (P : option X → Prop) (HP : P None) (c0 : ConnectionId) (id0 : ObjectId).

(** [P] of the trait, where [P] holds of no object. *)
Definition trait_ok (s : CompositorState) : Prop := P (fp <$> live_entry c0 id0 s).
Let K := trait_ok.
Let Q (o : option (RegistryEntry Object)) : Prop := P (fp <$> o).

Lemma trait_lasting : Lasting Q.
Proof.
  split; unfold Q; cbn.
  - exact HP.
  - intros e b state Hv. by rewrite trait_buffer.
  - intros e id. by rewrite trait_forget.
Qed.

#[export] Instance trait_ok_stable : Teardown_stable K.
Proof. exact (entry_holds_stable Q HP c0 id0). Qed.

Lemma traits_surface_part key : kept K (destroy_surface_part key).
Proof. exact (entries_surface_part Q (HP := trait_lasting) c0 id0 key). Qed.

Lemma traits_buffer_part c id : kept K (destroy_buffer_part c id).
Proof. exact (entries_buffer_part Q (HP := trait_lasting) c0 id0 c id). Qed.

Lemma traits_remove_object c id kind acc : K acc.2 → K (remove_object c id kind acc).2.
Proof. exact (entries_remove_object Q (HP := trait_lasting) c0 id0 c id kind acc). Qed.

Lemma traits_destroy_all destroy c l :
  (∀ c id acc, K acc.2 → K (destroy c id acc).2) →
  ∀ acc, K acc.2 → K (destroy_all_with destroy c l acc).2.
Proof. exact (entries_destroy_all Q c0 id0 destroy c l). Qed.

Lemma traits_destroy_fuel n c id acc : K acc.2 → K (destroy_fuel n c id acc).2.
Proof. exact (entries_destroy_fuel Q (HP := trait_lasting) c0 id0 n c id acc). Qed.
End KeepsTraits.

(** The kind a lookup may answer: the one, or none any more. *)
Definition kind_at_most (c : ConnectionId) (id : ObjectId) (k : ObjectKind) (s : CompositorState)
    : Prop := object_kind c id s = None ∨ object_kind c id s = Some k.

Section KeepsKinds.
Context (c0 : ConnectionId) (id0 : ObjectId) (k0 : ObjectKind).
Let at_most (o : option ObjectKind) : Prop := o = None ∨ o = Some k0.
Let at_most_None : at_most None := or_introl eq_refl.

#[export] Instance kind_at_most_stable : Teardown_stable (kind_at_most c0 id0 k0).
Proof. exact (trait_ok_stable _ at_most at_most_None c0 id0). Qed.

Lemma kinds_surface_part key : kept (kind_at_most c0 id0 k0) (destroy_surface_part key).
Proof. exact (traits_surface_part _ at_most at_most_None c0 id0 key). Qed.

Lemma kinds_buffer_part c id : kept (kind_at_most c0 id0 k0) (destroy_buffer_part c id).
Proof. exact (traits_buffer_part _ at_most at_most_None c0 id0 c id). Qed.

Lemma kinds_destroy_fuel n c id acc :
  kind_at_most c0 id0 k0 acc.2 → kind_at_most c0 id0 k0 (destroy_fuel n c id acc).2.
Proof. exact (traits_destroy_fuel _ at_most at_most_None c0 id0 n c id acc). Qed.
End KeepsKinds.

(** * The depth of the recursion *)

Definition kind_rank (k : ObjectKind) : nat :=
  match k with KSeat => 2 | KSession | KFence => 1 | _ => 0 end.

Definition rank_at_most (n : nat) (c : ConnectionId) (id : ObjectId) (s : CompositorState) : Prop :=
  ∃ k, (kind_rank k ≤ n)%nat ∧ kind_at_most c id k s.

Lemma ids_where_kind c p s id k :
  id ∈ ids_where c p s → (p id = true → object_kind c id s = Some k) → object_kind c id s = Some k.
Proof.
  unfold ids_where. destruct (cs_connections s !! c); [|set_solver].
  intros [_ Hp]%elem_of_list_retain H. auto.
Qed.

Lemma object_Ok_kind c id k s o : object c id k s = Ok o → object_kind c id s = Some k.
Proof. intros (e & He & <- & _)%object_Ok. unfold object_kind. by rewrite He. Qed.

Lemma surface_Ok c id s st :
  surface c id s = Ok st ↔ ∃ e, live_entry c id s = Some e ∧ entry_kind e = KSurface ∧
                                entry_value e = OSurface st.
Proof.
  unfold surface. rewrite result_bind_Ok. split.
  - intros (o & (e & He & Hk & Hv)%object_Ok & Ho). exists e. destruct o; naive_solver.
  - intros (e & He & Hk & Hv). exists (OSurface st). split; [|done]. apply object_Ok. eauto.
Qed.

Lemma surface_Ok_kind c id s st : surface c id s = Ok st → object_kind c id s = Some KSurface.
Proof. intros (e & He & <- & _)%surface_Ok. unfold object_kind. by rewrite He. Qed.

Lemma destroy_all_agree c k f g l acc :
  (∀ id acc, kind_at_most c id k acc.2 → f c id acc = g c id acc) →
  (∀ id' k' id acc, kind_at_most c id' k' acc.2 → kind_at_most c id' k' (g c id acc).2) →
  Forall (λ id, object_kind c id acc.2 = Some k) l →
  destroy_all_with f c l acc = destroy_all_with g c l acc.
Proof.
  intros Hfg Hk Hl.
  assert (Forall (λ id, kind_at_most c id k acc.2) l) as Hl'
    by (eapply Forall_impl; [exact Hl|]; intros id; by right).
  clear Hl. revert acc Hl'. induction l as [|x l IH]; intros acc Hl; [done|].
  apply Forall_cons in Hl as [Hx Hl]. unfold destroy_all_with. cbn [foldl].
  rewrite (Hfg x acc Hx). apply IH.
  eapply Forall_impl; [exact Hl|]. intros id Hid. by apply Hk.
Qed.

Lemma ids_where_Forall c p s k :
  (∀ id, p id = true → object_kind c id s = Some k) →
  Forall (λ id, object_kind c id s = Some k) (ids_where c p s).
Proof.
  intros Hp. apply Forall_forall. intros id Hid. eapply ids_where_kind; [exact Hid|auto].
Qed.

Lemma session_children_kind c id s :
  Forall (λ id, object_kind c id s = Some KSurface) (session_children c id s).
Proof.
  apply ids_where_Forall. intros child. destruct (surface c child s) eqn:E; [|done].
  intros _. by eapply surface_Ok_kind.
Qed.

Lemma fence_dependents_kind c id s :
  Forall (λ id, object_kind c id s = Some KSurface) (fence_dependents c id s).
Proof.
  apply ids_where_Forall. intros child. destruct (surface c child s) eqn:E; [|done].
  intros _. by eapply surface_Ok_kind.
Qed.

Lemma seat_sessions_kind c id s :
  Forall (λ id, object_kind c id s = Some KSession) (seat_sessions c id s).
Proof.
  apply ids_where_Forall. intros child. destruct (object c child KSession s) eqn:E; [|done].
  intros _. by eapply object_Ok_kind.
Qed.

Lemma destroy_fuel_agree n m c id k acc :
  (kind_rank k ≤ n)%nat → (n ≤ m)%nat → kind_at_most c id k acc.2 →
  destroy_fuel (S n) c id acc = destroy_fuel (S m) c id acc.
Proof.
  revert m c id k acc. induction n as [n IH] using (well_founded_induction lt_wf).
  intros m c id k acc Hk Hm Hkind.
  assert (∀ k', (kind_rank k' < kind_rank k)%nat → ∀ id' acc', kind_at_most c id' k' acc'.2 →
    destroy_fuel n c id' acc' = destroy_fuel m c id' acc') as Hrec.
  { intros k' Hk' id' acc' Hid. destruct n as [|n]; [lia|]. destruct m as [|m]; [lia|].
    apply (IH n ltac:(lia) m c id' k'); [lia|lia|done]. }
  cbn [destroy_fuel]. unfold destroy_object_step. rewrite reg_kind_object_kind.
  destruct (cs_connections acc.2 !! c); [|done].
  destruct Hkind as [-> | ->]; [done|]. cbn [ok_or].
  pose proof (λ id' k' id acc H, kinds_destroy_fuel c id' k' m c id acc H) as Hkeep.
  destruct k; repeat (rewrite decide_False by done); rewrite ?(decide_True _ _ eq_refl);
    repeat (rewrite decide_False by done); try done.
  - rewrite (destroy_all_agree c KSession (destroy_fuel n) (destroy_fuel m));
      [done|apply Hrec; simpl; lia|exact Hkeep|apply seat_sessions_kind].
  - rewrite (destroy_all_agree c KSurface (destroy_fuel n) (destroy_fuel m));
      [done|apply Hrec; simpl; lia|exact Hkeep|apply session_children_kind].
  - rewrite (destroy_all_agree c KSurface (destroy_fuel n) (destroy_fuel m));
      [done|apply Hrec; simpl; lia|exact Hkeep|apply fence_dependents_kind].
Qed.

(** Destroying an object ends, and three levels of recursion are enough: [destroy_object]
    satisfies the source's own recursive equation, whatever depends on the object destroyed, and it
    never turns an object into one of another kind. *)
Theorem destroy_object_unfold (c : ConnectionId) (id : ObjectId)
    (acc : destroyed_list * CompositorState) :
  destroy_acc c id acc = destroy_object_step destroy_acc c id acc ∧
  ∀ c' id' k, kind_at_most c' id' k acc.2 → kind_at_most c' id' k (destroy_acc c id acc).2.
Proof.
  split; [|intros c' id' k; apply kinds_destroy_fuel].
  change (destroy_object_step destroy_acc c id acc) with (destroy_fuel 4 c id acc).
  unfold destroy_acc, destroy_depth.
  destruct (object_kind c id acc.2) as [k|] eqn:E.
  - apply (destroy_fuel_agree 2 3 c id k); [destruct k; simpl; lia|lia|by right].
  - apply (destroy_fuel_agree 2 3 c id KDisplay); [simpl; lia|lia|by left].
Qed.

(** A seat, its session and a surface: the deepest a destruction goes. *)
Definition seat_world : CompositorState :=
  let s := CompositorState_new (MkCapabilitySet u64_max) ServerLimits_default
             ConnectionLimits_default in
  let c := MkConnectionId 1 in
  let s := (connect (MkCapabilitySet u64_max) (MkCapabilitySet 0) s).2 in
  let s := (create_seat c (MkObjectId 2) SeatCapabilities_empty true s).2 in
  let s := (create_session c (MkObjectId 3) (Some (MkObjectId 2)) true s).2 in
  (allocate_client c (MkObjectId 4) KSurface
    (OSurface (MkSurfaceState (MkObjectId 3) None PendingSurface_default None false 0 0)) s).2.

Example seat_world_destroyed :
  (destroy_object (MkConnectionId 1) (MkObjectId 2) seat_world).1 =
  [(MkObjectId 4, KSurface); (MkObjectId 3, KSession); (MkObjectId 2, KSeat)].
Proof. vm_compute. reflexivity. Qed.
