(* ===== verification/Surfaces.v ===== *)
(** Surfaces, buffers, fences, windows and the scene ([atria-compositor/src/state/mod.rs]): from a
    client's attach and commit to the backend's present and release. *)
From S2P Require Import Prelude.
From S2P Require Import BTree.
From S2P Require Import Vocabulary.
From S2P Require Import Interface.
From S2P Require Import Wire.
From S2P Require Import Payloads.
From S2P Require Import Model.
From S2P Require Import Registry.
From S2P Require Import Outputs.
From S2P Require Import State.
From S2P Require Import Queue.
From S2P Require Import Objects.

(** * Buffers *)

Definition create_buffer (c : ConnectionId) (new_id pool : ObjectId) (offset : Z) (size : Size)
    (stride format : Z) : ST CompositorState StateError unit :=
  _ ← reads (require_capability c new_id BufferImport);
  memory ← reads (λ s,
    (* The kind is computed, and may fail, before the pool is looked at. *)
    match pool_memory c pool s with
    | Some memory => match object_kind c pool s with
                     | Some _ => Ok memory
                     | None => Err (InvalidObject pool)
                     end
    | None => match object_kind c pool s with
              | Some actual => Err (WrongObjectType pool KShmPool actual)
              | None => Err (InvalidObject pool)
              end
    end);
  let descriptor := MkBufferDescriptor ShmTransport size stride
    (saturating_mul_u u64_max stride (size_height size)) in
  if negb (is_structurally_valid descriptor) || negb (pixel_format_is_known format)
  then throw (InvalidState new_id)
  else
    end_ ← lift (ok_or (checked_add u64_max offset (bd_byte_len descriptor)) (InvalidState new_id));
    if memory_size memory <? end_ then throw (InvalidState new_id)
    else
      _ ← reads (check_kind_quota c KBuffer);
      allocate_client c new_id KBuffer
        (OBuffer (MkBufferObject descriptor Available
          (Some (MkBufferSource memory offset descriptor)))).

Definition import_buffer (c : ConnectionId) (new_id : ObjectId) (descriptor : BufferDescriptor)
    : ST CompositorState StateError unit :=
  _ ← reads (require_capability c new_id BufferImport);
  _ ← reads (require_capability c new_id (transport_capability (bd_transport descriptor)));
  if negb (is_structurally_valid descriptor) then throw (InvalidState new_id)
  else
    _ ← reads (check_kind_quota c KBuffer);
    allocate_client c new_id KBuffer (OBuffer (MkBufferObject descriptor Available None)).

Definition create_pool (c : ConnectionId) (new_id : ObjectId) (memory : SharedMem)
    : ST CompositorState StateError unit :=
  _ ← reads (require_capability c new_id BufferImport);
  _ ← reads (check_kind_quota c KShmPool);
  allocate_client c new_id KShmPool (OShmPool memory).

Definition SurfaceState_new (session : ObjectId) : SurfaceState :=
  MkSurfaceState session None PendingSurface_default None false 0 0.

Definition create_surface (c : ConnectionId) (new_id : ObjectId)
    : ST CompositorState StateError unit :=
  _ ← reads (require_capability c new_id SurfaceCreate);
  session ← reads (λ s, ok_or (session_of c s) (InvalidState new_id));
  _ ← reads (expect_active_session c session);
  _ ← reads (check_kind_quota c KSurface);
  allocate_client c new_id KSurface (OSurface (SurfaceState_new session)).

(** * Attach, damage, commit *)

Definition set_attachment (a : PendingAttachment) (st : SurfaceState) : SurfaceState :=
  set_su_pending (set_ps_attachment a (su_pending st)) st.

Definition attach (c : ConnectionId) (surface_id buffer_id : ObjectId) (offset : Point)
    (acquire_fence : option ObjectId) : ST CompositorState StateError unit :=
  _ ← reads (expect_kind c surface_id KSurface);
  let key := MkSurfaceKey c surface_id in
  st ← reads (surface c surface_id);
  if negb (bool_decide (ps_attachment (su_pending st) = Unchanged))
  then throw (InvalidState surface_id)
  else if is_null buffer_id then
    match acquire_fence with
    | Some _ => throw (InvalidState surface_id)
    | None => surface_mut c surface_id (set_attachment Detach)
    end
  else
    _ ← reads (expect_kind c buffer_id KBuffer);
    _ ← match acquire_fence with
        | Some fence =>
            _ ← reads (require_capability c surface_id ExplicitGpuFence);
            reads (expect_kind c fence KFence)
        | None => mret tt
        end;
    b ← reads (buffer c buffer_id);
    if negb (bool_decide (bo_state b = Available)) then throw (InvalidState buffer_id)
    else
      _ ← set_buffer_state c buffer_id (Pending key);
      surface_mut c surface_id (λ st,
        set_su_pending (set_ps_acquire_fence acquire_fence
          (set_ps_attachment (SetTo buffer_id offset) (su_pending st))) st).

Definition damage (c : ConnectionId) (surface_id : ObjectId) (rect : Rect)
    : ST CompositorState StateError unit :=
  if (rect_width rect =? 0) || (rect_height rect =? 0) then throw (InvalidState surface_id)
  else
    limit ← gets (λ s, max_damage_rects_per_commit (cs_limits s));
    st ← reads (surface c surface_id);
    if limit <=? len (ps_damage (su_pending st)) then throw (QuotaExceeded surface_id)
    else surface_mut c surface_id (λ st,
      set_su_pending (set_ps_damage (ps_damage (su_pending st) ++ [DamageRect rect])
        (su_pending st)) st).

Definition remove_from_stack (key : SurfaceKey) (s : CompositorState) : CompositorState :=
  set_cs_scene (set_scene_stack
    (list_retain (λ entry, negb (bool_decide (entry = key))) (scene_stack (cs_scene s)))
    (cs_scene s)) s.

Definition push_to_stack (key : SurfaceKey) (s : CompositorState) : CompositorState :=
  set_cs_scene (set_scene_stack (scene_stack (cs_scene s) ++ [key]) (cs_scene s)) s.

(** Take a surface's content away and remove it from the scene. *)
Definition detach (key : SurfaceKey) : ST CompositorState StateError unit :=
  let c := key_connection key in
  snapshot ← gets (surface_snapshot c (key_object key));
  match snapshot with
  | None => mret tt
  | Some snapshot =>
      let held := snap_buffer snapshot in
      _ ← set_buffer_state c held Available;
      _ ← modify (push_event c held EvBufferRelease);
      _ ← surface_mut c (key_object key) (set_su_current None);
      modify (remove_from_stack key)
  end.

(** Put a surface that now has content into the scene, if it is not there already. *)
Definition map_surface (key : SurfaceKey) (s : CompositorState) : CompositorState :=
  if decide (key ∈ scene_stack (cs_scene s)) then s
  else
    let position := default Point_default (scene_positions (cs_scene s) !! key) in
    let s := set_cs_scene (set_scene_positions
      (<[ key := position ]> (scene_positions (cs_scene s))) (cs_scene s)) s in
    push_to_stack key s.

(** [option.take().or_else(..)] and the like. *)
Definition option_or {A} (a b : option A) : option A := match a with Some x => Some x | None => b end.

(** What a commit takes out of the pending state. *)
Definition committed (st : SurfaceState) : SurfaceState :=
  set_su_frame_requested false
    (set_su_pending (MkPendingSurface Unchanged None [] None) st).

Definition commit (c : ConnectionId) (surface_id : ObjectId) : ST CompositorState StateError unit :=
  next_commit ← gets cs_next_commit;
  if next_commit =? u64_max then throw (QuotaExceeded surface_id)
  else
    let key := MkSurfaceKey c surface_id in
    st ← reads (surface c surface_id);
    snapshot ← gets (surface_snapshot c surface_id);
    let carried :=
      match ps_attachment (su_pending st) with
      | SetTo buffer_id offset => Some (buffer_id, offset)
      | Unchanged => (λ sn, (snap_buffer sn, snap_offset sn)) <$> snapshot
      | Detach => None
      end in
    st ← reads (surface c surface_id);
    _ ← (if decide (ps_attachment (su_pending st) = Detach) then detach key else mret tt);
    match carried with
    | None => surface_mut c surface_id (set_su_pending PendingSurface_default)
    | Some (buffer_id, offset) =>
        st ← reads (surface c surface_id);
        _ ← surface_mut c surface_id committed;
        let damage := match ps_damage (su_pending st) with [] => [DamageFull] | d => d end in
        let refresh_range := option_or (ps_refresh_range (su_pending st))
          (su_current st ≫= λ cur, snap_refresh_range (cur_snapshot cur)) in
        let commit := MkCommitId next_commit in
        _ ← modify (set_cs_next_commit (next_commit + 1));
        _ ← set_buffer_state c buffer_id (CompositorHeld key commit);
        _ ← surface_mut c surface_id (set_su_current (Some (MkCurrentSurface
              (MkSurfaceSnapshot (su_role st) buffer_id offset damage commit refresh_range
                (ps_acquire_fence (su_pending st)))
              (su_frame_requested st) (su_frame_serial st))));
        modify (map_surface key)
    end.

Definition set_role (c : ConnectionId) (surface_id : ObjectId) (role : SurfaceRole)
    : ST CompositorState StateError unit :=
  st ← reads (surface c surface_id);
  match su_role st with
  | None => surface_mut c surface_id (set_su_role (Some role))
  | Some existing => if decide (existing = role) then mret tt else throw (InvalidState surface_id)
  end.

Definition request_frame (c : ConnectionId) (surface_id : ObjectId) (serial : Z)
    : ST CompositorState StateError unit :=
  st ← reads (surface c surface_id);
  if su_frame_requested st then throw (InvalidState surface_id)
  else surface_mut c surface_id (λ st, set_su_frame_serial serial (set_su_frame_requested true st)).

Definition set_refresh_range (c : ConnectionId) (surface_id : ObjectId) (min_hz max_hz : Z)
    : ST CompositorState StateError unit :=
  if (min_hz =? 0) || (max_hz <? min_hz) then throw (InvalidState surface_id)
  else surface_mut c surface_id (λ st,
    set_su_pending (set_ps_refresh_range (Some (min_hz, max_hz)) (su_pending st)) st).

(** * Presentation *)

Definition fence_signaled_at (c : ConnectionId) (fence : ObjectId) (s : CompositorState)
    : result StateError bool :=
  o ← object c fence KFence s;
  match o with OFence state => Ok (fence_signaled state) | _ => Err (InvalidState fence) end.

Definition current_of (key : SurfaceKey) (s : CompositorState) : result StateError CurrentSurface :=
  st ← surface (key_connection key) (key_object key) s;
  ok_or (su_current st) (InvalidState (key_object key)).

(** A buffer an older commit of the surface holds. *)
Definition releases (key : SurfaceKey) (commit : CommitId) (state : BufferState) : bool :=
  match state with
  | CompositorHeld held_surface held_commit =>
      bool_decide (held_surface = key) && (commit_id held_commit <? commit_id commit)
  | _ => false
  end.

(** The release loop of [present]; the first error ends it. *)
Fixpoint release_older (key : SurfaceKey) (commit : CommitId) (ids : list ObjectId)
    : ST CompositorState StateError unit :=
  match ids with
  | [] => mret tt
  | id :: rest =>
      state ← gets (λ s, bo_state <$> result_ok (buffer (key_connection key) id s));
      _ ← (if match state with Some st => releases key commit st | None => false end then
             _ ← set_buffer_state (key_connection key) id Available;
             modify (push_event (key_connection key) id EvBufferRelease)
           else mret tt);
      release_older key commit rest
  end.

Definition present (key : SurfaceKey) (timestamp_ns : Z) : ST CompositorState StateError CommitId :=
  let c := key_connection key in
  current ← reads (current_of key);
  let commit := snap_commit (cur_snapshot current) in
  _ ← match snap_acquire_fence (cur_snapshot current) with
      | Some fence =>
          signaled ← reads (fence_signaled_at c fence);
          if negb signaled then throw (InvalidState (key_object key)) else mret tt
      | None => mret tt
      end;
  client ← reads (connection c);
  _ ← release_older key commit (ids (cn_registry client));
  _ ← (if cur_frame_callback current then
         _ ← modify (push_event c (key_object key)
               (EvFrameDone (cur_frame_serial current) timestamp_ns));
         surface_mut c (key_object key) (λ st,
           match su_current st with
           | Some cur => set_su_current (Some (set_cur_frame_callback false cur)) st
           | None => st
           end)
       else mret tt);
  _ ← surface_mut c (key_object key) (set_su_consecutive_deadline_misses 0);
  mret commit.

Definition signal_fence (c : ConnectionId) (fence : ObjectId)
    : ST CompositorState StateError unit :=
  o ← reads (object c fence KFence);
  match o with
  | OFence _ => modify (update_object c fence (OFence (MkFenceState true)))
  | _ => throw (InvalidState fence)
  end.

Definition commit_ready (key : SurfaceKey) (s : CompositorState) : result StateError bool :=
  current ← current_of key s;
  match snap_acquire_fence (cur_snapshot current) with
  | None => Ok true
  | Some fence => fence_signaled_at (key_connection key) fence s
  end.

Definition is_held (state : BufferState) : bool :=
  match state with CompositorHeld _ _ => true | _ => false end.

Definition release_buffer (c : ConnectionId) (buffer_id : ObjectId)
    : ST CompositorState StateError unit :=
  b ← reads (buffer c buffer_id);
  if negb (is_held (bo_state b)) then throw (InvalidState buffer_id)
  else
    _ ← set_buffer_state c buffer_id Available;
    modify (push_event c buffer_id EvBufferRelease).

Definition release_buffer_with_fence (c : ConnectionId) (buffer_id fence : ObjectId)
    : ST CompositorState StateError unit :=
  _ ← reads (require_capability c buffer_id ExplicitGpuFence);
  _ ← reads (expect_kind c fence KFence);
  b ← reads (buffer c buffer_id);
  if negb (is_held (bo_state b)) then throw (InvalidState buffer_id)
  else
    _ ← set_buffer_state c buffer_id Available;
    modify (push_event c buffer_id (EvBufferReleaseWithFence fence)).

Definition set_frame_deadline (key : SurfaceKey) (deadline_ns refresh_interval_ns : Z)
    : ST CompositorState StateError unit :=
  _ ← reads (surface (key_connection key) (key_object key));
  if refresh_interval_ns =? 0 then throw (InvalidState (key_object key))
  else modify (push_event (key_connection key) (key_object key)
         (EvFrameDeadline deadline_ns refresh_interval_ns)).

Definition record_deadline_miss (key : SurfaceKey) : ST CompositorState StateError unit :=
  let c := key_connection key in
  st ← reads (surface c (key_object key));
  let misses := saturating_add_u u8_max (su_consecutive_deadline_misses st) 1 in
  _ ← surface_mut c (key_object key) (set_su_consecutive_deadline_misses misses);
  if misses =? 2 then modify (push_event c (key_object key) EvFrameLate) else mret tt.

(** * The scene *)

Definition place_surface (key : SurfaceKey) (position : Point)
    : ST CompositorState StateError unit :=
  _ ← reads (surface (key_connection key) (key_object key));
  _ ← modify (λ s, set_cs_scene (set_scene_positions
        (<[ key := position ]> (scene_positions (cs_scene s))) (cs_scene s)) s);
  modify (λ s,
    match surface_snapshot (key_connection key) (key_object key) s with
    | Some _ => if decide (key ∈ scene_stack (cs_scene s)) then s else push_to_stack key s
    | None => s
    end).

Definition raise_surface (key : SurfaceKey) : ST CompositorState StateError unit :=
  _ ← reads (surface (key_connection key) (key_object key));
  modify (λ s,
    match surface_snapshot (key_connection key) (key_object key) s with
    | Some _ => push_to_stack key (remove_from_stack key s)
    | None => s
    end).

Definition surface_position (key : SurfaceKey) (s : CompositorState) : option Point :=
  scene_positions (cs_scene s) !! key.

(** Where a surface is on screen, and how big ([state/input.rs]). *)
Definition surface_area (key : SurfaceKey) (s : CompositorState) : option Rect :=
  position ← scene_positions (cs_scene s) !! key;
  st ← result_ok (surface (key_connection key) (key_object key) s);
  current ← su_current st;
  b ← result_ok (buffer (key_connection key) (snap_buffer (cur_snapshot current)) s);
  x ← checked_add_i32 (point_x position) (point_x (snap_offset (cur_snapshot current)));
  y ← checked_add_i32 (point_y position) (point_y (snap_offset (cur_snapshot current)));
  Some (MkRect x y (size_width (bd_size (bo_descriptor b)))
    (size_height (bd_size (bo_descriptor b)))).

(** The topmost surface containing a point. *)
Definition surface_under (point : Point) (s : CompositorState) : option SurfaceKey :=
  list_find_first (λ key, match surface_area key s with
                          | Some area => Rect_contains area point
                          | None => false
                          end) (rev (scene_stack (cs_scene s))).

(** The same question, written out where the source asks it a second time. *)
Definition update_pointer_target (point : Point) (s : CompositorState)
    : option SurfaceKey * CompositorState :=
  let target := surface_under point s in
  (target, set_cs_pointer_target target s).

(** Every way the scene can disagree with the objects behind it: the first, in order. *)
Definition stack_fault (s : CompositorState) (key : SurfaceKey) : option SceneFault :=
  match cs_connections s !! key_connection key with
  | None => Some (ConnectionGone key)
  | Some client =>
      match kind_of (cn_registry client) (key_object key) with
      | None => Some (ObjectGone key)
      | Some KSurface =>
          match surface_snapshot (key_connection key) (key_object key) s with
          | None => Some (NoContent key)
          | Some _ =>
              match scene_positions (cs_scene s) !! key with
              | None => Some (NoPosition key)
              | Some _ => None
              end
          end
      | Some _ => Some (NotASurface key)
      end
  end.

Definition position_fault (s : CompositorState) (key : SurfaceKey) : option SceneFault :=
  match cs_connections s !! key_connection key with
  | None => Some (ConnectionGone key)
  | Some _ => None
  end.

Fixpoint first_fault (f : SurfaceKey → option SceneFault) (keys : list SurfaceKey)
    : result SceneFault unit :=
  match keys with
  | [] => Ok tt
  | key :: rest => match f key with Some fault => Err fault | None => first_fault f rest end
  end.

Definition scene_faults (s : CompositorState) : result SceneFault unit :=
  _ ← first_fault (stack_fault s) (scene_stack (cs_scene s));
  first_fault (position_fault s) (btree_keys (scene_positions (cs_scene s))).

(** * Windows *)

(** The role object a surface already has, if any. *)
Definition role_of (c : ConnectionId) (surface_id : ObjectId) (s : CompositorState)
    : option ObjectId :=
  client ← cs_connections s !! c;
  fst <$> list_find_first (λ item : ObjectId * RegistryEntry Object,
    match entry_value item.2 with
    | OToplevel state => bool_decide (tl_surface state = surface_id)
    | _ => false
    end) (btree_items (reg_live (cn_registry client))).

Definition get_toplevel (c : ConnectionId) (surface_id new_id : ObjectId)
    : ST CompositorState StateError unit :=
  _ ← reads (expect_kind c surface_id KSurface);
  role ← gets (role_of c surface_id);
  match role with
  | Some _ => throw (InvalidState surface_id)
  | None =>
      _ ← reads (check_kind_quota c KToplevel);
      next ← gets cs_next_handle;
      let handle := MkToplevelHandle next in
      next' ← lift (ok_or (checked_add u64_max next 1) (QuotaExceeded new_id));
      _ ← modify (set_cs_next_handle next');
      _ ← allocate_client c new_id KToplevel
            (OToplevel (MkToplevelState surface_id TitleText_default None None 0 None handle));
      _ ← modify (λ s, set_cs_toplevels (<[ handle := (c, new_id) ]> (cs_toplevels s)) s);
      modify (tell_shells (EvShellToplevel handle []))
  end.

Definition set_title (c : ConnectionId) (toplevel_id : ObjectId) (title : TitleText)
    : ST CompositorState StateError unit :=
  state ← reads (toplevel c toplevel_id);
  _ ← toplevel_mut c toplevel_id (set_tl_title title);
  modify (tell_shells (EvShellToplevel (tl_handle state) (title_str title))).

Definition set_min_size (c : ConnectionId) (toplevel_id : ObjectId) (size : Size)
    : ST CompositorState StateError unit := toplevel_mut c toplevel_id (set_tl_minimum (Some size)).
Definition set_max_size (c : ConnectionId) (toplevel_id : ObjectId) (size : Size)
    : ST CompositorState StateError unit := toplevel_mut c toplevel_id (set_tl_maximum (Some size)).

Definition configure_toplevel (c : ConnectionId) (toplevel_id : ObjectId) (size : Size) (state : Z)
    : ST CompositorState StateError Z :=
  if negb (Z.land state (bit_not u32_max VALID_V1) =? 0) then throw (InvalidState toplevel_id)
  else
    serial ← gets cs_next_configure;
    _ ← modify (set_cs_next_configure (wrapping_add_u32 serial 1));
    _ ← toplevel_mut c toplevel_id (λ target,
          set_tl_configured (Some size) (set_tl_last_configure serial target));
    _ ← modify (push_event c toplevel_id (EvConfigure serial size state));
    mret serial.

Definition close_toplevel (c : ConnectionId) (toplevel_id : ObjectId)
    : ST CompositorState StateError unit :=
  _ ← reads (expect_kind c toplevel_id KToplevel);
  modify (push_event c toplevel_id EvClose).

(** Where a buffer's pixels are, for a caller about to read them. *)
Definition buffer_source (c : ConnectionId) (buffer_id : ObjectId) (s : CompositorState)
    : option BufferSource :=
  e ← live_entry c buffer_id s;
  match entry_value e with OBuffer b => bo_source b | _ => None end.
