(* ===== verification/Input.v ===== *)
(** Input routing ([atria-compositor/src/state/{input,text}.rs] and the focus methods of
    [state/mod.rs]): where the pointer and the keys go, what a claimed chord takes first, and which
    field an input method composes into. *)
From S2P Require Import Prelude.
From S2P Require Import BTree.
From S2P Require Import Vocabulary.
From S2P Require Import Interface.
From S2P Require Import Wire.
From S2P Require Import Payloads.
From S2P Require Import Model.
From S2P Require Import Registry.
From S2P Require Import Outputs.
From S2P Require Import State.
From S2P Require Import Queue.
From S2P Require Import Objects.
From S2P Require Import Surfaces.

(** * The seat *)

Definition set_seat_pointer (p : PointerRouting) (s : CompositorState) : CompositorState :=
  set_cs_seat (set_sr_pointer p (cs_seat s)) s.
Definition set_seat_keyboard (k : KeyboardRouting) (s : CompositorState) : CompositorState :=
  set_cs_seat (set_sr_keyboard k (cs_seat s)) s.
Definition pointer_of (s : CompositorState) : PointerRouting := sr_pointer (cs_seat s).
Definition keyboard_of (s : CompositorState) : KeyboardRouting := sr_keyboard (cs_seat s).

(** [self.seat.serial = self.seat.serial.wrapping_add(1)]. *)
Definition next_serial (s : CompositorState) : CompositorState :=
  set_cs_seat (set_sr_serial (wrapping_add_u32 (sr_serial (cs_seat s)) 1) (cs_seat s)) s.
Definition serial_of (s : CompositorState) : Z := sr_serial (cs_seat s).
Definition epoch_of (s : CompositorState) : Z := sr_epoch (cs_seat s).

Definition set_target (target : option SurfaceKey) (s : CompositorState) : CompositorState :=
  set_seat_pointer (set_pr_target target (pointer_of s)) s.
Definition set_buttons_held (n : Z) (s : CompositorState) : CompositorState :=
  set_seat_pointer (set_pr_buttons_held n (pointer_of s)) s.
Definition set_shell_grab (g : option (ConnectionId * ObjectId)) (s : CompositorState)
    : CompositorState := set_seat_pointer (set_pr_shell_grab g (pointer_of s)) s.

(** Send to every keyboard object a connection holds. *)
Definition send_to_keyboards (c : ConnectionId) (event : EventKind) (s : CompositorState)
    : CompositorState :=
  push_each event (pair c <$> connection_objects KKeyboard c s) s.

(** Send to every pointer object the connection holds. *)
Definition send_to_pointers (c : ConnectionId) (event : EventKind) (s : CompositorState)
    : CompositorState :=
  push_each event (pair c <$> connection_objects KPointer c s) s.

(** A point in a surface's own coordinates. *)
Definition surface_local (key : SurfaceKey) (point : Point) (s : CompositorState) : Point :=
  match surface_area key s with
  | Some area => MkPoint (saturating_sub_i32 (point_x point) (rect_x area))
                         (saturating_sub_i32 (point_y point) (rect_y area))
  | None => point
  end.

Definition send_pointer_enter (target : SurfaceKey) (position : Point) (s : CompositorState)
    : CompositorState :=
  let s := next_serial s in
  let local := surface_local target position s in
  send_to_pointers (key_connection target)
    (EvPointerEnter (serial_of s) (key_object target) local (epoch_of s)) s.

Definition send_pointer_leave (target : SurfaceKey) (s : CompositorState) : CompositorState :=
  let s := next_serial s in
  send_to_pointers (key_connection target)
    (EvPointerLeave (serial_of s) (key_object target) (epoch_of s)) s.

Definition send_pointer_motion (target : SurfaceKey) (position : Point) (time_ns : Z)
    (s : CompositorState) : CompositorState :=
  let local := surface_local target position s in
  send_to_pointers (key_connection target) (EvPointerMotion time_ns local (epoch_of s)) s.

(** Sending to whoever is there. *)
Definition to_target (target : option SurfaceKey)
    (send : SurfaceKey → CompositorState → CompositorState) (s : CompositorState)
    : CompositorState :=
  match target with Some key => send key s | None => s end.

Definition reset_input (s : CompositorState) : CompositorState :=
  let target := pr_target (pointer_of s) in
  let s := set_target None s in
  let s := to_target target send_pointer_leave s in
  let grab := pr_shell_grab (pointer_of s) in
  let s := set_shell_grab None s in
  let s := match grab with
           | Some (c, control) => push_event c control (EvShellGrabEnd SEAT_ONE) s
           | None => s
           end in
  let s := set_buttons_held 0 s in
  let s := set_seat_keyboard (MkKeyboardRouting Modifiers_default ∅ ∅) s in
  set_cs_seat (set_sr_epoch (wrapping_add_u32 (epoch_of s) 1) (cs_seat s)) s.

Definition move_pointer (position : Point) (time_ns : Z) (s : CompositorState) : CompositorState :=
  let s := set_seat_pointer (set_pr_position position (pointer_of s)) s in
  match pr_shell_grab (pointer_of s) with
  | Some (c, control) => push_event c control (EvShellGrabMotion SEAT_ONE position) s
  | None =>
      let motion s := to_target (pr_target (pointer_of s))
        (λ key, send_pointer_motion key position time_ns) s in
      if negb (pr_buttons_held (pointer_of s) =? 0) then motion s
      else
        let found := surface_under position s in
        let s :=
          if decide (found = pr_target (pointer_of s)) then s
          else
            let s := to_target (pr_target (pointer_of s)) send_pointer_leave s in
            let s := set_target found s in
            to_target found (λ key, send_pointer_enter key position) s in
        motion s
  end.

(** The target becomes what the pointer is over, and is entered. *)
Definition retarget (s : CompositorState) : CompositorState :=
  let position := pr_position (pointer_of s) in
  let target := surface_under position s in
  let s := set_target target s in
  to_target target (λ key, send_pointer_enter key (pr_position (pointer_of s))) s.

(** A button while a shell holds the pointer. *)
Definition grabbed_button (c : ConnectionId) (control : ObjectId) (pressed : bool)
    (s : CompositorState) : CompositorState :=
  if negb pressed then
    let s := set_buttons_held (saturating_sub_u (pr_buttons_held (pointer_of s)) 1) s in
    if pr_buttons_held (pointer_of s) =? 0 then
      let s := set_shell_grab None s in
      let s := push_event c control (EvShellGrabEnd SEAT_ONE) s in
      retarget s
    else s
  else set_buttons_held (saturating_add_u u32_max (pr_buttons_held (pointer_of s)) 1) s.

(** After the press or the release has been told to [target]'s pointers. *)
Definition button_taken (target : SurfaceKey) (serial : Z) (pressed : bool) (s : CompositorState)
    : CompositorState :=
  if pressed then
    let s := set_buttons_held (saturating_add_u u32_max (pr_buttons_held (pointer_of s)) 1) s in
    match handle_of_surface target s with
    | Some handle =>
        let local := surface_local target (pr_position (pointer_of s)) s in
        tell_shells (EvShellInteraction SEAT_ONE handle serial PointerPress local) s
    | None => s
    end
  else
    let s := set_buttons_held (saturating_sub_u (pr_buttons_held (pointer_of s)) 1) s in
    if pr_buttons_held (pointer_of s) =? 0 then
      let under := surface_under (pr_position (pointer_of s)) s in
      if decide (under = Some target) then s
      else
        let s := send_pointer_leave target s in
        let s := set_target under s in
        to_target under (λ key, send_pointer_enter key (pr_position (pointer_of s))) s
    else s.

Definition pointer_button (button : Z) (pressed : bool) (time_ns : Z) (s : CompositorState)
    : CompositorState :=
  let s := if pressed && (pr_buttons_held (pointer_of s) =? 0) then retarget s else s in
  match pr_shell_grab (pointer_of s) with
  | Some (c, control) => grabbed_button c control pressed s
  | None =>
      match pr_target (pointer_of s) with
      | None => s
      | Some target =>
          let s := next_serial s in
          let serial := serial_of s in
          let s := send_to_pointers (key_connection target)
            (EvPointerButton serial time_ns button pressed (epoch_of s)) s in
          button_taken target serial pressed s
      end
  end.

(** * Keys *)

(** The chord this key completes, if somebody has claimed it. *)
Definition claimed (key : PhysicalKey) (s : CompositorState) : option ShortcutClaim :=
  let held := kr_modifiers (keyboard_of s) in
  snd <$> list_find_first (λ item : (SeatId * Chord) * ShortcutClaim,
    bool_decide (item.1.1 = SEAT_ONE) && bool_decide (chord_trigger item.1.2 = key) &&
    Chord_accepts item.1.2 held) (btree_items (cs_shortcuts s)).

(** The keys held after a press or a release, or nothing when it changes nothing. *)
Definition held_after (key : PhysicalKey) (pressed : bool) (held : gset PhysicalKey)
    : option (gset PhysicalKey) :=
  if pressed then
    if (Z.of_nat (size held) <? MAX_HELD_KEYS) && negb (bool_decide (key ∈ held))
    then Some ({[ key ]} ∪ held) else None
  else if bool_decide (key ∈ held) then Some (held ∖ {[ key ]}) else None.

Definition modifiers_after (key : PhysicalKey) (pressed : bool) (m : Modifiers) : Modifiers :=
  match Modifiers_of key with
  | Some modifier => if pressed then Modifiers_with m modifier else Modifiers_without m modifier
  | None => m
  end.

(** A key that reaches nobody before the composition or the focus. *)
Definition route_key (key : PhysicalKey) (pressed : bool) (time_ns : Z) (s : CompositorState)
    : CompositorState :=
  match cs_composing s, cs_method s with
  | Some _, Some (c, object) =>
      let s := next_serial s in
      push_event c object (EvKey (serial_of s) time_ns key pressed (epoch_of s)) s
  | _, _ =>
      match cs_keyboard_focus s with
      | None => s
      | Some target =>
          let s := next_serial s in
          let serial := serial_of s in
          let epoch := epoch_of s in
          let modifiers := kr_modifiers (keyboard_of s) in
          let s := send_to_keyboards (key_connection target)
            (EvKey serial time_ns key pressed epoch) s in
          match Modifiers_of key with
          | Some _ => send_to_keyboards (key_connection target) (EvKeyModifiers modifiers epoch) s
          | None => s
          end
      end
  end.

Definition key_event (key : PhysicalKey) (pressed : bool) (time_ns : Z) (s : CompositorState)
    : CompositorState :=
  let keyboard := keyboard_of s in
  match held_after key pressed (kr_held keyboard) with
  | None => s
  | Some held =>
      let keyboard := set_kr_modifiers (modifiers_after key pressed (kr_modifiers keyboard))
        (set_kr_held held keyboard) in
      let s := set_seat_keyboard keyboard s in
      match (if pressed then claimed key s else None) with
      | Some claim =>
          let s := set_seat_keyboard
            (set_kr_consumed ({[ key ]} ∪ kr_consumed keyboard) keyboard) s in
          let s := next_serial s in
          push_event (sc_holder claim) (sc_manager claim)
            (EvShortcutTriggered (sc_shortcut claim) SEAT_ONE (serial_of s) time_ns (epoch_of s)) s
      | None =>
          if negb pressed && bool_decide (key ∈ kr_consumed keyboard) then
            set_seat_keyboard (set_kr_consumed (kr_consumed keyboard ∖ {[ key ]}) keyboard) s
          else route_key key pressed time_ns s
      end
  end.

Definition register_shortcut (c : ConnectionId) (manager : ObjectId) (shortcut : Z)
    (seat : SeatId) (chord : Chord) : ST CompositorState StateError unit :=
  _ ← reads (expect_kind c manager KShortcuts);
  shortcuts ← gets cs_shortcuts;
  if MAX_SHORTCUTS <=? Z.of_nat (size shortcuts) then throw (QuotaExceeded manager)
  else match shortcuts !! (seat, chord) with
  | Some _ => throw (InvalidState manager)
  | None => modify (set_cs_shortcuts
              (<[ (seat, chord) := MkShortcutClaim c manager shortcut ]> shortcuts))
  end.

Definition unregister_shortcut (c : ConnectionId) (manager : ObjectId) (shortcut : Z)
    : ST CompositorState StateError unit :=
  _ ← reads (expect_kind c manager KShortcuts);
  modify (λ s, set_cs_shortcuts (btree_retain (λ _ claim,
    negb (bool_decide (sc_holder claim = c) && (sc_shortcut claim =? shortcut)))
    (cs_shortcuts s)) s).

(** * Focus *)

Definition set_keyboard_focus (new_focus : option SurfaceKey)
    : ST CompositorState StateError (list FocusEvent) :=
  _ ← match new_focus with
      | Some key => reads (focusable key)
      | None => mret tt
      end;
  focus ← gets cs_keyboard_focus;
  if decide (focus = new_focus) then mret []
  else
    _ ← modify next_serial;
    serial ← gets serial_of;
    epoch ← gets epoch_of;
    modifiers ← gets (λ s, kr_modifiers (keyboard_of s));
    held ← gets (λ s, btree_elements (kr_held (keyboard_of s)));
    _ ← modify (λ s,
          match cs_keyboard_focus s with
          | Some old =>
              let s := push_event (key_connection old) (key_object old) EvKeyboardLeave s in
              send_to_keyboards (key_connection old) (EvKeyFocusLost serial (key_object old) epoch) s
          | None => s
          end);
    _ ← modify (λ s,
          match new_focus with
          | Some new =>
              let s := push_event (key_connection new) (key_object new) EvKeyboardEnter s in
              send_to_keyboards (key_connection new)
                (EvKeyFocusGained serial (key_object new) modifiers epoch held) s
          | None => s
          end);
    _ ← modify (set_cs_keyboard_focus new_focus);
    _ ← modify refresh_composition;
    _ ← modify (λ s,
          let handle := match new_focus with
                        | Some key => default (MkToplevelHandle 0) (handle_of_surface key s)
                        | None => MkToplevelHandle 0
                        end in
          tell_shells (EvShellFocusChanged SEAT_ONE handle) s);
    mret (match focus with Some old => [FocusKeyboardLeave old] | None => [] end ++
          match new_focus with Some new => [FocusKeyboardEnter new] | None => [] end).

(** Whether a target is one of the session's surfaces. *)
Definition in_session (c : ConnectionId) (session : ObjectId) (target : option SurfaceKey)
    (s : CompositorState) : bool :=
  match target with
  | Some key =>
      match surface (key_connection key) (key_object key) s with
      | Ok st => bool_decide (key_connection key = c) && bool_decide (su_session st = session)
      | Err _ => false
      end
  | None => false
  end.

Definition set_session_active (c : ConnectionId) (session : ObjectId) (active : bool)
    : ST CompositorState StateError (list FocusEvent) :=
  o ← reads (object c session KSession);
  match o with
  | OSession state =>
      _ ← modify (update_object c session (OSession (MkSessionState (session_seat state) active)));
      if active then mret []
      else
        focus ← gets cs_keyboard_focus;
        leaving ← gets (in_session c session focus);
        _ ← (if leaving then
               _ ← modify (λ s, match focus with
                                | Some old => push_event (key_connection old) (key_object old)
                                                EvKeyboardLeave s
                                | None => s
                                end);
               modify (set_cs_keyboard_focus None)
             else mret tt);
        pointing ← gets (λ s, in_session c session (cs_pointer_target s) s);
        _ ← (if pointing : bool then modify (set_cs_pointer_target None) else mret tt);
        mret (match focus with
              | Some old => if leaving : bool then [FocusKeyboardLeave old] else []
              | None => []
              end)
  | _ => throw (InvalidState session)
  end.

(** * Text *)

Definition tell_field (composition : Z) (event : EventKind) (s : CompositorState)
    : CompositorState :=
  if negb (composition =? cs_composition s) then s
  else match cs_composing s with
  | None => s
  | Some field => push_event (tf_connection field) (tf_object field) event s
  end.

Definition composing_caret (s : CompositorState) : option Rect := tf_caret <$> cs_composing s.

Definition enable_text (c : ConnectionId) (text_input : ObjectId) (purpose : TextPurpose)
    : ST CompositorState StateError unit :=
  _ ← reads (expect_kind c text_input KTextInput);
  fields ← gets cs_fields;
  if MAX_TEXT_FIELDS <=? Z.of_nat (size fields) then throw (QuotaExceeded text_input)
  else
    _ ← modify (set_cs_fields
          (<[ (c, text_input) := MkTextField c text_input purpose Rect_default ]> fields));
    modify refresh_composition.

Definition disable_text (c : ConnectionId) (text_input : ObjectId)
    : ST CompositorState StateError unit :=
  _ ← reads (expect_kind c text_input KTextInput);
  _ ← modify (λ s, set_cs_fields (delete (c, text_input) (cs_fields s)) s);
  modify refresh_composition.

Definition set_cursor_area (c : ConnectionId) (text_input : ObjectId) (area : Rect)
    : ST CompositorState StateError unit :=
  _ ← reads (expect_kind c text_input KTextInput);
  _ ← modify (λ s, set_cs_fields
        (alter (set_tf_caret area) (c, text_input) (cs_fields s)) s);
  modify (λ s, match cs_composing s with
               | Some composing =>
                   if bool_decide (tf_connection composing = c) &&
                      bool_decide (tf_object composing = text_input)
                   then set_cs_composing (Some (set_tf_caret area composing)) s else s
               | None => s
               end).

Definition set_preedit (c : ConnectionId) (method : ObjectId) (composition : Z) (text : TextBuffer)
    (cursor_begin cursor_end : Z) : ST CompositorState StateError unit :=
  _ ← reads (expect_kind c method KInputMethod);
  modify (tell_field composition (EvTextPreedit composition text cursor_begin cursor_end)).

Definition commit_text (c : ConnectionId) (method : ObjectId) (composition : Z) (text : TextBuffer)
    : ST CompositorState StateError unit :=
  _ ← reads (expect_kind c method KInputMethod);
  modify (tell_field composition (EvTextCommit composition text)).

Definition text_done (c : ConnectionId) (method : ObjectId) (composition serial : Z)
    : ST CompositorState StateError unit :=
  _ ← reads (expect_kind c method KInputMethod);
  modify (tell_field composition (EvTextDone serial)).
