(* ===== verification/Shell.v ===== *)
(** What a shell may do to windows it did not create ([atria-compositor/src/state/shell.rs]), and
    the globals clients find everything by ([state/mod.rs]). *)
From S2P Require Import Prelude.
From S2P Require Import BTree.
From S2P Require Import Vocabulary.
From S2P Require Import Interface.
From S2P Require Import Wire.
From S2P Require Import Payloads.
From S2P Require Import Model.
From S2P Require Import Binding.
From S2P Require Import Registry.
From S2P Require Import Outputs.
From S2P Require Import State.
From S2P Require Import Queue.
From S2P Require Import Objects.
From S2P Require Import Surfaces.
From S2P Require Import Input.

(** * The shell *)

Definition shell_toplevels (s : CompositorState) : list ToplevelRecord :=
  omap (λ item : ToplevelHandle * (ConnectionId * ObjectId),
    e ← live_entry item.2.1 item.2.2 s;
    match entry_value e with
    | OToplevel state => Some (MkToplevelRecord item.1 item.2.1 item.2.2
                           (title_str (tl_title state)) (tl_configured state))
    | _ => None
    end) (btree_items (cs_toplevels s)).

(** The grant is asked about before the handle is looked up. *)
Definition shell_target (shell : ConnectionId) (handle : ToplevelHandle) (s : CompositorState)
    : result ShellError (ConnectionId * ObjectId) :=
  if negb (holds_capability shell ShellControlCap s) then Err NotGranted
  else ok_or (cs_toplevels s !! handle) (UnknownHandle handle).

Definition known_seat (seat : SeatId) : result ShellError unit :=
  if decide (seat = SEAT_ONE) then Ok tt else Err (UnknownSeat seat).

Definition shell_configure (shell : ConnectionId) (handle : ToplevelHandle) (size : Size)
    (state : Z) : ST CompositorState ShellError Z :=
  target ← reads (shell_target shell handle);
  ST_map_err (λ _, UnknownHandle handle) (configure_toplevel target.1 target.2 size state).

Definition shell_close (shell : ConnectionId) (handle : ToplevelHandle)
    : ST CompositorState ShellError unit :=
  target ← reads (shell_target shell handle);
  ST_map_err (λ _, UnknownHandle handle) (close_toplevel target.1 target.2).

(** The surface behind a shell's handle. *)
Definition shell_surface (shell : ConnectionId) (handle : ToplevelHandle) (s : CompositorState)
    : result ShellError SurfaceKey :=
  target ← shell_target shell handle s;
  surface_id ← ok_or (toplevel_surface target.1 target.2 s) (UnknownHandle handle);
  mret (MkSurfaceKey target.1 surface_id).

Definition shell_place (shell : ConnectionId) (handle : ToplevelHandle) (position : Point)
    : ST CompositorState ShellError unit :=
  key ← reads (shell_surface shell handle);
  ST_map_err (λ _, UnknownHandle handle) (place_surface key position).

Definition shell_raise (shell : ConnectionId) (handle : ToplevelHandle)
    : ST CompositorState ShellError unit :=
  key ← reads (shell_surface shell handle);
  ST_map_err (λ _, UnknownHandle handle) (raise_surface key).

Definition shell_focus (shell : ConnectionId) (seat : SeatId) (handle : ToplevelHandle)
    : ST CompositorState ShellError unit :=
  _ ← lift (known_seat seat);
  key ← reads (shell_surface shell handle);
  _ ← ST_map_err (λ _, UnknownHandle handle) (set_keyboard_focus (Some key));
  mret tt.

Definition shell_grab (shell : ConnectionId) (seat : SeatId) (handle : ToplevelHandle)
    (control : ObjectId) : ST CompositorState ShellError unit :=
  _ ← lift (known_seat seat);
  _ ← reads (shell_target shell handle);
  held ← gets (λ s, pr_buttons_held (pointer_of s));
  if held =? 0 then throw (UnknownHandle handle)
  else
    target ← gets (λ s, pr_target (pointer_of s));
    _ ← modify (set_target None);
    _ ← modify (to_target target send_pointer_leave);
    modify (set_shell_grab (Some (shell, control))).

(** A shell's refusal, as an error the connection can be told about. *)
Definition shell_refusal (object : ObjectId) (error : ShellError) : StateError :=
  match error with
  | NotGranted => UnsupportedCapability object ShellControlCap
  | UnknownHandle _ | UnknownSeat _ => InvalidState object
  end.

(** * Globals *)

Definition advertise_global (kind : ObjectKind) (version : Z) (s : CompositorState)
    : option Z * CompositorState :=
  match interface_of kind with
  | None => (None, s)
  | Some interface =>
      let name := cs_next_global s in
      match checked_add u32_max name 1 with
      | None => (None, s)
      | Some next =>
          let s := set_cs_next_global next s in
          (Some name, set_cs_globals (<[ name := MkGlobal interface kind version None ]>
                        (cs_globals s)) s)
      end
  end.

(** The global offering a display, if one is advertised. *)
Definition global_for_output (i : OutputId) (s : CompositorState) : option Z :=
  fst <$> list_find_first (λ item : Z * Global, bool_decide (gl_output item.2 = Some i))
    (btree_items (cs_globals s)).

(** One event to each registry of each connection, the registries of a connection read as its turn
    comes. *)
Definition tell_registries (event : EventKind) (s : CompositorState) : CompositorState :=
  foldl (λ s c, push_each event (pair c <$> connection_objects KRegistry c s) s) s
    (btree_keys (cs_connections s)).

Definition announce_global (name : Z) (s : CompositorState) : CompositorState :=
  match cs_globals s !! name with
  | None => s
  | Some global => tell_registries (EvGlobal name (gl_interface global) (gl_version global)) s
  end.

Definition withdraw_global (name : Z) (s : CompositorState) : bool * CompositorState :=
  match cs_globals s !! name with
  | None => (false, s)
  | Some _ =>
      let s := set_cs_globals (delete name (cs_globals s)) s in
      (true, tell_registries (EvGlobalRemove name) s)
  end.

(** Every global, to a fresh registry. *)
Definition announce_globals (c : ConnectionId) (registry : ObjectId) (s : CompositorState)
    : CompositorState :=
  foldl (λ s (item : Z * Global),
    push_event c registry (EvGlobal item.1 (gl_interface item.2) (gl_version item.2)) s)
    s (btree_items (cs_globals s)).

(** Describe a bound display: its properties, then [done]. *)
Definition describe_output (c : ConnectionId) (object : ObjectId) (name : Z) (s : CompositorState)
    : CompositorState :=
  match cs_globals s !! name ≫= gl_output with
  | None => s
  | Some i =>
      match OutputSet_info (cs_outputs s) i with
      | None => s
      | Some info =>
          let source := default FromPosition (OutputSet_source (cs_outputs s) i) in
          let position := match output_area (cs_outputs s) i with
                          | Some area => MkPoint (rect_x area) (rect_y area)
                          | None => Point_default
                          end in
          let s := push_event c object (EvOutputIdentity (output_id i)) s in
          let s := push_event c object
            (EvOutputGeometry position (oi_physical_millimetres info) source) s in
          let s := push_event c object
            (EvOutputMode (oi_size info) (oi_refresh_millihertz info)) s in
          let s := push_event c object
            (EvOutputScale (oi_scale_numerator info) (oi_scale_denominator info)) s in
          push_event c object EvOutputDone s
      end
  end.

(** Describe a display again to every connection that bound it: every output object there is. *)
Definition redescribe_output (name : Z) (s : CompositorState) : CompositorState :=
  foldl (λ s (o : ConnectionId * ObjectId), describe_output o.1 o.2 name s) s
    (bound_objects KOutput s).

Definition place_output (i : OutputId) (position : Point) (s : CompositorState)
    : bool * CompositorState :=
  let '(placed, outputs) := OutputSet_place i position (cs_outputs s) in
  let s := set_cs_outputs outputs s in
  if negb placed then (false, s)
  else match global_for_output i s with
  | None => (true, s)
  | Some name => (true, redescribe_output name s)
  end.

(** A display that arrived or returned gains a global; one that departed loses its own. *)
Definition offer_output (version : Z) (s : CompositorState) (i : OutputId) : CompositorState :=
  match global_for_output i s with
  | Some _ => s
  | None =>
      match advertise_global KOutput version s with
      | (None, s) => s
      | (Some name, s) =>
          let s := set_cs_globals (alter (set_gl_output (Some i)) name (cs_globals s)) s in
          announce_global name s
      end
  end.

Definition retract_output (s : CompositorState) (i : OutputId) : CompositorState :=
  match global_for_output i s with
  | Some name => (withdraw_global name s).2
  | None => s
  end.

Definition apply_topology (present : list (OutputId * IdentitySource * OutputInfo)) (version : Z)
    (s : CompositorState) : TopologyDelta * CompositorState :=
  let '(outputs, delta) := OutputSet_apply present (cs_outputs s) in
  let s := set_cs_outputs outputs s in
  let s := foldl (offer_output version) s (arrived delta ++ returned delta) in
  let s := foldl retract_output s (departed delta) in
  (delta, s).

(** Tell a shell the world as it stands, then say the telling is over. *)
Definition snapshot_for_shell (c : ConnectionId) (control : ObjectId) (s : CompositorState)
    : CompositorState :=
  let s := foldl (λ s record,
    push_event c control (EvShellToplevel (tr_handle record) (tr_title record)) s)
    s (shell_toplevels s) in
  let focused := cs_keyboard_focus s ≫= λ key, handle_of_surface key s in
  let s := push_event c control
    (EvShellFocusChanged SEAT_ONE (default (MkToplevelHandle 0) focused)) s in
  push_event c control EvShellSnapshotDone s.

(** The grant a global's kind asks of whoever binds it. *)
Definition bind_refused (c : ConnectionId) (kind : ObjectKind) (new_id : ObjectId)
    (s : CompositorState) : option StateError :=
  let needs cap := if holds_capability c cap s then None
                   else Some (UnsupportedCapability new_id cap) in
  match kind with
  | KShellControl => needs ShellControlCap
  | KShortcuts => needs ShortcutControl
  | KInputMethod =>
      match needs InputMethodCap with
      | Some error => Some error
      | None => match cs_method s with Some _ => Some (InvalidState new_id) | None => None end
      end
  | _ => None
  end.

Definition bind_global (c : ConnectionId) (name version : Z) (new_id : ObjectId)
    : ST CompositorState StateError unit :=
  global ← reads (λ s, ok_or (cs_globals s !! name) (InvalidState new_id));
  if (version =? 0) || (gl_version global <? version) then throw (InvalidState new_id)
  else
    refused ← gets (bind_refused c (gl_kind global) new_id);
    match refused with
    | Some error => throw error
    | None =>
        _ ← (if decide (gl_kind global = KInputMethod) then
               _ ← modify (set_cs_method (Some (c, new_id)));
               modify refresh_composition
             else mret tt);
        _ ← allocate_client c new_id (gl_kind global) OGlobal;
        _ ← (if decide (gl_kind global = KOutput)
             then modify (describe_output c new_id name) else mret tt);
        _ ← (if decide (gl_kind global = KShellControl)
             then modify (snapshot_for_shell c new_id) else mret tt);
        if decide (gl_kind global = KSeat)
        then modify (update_object c new_id (OSeat (MkSeatState SeatCapabilities_empty true)))
        else mret tt
    end.
