(* ===== verification/Dispatch.v ===== *)
(** The request dispatcher and the compositor's whole interface
    ([atria-compositor/src/state/mod.rs]). *)
From S2P Require Import Prelude.
From S2P Require Import BTree.
From S2P Require Import Vocabulary.
From S2P Require Import Interface.
From S2P Require Import Wire.
From S2P Require Import Payloads.
From S2P Require Import Model.
From S2P Require Import Registry.
From S2P Require Import Outputs.
From S2P Require Import State.
From S2P Require Import Queue.
From S2P Require Import Objects.
From S2P Require Import Surfaces.
From S2P Require Import Input.
From S2P Require Import Shell.

Definition create_registry (c : ConnectionId) (new_id : ObjectId)
    : ST CompositorState StateError unit :=
  _ ← allocate_client c new_id KRegistry ORegistry;
  modify (announce_globals c new_id).

Definition get_device (kind : ObjectKind) (c : ConnectionId) (seat new_id : ObjectId)
    : ST CompositorState StateError unit :=
  _ ← reads (expect_kind c seat KSeat);
  allocate_client c new_id kind OGlobal.

(** A client's own [destroy]: the display never, and a buffer only when it is the client's. *)
Definition destroy_request (c : ConnectionId) (object_id : ObjectId)
    : ST CompositorState StateError unit :=
  if decide (object_id = ObjectId_DISPLAY) then throw (InvalidState object_id)
  else
    _ ← reads (expect_any c object_id);
    in_use ← gets (λ s, match buffer c object_id s with
                        | Ok b => negb (bool_decide (bo_state b = Available))
                        | Err _ => false
                        end);
    if in_use : bool then throw (InvalidState object_id)
    else modify (λ s, (destroy_object c object_id s).2).

Definition dispatch_checked (c : ConnectionId) (request : ClientRequest)
    : ST CompositorState StateError unit :=
  match request with
  | RqGetPointer seat new_id => get_device KPointer c seat new_id
  | RqEnableText text_input purpose => enable_text c text_input purpose
  | RqDisableText text_input => disable_text c text_input
  | RqSetCursorArea text_input area => set_cursor_area c text_input area
  | RqSetPreedit method composition text cursor_begin cursor_end =>
      set_preedit c method composition text cursor_begin cursor_end
  | RqCommitText method composition text => commit_text c method composition text
  | RqTextDone method composition serial => text_done c method composition serial
  | RqRegisterShortcut manager shortcut seat chord => register_shortcut c manager shortcut seat chord
  | RqUnregisterShortcut manager shortcut => unregister_shortcut c manager shortcut
  | RqGetKeyboard seat new_id => get_device KKeyboard c seat new_id
  | RqCreateRegistry new_id => create_registry c new_id
  | RqBind name version new_id => bind_global c name version new_id
  | RqGetToplevel surface_id new_id => get_toplevel c surface_id new_id
  | RqSetTitle toplevel_id title => set_title c toplevel_id title
  | RqSetMinSize toplevel_id size => set_min_size c toplevel_id size
  | RqSetMaxSize toplevel_id size => set_max_size c toplevel_id size
  | RqCreatePool new_id memory => create_pool c new_id memory
  | RqCreateSurface new_id => create_surface c new_id
  | RqCreateBuffer new_id pool offset size stride format =>
      create_buffer c new_id pool offset size stride format
  | RqImportBuffer new_id descriptor => import_buffer c new_id descriptor
  | RqAttach surface_id buffer_id offset acquire_fence =>
      attach c surface_id buffer_id offset acquire_fence
  | RqDamage surface_id rect => damage c surface_id rect
  | RqCommit surface_id => commit c surface_id
  | RqShellConfigure control handle size state =>
      _ ← ST_map_err (shell_refusal control) (shell_configure c handle size state); mret tt
  | RqShellPlace control handle position =>
      ST_map_err (shell_refusal control) (shell_place c handle position)
  | RqShellRaise control handle => ST_map_err (shell_refusal control) (shell_raise c handle)
  | RqShellFocus control seat handle =>
      ST_map_err (shell_refusal control) (shell_focus c seat handle)
  | RqShellClose control handle => ST_map_err (shell_refusal control) (shell_close c handle)
  | RqShellGrab control seat handle =>
      ST_map_err (shell_refusal control) (shell_grab c seat handle control)
  | RqSetRole surface_id role => set_role c surface_id role
  | RqRequestFrame surface_id serial => request_frame c surface_id serial
  | RqSetRefreshRange surface_id min_hz max_hz => set_refresh_range c surface_id min_hz max_hz
  | RqDestroy object_id => destroy_request c object_id
  | RqUnknown object_id opcode =>
      _ ← reads (expect_any c object_id);
      throw (ErrUnknownOpcode object_id opcode)
  end.

(** What an error does to the connection that caused it. *)
Definition after_error (c : ConnectionId) (error : StateError) (s : CompositorState)
    : CompositorState :=
  let s := push_event c (error_object_id error) (EvError error) s in
  match error_category error with
  | CatProtocol => close_state c s
  | CatObject => (destroy_object c (error_object_id error) s).2
  | CatResource | CatCompositor => s
  end.

Definition dispatch (c : ConnectionId) (request : ClientRequest)
    : ST CompositorState StateError unit := λ s,
  match cs_connections s !! c with
  | None => (Err ConnectionClosed, s)
  | Some _ =>
      match dispatch_checked c request s with
      | (Ok _, s) => (Ok tt, s)
      | (Err error, s) => (Err error, after_error c error s)
      end
  end.

(** * Draining *)

Definition take_events (s : CompositorState) : list Event * CompositorState :=
  let s := set_cs_connections (set_cn_pending_events 0 <$> cs_connections s) s in
  (cs_events s, set_cs_events [] s).

Definition take_events_for (c : ConnectionId) (s : CompositorState)
    : list Event * CompositorState :=
  let mine := list_retain (λ e, bool_decide (event_connection e = c)) (cs_events s) in
  let theirs := list_retain (λ e, negb (bool_decide (event_connection e = c))) (cs_events s) in
  let s := set_cs_events theirs s in
  (mine, update_connection c (set_cn_pending_events 0) s).

(** * Everything that can happen to a compositor

    The public methods that change the state, as labels of a step relation. A method's answer is
    dropped: an invariant holds whatever it answers. *)

Inductive Call :=
| CallConnect (client_capabilities required : CapabilitySet)
| CallGrant (c : ConnectionId) (cap : Capability)
| CallRevoke (c : ConnectionId) (cap : Capability)
| CallCreateSeat (c : ConnectionId) (id : ObjectId) (caps : SeatCapabilities) (active : bool)
| CallCreateSession (c : ConnectionId) (id : ObjectId) (seat : option ObjectId) (active : bool)
| CallCreateFence (c : ConnectionId) (id : ObjectId)
| CallCreateInputStream (c : ConnectionId) (id : ObjectId)
| CallDispatch (c : ConnectionId) (request : ClientRequest)
| CallPresent (key : SurfaceKey) (timestamp_ns : Z)
| CallSignalFence (c : ConnectionId) (fence : ObjectId)
| CallReleaseBuffer (c : ConnectionId) (buffer_id : ObjectId)
| CallReleaseBufferWithFence (c : ConnectionId) (buffer_id fence : ObjectId)
| CallSetFrameDeadline (key : SurfaceKey) (deadline_ns refresh_interval_ns : Z)
| CallRecordDeadlineMiss (key : SurfaceKey)
| CallPlaceSurface (key : SurfaceKey) (position : Point)
| CallRaiseSurface (key : SurfaceKey)
| CallUpdatePointerTarget (point : Point)
| CallSetKeyboardFocus (focus : option SurfaceKey)
| CallSetSessionActive (c : ConnectionId) (session : ObjectId) (active : bool)
| CallSetSeatActive (c : ConnectionId) (seat : ObjectId) (active : bool)
| CallSetSeatCapabilities (c : ConnectionId) (seat : ObjectId) (caps : SeatCapabilities)
| CallAdvertiseGlobal (kind : ObjectKind) (version : Z)
| CallWithdrawGlobal (name : Z)
| CallApplyTopology (present : list (OutputId * IdentitySource * OutputInfo)) (version : Z)
| CallPlaceOutput (i : OutputId) (position : Point)
| CallConfigureToplevel (c : ConnectionId) (toplevel_id : ObjectId) (size : Size) (state : Z)
| CallCloseToplevel (c : ConnectionId) (toplevel_id : ObjectId)
| CallShellConfigure (c : ConnectionId) (handle : ToplevelHandle) (size : Size) (state : Z)
| CallShellClose (c : ConnectionId) (handle : ToplevelHandle)
| CallShellPlace (c : ConnectionId) (handle : ToplevelHandle) (position : Point)
| CallShellRaise (c : ConnectionId) (handle : ToplevelHandle)
| CallShellFocus (c : ConnectionId) (seat : SeatId) (handle : ToplevelHandle)
| CallShellGrab (c : ConnectionId) (seat : SeatId) (handle : ToplevelHandle) (control : ObjectId)
| CallResetInput
| CallMovePointer (position : Point) (time_ns : Z)
| CallPointerButton (button : Z) (pressed : bool) (time_ns : Z)
| CallKey (key : PhysicalKey) (pressed : bool) (time_ns : Z)
| CallTakeEvents
| CallTakeEventsFor (c : ConnectionId)
| CallCloseConnection (c : ConnectionId).

Definition run {E A} (m : ST CompositorState E A) (s : CompositorState) : CompositorState := (m s).2.

Definition call (x : Call) : CompositorState → CompositorState :=
  match x with
  | CallConnect client required => run (connect client required)
  | CallGrant c cap => run (grant_capability c cap)
  | CallRevoke c cap => run (revoke_capability c cap)
  | CallCreateSeat c id caps active => run (create_seat c id caps active)
  | CallCreateSession c id seat active => run (create_session c id seat active)
  | CallCreateFence c id => run (create_fence c id)
  | CallCreateInputStream c id => run (create_input_stream c id)
  | CallDispatch c request => run (dispatch c request)
  | CallPresent key timestamp_ns => run (present key timestamp_ns)
  | CallSignalFence c fence => run (signal_fence c fence)
  | CallReleaseBuffer c buffer_id => run (release_buffer c buffer_id)
  | CallReleaseBufferWithFence c buffer_id fence => run (release_buffer_with_fence c buffer_id fence)
  | CallSetFrameDeadline key deadline interval => run (set_frame_deadline key deadline interval)
  | CallRecordDeadlineMiss key => run (record_deadline_miss key)
  | CallPlaceSurface key position => run (place_surface key position)
  | CallRaiseSurface key => run (raise_surface key)
  | CallUpdatePointerTarget point => λ s, (update_pointer_target point s).2
  | CallSetKeyboardFocus focus => run (set_keyboard_focus focus)
  | CallSetSessionActive c session active => run (set_session_active c session active)
  | CallSetSeatActive c seat active => run (set_seat_active c seat active)
  | CallSetSeatCapabilities c seat caps => run (set_seat_capabilities c seat caps)
  | CallAdvertiseGlobal kind version => λ s, (advertise_global kind version s).2
  | CallWithdrawGlobal name => λ s, (withdraw_global name s).2
  | CallApplyTopology present version => λ s, (apply_topology present version s).2
  | CallPlaceOutput i position => λ s, (place_output i position s).2
  | CallConfigureToplevel c id size state => run (configure_toplevel c id size state)
  | CallCloseToplevel c id => run (close_toplevel c id)
  | CallShellConfigure c handle size state => run (shell_configure c handle size state)
  | CallShellClose c handle => run (shell_close c handle)
  | CallShellPlace c handle position => run (shell_place c handle position)
  | CallShellRaise c handle => run (shell_raise c handle)
  | CallShellFocus c seat handle => run (shell_focus c seat handle)
  | CallShellGrab c seat handle control => run (shell_grab c seat handle control)
  | CallResetInput => reset_input
  | CallMovePointer position time_ns => move_pointer position time_ns
  | CallPointerButton button pressed time_ns => pointer_button button pressed time_ns
  | CallKey key pressed time_ns => key_event key pressed time_ns
  | CallTakeEvents => λ s, (take_events s).2
  | CallTakeEventsFor c => λ s, (take_events_for c s).2
  | CallCloseConnection c => close_state c
  end.

(** Limits are unsigned; only two of them are ever compared with a count that starts at nothing. *)
Definition limits_ok (server_limits : ServerLimits) (limits : ConnectionLimits) : Prop :=
  0 ≤ max_connections server_limits ∧ 0 ≤ max_pending_events limits.

(** A compositor somebody made and then called. *)
Inductive reachable : CompositorState → Prop :=
| reachable_new caps server_limits limits :
    limits_ok server_limits limits → reachable (CompositorState_new caps server_limits limits)
| reachable_call x s : reachable s → reachable (call x s).

Lemma reachable_invariant (I : CompositorState → Prop) :
  (∀ caps server_limits limits, limits_ok server_limits limits →
     I (CompositorState_new caps server_limits limits)) →
  (∀ x, kept I (call x)) → ∀ s, reachable s → I s.
Proof. intros H0 Hc s. induction 1; [by apply H0|by apply Hc]. Qed.

(** The calls of a run, in order. *)
Definition calls (l : list Call) (s : CompositorState) : CompositorState := foldl (λ s x, call x s) s l.

Lemma reachable_calls l s : reachable s → reachable (calls l s).
Proof.
  revert s. induction l as [|x l IH]; intros s Hs; [done|]. cbn. by apply IH, reachable_call.
Qed.
