(* ===== verification/Invariant.v ===== *)
(** The invariant of the compositor's state, and what the primitive changes of state do to it.

    [Inv] is what a compositor relies on between calls: no queue is longer than its bound, the
    bounded tables are within theirs, a connection's authority stays within what was negotiated,
    and everything that is named (a window by its handle, a surface by the scene, a holder by its
    chord) is there. Each part reads only the fields it is about, so that a change of any other
    field keeps it by computation.

    One operation breaks a part and mends it: a surface that is being destroyed leaves the scene
    before it leaves the registry, and an event is sent between. [Inv_but (Some key)] is the
    invariant with that surface exempted from having to be in the scene. *)
From S2P Require Import Prelude.
From S2P Require Import BTree.
From S2P Require Import Vocabulary.
From S2P Require Import Interface.
From S2P Require Import Wire.
From S2P Require Import Payloads.
From S2P Require Import Model.
From S2P Require Import Registry.
From S2P Require Import Outputs.
From S2P Require Import State.
From S2P Require Import Queue.
From S2P Require Import Objects.
From S2P Require Import Surfaces.
From S2P Require Import Input.
From S2P Require Import Destruction.

(** * The parts *)

Definition events_of (c : ConnectionId) (events : list Event) : Z :=
  len (list_retain (λ e, bool_decide (event_connection e = c)) events).

(** Every queue is within its bound: a live connection's is counted exactly, and a departed one's
    holds at most one event more, the error that says why it was closed. *)
Record queues_ok (maximum next : Z) (conns : gmap ConnectionId Connection) (events : list Event)
    : Prop := {
  queue_bound_nonneg : 0 ≤ maximum;
  queue_exact c client : conns !! c = Some client →
    cn_pending_events client = events_of c events ∧ events_of c events ≤ maximum;
  queue_departed c : events_of c events ≤ maximum + 1;
  queue_known c : is_Some (conns !! c) ∨ 0 < events_of c events → connection_id c < next;
}.

(** A value is what its kind says, or the placeholder a bound global is. *)
Definition value_matches (k : ObjectKind) (v : Object) : Prop :=
  match v with
  | ODisplay => k = KDisplay
  | ORegistry => k = KRegistry
  | OToplevel _ => k = KToplevel
  | OGlobal => True
  | OShmPool _ => k = KShmPool
  | OSeat _ => k = KSeat
  | OSession _ => k = KSession
  | OSurface _ => k = KSurface
  | OBuffer _ => k = KBuffer
  | OFence _ => k = KFence
  | OInputStream => k = KInputStream
  end.

(** The handle of a window, and whether a surface has content. *)
Definition value_handle (v : Object) : option ToplevelHandle :=
  match v with OToplevel st => Some (tl_handle st) | _ => None end.
Definition value_shows (v : Object) : bool :=
  match v with OSurface st => bool_decide (is_Some (su_current st)) | _ => false end.

Definition value_of (client : Connection) (id : ObjectId) : option Object :=
  entry_value <$> reg_live (cn_registry client) !! id.

(** Within its quota; the display is there from the start, whatever the quota. *)
Record client_ok (maximum : Z) (client : Connection) : Prop := {
  client_registry : registry_wf (cn_registry client);
  client_quota : reg_len (cn_registry client) ≤ Z.max 1 maximum;
  client_values id k v : kind_of (cn_registry client) id = Some k → value_of client id = Some v →
    value_matches k v;
  client_authority cap : cap_contains (cn_capabilities client) cap = true →
    cap_contains (cn_available_capabilities client) cap = true;
}.

Definition clients_ok (maximum : Z) (conns : gmap ConnectionId Connection) : Prop :=
  ∀ c client, conns !! c = Some client → client_ok maximum client.

(** The scene stacks no surface twice, knows where each is, places only surfaces, and stacks every
    surface that has content. *)
Record scene_ok (x : option SurfaceKey) (conns : gmap ConnectionId Connection) (scene : Scene)
    : Prop := {
  scene_NoDup : NoDup (scene_stack scene);
  scene_placed key : key ∈ scene_stack scene → is_Some (scene_positions scene !! key);
  scene_surfaces key p : scene_positions scene !! key = Some p →
    ∃ client, conns !! key_connection key = Some client ∧
              kind_of (cn_registry client) (key_object key) = Some KSurface;
  scene_shown key client v : Some key ≠ x → conns !! key_connection key = Some client →
    value_of client (key_object key) = Some v → value_shows v = true → key ∈ scene_stack scene;
}.

(** A moment of the past: the numbers issued by then, and who held them. What the invariant says of
    the present may be relative to one, and nothing issued before it is issued again. Nobody has been
    admitted since unless the past is open. *)
Class Past := MkPast {
  past_handle : Z;
  past_handles : gset ToplevelHandle;
  past_connection : Z;
  past_available : gmap ConnectionId CapabilitySet;
  past_open : bool;
}.

(** A handle a shell may use names a window that has it, and none is issued again. *)
Record windows_ok {past : Past} (conns : gmap ConnectionId Connection)
    (tops : gmap ToplevelHandle (ConnectionId * ObjectId)) (next : Z) : Prop := {
  windows_named h c o : tops !! h = Some (c, o) →
    toplevel_handle_id h < next ∧
    ∃ client, conns !! c = Some client ∧ value_of client o ≫= value_handle = Some h;
  windows_past h : is_Some (tops !! h) → toplevel_handle_id h < past_handle → h ∈ past_handles;
  windows_next : past_handle ≤ next;
}.

Definition shortcuts_ok (conns : gmap ConnectionId Connection)
    (shortcuts : gmap (SeatId * Chord) ShortcutClaim) : Prop :=
  Z.of_nat (size shortcuts) ≤ MAX_SHORTCUTS ∧
  ∀ k claim, shortcuts !! k = Some claim → is_Some (conns !! sc_holder claim).

Definition fields_ok (conns : gmap ConnectionId Connection)
    (fields : gmap (ConnectionId * ObjectId) TextField) : Prop :=
  Z.of_nat (size fields) ≤ MAX_TEXT_FIELDS ∧
  ∀ k f, fields !! k = Some f →
    tf_connection f = k.1 ∧ tf_object f = k.2 ∧ is_Some (conns !! k.1).

Definition keyboard_ok (k : KeyboardRouting) : Prop :=
  Z.of_nat (size (kr_held k)) ≤ MAX_HELD_KEYS ∧ kr_consumed k ⊆ kr_held k.

(** The keys that are held, and what the composition is into. *)
Record seat_ok (k : KeyboardRouting) (composing : option TextField) : Prop := {
  seat_keyboard : keyboard_ok k;
  seat_composing : may_compose composing;
}.

Record connections_ok {past : Past} (maximum next : Z) (conns : gmap ConnectionId Connection)
    : Prop := {
  connections_bound : Z.of_nat (size conns) ≤ maximum;
  connections_past c client : conns !! c = Some client → connection_id c < past_connection →
    past_available !! c = Some (cn_available_capabilities client);
  connections_next : past_connection ≤ next ∧ (past_open = false → next = past_connection);
}.

(** The parts about what connections and objects there are. *)
Definition named_ok {past : Past} (x : option SurfaceKey) (s : CompositorState)
    (conns : gmap ConnectionId Connection) : Prop :=
  scene_ok x conns (cs_scene s) ∧
  windows_ok conns (cs_toplevels s) (cs_next_handle s) ∧
  shortcuts_ok conns (cs_shortcuts s) ∧
  fields_ok conns (cs_fields s).

Definition Inv_but {past : Past} (x : option SurfaceKey) (s : CompositorState) : Prop :=
  queues_ok (max_pending_events (cs_limits s)) (cs_next_connection s) (cs_connections s)
    (cs_events s) ∧
  clients_ok (max_objects (cs_limits s)) (cs_connections s) ∧
  connections_ok (max_connections (cs_server_limits s)) (cs_next_connection s)
    (cs_connections s) ∧
  named_ok x s (cs_connections s) ∧
  seat_ok (sr_keyboard (cs_seat s)) (cs_composing s).

Definition Inv {past : Past} : CompositorState → Prop := Inv_but None.

(** * The events of a connection *)

Lemma events_of_push c e events :
  events_of c (events ++ [e]) =
  events_of c events + (if decide (event_connection e = c) then 1 else 0).
Proof.
  unfold events_of, list_retain. rewrite filter_app, len_app. f_equal. case_decide as E.
  - rewrite filter_cons_True; [done|]. by apply bool_decide_eq_true.
  - rewrite filter_cons_False; [done|]. by rewrite bool_decide_eq_true.
Qed.

Lemma events_of_nonneg c events : 0 ≤ events_of c events.
Proof. apply len_nonneg. Qed.

Lemma queues_push maximum next conns events c client client' e :
  conns !! c = Some client → event_connection e = c →
  cn_pending_events client < maximum → cn_pending_events client' = cn_pending_events client + 1 →
  queues_ok maximum next conns events →
  queues_ok maximum next (<[c:=client']> conns) (events ++ [e]).
Proof.
  intros Hc He Hlt Hp [Q1 Q2 Q3 Q4]. destruct (Q2 c client Hc) as [E1 E2]. split; [done|..].
  - intros c' cl Hl. rewrite events_of_push, He. destruct (decide (c = c')) as [<-|].
    + rewrite lookup_insert_eq in Hl. injection Hl as <-. lia.
    + rewrite lookup_insert_ne in Hl by done. rewrite Z.add_0_r. by apply Q2.
  - intros c'. rewrite events_of_push, He. case_decide; subst; [lia|]. rewrite Z.add_0_r. apply Q3.
  - intros c'. rewrite events_of_push, He. destruct (decide (c = c')) as [<-|].
    + intros _. apply Q4. left. by eexists.
    + rewrite lookup_insert_ne, Z.add_0_r by done. apply Q4.
Qed.

Lemma queues_forget maximum next conns events c :
  queues_ok maximum next conns events → queues_ok maximum next (delete c conns) events.
Proof.
  intros [Q1 Q2 Q3 Q4]. split; [done|..|done|].
  - intros c' cl [_ Hl]%lookup_delete_Some. by apply Q2.
  - intros c' [Hl|Hl]; apply Q4; [left|by right]. destruct Hl as [cl [_ Hl]%lookup_delete_Some].
    by eexists.
Qed.

Lemma queues_overflow maximum next conns events c client e :
  conns !! c = Some client → event_connection e = c →
  queues_ok maximum next conns events →
  queues_ok maximum next (delete c conns) (events ++ [e]).
Proof.
  intros Hc He [Q1 Q2 Q3 Q4]. destruct (Q2 c client Hc) as [E1 E2]. split; [done|..].
  - intros c' cl [Hne Hl]%lookup_delete_Some. rewrite events_of_push, He.
    rewrite decide_False, Z.add_0_r by done. by apply Q2.
  - intros c'. rewrite events_of_push, He. case_decide; subst; [lia|]. rewrite Z.add_0_r. apply Q3.
  - intros c'. rewrite events_of_push, He. destruct (decide (c = c')) as [<-|Hne].
    + intros _. apply Q4. left. by eexists.
    + rewrite lookup_delete_ne, Z.add_0_r by done. apply Q4.
Qed.

(** * Changing one connection *)

(** What [named_ok] can ask of an object: the windows and the scene name it. *)
Definition referenced (c : ConnectionId) (id : ObjectId) (s : CompositorState) : Prop :=
  (∃ h, cs_toplevels s !! h = Some (c, id)) ∨
  is_Some (scene_positions (cs_scene s) !! MkSurfaceKey c id).

Record keeps (x : option SurfaceKey) (s : CompositorState) (c : ConnectionId)
    (client client' : Connection) : Prop := {
  keeps_available : cn_available_capabilities client' = cn_available_capabilities client;
  keeps_kind id : referenced c id s →
    kind_of (cn_registry client') id = kind_of (cn_registry client) id ∧
    value_of client' id ≫= value_handle = value_of client id ≫= value_handle;
  keeps_shown id v : Some (MkSurfaceKey c id) ≠ x → value_of client' id = Some v →
    value_shows v = true →
    (∃ w, value_of client id = Some w ∧ value_shows w = true) ∨
    MkSurfaceKey c id ∈ scene_stack (cs_scene s);
}.

Lemma named_insert {past : Past} x s c client client' :
  cs_connections s !! c = Some client → keeps x s c client client' →
  named_ok x s (cs_connections s) → named_ok x s (<[c:=client']> (cs_connections s)).
Proof.
  intros Hc [_ K1 K2] ([S1 S2 S3 S4] & [W1 W2 W3] & [H1 H2] & [F1 F2]).
  assert (∀ c', is_Some (cs_connections s !! c') → is_Some (<[c:=client']> (cs_connections s) !! c'))
    as Hs by (intros c' ?; rewrite lookup_insert_is_Some; destruct (decide (c = c')); auto).
  split_and!; [split; [done|done|..]|split; [|done|done]|split; [done|]|split; [done|]].
  - intros [kc ko] p Hp. destruct (S3 _ p Hp) as (cl & Hcl & Hk). simpl in *.
    destruct (decide (c = kc)) as [<-|].
    + exists client'. rewrite lookup_insert_eq. split; [done|].
      rewrite Hc in Hcl. injection Hcl as <-. rewrite (proj1 (K1 ko ltac:(right; eauto))). done.
    + exists cl. by rewrite lookup_insert_ne.
  - intros [kc ko] cl v Hx Hcl Hv Hw. simpl in *. destruct (decide (c = kc)) as [<-|].
    + rewrite lookup_insert_eq in Hcl. injection Hcl as <-.
      destruct (K2 ko v Hx Hv Hw) as [(w & Hw1 & Hw2)|]; [|done]. by apply (S4 _ client w).
    + rewrite lookup_insert_ne in Hcl by done. by apply (S4 _ cl v).
  - intros h c' o Ht. destruct (W1 h c' o Ht) as (Hn & cl & Hcl & Hh). split; [done|].
    destruct (decide (c = c')) as [<-|].
    + exists client'. rewrite lookup_insert_eq. split; [done|].
      rewrite Hc in Hcl. injection Hcl as <-. rewrite (proj2 (K1 o ltac:(left; eauto))). done.
    + exists cl. by rewrite lookup_insert_ne.
  - intros k claim Hl. apply Hs. by eapply H2.
  - intros k f Hl. destruct (F2 k f Hl) as (? & ? & ?). auto.
Qed.

Lemma size_insert_known (m : gmap ConnectionId Connection) c client client' :
  m !! c = Some client → size (<[c:=client']> m) = size m.
Proof. intros Hc. rewrite map_size_insert, Hc. done. Qed.

Lemma clients_insert maximum conns c client :
  clients_ok maximum conns → client_ok maximum client → clients_ok maximum (<[c:=client]> conns).
Proof. intros Hc Hk c' cl [[<- <-]|[_ Hl]]%lookup_insert_Some; [done|by eapply Hc]. Qed.

Lemma connections_insert {past : Past} maximum next conns c client client' :
  conns !! c = Some client →
  cn_available_capabilities client' = cn_available_capabilities client →
  connections_ok maximum next conns → connections_ok maximum next (<[c:=client']> conns).
Proof.
  intros Hc Ha [P1 P2 P3]. split; [by rewrite (size_insert_known _ _ _ _ Hc)| |done].
  intros c' cl [[<- <-]|[_ Hl]]%lookup_insert_Some; [rewrite Ha|]; by apply P2.
Qed.

(** Any change of one connection that keeps what is named, from which all of them follow. *)
Lemma inv_client {past : Past} x s c client client' :
  cs_connections s !! c = Some client → cn_pending_events client' = cn_pending_events client →
  (client_ok (max_objects (cs_limits s)) client → client_ok (max_objects (cs_limits s)) client') →
  keeps x s c client client' →
  Inv_but x s → Inv_but x (set_cs_connections (<[c:=client']> (cs_connections s)) s).
Proof.
  intros Hc Hp Hok Hk (Q & C & P & N & K). split_and!; [|apply clients_insert; [done|by eapply Hok, C]| |
    exact (named_insert x s c client client' Hc Hk N)|done].
  - destruct Q as [Q1 Q2 Q3 Q4].
    cbn [cs_limits cs_next_connection cs_connections cs_events set_cs_connections].
    split; [done|..|done|].
    + intros c' cl [[<- <-]|[_ Hl]]%lookup_insert_Some; [rewrite Hp|]; by apply Q2.
    + intros c' [Hl|Hl]; apply Q4; [left|by right].
      apply lookup_insert_is_Some in Hl as [<-|[_ ?]]; [by eexists|done].
  - apply connections_insert with client; [done|exact (keeps_available _ _ _ _ _ Hk)|done].
Qed.

Lemma inv_update_connection {past : Past} x s c f :
  (∀ client, cs_connections s !! c = Some client →
     cn_pending_events (f client) = cn_pending_events client ∧
     (client_ok (max_objects (cs_limits s)) client →
      client_ok (max_objects (cs_limits s)) (f client)) ∧
     keeps x s c client (f client)) →
  Inv_but x s → Inv_but x (update_connection c f s).
Proof.
  intros Hf Hs. unfold update_connection. destruct (cs_connections s !! c) as [client|] eqn:Hc.
  - destruct (Hf client eq_refl) as (? & ? & ?).
    replace (alter f c (cs_connections s)) with (<[c:=f client]> (cs_connections s)); [by eapply inv_client|].
    symmetry. apply map_eq. intros c'. destruct (decide (c = c')) as [<-|].
    + by rewrite lookup_alter_eq, Hc, lookup_insert_eq.
    + by rewrite lookup_alter_ne, lookup_insert_ne.
  - replace (alter f c (cs_connections s)) with (cs_connections s); [exact Hs|].
    symmetry. apply alter_id. intros cl Hcl. congruence.
Qed.

(** * Events *)

Lemma named_delete {past : Past} x s c :
  named_ok x s (cs_connections s) →
  named_ok x (forget_connection c s) (delete c (cs_connections s)).
Proof.
  intros ([S1 S2 S3 S4] & [W1 W2 W3] & [H1 H2] & [F1 F2]).
  unfold named_ok, forget_connection.
  cbn -[btree_retain list_retain delete].
  split_and!; [split; cbn [scene_positions scene_stack]|split; [| |done]|split|split].
  - by apply list_retain_NoDup.
  - intros key [Hin Hc]%elem_of_list_retain. destruct (S2 key Hin) as [p Hp]. exists p.
    by apply btree_retain_Some.
  - intros key p [Hp Hc%negb_true_iff%bool_decide_eq_false]%btree_retain_Some.
    destruct (S3 key p Hp) as (cl & Hcl & Hk). exists cl. by rewrite lookup_delete_ne.
  - intros key cl v Hx [Hc Hcl]%lookup_delete_Some Hv Hw. apply elem_of_list_retain.
    split; [by eapply S4|]. by apply negb_true_iff, bool_decide_eq_false.
  - intros h c' o [Ht Hc%negb_true_iff%bool_decide_eq_false]%btree_retain_Some. simpl in Hc.
    destruct (W1 h c' o Ht) as (? & cl & Hcl & Hh). split; [done|]. exists cl.
    by rewrite lookup_delete_ne.
  - intros h [o [Hh _]%btree_retain_Some]. apply W2. by eexists.
  - pose proof (btree_retain_size (λ _ claim, negb (bool_decide (sc_holder claim = c)))
      (cs_shortcuts s)). lia.
  - intros k claim [Hl Hc%negb_true_iff%bool_decide_eq_false]%btree_retain_Some.
    rewrite lookup_delete_ne by done. by eapply H2.
  - pose proof (btree_retain_size (λ (owner : ConnectionId * ObjectId) (_ : TextField),
      negb (bool_decide (owner.1 = c))) (cs_fields s)). lia.
  - intros k f [Hl Hc%negb_true_iff%bool_decide_eq_false]%btree_retain_Some.
    rewrite lookup_delete_ne by done. by apply F2.
Qed.

Lemma keeps_pending x s c client n : keeps x s c client (set_cn_pending_events n client).
Proof. split; [done|done|]. intros id v _ Hv Hw. left. eauto. Qed.

Lemma connections_delete {past : Past} maximum next conns c :
  connections_ok maximum next conns → connections_ok maximum next (delete c conns).
Proof.
  intros [P1 P2 P3]. split; [|by intros c' cl [_ Hl]%lookup_delete_Some; apply P2|done].
  pose proof (map_subseteq_size (delete c conns) conns (delete_subseteq _ _)). lia.
Qed.

Lemma clients_delete maximum conns c :
  clients_ok maximum conns → clients_ok maximum (delete c conns).
Proof. intros H c' cl [_ Hl]%lookup_delete_Some. by eapply H. Qed.

#[export] Instance Inv_but_stable {past : Past} x : Teardown_stable (Inv_but x).
Proof.
  split; [..|done|intros s0 s _ (Q & C & P & N & [K _])|intros s (Q & C & P & N & [K _]); by split_and!|done].
  - intros s c client o k (Q & C & P & N & K) Hc Hlt.
    unfold queued, events_push. split_and!; [| | |exact (named_insert x s c client _ Hc
      (keeps_pending x s c client _) N)|exact K].
    + by apply (queues_push _ _ _ _ c client).
    + apply clients_insert; [done|]. destruct (C c client Hc). by split.
    + by apply connections_insert with client.
  - intros s c client (Q & C & P & N & K) Hc. split_and!; [by apply queues_forget|
      by apply clients_delete|by apply connections_delete|by apply named_delete|exact K].
  - intros s c client (Q & C & P & N & K) Hc Hge. split_and!; [|by apply clients_delete|
      by apply connections_delete| |exact K].
    + by eapply queues_overflow.
    + exact (named_delete x s c N).
  - split_and!; try done. split; [done|]. apply wanted_field_admits.
Qed.

#[export] Instance Inv_stable {past : Past} : Teardown_stable Inv := Inv_but_stable None.

(** * Objects *)

Lemma value_of_set_entry client id v id' :
  value_of (set_cn_registry (set_entry_value id v (cn_registry client)) client) id' =
  if decide (id = id') then (λ _, v) <$> value_of client id' else value_of client id'.
Proof.
  unfold value_of. cbn [cn_registry set_cn_registry reg_live set_entry_value set_live].
  case_decide as E; subst; [rewrite lookup_alter_eq|by rewrite lookup_alter_ne].
  by destruct (reg_live (cn_registry client) !! id').
Qed.

Lemma kind_of_set_entry (r : ObjectRegistry Object) id v id' :
  kind_of (set_entry_value id v r) id' = kind_of r id'.
Proof.
  unfold kind_of. cbn [reg_live set_entry_value set_live].
  destruct (decide (id = id')) as [<-|]; [rewrite lookup_alter_eq|by rewrite lookup_alter_ne].
  by destruct (reg_live r !! id).
Qed.

Lemma value_of_kind client id w :
  value_of client id = Some w → ∃ k, kind_of (cn_registry client) id = Some k.
Proof.
  unfold value_of, kind_of. destruct (reg_live (cn_registry client) !! id); [|done]. by eexists.
Qed.

Definition shows_no_more (v w : Object) : Prop := value_shows v = true → value_shows w = true.

(** Assigning through a reference, with [x] the surface that may gain content by it. *)
Lemma inv_update_object_but {past : Past} x y s c id v :
  (∀ k w, object_kind c id s = Some k → entry_value <$> live_entry c id s = Some w →
     value_matches k w → value_matches k v ∧ value_handle v = value_handle w ∧
       (shows_no_more v w ∨ y = Some (MkSurfaceKey c id))) →
  (x = y ∨ x = None) →
  Inv_but x s → Inv_but y (update_object c id v s).
Proof.
  intros Hv Hxy (Q & C & P & N & K).
  assert (Inv_but y s) as Hs.
  { split_and!; try done. destruct N as ([S1 S2 S3 S4] & ? & ? & ?). split; [|done].
    split; [done..|]. intros key client w Hk. apply S4. destruct Hxy as [->| ->]; done. }
  revert Hs. apply inv_update_connection. intros client Hc.
  assert (∀ k w, kind_of (cn_registry client) id = Some k → value_of client id = Some w →
    value_matches k w ∧ value_matches k v ∧ value_handle v = value_handle w ∧
      (shows_no_more v w ∨ y = Some (MkSurfaceKey c id))) as Hv'.
  { intros k w Hk Hw. pose proof (client_values _ _ (C c client Hc) id k w Hk Hw). split; [done|].
    apply Hv; [|unfold live_entry; rewrite Hc; exact Hw|done].
    unfold object_kind, live_entry. rewrite Hc. exact Hk. }
  split_and!; [done| |].
  - intros [R1 R2 R3 R4]. split; [by apply set_entry_value_wf| | |done].
    + unfold reg_len in *. cbn [cn_registry set_cn_registry reg_live set_entry_value set_live].
      by rewrite <- size_dom, dom_alter_L, size_dom.
    + intros id' k w. cbn [cn_registry set_cn_registry]. rewrite kind_of_set_entry, value_of_set_entry.
      case_decide as E; [subst|by apply R3]. intros Hk Hw.
      destruct (value_of client id') as [w'|] eqn:Ew; [|done]. injection Hw as <-.
      by apply (Hv' k w').
  - split; [done|..].
    + intros id' _. cbn [cn_registry set_cn_registry]. rewrite kind_of_set_entry. split; [done|].
      rewrite value_of_set_entry. case_decide as E; [subst|done].
      destruct (value_of client id') as [w'|] eqn:Ew; [|done]. cbn.
      destruct (value_of_kind _ _ _ Ew) as [k Hk]. by apply (Hv' k w').
    + intros id' w Hy. rewrite value_of_set_entry. case_decide as E; [subst|eauto].
      destruct (value_of client id') as [w'|] eqn:Ew; [|done]. intros [= <-] Hw. left.
      exists w'. split; [done|].
      destruct (value_of_kind _ _ _ Ew) as [k Hk].
      destruct (Hv' k w' Hk eq_refl) as (_ & _ & _ & [Hsh|Heq]); [by apply Hsh|congruence].
Qed.

Lemma inv_update_object {past : Past} x s c id v :
  (∀ k w, object_kind c id s = Some k → entry_value <$> live_entry c id s = Some w →
     value_matches k w → value_matches k v ∧ value_handle v = value_handle w ∧ shows_no_more v w) →
  Inv_but x s → Inv_but x (update_object c id v s).
Proof.
  intros Hv. apply inv_update_object_but; [|by left]. intros k w Hk Hw Hm.
  destruct (Hv k w Hk Hw Hm) as (? & ? & ?). auto.
Qed.

Lemma reg_allocate_client_values id k v (client : Connection) o r id' :
  reg_allocate_client id k v (cn_registry client) = (o, r) →
  registry_wf (cn_registry client) →
  (kind_of r id' = kind_of (cn_registry client) id' ∧
   value_of (set_cn_registry r client) id' = value_of client id') ∨
  (id' = id ∧ kind_of (cn_registry client) id = None ∧ value_of client id = None ∧
   kind_of r id = Some k ∧ value_of (set_cn_registry r client) id = Some v).
Proof.
  intros E Hwf. destruct o as [[]|e].
  - apply reg_allocate_client_Ok in E as (_ & Hu & ->). unfold kind_of, value_of.
    cbn [reg_live cn_registry set_cn_registry].
    destruct (decide (id = id')) as [<-|]; [right|left; by rewrite !lookup_insert_ne].
    rewrite !lookup_insert_eq. destruct (reg_live (cn_registry client) !! id) eqn:E; [|done].
    destruct (Hwf id); [by eexists|done].
  - apply reg_allocate_client_Err in E as [-> _]. by left.
Qed.

Lemma reg_len_allocate id k v (r : ObjectRegistry Object) :
  reg_len (reg_allocate_client id k v r).2 ≤ reg_len r + 1.
Proof.
  unfold reg_allocate_client, allocate. case_match; [simpl; lia|]. case_bool_decide; simpl; [lia|].
  unfold reg_len. cbn [reg_live]. rewrite map_size_insert. case_match; simpl; lia.
Qed.

Lemma inv_allocate_client {past : Past} x s c id k v :
  value_matches k v → value_shows v = false →
  Inv_but x s → Inv_but x (allocate_client c id k v s).2.
Proof.
  intros Hm Hsh Hs. unfold allocate_client.
  destruct (cs_connections s !! c) as [client|] eqn:Hc; [|done].
  destruct (_ <=? _) eqn:Hl; [done|]. rewrite Z.leb_gt in Hl.
  destruct (reg_allocate_client id k v (cn_registry client)) as [o r] eqn:E.
  destruct Hs as (Q & C & P & N & K). pose proof (C c client Hc) as [R1 R2 R3 R4].
  apply (inv_client x s c client); [done|done| |split; [done|..]|by split_and!].
  - intros _. split; [| |intros id' k' v'|done].
    + change r with ((o, r).2). rewrite <- E. by apply reg_allocate_client_wf.
    + change r with ((o, r).2). rewrite <- E. cbn [cn_registry set_cn_registry].
      pose proof (reg_len_allocate id k v (cn_registry client)). lia.
    + cbn [cn_registry set_cn_registry].
      destruct (reg_allocate_client_values id k v client o r id' E R1)
        as [(-> & ->)|(-> & _ & _ & -> & ->)]; [by apply R3|]. by intros [= <-] [= <-].
  - intros id' Href. cbn [cn_registry set_cn_registry].
    destruct (reg_allocate_client_values id k v client o r id' E R1)
      as [(-> & ->)|(-> & Hn & Hv & _ & _)]; [done|]. exfalso.
    destruct Href as [[h Hh]|[p Hp]].
    + destruct N as (_ & [W _ _] & _). destruct (W h c id Hh) as (_ & cl & Hcl & Hx).
      rewrite Hc in Hcl. injection Hcl as <-. by rewrite Hv in Hx.
    + destruct N as ([_ _ S3 _] & _). destruct (S3 _ p Hp) as (cl & Hcl & Hx). simpl in *.
      rewrite Hc in Hcl. injection Hcl as <-. by rewrite Hn in Hx.
  - intros id' v' _. destruct (reg_allocate_client_values id k v client o r id' E R1)
      as [(_ & ->)|(-> & _ & _ & _ & ->)]; [eauto|]. intros [= <-]. congruence.
Qed.

Lemma inv_session {past : Past} x s c v : Inv_but x s → Inv_but x (update_connection c (set_cn_session v) s).
Proof.
  apply inv_update_connection. intros client _. split_and!; [done|intros []; by split|].
  split; [done|done|]. intros id w _ Hw Hs. left. eauto.
Qed.

Lemma inv_capabilities {past : Past} x s c client caps :
  cs_connections s !! c = Some client →
  (∀ cap, cap_contains caps cap = true → cap_contains (cn_available_capabilities client) cap = true) →
  Inv_but x s →
  Inv_but x (set_cs_connections (<[c := set_cn_capabilities caps client]> (cs_connections s)) s).
Proof.
  intros Hc Hcap. apply (inv_client x s c client); [done|done|intros []; by split|].
  split; [done|done|]. intros id w _ Hw Hs. left. eauto.
Qed.

Lemma inv_retire {past : Past} x s c id :
  Inv_but x s →
  Inv_but x (update_connection c
    (λ client, set_cn_registry (retire id (cn_registry client)).2 client) s).
Proof.
  apply inv_update_connection. intros client _.
  assert (∀ id', kind_of (retire id (cn_registry client)).2 id' = kind_of (cn_registry client) id' ∧
    value_of (set_cn_registry (retire id (cn_registry client)).2 client) id' = value_of client id')
    as Hr by (intros id'; unfold retire; by destruct (reg_live (cn_registry client) !! id)).
  split_and!; [done| |].
  - intros [R1 R2 R3 R4]. split; [by apply retire_wf| | |done].
    + unfold reg_len in *. cbn [cn_registry set_cn_registry]. unfold retire. by case_match.
    + intros id' k v. cbn [cn_registry set_cn_registry].
      rewrite (proj1 (Hr id')), (proj2 (Hr id')). apply R3.
  - split; [unfold retire; by case_match|..].
    + intros id' _. cbn [cn_registry set_cn_registry]. by rewrite (proj1 (Hr id')), (proj2 (Hr id')).
    + intros id' v _. rewrite (proj2 (Hr id')). eauto.
Qed.

(** * Destruction *)

#[export] Instance and_stable I J :
  Teardown_stable I → Teardown_stable J → Teardown_stable (λ s, I s ∧ J s).
Proof.
  intros [I1 I2 I3 I4 I5 I6 I7] [J1 J2 J3 J4 J5 J6 J7]. split.
  - intros s c client o k [??]; eauto.
  - intros s c client [??]; eauto.
  - intros s c client [??]; eauto.
  - intros s [??]; eauto.
  - intros s0 s [??] [??]; eauto.
  - intros s [??]; eauto.
  - intros s x [??]; eauto.
Qed.

Definition unreferenced (c : ConnectionId) (id : ObjectId) (s : CompositorState) : Prop :=
  ¬ referenced c id s.

#[export] Instance unreferenced_stable c id : Teardown_stable (unreferenced c id).
Proof.
  assert (∀ s c', unreferenced c id s → unreferenced c id (forget_connection c' s)) as Hf.
  { intros s c' Hs [[h [Hh _]%btree_retain_Some]|[p [Hp _]%btree_retain_Some]]; apply Hs;
      [left|right]; eauto. }
  split; try done.
  - intros s c' client Hs _. by apply Hf.
  - intros s c' client Hs _ _. by apply (Hf (events_push _ s)).
Qed.

Lemma kind_unreferenced {past : Past} x c id k s :
  Inv_but x s → kind_at_most c id k s → k ≠ KSurface → k ≠ KToplevel → unreferenced c id s.
Proof.
  intros (Q & C & P & N & K) Hk Hs Ht [[h Hh]|[p Hp]].
  - destruct N as (_ & [W _ _] & _). destruct (W h c id Hh) as (_ & cl & Hcl & Hx).
    destruct (value_of cl id) as [v|] eqn:Ev; [|done]. destruct (value_of_kind _ _ _ Ev) as [k' Hk'].
    pose proof (client_values _ _ (C c cl Hcl) id k' v Hk' Ev) as Hm.
    destruct v; try done. simpl in Hm. subst k'.
    unfold kind_at_most, object_kind, live_entry in Hk. rewrite Hcl in Hk. simpl in Hk.
    unfold kind_of in Hk'. rewrite Hk' in Hk. destruct Hk; congruence.
  - destruct N as ([_ _ S3 _] & _). destruct (S3 _ p Hp) as (cl & Hcl & Hx). simpl in *.
    unfold kind_at_most, object_kind, live_entry in Hk. rewrite Hcl in Hk. simpl in Hk.
    unfold kind_of in Hx. rewrite Hx in Hk. destruct Hk; congruence.
Qed.

(** The exemption is over once the surface shows nothing. *)
Lemma inv_exempt_end {past : Past} key s :
  (∀ client v, cs_connections s !! key_connection key = Some client →
     value_of client (key_object key) = Some v → value_shows v = false) →
  Inv_but (Some key) s → Inv s.
Proof.
  intros Hn (Q & C & P & ([S1 S2 S3 S4] & R) & K). split_and!; try done. split; [|done].
  split; [done..|]. intros key' client v _ Hc Hv Hs.
  destruct (decide (key' = key)) as [->|]; [|by apply (S4 key' client v); [congruence|..]].
  rewrite (Hn client v Hc Hv) in Hs. done.
Qed.

Lemma inv_exempt_begin {past : Past} key s : Inv s → Inv_but (Some key) s.
Proof.
  intros (Q & C & P & ([S1 S2 S3 S4] & R) & K). split_and!; try done. split; [|done].
  split; [done..|]. intros key' client v _. by apply S4.
Qed.

Lemma inv_remove {past : Past} c id s client :
  unreferenced c id s → cs_connections s !! c = Some client →
  Inv_but (Some (MkSurfaceKey c id)) s →
  Inv (set_cs_connections
    (<[c := set_cn_registry (reg_remove id (cn_registry client)).2 client]> (cs_connections s)) s).
Proof.
  intros Hu Hc Hs. set (client' := set_cn_registry _ client).
  assert (∀ id', value_of client' id' = if decide (id = id') then None else value_of client id') as Hv.
  { intros id'. unfold value_of, client', reg_remove.
    cbn [cn_registry set_cn_registry reg_live set_live snd].
    case_decide as E; [subst; by rewrite lookup_delete_eq|by rewrite lookup_delete_ne]. }
  apply (inv_exempt_end (MkSurfaceKey c id)).
  - intros cl v. cbn [key_connection key_object cs_connections set_cs_connections].
    rewrite lookup_insert_eq. intros [= <-]. rewrite Hv, decide_True by done. done.
  - apply (inv_client _ s c client); [done|done| |split; [done|..]|done].
    + intros [R1 R2 R3 R4]. split; [by apply reg_remove_wf| | |done].
      * unfold reg_len, client' in *. cbn [cn_registry set_cn_registry reg_remove reg_live set_live snd].
        pose proof (map_subseteq_size _ _ (delete_subseteq (reg_live (cn_registry client)) id)).
        lia.
      * intros id' k v. rewrite Hv. case_decide; [done|]. unfold kind_of, client'.
        cbn [cn_registry set_cn_registry reg_remove reg_live set_live snd].
        rewrite lookup_delete_ne by done. apply R3.
    + intros id' Href. rewrite Hv. destruct (decide (id = id')) as [<-|]; [done|]. split; [|done].
      unfold kind_of, client'. cbn [cn_registry set_cn_registry reg_remove reg_live set_live snd].
      by rewrite lookup_delete_ne.
    + intros id' v _. rewrite Hv. case_decide; [done|eauto].
Qed.

Lemma inv_remove_object {past : Past} c id kind acc :
  unreferenced c id acc.2 → Inv_but (Some (MkSurfaceKey c id)) acc.2 →
  Inv (remove_object c id kind acc).2.
Proof.
  destruct acc as [destroyed s]. cbn [snd]. intros Hu Hs. unfold remove_object.
  destruct (cs_connections s !! c) as [client|] eqn:Hc.
  - cbn [reg_remove]. destruct (reg_live (cn_registry client) !! id) as [e|] eqn:He.
    + cbn [snd]. apply inv_retire, kept_push, kept_push; [apply _..|].
      exact (inv_remove c id s client Hu Hc Hs).
    + cbn [snd]. apply (inv_exempt_end (MkSurfaceKey c id)); [|done]. simpl. intros cl v Hcl.
      rewrite Hc in Hcl. injection Hcl as <-. unfold value_of. by rewrite He.
  - apply (inv_exempt_end (MkSurfaceKey c id)); [|done]. simpl. intros cl v Hcl. congruence.
Qed.

(** Assigning to an object that has just been looked up. *)
Lemma inv_update_known {past : Past} x s c id k w v :
  object c id k s = Ok w → (value_matches k w → value_matches k v) →
  value_handle v = value_handle w → shows_no_more v w →
  Inv_but x s → Inv_but x (update_object c id v s).
Proof.
  intros (e & He & Hk & Hw)%object_Ok Hm Hh Hs. apply inv_update_object. intros k' w'.
  unfold object_kind. rewrite He. cbn. intros [= <-] [= <-] Hm'. rewrite Hw, Hk in *. auto.
Qed.

Lemma surface_object c id s st : surface c id s = Ok st → object c id KSurface s = Ok (OSurface st).
Proof. unfold surface. destruct (object c id KSurface s) as [[]|]; by intros [= ->]. Qed.

Lemma buffer_object c id s b : buffer c id s = Ok b → object c id KBuffer s = Ok (OBuffer b).
Proof. unfold buffer. destruct (object c id KBuffer s) as [[]|]; by intros [= ->]. Qed.

Lemma inv_buffer {past : Past} x s c id b state :
  buffer c id s = Ok b →
  Inv_but x s → Inv_but x (update_object c id (OBuffer (set_bo_state state b)) s).
Proof. intros Hb%buffer_object. by apply (inv_update_known x s c id KBuffer (OBuffer b)). Qed.

Lemma inv_set_buffer_state {past : Past} x c id state : preserves (Inv_but x) (set_buffer_state c id state).
Proof.
  intros s Hs. unfold set_buffer_state. rewrite ST_bind_run. cbn [reads].
  destruct (buffer c id s) as [b|e] eqn:E; [by apply inv_buffer|done].
Qed.

Lemma inv_release_related {past : Past} x key id : kept (Inv_but x) (release_related key id).
Proof.
  intros s Hs. unfold release_related. case_match; [|done]. case_match; [|done].
  by apply kept_push, inv_set_buffer_state; [apply _|].
Qed.

Definition not_placed (key : SurfaceKey) (s : CompositorState) : Prop :=
  scene_positions (cs_scene s) !! key = None.

#[export] Instance not_placed_stable key : Teardown_stable (not_placed key).
Proof.
  assert (∀ s c, not_placed key s → not_placed key (forget_connection c s)) as Hf.
  { intros s c Hs. unfold not_placed. cbn -[btree_retain].
    destruct (btree_retain _ _ !! key) eqn:E; [|done].
    apply btree_retain_Some in E as [E _]. unfold not_placed in Hs. congruence. }
  split; try done; intros; by apply Hf.
Qed.

Lemma inv_unstack {past : Past} key s :
  Inv_but (Some key) s →
  Inv_but (Some key) (set_cs_scene (MkScene (delete key (scene_positions (cs_scene s)))
    (list_retain (λ value, negb (bool_decide (value = key))) (scene_stack (cs_scene s)))) s).
Proof.
  intros (Q & C & P & ([S1 S2 S3 S4] & R) & K). split_and!; try done. split; [|done].
  split; cbn [scene_stack scene_positions cs_scene set_cs_scene cs_connections].
  - by apply list_retain_NoDup.
  - intros k [Hin Hne%negb_true_iff%bool_decide_eq_false]%elem_of_list_retain.
    rewrite lookup_delete_ne by done. auto.
  - intros k p [_ Hp]%lookup_delete_Some. by eapply S3.
  - intros k client v Hne Hc Hv Hs. apply elem_of_list_retain. split; [by eapply S4|].
    apply negb_true_iff, bool_decide_eq_false. congruence.
Qed.

Lemma inv_surface_part {past : Past} key s :
  Inv s →
  Inv_but (Some key) (destroy_surface_part key s) ∧ not_placed key (destroy_surface_part key s).
Proof.
  intros Hs. unfold destroy_surface_part. set (s1 := foldl _ s _).
  assert (Inv s1) as H1 by (by apply (kept_fold Inv (release_related key));
    [intros; apply inv_release_related|]).
  set (s2 := set_cs_scene _ s1).
  assert (Inv_but (Some key) s2 ∧ not_placed key s2) as H2.
  { split; [by apply inv_unstack, inv_exempt_begin|]. unfold not_placed, s2. simpl.
    apply lookup_delete_eq. }
  set (J s := Inv_but (Some key) s ∧ not_placed key s) in *.
  assert (∀ o s, J s → J (set_cs_keyboard_focus o s)) as Hf by (intros o t Ht; exact Ht).
  assert (∀ o s, J s → J (set_cs_pointer_target o s)) as Hp by (intros o t Ht; exact Ht).
  change (J s2) in H2. clearbody s2. clear H1 s1 Hs.
  change (J (let s := if decide (cs_keyboard_focus s2 = Some key)
    then set_cs_keyboard_focus None (push_event (key_connection key) (key_object key) EvKeyboardLeave s2)
    else s2 in if decide (cs_pointer_target s = Some key) then set_cs_pointer_target None s else s)).
  case_decide; cbv zeta; case_decide; try apply Hp; try apply Hf; try done;
    by apply (kept_push J).
Qed.

Lemma inv_buffer_part {past : Past} c id : kept Inv (destroy_buffer_part c id).
Proof.
  intros s. apply inv_update_connection. intros client _. set (client' := set_cn_registry _ client).
  assert (∀ id', kind_of (cn_registry client') id' = kind_of (cn_registry client) id' ∧
    value_of client' id' = forget_buffer id <$> value_of client id') as Hr.
  { intros id'. unfold kind_of, value_of, client'.
    cbn [cn_registry set_cn_registry reg_live set_live]. rewrite lookup_fmap.
    by destruct (reg_live (cn_registry client) !! id'). }
  assert (∀ k v, value_matches k v → value_matches k (forget_buffer id v)) as Hm by (by intros k []).
  assert (∀ v, value_handle (forget_buffer id v) = value_handle v) as Hh by (by intros []).
  assert (∀ v, shows_no_more (forget_buffer id v) v) as Hn.
  { intros [| | | | | | |st| | |] Hv; try done. revert Hv. cbn [forget_buffer].
    set (st' := match ps_attachment (su_pending st) with
                | SetTo b _ => if decide (b = id) then _ else st | _ => st end).
    assert (su_current st' = su_current st) as Est by (unfold st'; repeat case_match; done).
    clearbody st'. cbv zeta. rewrite Est. intros Hv. cbn [value_shows].
    destruct (su_current st) as [cur|]; [done|]. cbn [value_shows] in Hv. by rewrite Est in Hv. }
  split_and!; [done| |split; [done|..]].
  - intros [R1 R2 R3 R4]. split; [| | |done].
    + intros id' Hl. unfold client' in *. cbn [cn_registry set_cn_registry reg_live set_live] in *.
      rewrite lookup_fmap, fmap_is_Some in Hl. by apply R1.
    + unfold reg_len, client' in *. cbn [cn_registry set_cn_registry reg_live set_live].
      by rewrite map_size_fmap.
    + intros id' k v. rewrite (proj1 (Hr id')), (proj2 (Hr id')). intros Hk.
      destruct (value_of client id') as [w|] eqn:Ew; [|done]. intros [= <-]. by eapply Hm, R3.
  - intros id' _. rewrite (proj1 (Hr id')), (proj2 (Hr id')). split; [done|].
    destruct (value_of client id') as [w|]; [exact (Hh w)|done].
  - intros id' v _. rewrite (proj2 (Hr id')).
    destruct (value_of client id') as [w|]; [|done]. intros [= <-] Hv. left. exists w.
    split; [done|by apply Hn].
Qed.

Lemma inv_toplevel_part {past : Past} c id s :
  Inv s → kind_at_most c id KToplevel s →
  Inv (destroy_toplevel_part c id s) ∧ unreferenced c id (destroy_toplevel_part c id s).
Proof.
  intros Hs Hk. assert (not_placed (MkSurfaceKey c id) s) as Hn.
  { unfold not_placed. destruct (scene_positions (cs_scene s) !! _) as [p|] eqn:Hp; [|done].
    destruct Hs as (_ & _ & _ & ([_ _ S3 _] & _) & _). destruct (S3 _ p Hp) as (cl & Hcl & Hx).
    unfold kind_at_most, object_kind, live_entry in Hk. simpl in *. rewrite Hcl in Hk. simpl in Hk.
    unfold kind_of in Hx. rewrite Hx in Hk. destruct Hk; congruence. }
  assert (∀ h, cs_toplevels s !! h = Some (c, id) → toplevel_handle c id s = Some h) as Hw.
  { intros h Hh. destruct Hs as (_ & _ & _ & (_ & [W _ _] & _) & _).
    destruct (W h c id Hh) as (_ & cl & Hcl & Hx). unfold toplevel_handle, live_entry. rewrite Hcl.
    simpl. unfold value_of in Hx. destruct (reg_live (cn_registry cl) !! id) as [e|]; [|done].
    simpl in *. by destruct (entry_value e). }
  unfold destroy_toplevel_part. destruct (toplevel_handle c id s) as [h|] eqn:Eh.
  - apply (kept_tell_shells (λ s, Inv s ∧ unreferenced c id s)). split.
    + destruct Hs as (Q & C & P & (S & [W1 W2 W3] & R) & K).
      refine (conj Q (conj C (conj P (conj (conj S (conj _ R)) K)))).
      split; cbn [cs_toplevels set_cs_toplevels]; [| |done].
      * intros h' c' o [_ Ht]%lookup_delete_Some. by apply W1.
      * intros h' [o [_ Ht]%lookup_delete_Some]. apply W2. by eexists.
    + intros [[h' Hh]|[p Hp]].
      * cbn [cs_toplevels set_cs_toplevels] in Hh. apply lookup_delete_Some in Hh as [Hne Hh]. apply Hw in Hh. congruence.
      * unfold not_placed in Hn. cbn [cs_scene set_cs_toplevels] in Hp. congruence.
  - split; [done|]. intros [[h Hh%Hw]|[p Hp]]; [done|]. unfold not_placed in Hn. congruence.
Qed.

(** Destroying whatever there is at an identifier. *)
Definition inv_acc {past : Past} (f : destroyed_list * CompositorState → destroyed_list * CompositorState) : Prop :=
  ∀ acc, Inv acc.2 → Inv (f acc).2.

Lemma inv_destroy_all {past : Past} destroy c l :
  (∀ c id, inv_acc (destroy c id)) → inv_acc (destroy_all_with destroy c l).
Proof.
  intros Hd. induction l as [|x l IH]; intros acc Ha; [done|]. cbn. apply IH, Hd, Ha.
Qed.

Lemma kinds_destroy_all n c0 id0 k0 c l acc :
  kind_at_most c0 id0 k0 acc.2 → kind_at_most c0 id0 k0 (destroy_all_with (destroy_fuel n) c l acc).2.
Proof.
  revert acc. induction l as [|x l IH]; intros acc Ha; [done|]. cbn. apply IH.
  by apply kinds_destroy_fuel.
Qed.

Lemma inv_destroy_fuel {past : Past} n c id : inv_acc (destroy_fuel n c id).
Proof.
  revert c id. induction n as [|n IH]; intros c id acc Hs; [done|].
  cbn [destroy_fuel]. unfold destroy_object_step. rewrite reg_kind_object_kind.
  destruct (cs_connections acc.2 !! c); [|done].
  destruct (object_kind c id acc.2) as [k|] eqn:Ek; cbn [ok_or]; [|done].
  assert (kind_at_most c id k acc.2) as Hk by (by right).
  assert (∀ a, k ≠ KSurface → k ≠ KToplevel → Inv a.2 → kind_at_most c id k a.2 →
    Inv (remove_object c id k a).2) as Hrem.
  { intros a H1 H2 Ha Hka. apply inv_remove_object; [by eapply kind_unreferenced|].
    by apply inv_exempt_begin. }
  destruct k; repeat (rewrite decide_False by done); rewrite ?(decide_True _ _ eq_refl);
    repeat (rewrite decide_False by done); try by apply Hrem.
  - destruct (inv_toplevel_part c id acc.2 Hs Hk) as [H1 H2].
    apply inv_remove_object; [exact H2|by apply inv_exempt_begin].
  - apply Hrem; [done..|by apply inv_destroy_all|by apply kinds_destroy_all].
  - apply Hrem; [done..|by apply inv_destroy_all|by apply kinds_destroy_all].
  - destruct (inv_surface_part (MkSurfaceKey c id) acc.2 Hs) as [H1 H2].
    apply inv_remove_object; [|done]. cbn [on_state snd].
    assert (kind_at_most c id KSurface (destroy_surface_part (MkSurfaceKey c id) acc.2)) as Hk'
      by (by apply kinds_surface_part).
    intros [[h Hh]|[p Hp]]; [|unfold not_placed in H2; congruence].
    destruct H1 as (_ & C & _ & (_ & [W _ _] & _) & _). destruct (W h c id Hh) as (_ & cl & Hcl & Hx).
    destruct (value_of cl id) as [v|] eqn:Ev; [|done]. destruct (value_of_kind _ _ _ Ev) as [k' Hk2].
    pose proof (client_values _ _ (C c cl Hcl) id k' v Hk2 Ev) as Hm. destruct v; try done.
    simpl in Hm. subst k'. unfold kind_at_most, object_kind, live_entry in Hk'.
    rewrite Hcl in Hk'. simpl in Hk'. unfold kind_of in Hk2. rewrite Hk2 in Hk'.
    destruct Hk'; congruence.
  - apply Hrem; [done..|by apply inv_buffer_part|by apply kinds_buffer_part].
  - apply Hrem; [done..|by apply inv_destroy_all|by apply kinds_destroy_all].
Qed.

Lemma inv_destroy_object {past : Past} c id : kept Inv (λ s, (destroy_object c id s).2).
Proof. intros s Hs. by apply (inv_destroy_fuel _ c id ([], s)). Qed.
