(* ===== verification/Preserved.v ===== *)
(** Every method of the compositor keeps the invariant of [Invariant.v], so that it holds of every
    compositor that can be reached; what that says of a compositor, in the theorems at the end. *)
From S2P Require Import Prelude.
From S2P Require Import BTree.
From S2P Require Import Vocabulary.
From S2P Require Import Interface.
From S2P Require Import Wire.
From S2P Require Import Payloads.
From S2P Require Import Model.
From S2P Require Import Registry.
From S2P Require Import Outputs.
From S2P Require Import State.
From S2P Require Import Queue.
From S2P Require Import Objects.
From S2P Require Import Destruction.
From S2P Require Import Surfaces.
From S2P Require Import Input.
From S2P Require Import Shell.
From S2P Require Import Dispatch.
From S2P Require Import Invariant.

(** * Automation *)

Lemma preserves_bind_Ok {S E A B} (I : S → Prop) (m : ST S E A) (k : A → ST S E B) :
  preserves I m → (∀ a s s', I s → m s = (Ok a, s') → I s' → I (k a s').2) → preserves I (m ≫= k).
Proof.
  intros Hm Hk s Hs. rewrite ST_bind_run. specialize (Hm s Hs).
  destruct (m s) as [[a|e] s'] eqn:Hms; [by eapply Hk|done].
Qed.

Lemma preserves_bind_reads {S E A B} (I : S → Prop) (f : S → result E A) (k : A → ST S E B) :
  (∀ a s, I s → f s = Ok a → I (k a s).2) → preserves I (reads f ≫= k).
Proof.
  intros Hk s Hs. rewrite ST_bind_run. cbn [reads]. destruct (f s) eqn:Hf; [by apply Hk|done].
Qed.

Lemma kept_preserves {E} I (f : CompositorState → CompositorState) :
  kept I f → preserves I (modify f : ST CompositorState E unit).
Proof. intros Hf s Hs. by apply Hf. Qed.

(** Fields the invariant does not read. *)
Lemma inv_free {past : Past} s s' :
  cs_limits s' = cs_limits s → cs_next_connection s' = cs_next_connection s →
  cs_connections s' = cs_connections s → cs_events s' = cs_events s →
  cs_server_limits s' = cs_server_limits s → cs_scene s' = cs_scene s →
  cs_toplevels s' = cs_toplevels s → cs_next_handle s' = cs_next_handle s →
  cs_shortcuts s' = cs_shortcuts s → cs_fields s' = cs_fields s →
  sr_keyboard (cs_seat s') = sr_keyboard (cs_seat s) → cs_composing s' = cs_composing s →
  Inv s → Inv s'.
Proof.
  unfold Inv, Inv_but, named_ok. by intros -> -> -> -> -> -> -> -> -> -> -> ->.
Qed.

Ltac keep_free s := apply (inv_free s); [reflexivity..|].

Create HintDb inv.

Ltac keep_step :=
  match goal with
  | H : Inv ?s |- Inv ?s => exact H
  | |- kept Inv _ => let s := fresh "s" in let H := fresh "Hs" in intros s H
  | |- preserves Inv (mbind _ _) => apply preserves_bind; [|intros ?]
  | |- preserves Inv (reads _) => apply preserves_reads
  | |- preserves Inv (gets _) => apply preserves_gets
  | |- preserves Inv (lift _) => apply preserves_lift
  | |- preserves Inv (throw _) => apply preserves_throw
  | |- preserves Inv (mret _) => apply preserves_ret
  | |- preserves Inv (ST_map_err _ _) => apply preserves_map_err
  | |- preserves Inv (modify _) => apply kept_preserves
  | |- preserves Inv (match ?x with _ => _ end) => destruct x
  | |- Inv (match ?x with _ => _ end) => destruct x
  | |- Inv (push_event _ _ _ _) => apply (kept_push Inv)
  | |- Inv (push_each _ _ _) => apply (kept_push_each Inv)
  | |- Inv (tell_shells _ _) => apply (kept_tell_shells Inv)
  | |- Inv (refresh_composition _) => apply (kept_refresh Inv)
  | |- Inv (close_state _ _) => apply (kept_close Inv)
  | |- Inv (set_cs_server_capabilities _ ?s) => keep_free s
  | |- Inv (set_cs_globals _ ?s) => keep_free s
  | |- Inv (set_cs_next_global _ ?s) => keep_free s
  | |- Inv (set_cs_outputs _ ?s) => keep_free s
  | |- Inv (set_cs_method _ ?s) => keep_free s
  | |- Inv (set_cs_composition _ ?s) => keep_free s
  | |- Inv (set_cs_next_configure _ ?s) => keep_free s
  | |- Inv (set_cs_next_commit _ ?s) => keep_free s
  | |- Inv (set_cs_keyboard_focus _ ?s) => keep_free s
  | |- Inv (set_cs_pointer_target _ ?s) => keep_free s
  | |- Inv (set_seat_pointer _ ?s) => keep_free s
  | |- Inv (set_target _ ?s) => keep_free s
  | |- Inv (set_buttons_held _ ?s) => keep_free s
  | |- Inv (set_shell_grab _ ?s) => keep_free s
  | |- Inv (next_serial ?s) => keep_free s
  | |- Inv (foldl _ ?s _) => apply (kept_fold Inv); [intros ?|]
  | |- _ => solve [eauto with inv nocore]
  end.
(** Everything that is only composed of what keeps the invariant. *)
Ltac keep := repeat (cbn beta zeta; keep_step).

(** * Objects assigned to *)

Lemma surface_mut_inv {past : Past} c id f :
  (∀ st, is_Some (su_current (f st)) → is_Some (su_current st)) → preserves Inv (surface_mut c id f).
Proof.
  intros Hf. unfold surface_mut. apply preserves_bind_reads. intros st s Hs Hst%surface_object.
  apply (inv_update_known None s c id KSurface (OSurface st)); [done..| |done].
  intros Hv%bool_decide_eq_true. apply bool_decide_eq_true. auto.
Qed.

Lemma toplevel_mut_inv {past : Past} c id f :
  (∀ st, tl_handle (f st) = tl_handle st) → preserves Inv (toplevel_mut c id f).
Proof.
  intros Hf. unfold toplevel_mut. apply preserves_bind_reads. intros st s Hs Hst.
  apply inv_update_object; [|done]. intros k w Hk Hw Hm.
  unfold toplevel, connection in Hst. unfold live_entry in Hw.
  destruct (cs_connections s !! c) as [client|]; [|done]. cbn in *. unfold entry in Hst.
  destruct (reg_live (cn_registry client) !! id) as [e|]; [|done]. cbn in *. injection Hw as <-.
  destruct (entry_value e); try done. injection Hst as <-. cbn in *. by rewrite Hf.
Qed.

Lemma set_buffer_state_inv {past : Past} c id state : preserves Inv (set_buffer_state c id state).
Proof. apply inv_set_buffer_state. Qed.

Lemma allocate_client_inv {past : Past} c id k v :
  value_matches k v → value_shows v = false → preserves Inv (allocate_client c id k v).
Proof. intros Hm Hv s Hs. by apply inv_allocate_client. Qed.

Lemma destroy_object_inv {past : Past} c id s : Inv s → Inv (destroy_object c id s).2.
Proof. apply inv_destroy_object. Qed.

#[export] Hint Resolve set_buffer_state_inv destroy_object_inv : inv.
#[export] Hint Extern 2 (preserves Inv (surface_mut _ _ _)) =>
  apply surface_mut_inv; intros st; cbn; exact id : inv.
#[export] Hint Extern 2 (preserves Inv (toplevel_mut _ _ _)) =>
  apply toplevel_mut_inv; reflexivity : inv.
#[export] Hint Extern 2 (preserves Inv (allocate_client _ _ _ _)) =>
  apply allocate_client_inv; [first [exact I|reflexivity]|reflexivity] : inv.

(** * Objects *)

Lemma create_seat_inv {past : Past} c id caps active : preserves Inv (create_seat c id caps active).
Proof. unfold create_seat. keep. Qed.

Lemma create_session_inv {past : Past} c id seat active : preserves Inv (create_session c id seat active).
Proof. unfold create_session. keep. by apply inv_session. Qed.

Lemma create_fence_inv {past : Past} c id : preserves Inv (create_fence c id).
Proof. unfold create_fence. keep. Qed.

Lemma create_input_stream_inv {past : Past} c id : preserves Inv (create_input_stream c id).
Proof. unfold create_input_stream. keep. Qed.

Lemma create_buffer_inv {past : Past} c id pool offset size stride format :
  preserves Inv (create_buffer c id pool offset size stride format).
Proof. unfold create_buffer. keep. Qed.

Lemma import_buffer_inv {past : Past} c id descriptor : preserves Inv (import_buffer c id descriptor).
Proof. unfold import_buffer. keep. Qed.

Lemma create_pool_inv {past : Past} c id memory : preserves Inv (create_pool c id memory).
Proof. unfold create_pool. keep. Qed.

Lemma create_surface_inv {past : Past} c id : preserves Inv (create_surface c id).
Proof. unfold create_surface. keep. Qed.

Lemma set_seat_active_inv {past : Past} c seat active : preserves Inv (set_seat_active c seat active).
Proof.
  unfold set_seat_active. apply preserves_bind_reads. intros o s Hs Ho. destruct o; try done.
  by apply (inv_update_known None s c seat KSeat (OSeat state)).
Qed.

Lemma set_seat_capabilities_inv {past : Past} c seat caps : preserves Inv (set_seat_capabilities c seat caps).
Proof.
  unfold set_seat_capabilities. apply preserves_bind_reads. intros o s Hs Ho. destruct o; try done.
  by apply (inv_update_known None s c seat KSeat (OSeat state)).
Qed.

Lemma signal_fence_inv {past : Past} c fence : preserves Inv (signal_fence c fence).
Proof.
  unfold signal_fence. apply preserves_bind_reads. intros o s Hs Ho. destruct o; try done.
  by apply (inv_update_known None s c fence KFence (OFence state)).
Qed.

#[export] Hint Resolve create_seat_inv create_session_inv create_fence_inv create_input_stream_inv
  create_buffer_inv import_buffer_inv create_pool_inv create_surface_inv set_seat_active_inv
  set_seat_capabilities_inv signal_fence_inv : inv.

(** * The scene *)

Lemma inv_remove_from_stack {past : Past} key s :
  Inv_but (Some key) s → Inv_but (Some key) (remove_from_stack key s).
Proof.
  intros (Q & C & P & ([S1 S2 S3 S4] & R) & K).
  refine (conj Q (conj C (conj P (conj (conj _ R) K)))).
  split; cbn [remove_from_stack scene_stack scene_positions cs_scene set_cs_scene set_scene_stack
    cs_connections].
  - by apply list_retain_NoDup.
  - intros k [Hin _]%elem_of_list_retain. auto.
  - exact S3.
  - intros k client v Hne Hc Hv Hs. apply elem_of_list_retain. split; [by eapply S4|].
    apply negb_true_iff, bool_decide_eq_false. congruence.
Qed.

Lemma not_stacked_after key s : key ∉ scene_stack (cs_scene (remove_from_stack key s)).
Proof.
  cbn. intros [_ H]%elem_of_list_retain. by rewrite bool_decide_eq_true_2 in H.
Qed.

Lemma inv_stacked {past : Past} key s : key ∈ scene_stack (cs_scene s) → Inv_but (Some key) s → Inv s.
Proof.
  intros Hin (Q & C & P & ([S1 S2 S3 S4] & R) & K).
  refine (conj Q (conj C (conj P (conj (conj _ R) K)))). split; [done..|].
  intros k client v _. destruct (decide (k = key)) as [->|]; [done|]. apply S4. congruence.
Qed.

Lemma inv_push_to_stack {past : Past} key s :
  key ∉ scene_stack (cs_scene s) → is_Some (scene_positions (cs_scene s) !! key) →
  Inv_but (Some key) s → Inv (push_to_stack key s).
Proof.
  intros Hn Hp (Q & C & P & ([S1 S2 S3 S4] & R) & K). apply (inv_stacked key).
  { cbn. set_solver. }
  refine (conj Q (conj C (conj P (conj (conj _ R) K)))).
  split; cbn [push_to_stack scene_stack scene_positions cs_scene set_cs_scene set_scene_stack
    cs_connections].
  - apply NoDup_app. split_and!; [done| |apply NoDup_singleton].
    intros k Hk ->%list_elem_of_singleton. done.
  - intros k [Hk| ->%list_elem_of_singleton]%elem_of_app; auto.
  - exact S3.
  - intros k client v Hne Hc Hv Hs. apply elem_of_app. left. by eapply S4.
Qed.

Definition place_at (key : SurfaceKey) (position : Point) (s : CompositorState) : CompositorState :=
  set_cs_scene (set_scene_positions
    (<[ key := position ]> (scene_positions (cs_scene s))) (cs_scene s)) s.

Lemma surface_client c id s st :
  surface c id s = Ok st →
  ∃ client, cs_connections s !! c = Some client ∧ kind_of (cn_registry client) id = Some KSurface ∧
            value_of client id = Some (OSurface st).
Proof.
  intros (e & (client & Hc & He)%live_entry_Some & Hk & Hv)%surface_Ok. exists client.
  unfold kind_of, value_of. rewrite He. cbn. by rewrite Hk, Hv.
Qed.

Lemma inv_place_at {past : Past} x key position s st :
  surface (key_connection key) (key_object key) s = Ok st →
  Inv_but x s → Inv_but x (place_at key position s).
Proof.
  intros (client & Hc & Hk & _)%surface_client (Q & C & P & ([S1 S2 S3 S4] & R) & K).
  refine (conj Q (conj C (conj P (conj (conj _ R) K)))).
  split; cbn [place_at scene_stack scene_positions cs_scene set_cs_scene set_scene_positions
    cs_connections].
  - exact S1.
  - intros k Hin. rewrite lookup_insert_is_Some. destruct (decide (key = k)); auto.
  - intros k p [[<- _]|[_ Hl]]%lookup_insert_Some; [eauto|by eapply S3].
  - exact S4.
Qed.

Lemma inv_map_surface {past : Past} key s st :
  surface (key_connection key) (key_object key) s = Ok st →
  Inv_but (Some key) s → Inv (map_surface key s).
Proof.
  intros Hst Hs. unfold map_surface. case_decide as E; [by eapply inv_stacked|].
  apply inv_push_to_stack; [done|cbn; rewrite lookup_insert_eq; by eexists|].
  by eapply inv_place_at.
Qed.

Lemma place_surface_inv {past : Past} key position : preserves Inv (place_surface key position).
Proof.
  unfold place_surface. apply preserves_bind_reads. intros st s Hs Hst.
  rewrite ST_bind_run. cbn [modify snd]. change (set_cs_scene _ s) with (place_at key position s).
  pose proof (inv_place_at None key position s st Hst Hs) as Hp.
  repeat case_match; try done.
  apply inv_push_to_stack; [done|cbn; rewrite lookup_insert_eq; by eexists|].
  by apply inv_exempt_begin.
Qed.

Lemma snapshot_stacked {past : Past} key s snapshot :
  Inv s → surface_snapshot (key_connection key) (key_object key) s = Some snapshot →
  key ∈ scene_stack (cs_scene s).
Proof.
  intros (_ & _ & _ & ([_ _ _ S4] & _) & _) Hn. unfold surface_snapshot in Hn.
  destruct (surface (key_connection key) (key_object key) s) as [st|] eqn:E; [|done]. cbn in Hn.
  destruct (surface_client _ _ _ _ E) as (client & Hc & _ & Hv). apply (S4 key client _ ltac:(done) Hc Hv).
  cbn. apply bool_decide_eq_true. destruct (su_current st); [by eexists|done].
Qed.

Lemma raise_surface_inv {past : Past} key : preserves Inv (raise_surface key).
Proof.
  unfold raise_surface. apply preserves_bind_reads. intros st s Hs _. cbn [modify snd].
  destruct (surface_snapshot _ _ s) as [sn|] eqn:E; [|done].
  apply inv_push_to_stack; [apply not_stacked_after| |by apply inv_remove_from_stack, inv_exempt_begin].
  pose proof (snapshot_stacked key s sn Hs E) as Hin.
  destruct Hs as (_ & _ & _ & ([_ S2 _ _] & _) & _). exact (S2 key Hin).
Qed.

#[export] Hint Resolve place_surface_inv raise_surface_inv : inv.

(** Content taken away, and the surface with it; content given, and the surface shown. *)
Lemma surface_hidden {past : Past} key :
  preserves Inv (_ ← surface_mut (key_connection key) (key_object key) (set_su_current None);
                 modify (remove_from_stack key)).
Proof.
  unfold surface_mut. intros s Hs. rewrite !ST_bind_run. cbn [reads].
  destruct (surface _ _ s) as [st|] eqn:E; [|done]. cbn [modify snd].
  set (s' := update_object _ _ _ s).
  assert (Inv s') as Hs'.
  { by apply (inv_update_known None s _ _ KSurface (OSurface st));
      [apply surface_object|..]. }
  apply (inv_exempt_end key); [|by apply inv_remove_from_stack, inv_exempt_begin].
  destruct (surface_client _ _ _ _ E) as (client & Hc & _ & Hv). intros cl v.
  change (cs_connections (remove_from_stack key s')) with (cs_connections s').
  unfold s', update_object, update_connection. cbn [cs_connections set_cs_connections].
  rewrite lookup_alter_eq, Hc. cbn. intros [= <-]. rewrite value_of_set_entry.
  rewrite decide_True, Hv by done. by intros [= <-].
Qed.

Lemma surface_shown {past : Past} key cur :
  preserves Inv (_ ← surface_mut (key_connection key) (key_object key) (set_su_current (Some cur));
                 modify (map_surface key)).
Proof.
  unfold surface_mut. intros s Hs. rewrite !ST_bind_run. cbn [reads].
  destruct (surface _ _ s) as [st|] eqn:E; [|done]. cbn [modify snd].
  set (st' := set_su_current _ st).
  assert (surface (key_connection key) (key_object key)
    (update_object (key_connection key) (key_object key) (OSurface st') s) = Ok st') as E'.
  { apply surface_Ok in E as (e & He & Hk & _). apply surface_Ok.
    exists (MkRegistryEntry (entry_kind e) (OSurface st')).
    by rewrite live_entry_update_object, decide_True, He. }
  apply (inv_map_surface key _ st'); [exact E'|].
  apply (inv_update_object_but None); [|by right|exact Hs].
  intros k w. apply surface_Ok in E as (e & He & Hk & Hv). unfold object_kind. rewrite He. cbn.
  intros [= <-] [= <-] _. rewrite Hk, Hv. split_and!; [done|done|]. right. by destruct key.
Qed.

Ltac keep_scene :=
  repeat (cbn beta zeta;
    lazymatch goal with
    | |- preserves Inv (mbind (λ _, modify (map_surface ?key)) _) => exact (surface_shown key _)
    | |- preserves Inv (mbind (λ _, modify (remove_from_stack ?key)) _) => exact (surface_hidden key)
    | |- _ => keep_step
    end).

Lemma attach_inv {past : Past} c id buffer_id offset fence : preserves Inv (attach c id buffer_id offset fence).
Proof. unfold attach. keep. Qed.
Lemma damage_inv {past : Past} c id rect : preserves Inv (damage c id rect).
Proof. unfold damage. keep. Qed.
Lemma detach_inv {past : Past} key : preserves Inv (detach key).
Proof. unfold detach. keep_scene. Qed.
#[export] Hint Resolve attach_inv damage_inv detach_inv : inv.

Lemma commit_inv {past : Past} c id : preserves Inv (commit c id).
Proof. unfold commit. keep_scene. Qed.
Lemma set_role_inv {past : Past} c id role : preserves Inv (set_role c id role).
Proof. unfold set_role. keep. Qed.
Lemma request_frame_inv {past : Past} c id serial : preserves Inv (request_frame c id serial).
Proof. unfold request_frame. keep. Qed.
Lemma set_refresh_range_inv {past : Past} c id lo hi : preserves Inv (set_refresh_range c id lo hi).
Proof. unfold set_refresh_range. keep. Qed.

Lemma release_older_inv {past : Past} key commit l : preserves Inv (release_older key commit l).
Proof. induction l as [|id l IH]; cbn [release_older]; keep. Qed.
#[export] Hint Resolve release_older_inv : inv.

Lemma present_inv {past : Past} key t : preserves Inv (present key t).
Proof.
  unfold present. keep. apply surface_mut_inv. intros st.
  by destruct (su_current st) eqn:E; cbn; [|rewrite E].
Qed.
Lemma release_buffer_inv {past : Past} c id : preserves Inv (release_buffer c id).
Proof. unfold release_buffer. keep. Qed.
Lemma release_buffer_with_fence_inv {past : Past} c id fence : preserves Inv (release_buffer_with_fence c id fence).
Proof. unfold release_buffer_with_fence. keep. Qed.
Lemma set_frame_deadline_inv {past : Past} key d r : preserves Inv (set_frame_deadline key d r).
Proof. unfold set_frame_deadline. keep. Qed.
Lemma record_deadline_miss_inv {past : Past} key : preserves Inv (record_deadline_miss key).
Proof. unfold record_deadline_miss. keep. Qed.
#[export] Hint Resolve commit_inv set_role_inv request_frame_inv set_refresh_range_inv present_inv
  release_buffer_inv release_buffer_with_fence_inv set_frame_deadline_inv
  record_deadline_miss_inv : inv.

(** * Windows *)

Lemma set_title_inv {past : Past} c id title : preserves Inv (set_title c id title).
Proof. unfold set_title. keep. Qed.
Lemma set_min_size_inv {past : Past} c id size : preserves Inv (set_min_size c id size).
Proof. unfold set_min_size. keep. Qed.
Lemma set_max_size_inv {past : Past} c id size : preserves Inv (set_max_size c id size).
Proof. unfold set_max_size. keep. Qed.
Lemma configure_toplevel_inv {past : Past} c id size state : preserves Inv (configure_toplevel c id size state).
Proof. unfold configure_toplevel. keep. Qed.
Lemma close_toplevel_inv {past : Past} c id : preserves Inv (close_toplevel c id).
Proof. unfold close_toplevel. keep. Qed.

Lemma allocate_client_Ok c id k v s s' :
  allocate_client c id k v s = (Ok tt, s') →
  ∃ client client', cs_connections s !! c = Some client ∧
    s' = set_cs_connections (<[c:=client']> (cs_connections s)) s ∧
    kind_of (cn_registry client') id = Some k ∧ value_of client' id = Some v.
Proof.
  unfold allocate_client. destruct (cs_connections s !! c) as [client|] eqn:Hc; [|done].
  case_match; [done|].
  destruct (reg_allocate_client id k v (cn_registry client)) as [o r] eqn:E. intros [= -> <-].
  exists client, (set_cn_registry r client). split_and!; [done|done|..];
    apply reg_allocate_client_Ok in E as (_ & _ & ->); unfold kind_of, value_of;
    cbn [reg_live cn_registry set_cn_registry]; by rewrite lookup_insert_eq.
Qed.

Lemma inv_next_handle {past : Past} s n : cs_next_handle s ≤ n → Inv s → Inv (set_cs_next_handle n s).
Proof.
  intros Hn (Q & C & P & (S & [W1 W2 W3] & R) & K).
  refine (conj Q (conj C (conj P (conj (conj S (conj _ R)) K)))). split; cbn; [|done|lia].
  intros h c o Ht. destruct (W1 h c o Ht) as [Hh ?]. split; [lia|done].
Qed.

Lemma inv_new_window {past : Past} s h c o st client :
  cs_connections s !! c = Some client → value_of client o = Some (OToplevel st) → tl_handle st = h →
  past_handle ≤ toplevel_handle_id h < cs_next_handle s →
  Inv s → Inv (set_cs_toplevels (<[h := (c, o)]> (cs_toplevels s)) s).
Proof.
  intros Hc Hv Hh Hn (Q & C & P & (S & [W1 W2 W3] & R) & K).
  refine (conj Q (conj C (conj P (conj (conj S (conj _ R)) K)))).
  split; cbn [cs_toplevels set_cs_toplevels cs_next_handle]; [..|done].
  - intros h' c' o' [[<- [= <- <-]]|[_ Ht]]%lookup_insert_Some; [|by apply W1]. split; [lia|].
    exists client. split; [done|]. by rewrite Hv; cbn; rewrite Hh.
  - intros h' [<-|[_ Ht]]%lookup_insert_is_Some; [lia|by apply W2].
Qed.

Lemma get_toplevel_inv {past : Past} c surface_id id : preserves Inv (get_toplevel c surface_id id).
Proof.
  unfold get_toplevel. keep_step; [keep|]. keep_step; [keep|]. keep_step; [keep|].
  keep_step; [keep|]. intros s Hs. rewrite ST_bind_run. cbn [gets]. cbv zeta.
  set (n := cs_next_handle s). unfold lift, checked_add. rewrite ST_bind_run.
  destruct (n + 1 <=? u64_max); cbn [ok_or]; [|done]. rewrite ST_bind_run. cbn [modify].
  set (s1 := set_cs_next_handle (n + 1) s).
  assert (Inv s1) as H1 by (apply inv_next_handle; [lia|done]).
  rewrite ST_bind_run. set (st := MkToplevelState _ _ _ _ _ _ _).
  pose proof (inv_allocate_client None s1 c id KToplevel (OToplevel st) eq_refl eq_refl H1) as H2.
  destruct (allocate_client c id KToplevel (OToplevel st) s1) as [[[]|e] s2] eqn:E; [|exact H2].
  apply allocate_client_Ok in E as (client & client' & Hc & -> & _ & Hv).
  rewrite ST_bind_run. cbn [modify snd]. apply (kept_tell_shells Inv).
  eapply (inv_new_window _ _ c id st client'); [|exact Hv|done| |exact H2].
  - cbn. by rewrite lookup_insert_eq.
  - destruct Hs as (_ & _ & _ & (_ & [_ _ W3] & _) & _). cbn. split; [exact W3|lia].
Qed.

#[export] Hint Resolve set_title_inv set_min_size_inv set_max_size_inv configure_toplevel_inv
  close_toplevel_inv get_toplevel_inv : inv.

(** * Input *)

Lemma send_to_keyboards_inv {past : Past} c e s : Inv s → Inv (send_to_keyboards c e s).
Proof. intros Hs. unfold send_to_keyboards. keep. Qed.
Lemma send_to_pointers_inv {past : Past} c e s : Inv s → Inv (send_to_pointers c e s).
Proof. intros Hs. unfold send_to_pointers. keep. Qed.
#[export] Hint Resolve send_to_keyboards_inv send_to_pointers_inv : inv.

Lemma send_pointer_enter_inv {past : Past} key p s : Inv s → Inv (send_pointer_enter key p s).
Proof. intros Hs. unfold send_pointer_enter. apply send_to_pointers_inv. keep. Qed.
Lemma send_pointer_leave_inv {past : Past} key s : Inv s → Inv (send_pointer_leave key s).
Proof. intros Hs. unfold send_pointer_leave. apply send_to_pointers_inv. keep. Qed.
Lemma send_pointer_motion_inv {past : Past} key p t s : Inv s → Inv (send_pointer_motion key p t s).
Proof. intros Hs. unfold send_pointer_motion. apply send_to_pointers_inv. keep. Qed.
#[export] Hint Resolve send_pointer_enter_inv send_pointer_leave_inv send_pointer_motion_inv : inv.

Lemma inv_keyboard {past : Past} k s : keyboard_ok k → Inv s → Inv (set_seat_keyboard k s).
Proof.
  intros Hk (Q & C & P & N & [_ Hm]). refine (conj Q (conj C (conj P (conj N _)))). by split.
Qed.

Lemma inv_composing {past : Past} x s : may_compose x → Inv s → Inv (set_cs_composing x s).
Proof. intros Hx (Q & C & P & N & [K _]). by split_and!. Qed.

Lemma keyboard_empty m : keyboard_ok (MkKeyboardRouting m ∅ ∅).
Proof. by split. Qed.

Lemma to_target_inv {past : Past} t f s :
  (∀ key s, Inv s → Inv (f key s)) → Inv s → Inv (to_target t f s).
Proof. intros Hf Hs. destruct t; cbn; auto. Qed.

Ltac keep_seat :=
  repeat (cbn beta zeta;
    lazymatch goal with
    | |- Inv (to_target _ _ _) => apply to_target_inv; [intros ? ? ?|]
    | |- Inv (send_to_keyboards _ _ _) => apply send_to_keyboards_inv
    | |- Inv (send_to_pointers _ _ _) => apply send_to_pointers_inv
    | |- Inv (send_pointer_enter _ _ _) => apply send_pointer_enter_inv
    | |- Inv (send_pointer_leave _ _) => apply send_pointer_leave_inv
    | |- Inv (send_pointer_motion _ _ _ _) => apply send_pointer_motion_inv
    | |- _ => keep_step
    end).

Lemma reset_input_inv {past : Past} s : Inv s → Inv (reset_input s).
Proof.
  intros Hs. unfold reset_input. cbv zeta. set (s1 := set_shell_grab None _).
  assert (Inv s1) as H1 by (unfold s1; keep_seat).
  set (s2 := match pr_shell_grab _ with Some _ => _ | None => _ end).
  assert (Inv s2) as H2 by (unfold s2; keep_seat).
  set (s3 := set_seat_keyboard _ _).
  assert (Inv s3) as H3 by (apply inv_keyboard; [apply keyboard_empty|keep_seat]).
  by apply (inv_free s3).
Qed.

Lemma move_pointer_inv {past : Past} p t s : Inv s → Inv (move_pointer p t s).
Proof. intros Hs. unfold move_pointer. keep_seat. Qed.

Lemma retarget_inv {past : Past} s : Inv s → Inv (retarget s).
Proof. intros Hs. unfold retarget. keep_seat. Qed.
#[export] Hint Resolve reset_input_inv move_pointer_inv retarget_inv : inv.

Lemma grabbed_button_inv {past : Past} c control pressed s : Inv s → Inv (grabbed_button c control pressed s).
Proof.
  intros Hs. unfold grabbed_button. destruct (negb pressed); cbv zeta; [case_match|]; keep_seat.
  apply retarget_inv. keep_seat.
Qed.

Lemma button_taken_inv {past : Past} target serial pressed s :
  Inv s → Inv (button_taken target serial pressed s).
Proof. intros Hs. unfold button_taken. destruct pressed; cbv zeta; repeat case_match; keep_seat. Qed.

Lemma pointer_button_inv {past : Past} button pressed t s : Inv s → Inv (pointer_button button pressed t s).
Proof.
  intros Hs. unfold pointer_button. cbv zeta. set (s1 := if _ : bool then retarget s else s).
  assert (Inv s1) as H1 by (unfold s1; case_match; [by apply retarget_inv|done]).
  case_match; [case_match; by apply grabbed_button_inv|]. case_match; [|done].
  apply button_taken_inv. keep_seat.
Qed.
#[export] Hint Resolve pointer_button_inv : inv.

(** * Keys *)

Lemma held_after_ok key pressed held held' :
  Z.of_nat (size held) ≤ MAX_HELD_KEYS → held_after key pressed held = Some held' →
  Z.of_nat (size held') ≤ MAX_HELD_KEYS ∧
  held' = (if pressed then {[ key ]} ∪ held else held ∖ {[ key ]}).
Proof.
  unfold held_after. destruct pressed.
  - destruct (_ <? _) eqn:Hl; [|done]. rewrite Z.ltb_lt in Hl. case_bool_decide; [done|].
    intros ? [= <-]. split; [|done]. rewrite size_union, size_singleton; [lia|set_solver].
  - case_bool_decide; [|done]. intros ? [= <-]. split; [|done].
    pose proof (subseteq_size (held ∖ {[key]}) held ltac:(set_solver)). lia.
Qed.

Lemma route_key_inv {past : Past} key pressed t s : Inv s → Inv (route_key key pressed t s).
Proof. intros Hs. unfold route_key. cbv zeta. repeat case_match; keep_seat. Qed.

Lemma key_event_inv {past : Past} key pressed t s : Inv s → Inv (key_event key pressed t s).
Proof.
  intros Hs. unfold key_event. cbv zeta.
  assert (keyboard_ok (keyboard_of s)) as [K1 K2] by (by destruct Hs as (_ & _ & _ & _ & [? _])).
  destruct (held_after key pressed (kr_held (keyboard_of s))) as [held|] eqn:E; [|done].
  destruct (held_after_ok _ _ _ _ K1 E) as [Hsz Hheld].
  set (k := set_kr_modifiers _ _). set (s1 := set_seat_keyboard k s).
  assert (∀ k', set_seat_keyboard k' s1 = set_seat_keyboard k' s) as Hset by reflexivity.
  destruct (if pressed then claimed key s1 else None) as [claim|] eqn:Ec.
  - destruct pressed; [|done]. rewrite Hset. keep. apply inv_keyboard; [|done].
    split; cbn; [done|]. subst held. set_solver.
  - destruct (negb pressed && bool_decide (key ∈ kr_consumed (keyboard_of s))) eqn:Eb.
    + destruct pressed; [done|]. change (kr_consumed k) with (kr_consumed (keyboard_of s)).
      replace (bool_decide (key ∈ kr_consumed (keyboard_of s))) with true by (by destruct bool_decide).
      cbn [negb andb]. rewrite Hset. apply inv_keyboard; [|done]. split; cbn; [done|].
      subst held. set_solver.
    + change (kr_consumed k) with (kr_consumed (keyboard_of s)). rewrite Eb.
      apply route_key_inv, inv_keyboard; [|done]. split; cbn; [done|]. subst held.
      destruct pressed; [set_solver|]. simpl in Eb. apply bool_decide_eq_false in Eb. set_solver.
Qed.

Lemma inv_shortcuts {past : Past} s shortcuts :
  shortcuts_ok (cs_connections s) shortcuts → Inv s → Inv (set_cs_shortcuts shortcuts s).
Proof.
  intros H (Q & C & P & (S & W & _ & F) & K).
  exact (conj Q (conj C (conj P (conj (conj S (conj W (conj H F))) K)))).
Qed.

Lemma inv_fields {past : Past} s fields :
  fields_ok (cs_connections s) fields → Inv s → Inv (set_cs_fields fields s).
Proof.
  intros H (Q & C & P & (S & W & F & _) & K).
  exact (conj Q (conj C (conj P (conj (conj S (conj W (conj F H))) K)))).
Qed.

Lemma Inv_shortcuts {past : Past} s : Inv s → shortcuts_ok (cs_connections s) (cs_shortcuts s).
Proof. by intros (_ & _ & _ & (_ & _ & ? & _) & _). Qed.
Lemma Inv_fields {past : Past} s : Inv s → fields_ok (cs_connections s) (cs_fields s).
Proof. by intros (_ & _ & _ & (_ & _ & _ & ?) & _). Qed.

Lemma expect_kind_connected c id k s : expect_kind c id k s = Ok tt → is_Some (cs_connections s !! c).
Proof.
  unfold expect_kind, object, connection. destruct (cs_connections s !! c); [by eexists|done].
Qed.

Lemma register_shortcut_inv {past : Past} c manager shortcut seat chord :
  preserves Inv (register_shortcut c manager shortcut seat chord).
Proof.
  unfold register_shortcut. apply preserves_bind_reads. intros [] s Hs Hc%expect_kind_connected.
  rewrite ST_bind_run. cbn [gets]. destruct (_ <=? _) eqn:Hl; [done|]. rewrite Z.leb_gt in Hl.
  destruct (cs_shortcuts s !! (seat, chord)) eqn:E; [done|]. cbn [modify snd].
  apply inv_shortcuts; [|done]. destruct (Inv_shortcuts s Hs) as [H1 H2]. split.
  - rewrite map_size_insert, E. cbn. lia.
  - intros k claim [[<- <-]|[_ Hk]]%lookup_insert_Some; [done|by eapply H2].
Qed.

Lemma unregister_shortcut_inv {past : Past} c manager shortcut :
  preserves Inv (unregister_shortcut c manager shortcut).
Proof.
  unfold unregister_shortcut. keep. apply inv_shortcuts; [|done].
  destruct (Inv_shortcuts s Hs) as [H1 H2]. split.
  - etransitivity; [|exact H1]. apply inj_le, btree_retain_size.
  - intros k claim [Hk _]%btree_retain_Some. by eapply H2.
Qed.
#[export] Hint Resolve key_event_inv register_shortcut_inv unregister_shortcut_inv : inv.

(** * Focus and text *)

Lemma set_keyboard_focus_inv {past : Past} focus : preserves Inv (set_keyboard_focus focus).
Proof.
  unfold set_keyboard_focus. keep_step; [keep|]. keep_step; [keep|]. case_match; [keep|].
  repeat (keep_step; [solve [keep; repeat case_match; keep_seat]|]). keep.
Qed.

Lemma set_session_active_inv {past : Past} c session active : preserves Inv (set_session_active c session active).
Proof.
  unfold set_session_active. apply preserves_bind_reads. intros o s Hs Ho. destruct o; try done.
  assert (Inv (update_object c session (OSession (MkSessionState (session_seat state) active)) s))
    as Hs1 by (by apply (inv_update_known None s c session KSession (OSession state))).
  rewrite ST_bind_run. cbn [modify]. revert Hs1. generalize (update_object c session
    (OSession (MkSessionState (session_seat state) active)) s). clear s Hs Ho.
  intros s Hs. destruct active; [done|]. revert s Hs.
  match goal with |- ∀ s, Inv s → Inv (snd (?m s)) => change (preserves Inv m) end. keep.
Qed.

Lemma tell_field_inv {past : Past} composition e s : Inv s → Inv (tell_field composition e s).
Proof. intros Hs. unfold tell_field. repeat case_match; keep. Qed.
#[export] Hint Resolve set_keyboard_focus_inv set_session_active_inv tell_field_inv : inv.

Lemma enable_text_inv {past : Past} c id purpose : preserves Inv (enable_text c id purpose).
Proof.
  unfold enable_text. apply preserves_bind_reads. intros [] s Hs Hc%expect_kind_connected.
  rewrite ST_bind_run. cbn [gets]. destruct (_ <=? _) eqn:Hl; [done|]. rewrite Z.leb_gt in Hl.
  rewrite ST_bind_run. cbn [modify snd]. apply (kept_refresh Inv). apply inv_fields; [|done].
  destruct (Inv_fields s Hs) as [F1 F2]. split.
  - rewrite map_size_insert. case_match; cbn; lia.
  - intros k f [[<- <-]|[_ Hk]]%lookup_insert_Some; [done|by apply F2].
Qed.

Lemma disable_text_inv {past : Past} c id : preserves Inv (disable_text c id).
Proof.
  unfold disable_text. keep. apply inv_fields; [|done]. destruct (Inv_fields s Hs) as [F1 F2]. split.
  - etransitivity; [|exact F1]. apply inj_le, map_subseteq_size, delete_subseteq.
  - intros k f [_ Hk]%lookup_delete_Some. by apply F2.
Qed.

Lemma set_cursor_area_inv {past : Past} c id area : preserves Inv (set_cursor_area c id area).
Proof.
  unfold set_cursor_area. keep_step; [keep|]. keep_step.
  2:{ keep_step. keep_step. pose proof (seat_composing _ _ (proj2 (proj2 (proj2 (proj2 Hs))))) as Hm.
      destruct (cs_composing s) as [f|]; [|done]. case_match; [|done]. by apply inv_composing. }
  keep.
  apply inv_fields; [|done]. destruct (Inv_fields s Hs) as [F1 F2]. split.
  - rewrite <- size_dom, dom_alter_L, size_dom. exact F1.
  - intros k f. rewrite lookup_alter. case_decide as E.
    + destruct (cs_fields s !! k) as [f'|] eqn:Ek; [|by subst; rewrite Ek]. subst. rewrite Ek.
      intros [= <-]. by destruct (F2 _ f' Ek) as (? & ? & ?).
    + intros Hk. by apply F2.
Qed.

Lemma set_preedit_inv {past : Past} c m n text b e : preserves Inv (set_preedit c m n text b e).
Proof. unfold set_preedit. keep. Qed.
Lemma commit_text_inv {past : Past} c m n text : preserves Inv (commit_text c m n text).
Proof. unfold commit_text. keep. Qed.
Lemma text_done_inv {past : Past} c m n serial : preserves Inv (text_done c m n serial).
Proof. unfold text_done. keep. Qed.
#[export] Hint Resolve enable_text_inv disable_text_inv set_cursor_area_inv set_preedit_inv
  commit_text_inv text_done_inv : inv.

(** * The shell and the globals *)

Lemma shell_configure_inv {past : Past} c h size state : preserves Inv (shell_configure c h size state).
Proof. unfold shell_configure. keep. Qed.
Lemma shell_close_inv {past : Past} c h : preserves Inv (shell_close c h).
Proof. unfold shell_close. keep. Qed.
Lemma shell_place_inv {past : Past} c h p : preserves Inv (shell_place c h p).
Proof. unfold shell_place. keep. Qed.
Lemma shell_raise_inv {past : Past} c h : preserves Inv (shell_raise c h).
Proof. unfold shell_raise. keep. Qed.
Lemma shell_focus_inv {past : Past} c seat h : preserves Inv (shell_focus c seat h).
Proof. unfold shell_focus. keep. Qed.
Lemma shell_grab_inv {past : Past} c seat h control : preserves Inv (shell_grab c seat h control).
Proof. unfold shell_grab. keep; keep_seat. Qed.
#[export] Hint Resolve shell_configure_inv shell_close_inv shell_place_inv shell_raise_inv
  shell_focus_inv shell_grab_inv : inv.

Lemma advertise_global_inv {past : Past} kind version s : Inv s → Inv (advertise_global kind version s).2.
Proof. intros Hs. unfold advertise_global. cbv zeta. repeat case_match; cbn [snd]; keep. Qed.
Lemma tell_registries_inv {past : Past} e s : Inv s → Inv (tell_registries e s).
Proof. intros Hs. unfold tell_registries. keep. Qed.
#[export] Hint Resolve advertise_global_inv tell_registries_inv : inv.
Lemma announce_global_inv {past : Past} name s : Inv s → Inv (announce_global name s).
Proof. intros Hs. unfold announce_global. keep. Qed.
Lemma withdraw_global_inv {past : Past} name s : Inv s → Inv (withdraw_global name s).2.
Proof.
  intros Hs. unfold withdraw_global. case_match; [|done]. cbn [snd]. apply tell_registries_inv. keep.
Qed.
Lemma announce_globals_inv {past : Past} c registry s : Inv s → Inv (announce_globals c registry s).
Proof. intros Hs. unfold announce_globals. keep. Qed.
Lemma describe_output_inv {past : Past} c o name s : Inv s → Inv (describe_output c o name s).
Proof. intros Hs. unfold describe_output. keep. Qed.
#[export] Hint Resolve announce_global_inv withdraw_global_inv announce_globals_inv
  describe_output_inv : inv.
Lemma redescribe_output_inv {past : Past} name s : Inv s → Inv (redescribe_output name s).
Proof. intros Hs. unfold redescribe_output. keep. Qed.
#[export] Hint Resolve redescribe_output_inv : inv.
Lemma place_output_inv {past : Past} i p s : Inv s → Inv (place_output i p s).2.
Proof.
  intros Hs. unfold place_output. destruct (OutputSet_place _ _ _) as [placed outputs]. cbv zeta.
  destruct (negb placed); cbn [snd]; [keep|]. case_match; cbn [snd]; [apply redescribe_output_inv|];
    keep.
Qed.

Lemma offer_output_inv {past : Past} version i s : Inv s → Inv (offer_output version s i).
Proof.
  intros Hs. unfold offer_output. case_match; [done|].
  pose proof (advertise_global_inv KOutput version s Hs) as H1.
  destruct (advertise_global KOutput version s) as [[name|] s1]; [|exact H1].
  apply announce_global_inv. keep.
Qed.
Lemma retract_output_inv {past : Past} i s : Inv s → Inv (retract_output s i).
Proof. intros Hs. unfold retract_output. case_match; [by apply withdraw_global_inv|done]. Qed.

Lemma apply_topology_inv {past : Past} present version s : Inv s → Inv (apply_topology present version s).2.
Proof.
  intros Hs. unfold apply_topology. destruct (OutputSet_apply present (cs_outputs s)) as [outputs delta].
  cbv zeta. cbn [snd].
  apply (kept_fold Inv (λ i s, retract_output s i)); [intros i s' ?; by apply retract_output_inv|].
  apply (kept_fold Inv (λ i s, offer_output version s i)); [intros i s' ?; by apply offer_output_inv|].
  keep.
Qed.

Lemma snapshot_for_shell_inv {past : Past} c control s : Inv s → Inv (snapshot_for_shell c control s).
Proof. intros Hs. unfold snapshot_for_shell. keep. Qed.
#[export] Hint Resolve place_output_inv apply_topology_inv snapshot_for_shell_inv : inv.

Lemma seat_bound_inv {past : Past} c id v : 
  preserves Inv (_ ← (allocate_client c id KSeat OGlobal : ST CompositorState StateError unit);
                 modify (update_object c id (OSeat v))).
Proof.
  intros s Hs. rewrite ST_bind_run.
  pose proof (inv_allocate_client None s c id KSeat OGlobal I eq_refl Hs) as H1.
  destruct (allocate_client c id KSeat OGlobal s) as [[[]|e] s1] eqn:E; [|exact H1].
  cbn [modify snd]. apply allocate_client_Ok in E as (client & client' & Hc & -> & Hk & Hv).
  apply inv_update_object; [|exact H1]. intros k w. unfold object_kind.
  rewrite live_entry_insert, decide_True by done. unfold kind_of in Hk. unfold value_of in Hv.
  destruct (reg_live (cn_registry client') !! id) as [e|]; [|done]. cbn in *.
  intros [= <-] [= <-] _. injection Hk as ->. injection Hv as ->. done.
Qed.

Lemma bind_global_inv {past : Past} c name version id : preserves Inv (bind_global c name version id).
Proof.
  unfold bind_global. apply preserves_bind_reads. intros global s Hs _.
  revert s Hs. match goal with |- ∀ s, Inv s → Inv (snd (?m s)) => change (preserves Inv m) end.
  case_match; [keep|]. keep_step; [keep|]. case_match; [keep|].
  keep_step; [keep|]. destruct (decide (gl_kind global = KSeat)) as [E|E].
  - rewrite E. rewrite !decide_False by done. exact (seat_bound_inv c id _).
  - keep.
Qed.

(** * The dispatcher *)

Lemma create_registry_inv {past : Past} c id : preserves Inv (create_registry c id).
Proof. unfold create_registry. keep. Qed.
Lemma get_device_inv {past : Past} kind c seat id : preserves Inv (get_device kind c seat id).
Proof. unfold get_device. keep. Qed.
Lemma destroy_request_inv {past : Past} c id : preserves Inv (destroy_request c id).
Proof. unfold destroy_request. keep. Qed.
#[export] Hint Resolve bind_global_inv create_registry_inv get_device_inv destroy_request_inv : inv.

Lemma dispatch_checked_inv {past : Past} c request : preserves Inv (dispatch_checked c request).
Proof. destruct request; cbn [dispatch_checked]; keep. Qed.

Lemma after_error_inv {past : Past} c error s : Inv s → Inv (after_error c error s).
Proof. intros Hs. unfold after_error. cbv zeta. destruct (error_category error); keep; apply destroy_object_inv; keep. Qed.

Lemma dispatch_inv {past : Past} c request : preserves Inv (dispatch c request).
Proof.
  intros s Hs. unfold dispatch. case_match; [|done].
  pose proof (dispatch_checked_inv c request s Hs) as H1.
  destruct (dispatch_checked c request s) as [[a|e] s1]; [exact H1|by apply after_error_inv].
Qed.
#[export] Hint Resolve dispatch_inv : inv.

(** * Connections *)

Lemma named_new {past : Past} x s c client :
  cs_connections s !! c = None →
  (∀ id v, value_of client id = Some v → value_shows v = false) →
  named_ok x s (cs_connections s) → named_ok x s (<[c:=client]> (cs_connections s)).
Proof.
  intros Hc Hn ([S1 S2 S3 S4] & [W1 W2 W3] & [H1 H2] & [F1 F2]).
  assert (∀ c' cl, cs_connections s !! c' = Some cl → <[c:=client]> (cs_connections s) !! c' = Some cl)
    as Hl by (intros c' cl Hcl; rewrite lookup_insert_ne; congruence).
  assert (∀ c', is_Some (cs_connections s !! c') → is_Some (<[c:=client]> (cs_connections s) !! c'))
    as Hs by (intros c' [cl ?]; exists cl; auto).
  split_and!; [split; [done|done|..]|split; [|done|done]|split; [done|]|split; [done|]].
  - intros key p Hp. destruct (S3 key p Hp) as (cl & ? & ?). exists cl. auto.
  - intros key cl v Hx [[Hk <-]|[_ Hcl]]%lookup_insert_Some Hv Hw; [|by eapply S4].
    by rewrite (Hn _ v Hv) in Hw.
  - intros h c' o Ht. destruct (W1 h c' o Ht) as (? & cl & ? & ?). split; [done|]. exists cl. auto.
  - intros k claim Hk. apply Hs. by eapply H2.
  - intros k f Hk. destruct (F2 k f Hk) as (? & ? & ?). auto.
Qed.

(** What a new connection is granted it also negotiated. *)
Lemma granted_available available grants base cap :
  (∀ cap, cap_contains base cap = true → cap_contains available cap = true) →
  cap_contains (foldl (λ caps c, if cap_contains available c then cap_with caps c else caps)
    base grants) cap = true → cap_contains available cap = true.
Proof.
  revert base. induction grants as [|g grants IH]; intros base Hb; cbn [foldl]; [apply Hb|].
  apply IH. intros cap' Hc. destruct (cap_contains available g) eqn:E; [|by apply Hb].
  rewrite cap_contains_with in Hc. apply orb_true_iff in Hc as [->%bool_decide_eq_true|Hc]; auto.
Qed.

Lemma connect_inv {past : Past} client required :
  past_open = true → preserves Inv (connect client required).
Proof.
  intros Hopen s Hs. unfold connect. cbv zeta. repeat (case_match; [done|]). cbn [snd].
  match goal with H : (max_connections _ <=? _) = false |- _ => rewrite Z.leb_gt in H; rename H into Hl end.
  set (available := cap_with _ BufferImport). set (granted := foldl _ _ _).
  set (id := MkConnectionId (cs_next_connection s)). set (cl := MkConnection _ _ _ _ _).
  destruct Hs as (Q & C & P & N & K). destruct Q as [Q1 Q2 Q3 Q4].
  assert (cs_connections s !! id = None) as Hid.
  { destruct (cs_connections s !! id) eqn:E; [|done].
    pose proof (Q4 id ltac:(left; by eexists)) as Hlt. simpl in Hlt. lia. }
  assert (∀ i v, value_of cl i = Some v → i = ObjectId_DISPLAY ∧ v = ODisplay) as Hv.
  { intros i v. unfold value_of, cl. cbn -[singletonM map_singleton lookup].
    destruct (decide (i = ObjectId_DISPLAY)) as [->|Hne].
    - rewrite lookup_singleton_eq. intros [= <-]. done.
    - by rewrite lookup_singleton_ne. }
  refine (conj _ (conj _ (conj _ (conj _ K)))).
  - cbn [cs_limits cs_next_connection cs_connections cs_events set_cs_connections
      set_cs_next_connection]. split; [done| |done|].
    + intros c client'. intros [[<- <-]|[_ Hc]]%lookup_insert_Some; [|by apply Q2]. cbn.
      pose proof (events_of_nonneg id (cs_events s)).
      destruct (Z.eq_dec (events_of id (cs_events s)) 0) as [->|]; [split; [done|lia]|].
      pose proof (Q4 id ltac:(right; lia)) as Hlt. simpl in Hlt. lia.
    + intros c [Hc|Hc]; [|specialize (Q4 c (or_intror Hc)); lia].
      apply lookup_insert_is_Some in Hc as [<-|[_ Hc]]; [simpl; lia|].
      specialize (Q4 c (or_introl Hc)). lia.
  - apply clients_insert; [done|]. split.
    + apply ObjectRegistry_new_wf.
    + unfold reg_len. cbn -[size]. change (size _) with 1%nat. lia.
    + intros i k v Hk [-> ->]%Hv. unfold kind_of, cl in Hk. cbn -[singletonM map_singleton lookup] in Hk.
      rewrite lookup_singleton_eq in Hk. by injection Hk as <-.
    + intros cap. apply granted_available. intros c. rewrite cap_contains_intersection.
      by intros [? _]%andb_true_iff.
  - destruct P as [P1 P2 P3]. cbn [cs_connections set_cs_connections set_cs_server_limits
      cs_server_limits cs_next_connection set_cs_next_connection]. split; [|..|split; [lia|congruence]].
    + rewrite map_size_insert, Hid. cbn. lia.
    + intros c cl' [[<- <-]|[_ Hcl]]%lookup_insert_Some; [simpl; lia|by apply P2].
  - apply (named_new None s id cl); [done| |exact N]. by intros i v [-> ->]%Hv.
Qed.

Lemma grant_capability_inv {past : Past} c cap : preserves Inv (grant_capability c cap).
Proof.
  unfold grant_capability. apply preserves_bind_reads. intros client s Hs Hc%ok_or_Ok.
  destruct (negb _) eqn:E; [done|]. apply negb_false_iff in E. cbn [modify snd].
  apply inv_update_connection; [|done]. intros cl Hcl. assert (cl = client) as -> by congruence.
  split_and!; [done| |].
  - intros [R1 R2 R3 R4]. split; [done..|]. intros cap'. cbn [cn_capabilities set_cn_capabilities].
    rewrite cap_contains_with. intros [->%bool_decide_eq_true|H]%orb_true_iff; [done|by apply R4].
  - split; [done|done|]. intros id w _ Hw Hsh. left. eauto.
Qed.

Lemma revoke_capability_inv {past : Past} c cap : preserves Inv (revoke_capability c cap).
Proof.
  intros s Hs. unfold revoke_capability. destruct (cs_connections s !! c) as [client|] eqn:Hc; [|done].
  cbv zeta. cbn [snd]. set (s1 := push_event _ _ _ _).
  assert (Inv s1) as H1.
  { apply (kept_push Inv), inv_capabilities; [done| |done]. intros cap'.
    rewrite cap_contains_without. intros [_ H]%andb_true_iff.
    destruct Hs as (_ & C & _). by apply (client_authority _ _ (C c client Hc)). }
  assert (∀ l acc, Inv acc.2 → Inv (foldl (λ acc id,
    if object_requires c id cap acc.2 then destroy_acc c id acc else acc) acc l).2) as Hl.
  { intros l. induction l as [|id l IH]; intros acc Ha; [done|]. cbn [foldl]. apply IH.
    case_match; [by apply inv_destroy_fuel|done]. }
  by apply Hl.
Qed.

(** * Draining *)

Lemma events_of_retain c c' events :
  events_of c (list_retain (λ e, negb (bool_decide (event_connection e = c'))) events) =
  if decide (c = c') then 0 else events_of c events.
Proof.
  unfold events_of, list_retain. rewrite list_filter_filter. case_decide as E.
  - subst. match goal with |- len ?l = 0 => destruct l as [|x l'] eqn:El end; [done|].
    assert (x ∈ x :: l') as Hx by left. rewrite <- El in Hx. apply list_elem_of_filter in Hx.
    destruct Hx as [[H1%bool_decide_eq_true H2%negb_true_iff%bool_decide_eq_false] _]. done.
  - f_equal. apply list_filter_iff. intros x.
    rewrite bool_decide_eq_true, negb_true_iff, bool_decide_eq_false. naive_solver.
Qed.

Lemma inv_drained {past : Past} s events f :
  (∀ c client, cs_connections s !! c = Some client →
     f c client = client ∨ f c client = set_cn_pending_events 0 client) →
  (∀ c client, cs_connections s !! c = Some client →
     cn_pending_events (f c client) = events_of c events) →
  (∀ c, events_of c events ≤ events_of c (cs_events s)) →
  Inv s → Inv (set_cs_connections (map_imap (λ c client, Some (f c client)) (cs_connections s))
    (set_cs_events events s)).
Proof.
  intros Hf Hp He (Q & C & P & (S & [W1 W2 W3] & H & F) & K). destruct Q as [Q1 Q2 Q3 Q4].
  assert (∀ c cl', map_imap (λ c client, Some (f c client)) (cs_connections s) !! c = Some cl' →
    ∃ cl, cs_connections s !! c = Some cl ∧ cl' = f c cl ∧ cn_registry cl' = cn_registry cl ∧
      cn_capabilities cl' = cn_capabilities cl ∧
      cn_available_capabilities cl' = cn_available_capabilities cl) as Hl.
  { intros c cl'. rewrite map_lookup_imap. intros (cl & Hc & [= <-])%bind_Some. exists cl.
    split; [done|]. by destruct (Hf c cl Hc) as [-> | ->]. }
  assert (∀ c cl, cs_connections s !! c = Some cl →
    map_imap (λ c client, Some (f c client)) (cs_connections s) !! c = Some (f c cl) ∧
    cn_registry (f c cl) = cn_registry cl) as Hr.
  { intros c cl Hc. rewrite map_lookup_imap, Hc. split; [done|].
    by destruct (Hf c cl Hc) as [-> | ->]. }
  assert (∀ c, is_Some (cs_connections s !! c) →
    is_Some (map_imap (λ c client, Some (f c client)) (cs_connections s) !! c)) as Hs.
  { intros c [cl Hc]. exists (f c cl). by apply Hr. }
  refine (conj _ (conj _ (conj _ (conj (conj _ (conj _ (conj _ _))) K)))).
  - split; cbn [cs_limits cs_next_connection cs_connections cs_events set_cs_connections
      set_cs_events]; [done|..].
    + intros c cl' (cl & Hc & -> & _)%Hl. split; [by apply Hp|].
      destruct (Q2 c cl Hc). specialize (He c). lia.
    + intros c. specialize (He c). specialize (Q3 c). lia.
    + intros c [[cl' (cl & Hc & _)%Hl]|Hc]; apply Q4; [left; by eexists|right].
      specialize (He c). lia.
  - intros c cl' (cl & Hc & -> & H1 & H2 & H3)%Hl. destruct (C c cl Hc) as [R1 R2 R3 R4].
    unfold set_cs_events, cs_limits. split; [by rewrite H1|by rewrite H1| |by rewrite H2, H3].
    intros id k v. unfold value_of. rewrite H1. apply R3.
  - destruct P as [P1 P2 P3].
    split; cbn [cs_connections set_cs_connections cs_server_limits cs_next_connection set_cs_events];
      [| |done].
    + etransitivity; [|exact P1]. apply inj_le. rewrite <- !size_dom. apply subseteq_size.
      intros c (cl' & (cl & Hc & _)%Hl)%elem_of_dom. apply elem_of_dom. by eexists.
    + intros c cl' (cl & Hc & _ & _ & _ & ->)%Hl. by apply P2.
  - destruct S as [S1 S2 S3 S4]. split; [done|done|..].
    + intros key p Hk. destruct (S3 key p Hk) as (cl & Hc & Hkind).
      exists (f (key_connection key) cl). destruct (Hr _ cl Hc) as [H1 H2]. split; [done|].
      by rewrite H2.
    + intros key cl' v Hx (cl & Hc & -> & H1 & _)%Hl Hv. apply (S4 key cl v Hx Hc).
      unfold value_of in *. by rewrite <- H1.
  - split; [|done|done]. intros h c o Ht. destruct (W1 h c o Ht) as (Hn & cl & Hc & Hv).
    split; [done|]. exists (f c cl). destruct (Hr c cl Hc) as [H1 H2]. split; [done|]. unfold value_of in *.
    by rewrite H2.
  - destruct H as [H1 H2]. split; [done|]. intros k claim Hk. apply Hs. by eapply H2.
  - destruct F as [F1 F2]. split; [done|]. intros k fl Hk. destruct (F2 k fl Hk) as (? & ? & ?). auto.
Qed.

Lemma take_events_inv {past : Past} s : Inv s → Inv (take_events s).2.
Proof.
  intros Hs. unfold take_events. cbn [snd].
  pose proof (inv_drained s [] (λ _ client, set_cn_pending_events 0 client)) as Hd.
  replace (set_cn_pending_events 0 <$> cs_connections s) with
    (map_imap (λ _ client, Some (set_cn_pending_events 0 client)) (cs_connections s)).
  - apply Hd; [by right|done| |done]. intros c. apply events_of_nonneg.
  - apply map_eq. intros c. rewrite map_lookup_imap, lookup_fmap.
    by destruct (cs_connections s !! c).
Qed.

Lemma take_events_for_inv {past : Past} c s : Inv s → Inv (take_events_for c s).2.
Proof.
  intros Hs. unfold take_events_for. cbn [snd].
  pose proof (inv_drained s
    (list_retain (λ e, negb (bool_decide (event_connection e = c))) (cs_events s))
    (λ c' client, if decide (c' = c) then set_cn_pending_events 0 client else client)) as Hd.
  unfold update_connection. cbn [cs_connections set_cs_events].
  replace (alter (set_cn_pending_events 0) c (cs_connections s)) with
    (map_imap (λ c' client, Some (if decide (c' = c) then set_cn_pending_events 0 client else client))
      (cs_connections s)).
  - apply Hd; [| | |done].
    + intros c' client _. case_decide; auto.
    + intros c' client Hc. rewrite events_of_retain. case_decide; [done|].
      destruct Hs as ([_ Q2 _ _] & _). by apply Q2.
    + intros c'. rewrite events_of_retain. case_decide; [apply events_of_nonneg|lia].
  - apply map_eq. intros c'. rewrite map_lookup_imap. destruct (decide (c = c')) as [<-|].
    + rewrite lookup_alter_eq. destruct (cs_connections s !! c); [|done]. cbn.
      by rewrite decide_True.
    + rewrite lookup_alter_ne by done. destruct (cs_connections s !! c'); [|done]. cbn.
      by rewrite decide_False.
Qed.
#[export] Hint Resolve connect_inv grant_capability_inv revoke_capability_inv take_events_inv
  take_events_for_inv : inv.

(** * Every call, and every compositor there can be *)

(** Whether a call admits somebody. *)
Definition admits (x : Call) : bool := match x with CallConnect _ _ => true | _ => false end.

Lemma call_inv {past : Past} x : (admits x = true → past_open = true) → kept Inv (call x).
Proof.
  intros Hopen. destruct x; cbn [call]; unfold run; intros s Hs;
    try (match goal with |- Inv (snd (?m ?s)) =>
           let H := fresh in assert (preserves Inv m) as H by eauto with inv nocore; exact (H s Hs) end);
    eauto with inv nocore.
  - apply connect_inv; [by apply Hopen|done].
  - by apply (kept_close Inv).
Qed.

(** Before anything was issued. *)
Definition no_past : Past := MkPast 1 ∅ 1 ∅ true.

(** This moment, as the past of what follows, when somebody may be admitted from now on or not. *)
Definition past_at (open : bool) (s : CompositorState) : Past :=
  MkPast (cs_next_handle s) (dom (cs_toplevels s)) (cs_next_connection s)
    (cn_available_capabilities <$> cs_connections s) open.
Definition past_of : CompositorState → Past := past_at true.

Lemma new_inv caps server_limits limits :
  limits_ok server_limits limits → Inv (past := no_past) (CompositorState_new caps server_limits limits).
Proof.
  intros [L1 L2]. refine (conj _ (conj _ (conj _ (conj (conj _ (conj _ (conj _ _))) _)))).
  - split; cbn; [done| |intros c; change (events_of c []) with 0; lia|].
    + intros c client. by rewrite lookup_empty.
    + intros c. change (events_of c []) with 0. rewrite lookup_empty. intros [[? ?]|]; [done|lia].
  - intros c client. cbn. by rewrite lookup_empty.
  - split; cbn; [rewrite map_size_empty; lia| |by split]. intros c client. by rewrite lookup_empty.
  - split; cbn; [apply NoDup_nil_2|by intros key ?%elem_of_nil| |].
    + intros key p. by rewrite lookup_empty.
    + intros key client v _. by rewrite lookup_empty.
  - split; cbn; [| |lia]; intros h; [intros c o; by rewrite lookup_empty|].
    intros [o Ho]. by rewrite lookup_empty in Ho.
  - split; cbn; [by rewrite map_size_empty|]. intros k claim. by rewrite lookup_empty.
  - split; cbn; [by rewrite map_size_empty|]. intros k f. by rewrite lookup_empty.
  - by split.
Qed.

Lemma reachable_inv s : reachable s → Inv (past := no_past) s.
Proof. apply reachable_invariant; [exact new_inv|]. intros x. by apply call_inv. Qed.

(** The invariant, from any moment on. *)
Lemma inv_now {past : Past} open s : Inv s → Inv (past := past_at open s) s.
Proof.
  intros (Q & C & [P1 P2 P3] & (S & [W1 W2 W3] & R) & K).
  refine (conj Q (conj C (conj _ (conj (conj S (conj _ R)) K)))).
  - split; [done| |done]. intros c client Hc _. cbn. by rewrite lookup_fmap, Hc.
  - split; [done| |done]. intros h Hh _. by apply elem_of_dom.
Qed.

Lemma calls_inv {past : Past} l s :
  (past_open = true ∨ Forall (λ x, admits x = false) l) → Inv s → Inv (calls l s).
Proof.
  revert s. induction l as [|x l IH]; intros s Hl Hs; [done|]. cbn. apply IH.
  - destruct Hl as [|[_ ?]%Forall_cons]; auto.
  - apply call_inv; [|done]. intros Hx. destruct Hl as [|[? _]%Forall_cons]; congruence.
Qed.

Lemma reachable_calls_inv s l : reachable s → Inv (past := past_of s) (calls l s).
Proof. intros Hs%reachable_inv. eapply calls_inv, inv_now, Hs. by left. Qed.

(** Nobody new, and nobody who was not there: what calls that admit nobody lead to. *)
Lemma calls_admit_nobody s l c client' :
  reachable s → Forall (λ x, admits x = false) l → cs_connections (calls l s) !! c = Some client' →
  ∃ client, cs_connections s !! c = Some client ∧
    cn_available_capabilities client' = cn_available_capabilities client.
Proof.
  intros Hs%reachable_inv Hl Hc.
  pose proof (calls_inv (past := past_at false s) l s (or_intror Hl) (inv_now false s Hs)) as Hi.
  destruct Hi as ([_ _ _ Q4] & _ & [_ P2 P3] & _).
  destruct P3 as [_ P3]. specialize (P3 eq_refl). cbn in P3.
  pose proof (Q4 c (or_introl (ex_intro _ _ Hc))) as Hlt. rewrite P3 in Hlt.
  specialize (P2 c client' Hc Hlt). cbn in P2. rewrite lookup_fmap in P2.
  destruct (cs_connections s !! c) as [client|]; [|done]. injection P2 as P2. by exists client.
Qed.

(** What comes of a compositor by calls that admit nobody: how everything that is not the admission
    of a client reaches it. *)
Definition onward (s s' : CompositorState) : Prop :=
  ∃ l, Forall (λ x, admits x = false) l ∧ s' = calls l s.

Lemma onward_refl s : onward s s.
Proof. by exists []. Qed.

Lemma onward_call x s s' : admits x = false → onward s s' → onward s (call x s').
Proof.
  intros Hx (l & Hl & ->). exists (l ++ [x]). split; [|by unfold calls; rewrite foldl_app].
  apply Forall_app_2; [done|]. by constructor.
Qed.

Lemma onward_trans s s' s'' : onward s s' → onward s' s'' → onward s s''.
Proof.
  intros (l & Hl & ->) (l' & Hl' & ->). exists (l ++ l'). split; [by apply Forall_app_2|].
  unfold calls. by rewrite foldl_app.
Qed.

Lemma onward_reachable s s' : reachable s → onward s s' → reachable s'.
Proof. intros Hs (l & _ & ->). by apply reachable_calls. Qed.

Lemma onward_client s s' c client' :
  reachable s → onward s s' → cs_connections s' !! c = Some client' →
  ∃ client, cs_connections s !! c = Some client ∧
    cn_available_capabilities client' = cn_available_capabilities client.
Proof. intros Hs (l & Hl & ->). by apply calls_admit_nobody. Qed.
