(* ===== verification/Desk.v ===== *)
(** A desktop somebody sits at: a run of calls that brings a compositor to where an application
    shows a window and edits text, a shell arranges windows, a holder has claimed a chord and an
    input method composes. The theorems about reachable compositors are applied to it. *)
From S2P Require Import Prelude.
From S2P Require Import BTree.
From S2P Require Import Vocabulary.
From S2P Require Import Interface.
From S2P Require Import Wire.
From S2P Require Import Payloads.
From S2P Require Import Model.
From S2P Require Import Registry.
From S2P Require Import Outputs.
From S2P Require Import State.
From S2P Require Import Queue.
From S2P Require Import Objects.
From S2P Require Import Surfaces.
From S2P Require Import Input.
From S2P Require Import Shell.
From S2P Require Import Dispatch.

Definition everything : CapabilitySet := MkCapabilitySet (2 ^ 20 - 1).
Definition fresh : CompositorState :=
  CompositorState_new everything ServerLimits_default ConnectionLimits_default.

Definition APP : ConnectionId := MkConnectionId 1.
Definition SHELL : ConnectionId := MkConnectionId 2.

Definition app_requests : list ClientRequest :=
  [ RqCreateSurface (MkObjectId 3);
    RqCreatePool (MkObjectId 4) (MkSharedMem 0 65536);
    RqCreateBuffer (MkObjectId 5) (MkObjectId 4) 0 (MkSize 100 100) 400 FORMAT_XRGB8888;
    RqCreateBuffer (MkObjectId 6) (MkObjectId 4) 0 (MkSize 100 100) 400 FORMAT_XRGB8888;
    RqGetToplevel (MkObjectId 3) (MkObjectId 7);
    RqAttach (MkObjectId 3) (MkObjectId 5) Point_default None;
    RqCommit (MkObjectId 3);
    RqBind 1 1 (MkObjectId 8);
    RqGetPointer (MkObjectId 8) (MkObjectId 9);
    RqGetKeyboard (MkObjectId 8) (MkObjectId 10);
    RqBind 4 1 (MkObjectId 11) ].

(** The key [Meta] and [Q], wherever [Meta] is. *)
Definition META_Q : Chord := MkChord (MkPhysicalKey Usage.Q) MOD_META Exact.

Definition shell_requests : list ClientRequest :=
  [ RqBind 2 1 (MkObjectId 2); RqBind 3 1 (MkObjectId 3);
    RqRegisterShortcut (MkObjectId 3) 7 SEAT_ONE META_Q ].

Definition opening : list Call :=
  [ CallAdvertiseGlobal KSeat 1; CallAdvertiseGlobal KShellControl 1;
    CallAdvertiseGlobal KShortcuts 1; CallAdvertiseGlobal KTextInput 1;
    CallAdvertiseGlobal KInputMethod 1;
    CallConnect everything CapabilitySet_empty; CallConnect everything CapabilitySet_empty;
    CallGrant SHELL ShellControlCap; CallGrant SHELL ShortcutControl; CallGrant SHELL InputMethodCap;
    CallCreateSession APP (MkObjectId 2) None true ].

Definition desk_calls : list Call :=
  opening ++ (CallDispatch APP <$> app_requests) ++ (CallDispatch SHELL <$> shell_requests).

Definition desk : CompositorState := calls desk_calls fresh.

(** Both clients have heard everything so far. *)
Definition quiet_desk : CompositorState := (take_events desk).2.

Definition APP_WINDOW : SurfaceKey := MkSurfaceKey APP (MkObjectId 3).

Lemma fresh_reachable : reachable fresh.
Proof. apply reachable_new. by split. Qed.
Lemma desk_reachable : reachable desk.
Proof. apply reachable_calls, fresh_reachable. Qed.
Lemma quiet_desk_reachable : reachable quiet_desk.
Proof. exact (reachable_call CallTakeEvents desk desk_reachable). Qed.
