(* ===== verification/Guarantees.v ===== *)
(** What may be relied on of any compositor that can be reached: the bounds on its queues and tables,
    the agreement of its scene with its objects, the handles it has issued and the authority it has
    handed out. Each theorem reads its part of the invariant ([Preserved.reachable_inv]). *)
From S2P Require Import Prelude.
From S2P Require Import BTree.
From S2P Require Import Vocabulary.
From S2P Require Import Interface.
From S2P Require Import Wire.
From S2P Require Import Payloads.
From S2P Require Import Model.
From S2P Require Import Registry.
From S2P Require Import Outputs.
From S2P Require Import State.
From S2P Require Import Queue.
From S2P Require Import Objects.
From S2P Require Import Destruction.
From S2P Require Import Surfaces.
From S2P Require Import Input.
From S2P Require Import Shell.
From S2P Require Import Dispatch.
From S2P Require Import Invariant.
From S2P Require Import Preserved.
From S2P Require Import Desk.

(** * Queues and tables *)

(** C2. No client can make the compositor queue without bound: in every reachable compositor a
    connection's counter is exactly the number of events queued for it and never more than the
    limit, and a connection that is gone has at most one event more than the limit waiting, the
    error that says why it was closed. *)
Theorem queues_bounded (s : CompositorState) (Hs : reachable s) :
  (∀ c client, cs_connections s !! c = Some client →
     cn_pending_events client = events_of c (cs_events s) ∧
     cn_pending_events client ≤ max_pending_events (cs_limits s)) ∧
  ∀ c, events_of c (cs_events s) ≤ max_pending_events (cs_limits s) + 1.
Proof.
  destruct (reachable_inv s Hs) as ([Q1 Q2 Q3 Q4] & _). split; [|exact Q3].
  intros c client Hc. destruct (Q2 c client Hc). split; [done|lia].
Qed.

Lemma queues_bounded_witness :
  events_of SHELL (cs_events desk) = 3 ∧
  ∀ c, events_of c (cs_events desk) ≤ max_pending_events (cs_limits desk) + 1.
Proof.
  split; [vm_compute; reflexivity|]. exact (proj2 (queues_bounded desk desk_reachable)).
Defined.

(** C32. Five tables that clients and hardware fill are bounded, in every state there can be: the
    connections, the live objects of each connection (the display is there whatever the quota), the
    claimed chords, the text fields and the held keys, of which the swallowed ones are some; and
    whoever a claim or a field names is connected. (Not everything is bounded: the order of creation
    that a registry remembers grows with every object ever made, [creation_order_unbounded].) *)
Theorem tables_bounded (s : CompositorState) (Hs : reachable s) :
  Z.of_nat (size (cs_connections s)) ≤ max_connections (cs_server_limits s) ∧
  (∀ c client, cs_connections s !! c = Some client →
     reg_len (cn_registry client) ≤ Z.max 1 (max_objects (cs_limits s))) ∧
  Z.of_nat (size (cs_shortcuts s)) ≤ MAX_SHORTCUTS ∧
  (∀ k claim, cs_shortcuts s !! k = Some claim → is_connected (sc_holder claim) s = true) ∧
  Z.of_nat (size (cs_fields s)) ≤ MAX_TEXT_FIELDS ∧
  (∀ k f, cs_fields s !! k = Some f →
     tf_connection f = k.1 ∧ tf_object f = k.2 ∧ is_connected (tf_connection f) s = true) ∧
  Z.of_nat (size (kr_held (keyboard_of s))) ≤ MAX_HELD_KEYS ∧
  kr_consumed (keyboard_of s) ⊆ kr_held (keyboard_of s).
Proof.
  destruct (reachable_inv s Hs) as (_ & C & [P _ _] & (_ & _ & [H1 H2] & [F1 F2]) & [[K1 K2] _]).
  split_and!; try done.
  - intros c client Hc. by destruct (C c client Hc).
  - intros k claim Hk. apply bool_decide_eq_true. by eapply H2.
  - intros k f Hk. destruct (F2 k f Hk) as (-> & -> & ?). split_and!; [done|done|].
    by apply bool_decide_eq_true.
Qed.

Lemma tables_bounded_witness :
  size (cs_shortcuts desk) = 1%nat ∧
  Z.of_nat (size (cs_connections desk)) ≤ max_connections (cs_server_limits desk).
Proof.
  split; [vm_compute; reflexivity|]. exact (proj1 (tables_bounded desk desk_reachable)).
Defined.

(** * The scene *)

Lemma first_fault_Err f keys fault :
  first_fault f keys = Err fault → ∃ key, key ∈ keys ∧ f key = Some fault.
Proof.
  induction keys as [|key keys IH]; [done|]. cbn. destruct (f key) eqn:E.
  - intros [= <-]. exists key. split; [left|done].
  - intros (k & ? & ?)%IH. exists k. split; [by right|done].
Qed.

Lemma scene_fault_of s fault :
  scene_faults s = Err fault →
  (∃ key, key ∈ scene_stack (cs_scene s) ∧ stack_fault s key = Some fault) ∨
  (∃ key, is_Some (scene_positions (cs_scene s) !! key) ∧ position_fault s key = Some fault).
Proof.
  unfold scene_faults. destruct (first_fault (stack_fault s) _) as [[]|e] eqn:E; cbn; intros H.
  - right. apply first_fault_Err in H as (key & Hk & Hf). exists key.
    by rewrite <- elem_of_btree_keys.
  - left. injection H as <-. by apply first_fault_Err in E.
Qed.

(** C1. The scene agrees with the objects behind it: in every reachable compositor no surface is
    stacked twice, every surface with content is stacked, everything placed is a live surface, and
    the self-check answers that all is well or that a stacked surface has no content, no other
    fault being possible. *)
Theorem scene_agrees (s : CompositorState) (Hs : reachable s) :
  NoDup (scene_stack (cs_scene s)) ∧
  (∀ key, is_Some (surface_snapshot (key_connection key) (key_object key) s) →
     key ∈ scene_stack (cs_scene s)) ∧
  (∀ key, is_Some (surface_position key s) →
     object_kind (key_connection key) (key_object key) s = Some KSurface) ∧
  (scene_faults s = Ok tt ∨
   ∃ key, scene_faults s = Err (NoContent key) ∧ key ∈ scene_stack (cs_scene s)).
Proof.
  pose proof (reachable_inv s Hs) as Hi. pose proof Hi as (_ & _ & _ & ([S1 S2 S3 S4] & _) & _).
  assert (∀ key, is_Some (scene_positions (cs_scene s) !! key) → ∃ client,
    cs_connections s !! key_connection key = Some client ∧
    kind_of (cn_registry client) (key_object key) = Some KSurface) as Hp
    by (intros key [p Hp]; by eapply S3).
  split_and!; [done| | |].
  - intros key [snap Hsn]. exact (snapshot_stacked (past := no_past) key s snap Hi Hsn).
  - intros key (client & Hc & Hk)%Hp. unfold object_kind, live_entry. by rewrite Hc.
  - destruct (scene_faults s) as [[]|fault] eqn:E; [by left|]. right.
    apply scene_fault_of in E as [(key & Hin & Hf)|(key & Hk & Hf)].
    + pose proof (S2 key Hin) as Hpos. destruct (Hp key Hpos) as (client & Hc & Hk).
      unfold stack_fault in Hf. rewrite Hc, Hk in Hf. destruct Hpos as [p Hpos]. rewrite Hpos in Hf.
      destruct (surface_snapshot _ _ s); [done|]. injection Hf as <-. by exists key.
    + destruct (Hp key Hk) as (client & Hc & _). unfold position_fault in Hf. by rewrite Hc in Hf.
Qed.

Lemma scene_agrees_witness :
  scene_faults desk = Ok tt ∧ NoDup (scene_stack (cs_scene desk)).
Proof.
  split; [vm_compute; reflexivity|]. exact (proj1 (scene_agrees desk desk_reachable)).
Defined.

(** The client destroys the buffer the compositor holds: the request is refused, and the refusal
    destroys the buffer. *)
Definition buffer_destroyed : CompositorState :=
  call (CallDispatch APP (RqDestroy (MkObjectId 5))) desk.

(** The self-check can fail: a client that destroys a buffer the compositor holds is refused,
    the refusal destroys the buffer all the same, and the surface stays on the stack with nothing
    to show, which the check reports and its documentation rules out. *)
Theorem held_buffer_destroyed_fault :
  reachable buffer_destroyed ∧
  (dispatch APP (RqDestroy (MkObjectId 5)) desk).1 = Err (InvalidState (MkObjectId 5)) ∧
  object_kind APP (MkObjectId 5) buffer_destroyed = None ∧
  scene_faults buffer_destroyed = Err (NoContent APP_WINDOW).
Proof.
  split; [apply (reachable_call _ desk), desk_reachable|].
  split_and!; vm_compute; reflexivity.
Qed.

(** * Windows and their handles *)

(** C30. A handle the compositor knows names one live window: in every reachable compositor it
    belongs to a connected client, to a live toplevel that carries the same handle, no two handles
    name the same window, and every one was issued by the counter. *)
Theorem handles_name_windows (s : CompositorState) (Hs : reachable s) (h : ToplevelHandle)
    (c : ConnectionId) (o : ObjectId) (Hh : cs_toplevels s !! h = Some (c, o)) :
  object_kind c o s = Some KToplevel ∧ toplevel_handle c o s = Some h ∧
  toplevel_handle_id h < cs_next_handle s ∧
  ∀ h', cs_toplevels s !! h' = Some (c, o) → h' = h.
Proof.
  destruct (reachable_inv s Hs) as (_ & C & _ & (_ & [W _ _] & _) & _).
  assert (∀ h, cs_toplevels s !! h = Some (c, o) → toplevel_handle c o s = Some h ∧
    object_kind c o s = Some KToplevel) as Hw.
  { intros h' Hh'. destruct (W h' c o Hh') as (_ & client & Hc & Hv).
    destruct (value_of client o) as [v|] eqn:Ev; [|done]. destruct (value_of_kind _ _ _ Ev) as [k Hk].
    pose proof (client_values _ _ (C c client Hc) o k v Hk Ev) as Hm.
    unfold toplevel_handle, object_kind, live_entry. rewrite Hc. unfold value_of in Ev.
    unfold kind_of in Hk. cbn in *. destruct (reg_live (cn_registry client) !! o) as [e|]; [|done].
    cbn in *. injection Hk as <-. injection Ev as <-. destruct (entry_value e); try done.
    cbn in *. by rewrite Hm. }
  destruct (Hw h Hh) as [H1 H2]. destruct (W h c o Hh) as [Hn _]. split_and!; [done..|].
  intros h' Hh'. destruct (Hw h' Hh'). congruence.
Qed.

Lemma handles_name_windows_witness :
  toplevel_handle APP (MkObjectId 7) desk = Some (MkToplevelHandle 1).
Proof.
  exact (proj1 (proj2 (handles_name_windows desk desk_reachable (MkToplevelHandle 1) APP
    (MkObjectId 7) ltac:(vm_compute; reflexivity)))).
Defined.

(** C31. No handle and no connection number is issued twice: whatever is called from a reachable
    compositor on, a handle that had been issued and is gone never names a window again, a
    connection that had been numbered and is gone is never connected again, and one that still is
    has the authority it negotiated as its ceiling. *)
Theorem numbers_never_reissued (s : CompositorState) (Hs : reachable s) (l : list Call) :
  let s' := calls l s in
  (∀ h, toplevel_handle_id h < cs_next_handle s → is_Some (cs_toplevels s' !! h) →
     is_Some (cs_toplevels s !! h)) ∧
  (∀ c client', connection_id c < cs_next_connection s → cs_connections s' !! c = Some client' →
     ∃ client, cs_connections s !! c = Some client ∧
       cn_available_capabilities client' = cn_available_capabilities client ∧
       ∀ cap, cap_contains (cn_capabilities client') cap = true →
              cap_contains (cn_available_capabilities client) cap = true) ∧
  cs_next_handle s ≤ cs_next_handle s' ∧ cs_next_connection s ≤ cs_next_connection s'.
Proof.
  destruct (reachable_calls_inv s l Hs) as (_ & C & [P1 P2 P3] & (_ & [W1 W2 W3] & _) & _).
  split_and!; [| |exact W3|exact (proj1 P3)].
  - intros h Hh Hn. apply elem_of_dom. by apply W2.
  - intros c client' Hlt Hc. specialize (P2 c client' Hc Hlt). cbn in P2.
    rewrite lookup_fmap in P2. destruct (cs_connections s !! c) as [client|]; [|done].
    injection P2 as P2. exists client. split_and!; [done|done|]. rewrite P2.
    apply (client_authority _ _ (C c client' Hc)).
Qed.

Lemma numbers_never_reissued_witness :
  let l := [CallCloseConnection APP; CallConnect everything CapabilitySet_empty] in
  cs_toplevels (calls l desk) !! MkToplevelHandle 1 = None ∧
  is_connected APP (calls l desk) = false ∧
  cs_next_handle desk ≤ cs_next_handle (calls l desk).
Proof.
  cbv zeta. split_and!; [vm_compute; reflexivity|vm_compute; reflexivity|].
  exact (proj1 (proj2 (proj2 (numbers_never_reissued desk desk_reachable
    [CallCloseConnection APP; CallConnect everything CapabilitySet_empty])))).
Defined.

(** * Objects *)

(** C3. Every object is what its kind says: in every reachable compositor a live object's value is
    the one its kind is created with, or the placeholder of a bound global, so that the lookups by
    kind never meet a foreign value; and nobody holds a capability that was not negotiated. *)
Theorem objects_typed (s : CompositorState) (Hs : reachable s) (c : ConnectionId)
    (client : Connection) (Hc : cs_connections s !! c = Some client) :
  (∀ id k v, kind_of (cn_registry client) id = Some k → value_of client id = Some v →
     value_matches k v) ∧
  (∀ id v, object c id KSurface s = Ok v → v = OGlobal ∨ ∃ st, surface c id s = Ok st) ∧
  (∀ id st, toplevel c id s = Ok st → object_kind c id s = Some KToplevel) ∧
  ∀ cap, holds_capability c cap s = true →
    cap_contains (cn_available_capabilities client) cap = true.
Proof.
  destruct (reachable_inv s Hs) as (_ & C & _). destruct (C c client Hc) as [R1 R2 R3 R4].
  assert (∀ id e, reg_live (cn_registry client) !! id = Some e →
    value_matches (entry_kind e) (entry_value e)) as Hm.
  { intros id e He. apply (R3 id); [unfold kind_of|unfold value_of]; by rewrite He. }
  split_and!; [exact R3| | |].
  - intros id v Ho. unfold surface. rewrite Ho. apply object_Ok in Ho as (e & He & Hk & Hv).
    apply live_entry_Some in He as (cl & Hcl & He). rewrite Hc in Hcl. injection Hcl as <-.
    pose proof (Hm id e He) as H. rewrite Hk, Hv in H. destruct v; try done; [by left|].
    right. by eexists.
  - intros id st Ht. unfold toplevel, connection in Ht. rewrite Hc in Ht. cbn in Ht.
    unfold entry in Ht. destruct (reg_live (cn_registry client) !! id) as [e|] eqn:He; [|done].
    cbn in Ht. pose proof (Hm id e He) as H. unfold object_kind, live_entry. rewrite Hc. cbn.
    rewrite He. cbn. destruct (entry_value e); try done. by rewrite H.
  - intros cap. unfold holds_capability, capabilities. rewrite Hc. cbn. apply R4.
Qed.

Lemma objects_typed_witness :
  ∃ client, cs_connections desk !! APP = Some client ∧
    ∀ id k v, kind_of (cn_registry client) id = Some k → value_of client id = Some v →
      value_matches k v.
Proof.
  assert (is_Some (cs_connections desk !! APP)) as [client Hc]
    by (apply (bool_decide_unpack _); vm_compute; exact I).
  exists client. split; [exact Hc|]. exact (proj1 (objects_typed desk desk_reachable APP client Hc)).
Defined.

(** * Text *)

(** C33. A method never composes into a password: in every reachable compositor the field being
    composed into, if there is one, is of a purpose that admits composition. *)
Theorem passwords_not_composed (s : CompositorState) (Hs : reachable s) (f : TextField)
    (Hf : cs_composing s = Some f) :
  admits_composition (tf_purpose f) = true ∧ tf_purpose f ≠ Password.
Proof.
  destruct (reachable_inv s Hs) as (_ & _ & _ & _ & [_ M]). rewrite Hf in M. cbn in M.
  split; [done|]. intros E. by rewrite E in M.
Qed.

(** The method's holder binds it, the window is focused and its field is enabled. *)
Definition composing_calls (purpose : TextPurpose) : list Call :=
  [ CallDispatch SHELL (RqBind 5 1 (MkObjectId 4)); CallSetKeyboardFocus (Some APP_WINDOW);
    CallDispatch APP (RqEnableText (MkObjectId 11) purpose) ].

Lemma passwords_not_composed_witness :
  let s := calls (composing_calls Normal) quiet_desk in
  cs_composing (calls (composing_calls Password) quiet_desk) = None ∧
  ∃ f, cs_composing s = Some f ∧ admits_composition (tf_purpose f) = true.
Proof.
  cbv zeta. split; [vm_compute; reflexivity|].
  destruct (cs_composing (calls (composing_calls Normal) quiet_desk)) as [f|] eqn:E.
  - exists f. split; [reflexivity|].
    exact (proj1 (passwords_not_composed _ (reachable_calls _ _ quiet_desk_reachable) f E)).
  - exfalso. vm_compute in E. discriminate E.
Defined.
