(* ===== verification/Cascade.v ===== *)
(** What destruction takes with it: the object, the sessions at a seat, the surfaces of a session and
    those that wait for a fence; and, when a capability is revoked, the objects of the kinds it made
    possible. *)
From S2P Require Import Prelude.
From S2P Require Import BTree.
From S2P Require Import Vocabulary.
From S2P Require Import Interface.
From S2P Require Import Wire.
From S2P Require Import Payloads.
From S2P Require Import Model.
From S2P Require Import Registry.
From S2P Require Import Outputs.
From S2P Require Import State.
From S2P Require Import Queue.
From S2P Require Import Objects.
From S2P Require Import Destruction.
From S2P Require Import Surfaces.
From S2P Require Import Input.
From S2P Require Import Shell.
From S2P Require Import Dispatch.
From S2P Require Import Invariant.
From S2P Require Import Preserved.
From S2P Require Import Desk.

(** * Gone *)

Definition gone (c : ConnectionId) (id : ObjectId) (s : CompositorState) : Prop :=
  live_entry c id s = None.

Lemma fmap_None_iff {A B} (f : A → B) (o : option A) : f <$> o = None ↔ o = None.
Proof. by destruct o. Qed.

Lemma gone_trait c id s :
  gone c id s ↔ trait_ok (@entry_kind Object) (λ o, o = None) c id s.
Proof. unfold gone, trait_ok. by rewrite fmap_None_iff. Qed.

#[export] Instance gone_stable c id : Teardown_stable (gone c id).
Proof.
  pose proof (trait_ok_stable (@entry_kind Object) (λ o, o = None) eq_refl c id)
    as [T1 T2 T3 T4 T5 T6 T7].
  split; try done.
  - intros s c' client o k Hg. rewrite gone_trait in *. by apply T1.
  - intros s c' client Hg. rewrite gone_trait in *. by apply (T2 s c' client).
  - intros s c' client Hg. rewrite gone_trait in *. by apply T3.
Qed.

Lemma gone_destroy n c0 id0 c id acc :
  gone c0 id0 acc.2 → gone c0 id0 (destroy_fuel n c id acc).2.
Proof. rewrite !gone_trait. by apply traits_destroy_fuel. Qed.

Lemma remove_object_gone c id kind acc : gone c id (remove_object c id kind acc).2.
Proof.
  destruct acc as [destroyed s]. unfold remove_object.
  destruct (cs_connections s !! c) as [client|] eqn:Hc.
  - cbn [reg_remove]. destruct (reg_live (cn_registry client) !! id) as [e|] eqn:He; cbn [snd].
    + unfold gone. rewrite live_entry_retire.
      apply (kept_push (gone c id)), (kept_push (gone c id)). unfold gone.
      rewrite live_entry_insert, decide_True by done. cbn. apply lookup_delete_eq.
    + unfold gone, live_entry. by rewrite Hc.
  - unfold gone, live_entry. cbn. by rewrite Hc.
Qed.

Lemma destroy_step_gone destroy c id acc : gone c id (destroy_object_step destroy c id acc).2.
Proof.
  unfold destroy_object_step. rewrite reg_kind_object_kind.
  destruct (cs_connections acc.2 !! c) as [client|] eqn:Hc.
  - destruct (object_kind c id acc.2) as [k|] eqn:Hk; cbn [ok_or]; [apply remove_object_gone|].
    unfold object_kind in Hk. by apply fmap_None_iff in Hk.
  - unfold gone, live_entry. by rewrite Hc.
Qed.

Lemma destroy_gone n c id acc : gone c id (destroy_fuel (S n) c id acc).2.
Proof. apply destroy_step_gone. Qed.

Lemma destroy_all_gone n c l acc id :
  id ∈ l → gone c id (destroy_all_with (destroy_fuel (S n)) c l acc).2.
Proof.
  revert acc. induction l as [|x l IH]; intros acc Hin; [by apply elem_of_nil in Hin|].
  unfold destroy_all_with. cbn [foldl]. apply elem_of_cons in Hin as [<-|Hin]; [|by apply IH].
  assert (gone c id (destroy_fuel (S n) c id acc).2) as Hg by apply destroy_gone.
  clear IH. revert Hg. generalize (destroy_fuel (S n) c id acc). induction l as [|y l IH];
    intros acc' Hg; [exact Hg|]. cbn [foldl]. apply IH. by apply gone_destroy.
Qed.

(** * What depends on an object *)

(** The session of a surface, the seat of a session. *)
Definition session_trait (e : RegistryEntry Object) : ObjectKind * option ObjectId :=
  (entry_kind e, match entry_value e with OSurface st => Some (su_session st) | _ => None end).
Definition seat_trait (e : RegistryEntry Object) : ObjectKind * option (option ObjectId) :=
  (entry_kind e, match entry_value e with OSession st => Some (session_seat st) | _ => None end).

#[export] Instance session_trait_ok : Trait session_trait.
Proof.
  split; intros e; unfold session_trait.
  - intros b state Hv. by rewrite Hv.
  - intros id. cbn. f_equal. destruct (entry_value e) as [| | | | | | |st| | |]; try done. cbn.
    destruct (ps_attachment (su_pending st)); repeat case_match; done.
Qed.

#[export] Instance seat_trait_ok : Trait seat_trait.
Proof.
  split; intros e; unfold seat_trait.
  - intros b state Hv. by rewrite Hv.
  - intros id. cbn. f_equal. by destruct (entry_value e).
Qed.

Lemma ids_where_in (r : ObjectRegistry Object) id :
  registry_wf r → is_Some (reg_live r !! id) → id ∈ ids_reverse_creation r.
Proof.
  intros Hr Hl. unfold ids_reverse_creation. apply list_elem_of_In.
  apply (proj1 (in_rev _ _)), list_elem_of_In, Hr, Hl.
Qed.

(** A dependent that is not among those found is not one. *)
Lemma ids_where_complete s c p id e :
  clients_ok (max_objects (cs_limits s)) (cs_connections s) →
  live_entry c id s = Some e → p id = true → id ∈ ids_where c p s.
Proof.
  intros C (client & Hc & He)%live_entry_Some Hp. unfold ids_where. rewrite Hc.
  apply elem_of_list_retain. split; [|done]. apply ids_where_in; [|by eexists].
  by destruct (C c client Hc).
Qed.

(** What destroying a session does to a surface of it, whatever else is destroyed with it. *)
Definition of_session (c : ConnectionId) (session id : ObjectId) (s : CompositorState) : Prop :=
  ∃ st, surface c id s = Ok st ∧ su_session st = session.
Definition of_seat (c : ConnectionId) (seat id : ObjectId) (s : CompositorState) : Prop :=
  ∃ st, object c id KSession s = Ok (OSession st) ∧ session_seat st = Some seat.

Lemma of_session_trait c session id s :
  of_session c session id s ↔ session_trait <$> live_entry c id s = Some (KSurface, Some session).
Proof.
  unfold of_session. split.
  - intros (st & (e & -> & Hk & Hv)%surface_Ok & <-). cbn. unfold session_trait. by rewrite Hk, Hv.
  - destruct (live_entry c id s) as [e|] eqn:He; [|done]. cbn. unfold session_trait. intros [= Hk Hv].
    destruct (entry_value e) as [| | | | | | |st| | |] eqn:Ev; try done. injection Hv as <-.
    exists st. split; [|done]. apply surface_Ok. eauto.
Qed.

Lemma of_seat_trait c seat id s :
  of_seat c seat id s ↔ seat_trait <$> live_entry c id s = Some (KSession, Some (Some seat)).
Proof.
  unfold of_seat. split.
  - intros (st & (e & -> & Hk & Hv)%object_Ok & Hs). cbn. unfold seat_trait. by rewrite Hk, Hv, Hs.
  - destruct (live_entry c id s) as [e|] eqn:He; [|done]. cbn. unfold seat_trait. intros [= Hk Hv].
    destruct (entry_value e) as [| | | | | |st| | | |] eqn:Ev; try done. injection Hv as Hs.
    exists st. split; [|done]. apply object_Ok. eauto.
Qed.

(** A dependent found before is gone after, and no other becomes one. *)
Lemma dependents_gone {X} (fp : RegistryEntry Object → X) (x : X) `{!Trait fp} n c l acc id :
  (fp <$> live_entry c id acc.2 = Some x → id ∈ l) →
  fp <$> live_entry c id (destroy_all_with (destroy_fuel (S n)) c l acc).2 ≠ Some x.
Proof.
  intros Hin He.
  assert (¬ fp <$> live_entry c id acc.2 ≠ Some x) as Hn.
  { intros Hx. revert He. change ((λ o, o ≠ Some x)
      (fp <$> live_entry c id (destroy_all_with (destroy_fuel (S n)) c l acc).2)).
    apply (traits_destroy_all fp (λ o, o ≠ Some x) c id); [|exact Hx].
    intros c' id'. by apply traits_destroy_fuel. }
  apply Hn. intros Hx. specialize (Hin Hx).
  pose proof (destroy_all_gone n c l acc id Hin) as Hg. unfold gone in Hg. by rewrite Hg in He.
Qed.

Lemma trait_remove_object {X} (fp : RegistryEntry Object → X) (x : X) `{!Trait fp} c id kind acc c' id' :
  fp <$> live_entry c' id' acc.2 ≠ Some x → fp <$> live_entry c' id' (remove_object c id kind acc).2 ≠ Some x.
Proof.
  intros Hx. change ((λ o, o ≠ Some x) (fp <$> live_entry c' id' (remove_object c id kind acc).2)).
  by apply (traits_remove_object fp (λ o, o ≠ Some x)).
Qed.

(** A surface that waits for a fence, with what it has pending or with what it shows. *)
Definition waits (fence : ObjectId) (o : option (RegistryEntry Object)) : Prop :=
  ∃ e st, o = Some e ∧ entry_kind e = KSurface ∧ entry_value e = OSurface st ∧
    (ps_acquire_fence (su_pending st) = Some fence ∨
     ∃ current, su_current st = Some current ∧ snap_acquire_fence (cur_snapshot current) = Some fence).

Definition of_fence (c : ConnectionId) (fence id : ObjectId) (s : CompositorState) : Prop :=
  ∃ st, surface c id s = Ok st ∧
    (ps_acquire_fence (su_pending st) = Some fence ∨
     ∃ current, su_current st = Some current ∧ snap_acquire_fence (cur_snapshot current) = Some fence).

Lemma of_fence_waits c fence id s : of_fence c fence id s ↔ waits fence (live_entry c id s).
Proof.
  split.
  - intros (st & (e & He & Hk & Hv)%surface_Ok & Hw). by exists e, st.
  - intros (e & st & He & Hk & Hv & Hw). exists st. split; [|done]. apply surface_Ok. eauto.
Qed.

#[export] Instance waits_lasting fence : Lasting (λ o, ¬ waits fence o).
Proof.
  split.
  - by intros (e & st & ? & _).
  - intros e b state Hv Hn (e' & st & [= <-] & _ & Hv' & _). cbn in Hv'. discriminate Hv'.
  - intros e id Hn (e' & st & [= <-] & Hk & Hv & Hw). cbn in Hk, Hv. apply Hn.
    destruct (entry_value e) as [| | | | | | |st0| | |] eqn:Ev; try discriminate Hv. injection Hv as Hv.
    exists e, st0. split; [done|]. split; [done|]. split; [done|].
    assert (∀ st1, ps_acquire_fence (su_pending st1) = ps_acquire_fence (su_pending st0) →
      su_current st1 = su_current st0 →
      match su_current st1 with
      | Some current => if decide (snap_buffer (cur_snapshot current) = id) then set_su_current None st1 else st1
      | None => st1
      end = st → ps_acquire_fence (su_pending st0) = Some fence ∨
        ∃ current, su_current st0 = Some current ∧ snap_acquire_fence (cur_snapshot current) = Some fence)
      as Hst.
    { intros st1 H1 H2 <-. rewrite <- H1, <- H2. destruct (su_current st1) as [current|] eqn:Ec;
        [case_decide|]; [|by rewrite Ec in Hw|by rewrite Ec in Hw].
      cbn [su_pending su_current set_su_current] in Hw. destruct Hw as [Hw|(x & Hx & _)]; [by left|discriminate Hx]. }
    revert Hv. destruct (ps_attachment (su_pending st0)); [apply Hst; done| |apply Hst; done].
    case_decide; apply Hst; done.
Qed.

Lemma dependents_settled (W : option (RegistryEntry Object) → Prop) `{!Lasting (λ o, ¬ W o)} n c l acc id :
  (W (live_entry c id acc.2) → id ∈ l) →
  ¬ W (live_entry c id (destroy_all_with (destroy_fuel (S n)) c l acc).2).
Proof.
  intros Hin Hw.
  assert (¬ ¬ W (live_entry c id acc.2)) as Hn.
  { intros Hx. revert Hw. apply (entries_destroy_all (λ o, ¬ W o) c id (destroy_fuel (S n)) c l); [|exact Hx].
    intros c' id'. exact (entries_destroy_fuel (λ o, ¬ W o) c id (S n) c' id'). }
  apply Hn. intros Hx. specialize (Hin Hx).
  pose proof (destroy_all_gone n c l acc id Hin) as Hg. unfold gone in Hg. rewrite Hg in Hw.
  revert Hw. apply (lasting_none (P := λ o, ¬ W o)).
Qed.

(** C36. Destroying an object takes with it what stands on it: afterwards the object is gone; if it was a
    session, no live surface is of it; if it was a seat, no live session sits at it; and if it was a
    fence, no live surface waits for it, with what it has pending or with what it shows. (Not all that
    names an object goes with it: a text field and a claimed chord outlive theirs.) *)
Theorem destroy_takes_dependents (s : CompositorState) (Hs : reachable s) (c : ConnectionId)
    (id : ObjectId) :
  let s' := (destroy_object c id s).2 in
  object_kind c id s' = None ∧
  (object_kind c id s = Some KSession → ∀ child, ¬ of_session c id child s') ∧
  (object_kind c id s = Some KSeat → ∀ child, ¬ of_seat c id child s') ∧
  (object_kind c id s = Some KFence → ∀ child, ¬ of_fence c id child s').
Proof.
  cbv zeta. destruct (reachable_inv s Hs) as (_ & C & _).
  assert (∀ k, object_kind c id s = Some k →
    (client ← connection c s; reg_kind (cn_registry client) id) = Ok k) as Hk.
  { intros k Hk. rewrite reg_kind_object_kind. destruct (cs_connections s !! c) eqn:E; [by rewrite Hk|].
    unfold object_kind, live_entry in Hk. by rewrite E in Hk. }
  unfold destroy_object, destroy_acc, destroy_depth. split_and!.
  1: apply fmap_None_iff, destroy_gone.
  all: intros Hkind child; rewrite ?of_session_trait, ?of_seat_trait, ?of_fence_waits; cbn [destroy_fuel];
    unfold destroy_object_step at 1; cbn [snd]; rewrite (Hk _ Hkind); cbv zeta;
    repeat first [rewrite (decide_True _ _ eq_refl)|rewrite decide_False by done].
  - apply trait_remove_object; [apply _|]. apply (dependents_gone session_trait _ 1). intros Hc.
    cbn [snd] in *. apply of_session_trait in Hc as (st & Hst & Hses). pose proof Hst as (e & He & _)%surface_Ok.
    apply (ids_where_complete s c _ child e C He). rewrite Hst. by apply bool_decide_eq_true.
  - apply trait_remove_object; [apply _|]. apply (dependents_gone seat_trait _ 1). intros Hc.
    cbn [snd] in *. apply of_seat_trait in Hc as (st & Hst & Hses). pose proof Hst as (e & He & _)%object_Ok.
    apply (ids_where_complete s c _ child e C He). rewrite Hst. by apply bool_decide_eq_true.
  - apply (entries_remove_object (λ o, ¬ waits id o) c child). apply (dependents_settled (waits id) 1).
    intros (st & Hst & Hw)%of_fence_waits. cbn [snd] in *. pose proof Hst as (e & He & _)%surface_Ok.
    apply (ids_where_complete s c _ child e C He). rewrite Hst. apply orb_true_iff.
    destruct Hw as [Hw|(current & -> & Hw)]; [left|right]; by apply bool_decide_eq_true.
Qed.

Lemma destroy_takes_dependents_witness :
  object_kind APP (MkObjectId 2) desk = Some KSession ∧
  (∃ st, surface APP (MkObjectId 3) desk = Ok st ∧ su_session st = MkObjectId 2) ∧
  ∀ child, ¬ of_session APP (MkObjectId 2) child (destroy_object APP (MkObjectId 2) desk).2.
Proof.
  assert (object_kind APP (MkObjectId 2) desk = Some KSession) as Hk by (vm_compute; reflexivity).
  split_and!; [exact Hk| |].
  - destruct (surface APP (MkObjectId 3) desk) as [st|] eqn:E; [|vm_compute in E; discriminate E].
    exists st. split; [reflexivity|]. vm_compute in E. injection E as <-. reflexivity.
  - exact (proj1 (proj2 (destroy_takes_dependents desk desk_reachable APP (MkObjectId 2))) Hk).
Defined.

(** * What destruction does not touch

    A predicate that does not read the objects, the scene, the focus or the windows. *)
Class Untouched (J : CompositorState → Prop) : Prop := {
  untouched_stable :: Teardown_stable J;
  untouched_objects c client r s : cs_connections s !! c = Some client → J s →
    J (set_cs_connections (<[c := set_cn_registry r client]> (cs_connections s)) s);
  untouched_scene x s : J s → J (set_cs_scene x s);
  untouched_focus x s : J s → J (set_cs_keyboard_focus x s);
  untouched_pointer x s : J s → J (set_cs_pointer_target x s);
  untouched_windows x s : J s → J (set_cs_toplevels x s);
}.

Section Untouched.
Context (J : CompositorState → Prop) `{!Untouched J}.

Lemma untouched_update_registry c r : kept J (update_connection c (λ cl, set_cn_registry (r cl) cl)).
Proof.
  intros s Hs. unfold update_connection. destruct (cs_connections s !! c) as [client|] eqn:Hc.
  - replace (alter _ c (cs_connections s)) with
      (<[c := set_cn_registry (r client) client]> (cs_connections s)); [by apply untouched_objects|].
    symmetry. apply map_eq. intros c'. destruct (decide (c = c')) as [<-|].
    + by rewrite lookup_alter_eq, Hc, lookup_insert_eq.
    + by rewrite lookup_alter_ne, lookup_insert_ne.
  - replace (alter _ c (cs_connections s)) with (cs_connections s); [by destruct s|].
    symmetry. apply alter_id. intros cl Hcl. congruence.
Qed.

Lemma untouched_set_buffer_state c id state : kept J (λ s, (set_buffer_state c id state s).2).
Proof.
  intros s Hs. unfold set_buffer_state. rewrite ST_bind_run. cbn [reads].
  destruct (buffer c id s); [|done]. cbn [modify snd].
  apply (untouched_update_registry c (λ cl, set_entry_value id _ (cn_registry cl))), Hs.
Qed.

Lemma untouched_surface_part key : kept J (destroy_surface_part key).
Proof.
  intros s Hs. unfold destroy_surface_part. cbv zeta. set (s1 := foldl _ s _).
  assert (J s1) as H1.
  { apply (kept_fold J (release_related key)); [|done]. intros id t Ht. unfold release_related.
    repeat case_match; try done. by apply kept_push, untouched_set_buffer_state; [apply _|]. }
  set (s2 := set_cs_scene _ s1). assert (J s2) as H2 by (by apply untouched_scene).
  clearbody s2. case_decide; case_decide; try apply untouched_pointer; try done;
    apply untouched_focus; by apply kept_push; [apply _|].
Qed.

Lemma untouched_remove_object c id kind acc : J acc.2 → J (remove_object c id kind acc).2.
Proof.
  intros Hs. destruct acc as [destroyed s]. unfold remove_object.
  destruct (cs_connections s !! c) as [client|] eqn:Ec; [|done].
  cbn [reg_remove]. destruct (reg_live (cn_registry client) !! id); [|done]. cbn [snd] in *.
  apply (untouched_update_registry c (λ cl, (retire id (cn_registry cl)).2)).
  apply kept_push, kept_push; [apply _..|]. by apply untouched_objects.
Qed.

Lemma untouched_destroy n c id acc : J acc.2 → J (destroy_fuel n c id acc).2.
Proof.
  revert c id acc. induction n as [|n IH]; intros c id acc Hs; [done|].
  cbn [destroy_fuel]. unfold destroy_object_step. case_match; [|done].
  assert (∀ l acc, J acc.2 → J (destroy_all_with (destroy_fuel n) c l acc).2) as Hall.
  { intros l. induction l as [|x l IHl]; intros acc' Ha; [done|]. cbn. apply IHl, IH, Ha. }
  apply untouched_remove_object.
  set (a1 := if decide (_ = KSession) then _ else acc).
  assert (J a1.2) as H1 by (unfold a1; case_decide; auto). clearbody a1.
  set (a2 := if decide (_ = KSeat) then _ else a1).
  assert (J a2.2) as H2 by (unfold a2; case_decide; auto). clearbody a2.
  set (a3 := if decide (_ = KSurface) then _ else a2).
  assert (J a3.2) as H3 by (unfold a3; case_decide; [by apply untouched_surface_part|done]).
  clearbody a3. set (a4 := if decide (_ = KBuffer) then _ else a3).
  assert (J a4.2) as H4.
  { unfold a4. case_decide; [|done]. by apply (untouched_update_registry c (λ cl, set_live
      ((λ e, MkRegistryEntry (entry_kind e) (forget_buffer id (entry_value e)))
         <$> reg_live (cn_registry cl)) (cn_registry cl))). }
  clearbody a4. set (a5 := if decide (_ = KFence) then _ else a4).
  assert (J a5.2) as H5 by (unfold a5; case_decide; auto). clearbody a5.
  case_decide; [|done]. cbn [on_state snd]. unfold destroy_toplevel_part.
  case_match; [|done]. apply kept_tell_shells; [apply _|]. by apply untouched_windows.
Qed.
End Untouched.

(** * Revocation *)

Definition caps_lack (c : ConnectionId) (cap : Capability) (s : CompositorState) : Prop :=
  holds_capability c cap s = false.

Lemma holds_capability_lookup c cap s s' :
  (cs_connections s' !! c = None ∨
   cn_capabilities <$> cs_connections s' !! c = cn_capabilities <$> cs_connections s !! c) →
  caps_lack c cap s → caps_lack c cap s'.
Proof.
  unfold caps_lack, holds_capability, capabilities. by intros [-> | ->].
Qed.

#[export] Instance caps_lack_untouched c cap : Untouched (caps_lack c cap).
Proof.
  assert (∀ s c' client client', cs_connections s !! c' = Some client →
    cn_capabilities client' = cn_capabilities client → caps_lack c cap s →
    caps_lack c cap (set_cs_connections (<[c':=client']> (cs_connections s)) s)) as Hi.
  { intros s c' client client' Hc He. apply holds_capability_lookup. right. cbn.
    destruct (decide (c' = c)) as [->|]; [rewrite lookup_insert_eq, Hc; cbn; by rewrite He|].
    by rewrite lookup_insert_ne. }
  assert (∀ s c', caps_lack c cap s → caps_lack c cap (forget_connection c' s)) as Hf.
  { intros s c'. apply holds_capability_lookup. cbn. rewrite lookup_delete. case_decide; auto. }
  split; [split|..]; try done.
  - intros s c' client o k Hs Hc _. by apply (Hi s c' client).
  - intros s c' client Hs _. by apply Hf.
  - intros s c' client Hs _ _. by apply (Hf (events_push _ s)).
  - intros c' client r s Hc Hs. by apply (Hi s c' client).
Qed.

(** What an object requires is a matter of its kind and, for a buffer, of its transport. *)
Definition requires_trait (e : RegistryEntry Object) : ObjectKind * option BufferTransport :=
  (entry_kind e, match entry_value e with OBuffer b => Some (bd_transport (bo_descriptor b)) | _ => None end).

#[export] Instance requires_trait_ok : Trait requires_trait.
Proof.
  split; intros e; unfold requires_trait.
  - intros b state Hv. by rewrite Hv.
  - intros id. cbn. f_equal. by destruct (entry_value e).
Qed.

Definition needs (cap : Capability) (o : option (ObjectKind * option BufferTransport)) : bool :=
  match o with
  | Some (kind, transport) =>
      match kind, cap with
      | KSurface, SurfaceCreate | KBuffer, BufferImport | KFence, ExplicitGpuFence
      | KInputStream, ExtendedInput | KSession, PrivilegedSession | KSeat, RevocableSeat => true
      | _, _ => false
      end ||
      (bool_decide (kind = KBuffer) &&
       match transport with Some t => bool_decide (transport_capability t = cap) | None => false end)
  | None => false
  end.

Lemma object_requires_needs c id cap s :
  object_requires c id cap s = needs cap (requires_trait <$> live_entry c id s).
Proof.
  unfold object_requires. rewrite reg_kind_object_kind.
  destruct (cs_connections s !! c) as [client|] eqn:Hc; [|unfold live_entry; by rewrite Hc].
  unfold object_kind, buffer, object, connection. rewrite Hc. unfold live_entry. rewrite Hc. cbn.
  unfold entry. destruct (reg_live (cn_registry client) !! id) as [e|]; cbn; [|done]. f_equal.
  case_bool_decide as Ek; [|done]. rewrite Ek. cbn. by destruct (entry_value e).
Qed.

(** What revocation comes to, in the terms of what the code takes to need the capability. *)
Lemma revocation_run (s s' : CompositorState) (Hs : reachable s) (c : ConnectionId)
    (cap : Capability) (destroyed : destroyed_list)
    (Hr : revoke_capability c cap s = (Ok destroyed, s')) :
  holds_capability c cap s' = false ∧ (∀ id, object_requires c id cap s' = false) ∧
  ∀ c' cap', holds_capability c' cap' s = false → holds_capability c' cap' s' = false.
Proof.
  destruct (reachable_inv s Hs) as (_ & C & _). unfold revoke_capability in Hr.
  destruct (cs_connections s !! c) as [client|] eqn:Hc; [|done]. cbv zeta in Hr.
  set (s1 := set_cs_connections _ s) in Hr. set (s2 := push_event _ _ _ s1) in Hr.
  set (step := λ acc id, if object_requires c id cap acc.2 then destroy_acc c id acc else acc) in Hr.
  change (foldl _ ([], s2) ?l) with (foldl step ([], s2) l) in Hr. injection Hr as _ <-.
  assert (∀ J : CompositorState → Prop, (∀ id acc, J acc.2 → J (step acc id).2) →
    ∀ l acc, J acc.2 → J (foldl step acc l).2) as Hfold.
  { intros J HJ l. induction l as [|x l IH]; intros acc Ha; [done|]. cbn. apply IH, HJ, Ha. }
  assert (∀ J, Untouched J → J s1 → ∀ l, J (foldl step ([], s2) l).2) as Huntouched.
  { intros J UJ H1 l. apply Hfold; [|by apply (kept_push J)]. intros id acc Ha. unfold step.
    case_match; [exact (untouched_destroy J destroy_depth c id acc Ha)|done]. }
  split_and!.
  - apply (Huntouched (caps_lack c cap) _). unfold caps_lack, holds_capability, capabilities. cbn.
    rewrite lookup_insert_eq. cbn. rewrite cap_contains_without. by rewrite bool_decide_eq_true_2.
  - intros id. rewrite object_requires_needs.
    set (P o := needs cap o = false). assert (P None) as HP by done.
    assert (∀ l acc, trait_ok requires_trait P c id acc.2 →
      trait_ok requires_trait P c id (foldl step acc l).2) as Hkeep.
    { apply Hfold. intros id' acc Ha. unfold step. case_match; [|done].
      exact (traits_destroy_fuel requires_trait P HP c id destroy_depth c id' acc Ha). }
    change (trait_ok requires_trait P c id
      (foldl step ([], s2) (ids_reverse_creation (cn_registry client))).2).
    destruct (live_entry c id s1) as [e|] eqn:He.
    + assert (id ∈ ids_reverse_creation (cn_registry client)) as Hin.
      { apply ids_where_in; [by destruct (C c client Hc)|]. unfold s1 in He.
        rewrite live_entry_insert, decide_True in He by done. by eexists. }
      generalize (([], s2) : destroyed_list * CompositorState).
      induction (ids_reverse_creation (cn_registry client)) as [|x l IH]; intros acc;
        [by apply elem_of_nil in Hin|]. cbn [foldl].
      apply elem_of_cons in Hin as [<-|Hin]; [|by apply IH]. apply Hkeep. unfold step.
      destruct (object_requires c id cap acc.2) eqn:Eq.
      * unfold trait_ok. pose proof (destroy_gone 2 c id acc) as Hg. unfold gone in Hg.
        unfold destroy_acc, destroy_depth. by rewrite Hg.
      * unfold trait_ok, P. by rewrite <- object_requires_needs.
    + apply Hkeep.
      apply (@kept_push _ (trait_ok_stable requires_trait P HP c id)).
      unfold trait_ok. by rewrite He.
  - intros c' cap' Hn. apply (Huntouched (caps_lack c' cap') _). revert Hn.
    unfold caps_lack, holds_capability, capabilities. cbn. destruct (decide (c = c')) as [<-|].
    + rewrite lookup_insert_eq, Hc. cbn. rewrite cap_contains_without. intros ->. apply andb_false_r.
    + by rewrite lookup_insert_ne.
Qed.

(** The kinds of object that a capability is for. *)
Definition kind_for (cap : Capability) : option ObjectKind :=
  match cap with
  | SurfaceCreate => Some KSurface
  | BufferImport => Some KBuffer
  | ExplicitGpuFence => Some KFence
  | ExtendedInput => Some KInputStream
  | PrivilegedSession => Some KSession
  | RevocableSeat => Some KSeat
  | _ => None
  end.

(** C37. Revoking a capability takes back what it was for. Afterwards the connection does not hold it and
    is refused whatever asks for it; it has no object left of the kind the capability is for (a
    surface, a buffer, a fence, an input stream, a session or a seat), nor a buffer whose memory came
    by a transport that needs it; and nobody has gained a capability by it. (Pools of memory,
    and the objects of a shell, of a holder of shortcuts and of an input method are not among these:
    they are left.) *)
Theorem revocation_complete (s s' : CompositorState) (Hs : reachable s) (c : ConnectionId)
    (cap : Capability) (destroyed : destroyed_list)
    (Hr : revoke_capability c cap s = (Ok destroyed, s')) :
  holds_capability c cap s' = false ∧ (∀ id, require_capability c id cap s' ≠ Ok tt) ∧
  (∀ id kind, object_kind c id s' = Some kind → kind_for cap ≠ Some kind) ∧
  (∀ id b, buffer c id s' = Ok b → transport_capability (bd_transport (bo_descriptor b)) ≠ cap) ∧
  ∀ c' cap', holds_capability c' cap' s = false → holds_capability c' cap' s' = false.
Proof.
  destruct (revocation_run s s' Hs c cap destroyed Hr) as (Hheld & Hneeds & Hothers).
  split_and!; [done| | | |done].
  - intros id. unfold require_capability, connection. unfold holds_capability, capabilities in Hheld.
    destruct (cs_connections s' !! c) as [client|]; [|done]. cbn in Hheld |- *. by rewrite Hheld.
  - intros id kind Hk Hfor. specialize (Hneeds id). rewrite object_requires_needs in Hneeds.
    unfold object_kind in Hk. destruct (live_entry c id s') as [e|]; [|done]. injection Hk as Hk.
    cbn in Hneeds. rewrite Hk in Hneeds.
    destruct cap; try discriminate Hfor; injection Hfor as <-; discriminate Hneeds.
  - intros id b (e & He & Hk & Hv)%buffer_Ok Hcap. specialize (Hneeds id).
    rewrite object_requires_needs, He in Hneeds. cbn in Hneeds. rewrite Hk, Hv in Hneeds.
    rewrite Hcap, !bool_decide_eq_true_2 in Hneeds by done. by rewrite orb_true_r in Hneeds.
Qed.

Lemma revocation_complete_witness :
  let r := revoke_capability APP BufferImport desk in
  object_kind APP (MkObjectId 5) desk = Some KBuffer ∧ is_ok r.1 = true ∧
  object_kind APP (MkObjectId 5) r.2 ≠ Some KBuffer.
Proof.
  cbv zeta. split; [vm_compute; reflexivity|].
  destruct (revoke_capability APP BufferImport desk) as [[d|e] s'] eqn:E.
  - split; [reflexivity|]. cbn [snd]. intros Hk.
    exact (proj1 (proj2 (proj2 (revocation_complete desk s' desk_reachable APP BufferImport d E)))
      (MkObjectId 5) KBuffer Hk eq_refl).
  - exfalso. vm_compute in E. discriminate E.
Defined.
