(* ===== verification/Delivery.v ===== *)
(** Telling clients things and taking leave of them: what closing a connection leaves behind, what an
    event that does not fit does, how a failed request is answered, and how the queue is drained. *)
From S2P Require Import Prelude.
From S2P Require Import BTree.
From S2P Require Import Vocabulary.
From S2P Require Import Interface.
From S2P Require Import Wire.
From S2P Require Import Payloads.
From S2P Require Import Model.
From S2P Require Import Registry.
From S2P Require Import Outputs.
From S2P Require Import State.
From S2P Require Import Queue.
From S2P Require Import Objects.
From S2P Require Import Destruction.
From S2P Require Import Surfaces.
From S2P Require Import Input.
From S2P Require Import Shell.
From S2P Require Import Dispatch.
From S2P Require Import Invariant.
From S2P Require Import Preserved.
From S2P Require Import Cascade.
From S2P Require Import Desk.

(** * Closing a connection *)

(** Nothing in the tables of connections, windows, chords and text fields, in the scene, or in what
    the keyboard and the pointer were last given to, names the connection. *)
Record no_trace (c : ConnectionId) (s : CompositorState) : Prop := {
  trace_connection : cs_connections s !! c = None;
  trace_toplevels h o : cs_toplevels s !! h ≠ Some (c, o);
  trace_positions key : is_Some (scene_positions (cs_scene s) !! key) → key_connection key ≠ c;
  trace_stack key : key ∈ scene_stack (cs_scene s) → key_connection key ≠ c;
  trace_focus key : cs_keyboard_focus s = Some key → key_connection key ≠ c;
  trace_pointer key : cs_pointer_target s = Some key → key_connection key ≠ c;
  trace_shortcuts k claim : cs_shortcuts s !! k = Some claim → sc_holder claim ≠ c;
  trace_fields k f : cs_fields s !! k = Some f → k.1 ≠ c;
}.

Lemma clear_of_connection_Some c key k :
  clear_of_connection c key = Some k → key = Some k ∧ key_connection k ≠ c.
Proof. unfold clear_of_connection. destruct key; [|done]. case_decide; naive_solver. Qed.

Lemma no_trace_forget c c' s : no_trace c s → no_trace c (forget_connection c' s).
Proof.
  intros [T1 T2 T3 T4 T5 T6 T7 T8]. unfold forget_connection.
  split; cbn -[btree_retain list_retain delete].
  - rewrite lookup_delete. by case_decide.
  - intros h o [Hh _]%btree_retain_Some. by eapply T2.
  - intros key [p [Hp _]%btree_retain_Some]. apply T3. by eexists.
  - intros key [Hk _]%elem_of_list_retain. by apply T4.
  - intros key [Hk _]%clear_of_connection_Some. by apply T5.
  - intros key [Hk _]%clear_of_connection_Some. by apply T6.
  - intros k claim [Hk _]%btree_retain_Some. by eapply T7.
  - intros k f [Hk _]%btree_retain_Some. by eapply T8.
Qed.

#[export] Instance no_trace_stable c : Teardown_stable (no_trace c).
Proof.
  split.
  - intros s c' client o k [T1 T2 T3 T4 T5 T6 T7 T8] Hc _. split; try done. cbn.
    rewrite lookup_insert_ne; [done|]. intros ->. congruence.
  - intros s c' client Hs _. by apply no_trace_forget.
  - intros s c' client Hs _ _. apply no_trace_forget. destruct Hs. by split.
  - intros s []. by split.
  - intros s0 s _ []. by split.
  - intros s []. by split.
  - intros s x []. by split.
Qed.

Lemma forget_no_trace c s : no_trace c (forget_connection c s).
Proof.
  unfold forget_connection. split; cbn -[btree_retain list_retain delete].
  - apply lookup_delete_eq.
  - intros h o [_ Hn%negb_true_iff%bool_decide_eq_false]%btree_retain_Some. done.
  - intros key [p [_ Hn%negb_true_iff%bool_decide_eq_false]%btree_retain_Some]. done.
  - intros key [_ Hn%negb_true_iff%bool_decide_eq_false]%elem_of_list_retain. done.
  - intros key [_ Hn]%clear_of_connection_Some. done.
  - intros key [_ Hn]%clear_of_connection_Some. done.
  - intros k claim [_ Hn%negb_true_iff%bool_decide_eq_false]%btree_retain_Some. done.
  - intros k f [_ Hn%negb_true_iff%bool_decide_eq_false]%btree_retain_Some. done.
Qed.

(** What a connection that is gone is still to be told. *)
Definition mine (c : ConnectionId) (s : CompositorState) : list Event :=
  list_retain (λ e, bool_decide (event_connection e = c)) (cs_events s).

Lemma mine_push c e s :
  mine c (events_push e s) =
  mine c s ++ (if decide (event_connection e = c) then [e] else []).
Proof.
  unfold mine, events_push, list_retain. cbn [cs_events set_cs_events]. rewrite filter_app. f_equal.
  case_decide as E.
  - rewrite filter_cons_True; [done|]. by apply bool_decide_eq_true.
  - rewrite filter_cons_False; [done|]. by rewrite bool_decide_eq_true.
Qed.

Definition departed (c : ConnectionId) (l : list Event) (s : CompositorState) : Prop :=
  cs_connections s !! c = None ∧ mine c s = l.

#[export] Instance departed_stable c l : Teardown_stable (departed c l).
Proof.
  split; try done.
  - intros s c' client o k [Hc Hm] Hc' _. assert (c' ≠ c) by (intros ->; congruence). split.
    + cbn. by rewrite lookup_insert_ne.
    + unfold queued. rewrite mine_push. cbn [event_connection]. rewrite decide_False by done.
      rewrite app_nil_r. exact Hm.
  - intros s c' client [Hc Hm] _. split; [|exact Hm]. cbn. rewrite lookup_delete. by case_decide.
  - intros s c' client [Hc Hm] Hc' _. assert (c' ≠ c) by (intros ->; congruence). split.
    + cbn. rewrite lookup_delete. by case_decide.
    + change (mine c (forget_connection c' ?t)) with (mine c t). rewrite mine_push.
      cbn [overflow_event event_connection]. rewrite decide_False by done. by rewrite app_nil_r.
Qed.

(** C35. A connection that is closed is forgotten: it is not connected; the table of windows, the
    scene's positions and its stack, the keyboard focus, the compositor's own pointer target
    ([pointer_target], not the seat's routing), the claimed chords and the text fields hold nothing of
    it; the events it had not taken yet are exactly the ones it still will, whatever its closing made
    others be told; and it is told nothing more. (What the seat was routing to it stays routed:
    [close_keeps_seat].) *)
Theorem close_forgets_connection (c : ConnectionId) (s : CompositorState)
    (Hc : is_Some (cs_connections s !! c)) :
  no_trace c (close_state c s) ∧ mine c (close_state c s) = mine c s ∧
  ∀ o k, push_event c o k (close_state c s) = close_state c s.
Proof.
  destruct Hc as [client Hc].
  assert (no_trace c (close_state c s)) as Hn
    by (apply (close_establishes (no_trace c) c s client Hc), forget_no_trace).
  split_and!; [done| |].
  - apply (close_establishes (departed c (mine c s)) c s client Hc). split; [|done].
    cbn. apply lookup_delete_eq.
  - intros o k. unfold push_event, push_event_with. by rewrite (trace_connection _ _ Hn).
Qed.

Lemma close_forgets_connection_witness :
  no_trace SHELL (close_state SHELL desk) ∧ length (mine SHELL (close_state SHELL desk)) = 3%nat.
Proof.
  assert (is_Some (cs_connections desk !! SHELL)) as Hc
    by (apply (bool_decide_unpack _); vm_compute; exact I).
  split; [exact (proj1 (close_forgets_connection SHELL desk Hc))|vm_compute; reflexivity].
Defined.

#[export] Instance seat_stable r : Teardown_stable (λ s, cs_seat s = r).
Proof. by split. Qed.

(** Closing does not touch the seat: a pointer that was over the connection's window, with a button
    down, stays with it, and a shell's grab stays with the shell that held it, until a button is
    released or input is lost. *)
Theorem close_keeps_seat (c : ConnectionId) (s : CompositorState) :
  cs_seat (close_state c s) = cs_seat s.
Proof. exact (kept_close (λ s', cs_seat s' = cs_seat s) c s eq_refl). Qed.

(** A pointer moved over a window whose client then dies moves nothing afterwards but the routing of
    the dead: the events are for a connection that is not there. *)
Theorem pointer_outlives_client :
  let over := calls [CallMovePointer (MkPoint 5 5) 1; CallPointerButton 1 true 2] desk in
  let gone := call (CallCloseConnection APP) over in
  (λ key, key_connection key) <$> pr_target (pointer_of over) = Some APP ∧
  is_connected APP gone = false ∧
  (λ key, key_connection key) <$> pr_target (pointer_of (call (CallMovePointer (MkPoint 900 900) 3) gone)) =
    Some APP.
Proof. cbv zeta. split_and!; vm_compute; reflexivity. Qed.

(** An event for a live connection is queued behind all the others and counted, if there is
    room; if there is none the connection is told so and closed, and that is the last it is ever
    told. An event for a connection that is gone is dropped. *)
Theorem push_event_outcome (c : ConnectionId) (o : ObjectId) (k : EventKind) (s : CompositorState) :
  let s' := push_event c o k s in
  match cs_connections s !! c with
  | None => s' = s
  | Some client =>
      if max_pending_events (cs_limits s) <=? cn_pending_events client then
        no_trace c s' ∧
        mine c s' = mine c s ++
          [MkEvent c ObjectId_DISPLAY (EvError (EventQueueOverflow (cn_pending_events client)))]
      else
        cs_events s' = cs_events s ++ [MkEvent c o k] ∧
        cn_pending_events <$> cs_connections s' !! c = Some (cn_pending_events client + 1) ∧
        (∀ c', c' ≠ c → cs_connections s' !! c' = cs_connections s !! c') ∧
        mine c s' = mine c s ++ [MkEvent c o k]
  end.
Proof.
  cbv zeta. unfold push_event, push_event_with.
  destruct (cs_connections s !! c) as [client|] eqn:Hc; [|done].
  destruct (max_pending_events (cs_limits s) <=? cn_pending_events client) eqn:E; cbv zeta.
  - set (e := MkEvent c ObjectId_DISPLAY _). split.
    + by apply (close_establishes (no_trace c) c (events_push e s) client), forget_no_trace.
    + apply (close_establishes (departed c (mine c s ++ [e])) c (events_push e s) client); [done|].
      split; [cbn; apply lookup_delete_eq|].
      change (mine c (forget_connection c ?t)) with (mine c t). rewrite mine_push.
      by rewrite decide_True.
  - split_and!.
    + done.
    + cbn. by rewrite lookup_insert_eq.
    + intros c' Hne. cbn. by rewrite lookup_insert_ne.
    + rewrite mine_push. cbn [event_connection]. by rewrite decide_True.
Qed.

(** * Answering a request *)

(** What is queued for a client only grows. *)
Definition begins (c : ConnectionId) (l : list Event) (s : CompositorState) : Prop :=
  l `prefix_of` mine c s.

#[export] Instance begins_untouched c l : Untouched (begins c l).
Proof.
  assert (∀ e s, begins c l s → begins c l (events_push e s)) as Hp.
  { intros e s Hs. unfold begins. rewrite mine_push. by apply prefix_app_r. }
  split; [split|..]; try done.
  - intros s c' client o k Hs _ _. by apply Hp.
  - intros s c' client Hs _ _. exact (Hp _ s Hs).
Qed.

Lemma close_state_gone c s : cs_connections (close_state c s) !! c = None.
Proof.
  destruct (cs_connections (close_state c s) !! c) eqn:E; [|done]. exfalso.
  pose proof (proj2 (close_connection_run c s)) as Hsub. unfold close_state in E.
  assert (c ∈ conns (close_connection c s).2) as Hin by (apply elem_of_dom; by eexists).
  apply Hsub in Hin. set_solver.
Qed.

#[export] Instance departed_untouched c l : Untouched (departed c l).
Proof.
  split; try apply _; try done.
  intros c' client r s Hc' [Hc Hm]. split; [|exact Hm]. cbn. rewrite lookup_insert_ne; [done|].
  intros ->. congruence.
Qed.

Lemma after_error_kept (J : CompositorState → Prop) `{!Untouched J} c e s :
  J (push_event c (error_object_id e) (EvError e) s) → J (after_error c e s).
Proof.
  intros HJ. unfold after_error. cbv zeta. destruct (error_category e); try exact HJ.
  - by apply (kept_close J).
  - exact (untouched_destroy J destroy_depth c _ ([], _) HJ).
Qed.

(** C34. A request that fails is answered by what kind of failure it is. Its error is the answer; and
    it is reported to the client, behind everything queued before, if the connection has survived
    the operation and its queue has room; if the queue has none, the client is told of that
    instead, as the last thing it is told, and its connection is closed; if the connection is gone
    already, nothing more is queued for it. Then a protocol error has closed the connection, an object
    error has destroyed the object the error names, and a resource or compositor error has done
    nothing but that. A request that succeeds is reported in none of these ways: what the operation
    leaves is what the client's call leaves. *)
Theorem dispatch_outcome (c : ConnectionId) (request : ClientRequest) (s : CompositorState)
    (Hc : is_Some (cs_connections s !! c)) :
  let checked := dispatch_checked c request s in
  let s' := (dispatch c request s).2 in
  match checked.1 with
  | Ok _ => dispatch c request s = (Ok tt, checked.2)
  | Err e =>
      (dispatch c request s).1 = Err e ∧
      match cs_connections checked.2 !! c with
      | None => mine c s' = mine c checked.2
      | Some client =>
          if cn_pending_events client <? max_pending_events (cs_limits checked.2)
          then begins c (mine c checked.2 ++ [MkEvent c (error_object_id e) (EvError e)]) s'
          else cs_connections s' !! c = None ∧
               mine c s' = mine c checked.2 ++ [overflow_event c client]
      end ∧
      match error_category e with
      | CatProtocol => cs_connections s' !! c = None
      | CatObject => object_kind c (error_object_id e) s' = None
      | CatResource | CatCompositor => s' = push_event c (error_object_id e) (EvError e) checked.2
      end
  end.
Proof.
  destruct Hc as [client0 Hc]. cbv zeta. unfold dispatch. rewrite Hc.
  destruct (dispatch_checked c request s) as [[a|e] s1]; cbn [fst snd]; [done|].
  split; [done|]. pose proof (push_event_outcome c (error_object_id e) (EvError e) s1) as Hpush.
  cbv zeta in Hpush. split.
  - destruct (cs_connections s1 !! c) as [client|] eqn:Hc1.
    + rewrite Z.ltb_antisym. destruct (_ <=? _) eqn:Efull; cbn [negb].
      * destruct Hpush as [Hgone Hmine].
        apply (after_error_kept (departed c (mine c s1 ++ [overflow_event c client]))).
        split; [exact (trace_connection _ _ Hgone)|exact Hmine].
      * destruct Hpush as (_ & _ & _ & Hmine).
        apply (after_error_kept (begins c (mine c s1 ++ [MkEvent c (error_object_id e) (EvError e)]))).
        unfold begins. by rewrite Hmine.
    + apply (after_error_kept (departed c (mine c s1))). rewrite Hpush. split; [exact Hc1|reflexivity].
  - unfold after_error. cbv zeta. destruct (error_category e); try done.
    + apply close_state_gone.
    + apply fmap_None_iff, destroy_gone.
Qed.

Lemma dispatch_outcome_witness :
  is_connected APP desk = true ∧
  object_kind APP (MkObjectId 3) (dispatch APP (RqBind 99 1 (MkObjectId 3)) desk).2 = None.
Proof.
  assert (is_Some (cs_connections desk !! APP)) as Hc
    by (apply (bool_decide_unpack _); vm_compute; exact I).
  split; [vm_compute; reflexivity|].
  pose proof (dispatch_outcome APP (RqBind 99 1 (MkObjectId 3)) desk Hc) as H. cbv zeta in H.
  destruct (dispatch_checked APP (RqBind 99 1 (MkObjectId 3)) desk).1 as [a|e] eqn:E;
    vm_compute in E; [discriminate E|]. injection E as <-.
  destruct H as (_ & _ & H). cbn [error_category error_object_id] in H. exact H.
Defined.

(** A refusal destroys what it names: binding a global that does not exist, with the number of a
    live object as the new one, destroys that object, a shown surface or the display itself. *)
Theorem refused_bind_destroys :
  let bind id := call (CallDispatch APP (RqBind 99 1 id)) desk in
  object_kind APP (MkObjectId 3) desk = Some KSurface ∧
  object_kind APP (MkObjectId 3) (bind (MkObjectId 3)) = None ∧
  scene_stack (cs_scene (bind (MkObjectId 3))) = [] ∧
  object_kind APP ObjectId_DISPLAY (bind ObjectId_DISPLAY) = None ∧
  is_connected APP (bind ObjectId_DISPLAY) = true.
Proof. cbv zeta. split_and!; vm_compute; reflexivity. Qed.

(** * Draining the queue *)

Lemma mine_retain c c' s events :
  cs_events s = list_retain (λ e, negb (bool_decide (event_connection e = c'))) events →
  mine c s = if decide (c = c') then []
             else list_retain (λ e, bool_decide (event_connection e = c)) events.
Proof.
  intros He. unfold mine. rewrite He. unfold list_retain. rewrite list_filter_filter.
  case_decide as E.
  - subst. match goal with |- ?l = [] => destruct l as [|x l'] eqn:El end; [done|].
    assert (x ∈ x :: l') as Hx by left. rewrite <- El in Hx. apply list_elem_of_filter in Hx.
    destruct Hx as [[H1%bool_decide_eq_true H2%negb_true_iff%bool_decide_eq_false] _]. done.
  - apply list_filter_iff. intros x.
    rewrite bool_decide_eq_true, negb_true_iff, bool_decide_eq_false. naive_solver.
Qed.

(** Every event is delivered once, in order: taking one client's events answers exactly those, in
    the order they were queued, leaves every other client's where they were, and makes room for new
    ones; taking all answers the whole queue. Neither changes anything else a client could see. *)
Theorem events_delivered_once (c : ConnectionId) (s : CompositorState) :
  let '(taken, s1) := take_events_for c s in
  let '(all, s2) := take_events s in
  taken = mine c s ∧ mine c s1 = [] ∧ (∀ c', c' ≠ c → mine c' s1 = mine c' s) ∧
  taken ++ cs_events s1 ≡ₚ cs_events s ∧
  (∀ client, cs_connections s1 !! c = Some client → cn_pending_events client = 0) ∧
  all = cs_events s ∧ cs_events s2 = [] ∧
  (∀ c' id, live_entry c' id s1 = live_entry c' id s ∧ live_entry c' id s2 = live_entry c' id s) ∧
  cs_scene s1 = cs_scene s ∧ cs_scene s2 = cs_scene s.
Proof.
  unfold take_events_for, take_events. cbv zeta. set (theirs := list_retain (λ e, negb _) (cs_events s)).
  split_and!; try done.
  - rewrite (mine_retain c c (update_connection c _ _) (cs_events s)) by done. by rewrite decide_True.
  - intros c' Hne. rewrite (mine_retain c' c (update_connection c _ _) (cs_events s)) by done.
    by rewrite decide_False.
  - unfold update_connection. cbn [cs_events set_cs_connections set_cs_events].
    unfold theirs, list_retain. induction (cs_events s) as [|e l IH]; [done|].
    destruct (decide (event_connection e = c)) as [E|E].
    + rewrite filter_cons_True by (by apply bool_decide_eq_true).
      rewrite (filter_cons_False (λ e, negb _ = true)) by
        (by rewrite (bool_decide_eq_true_2 _ E)).
      cbn [app]. by rewrite IH.
    + rewrite filter_cons_False by (by rewrite bool_decide_eq_true).
      rewrite (filter_cons_True (λ e, negb _ = true)) by
        (by rewrite (bool_decide_eq_false_2 _ E)).
      rewrite <- Permutation_middle. by rewrite IH.
  - intros client. unfold update_connection. cbn [cs_connections set_cs_connections set_cs_events].
    rewrite lookup_alter_eq. destruct (cs_connections s !! c); [|done]. by intros [= <-].
  - intros c' id. split.
    + rewrite live_entry_update_connection. case_decide as E; [subst|done]. unfold live_entry.
      cbn [cs_connections set_cs_events]. by destruct (cs_connections s !! c').
    + unfold live_entry. cbn [cs_connections set_cs_events set_cs_connections]. rewrite lookup_fmap.
      by destruct (cs_connections s !! c').
Qed.

(** * Displays described *)

(** Two displays, not placed yet, and a client that has bound both: object 3 is the first,
    object 4 the second. *)
Definition two_displays : list (OutputId * IdentitySource * OutputInfo) :=
  [ (MkOutputId 11, FromPanel, MkOutputInfo (MkSize 1920 1080) (MkSize 527 296) 1 1 60000);
    (MkOutputId 22, FromPanel, MkOutputInfo (MkSize 2560 1440) (MkSize 597 336) 1 1 60000) ].

Definition both_bound : CompositorState :=
  calls [ CallApplyTopology two_displays 1; CallConnect everything CapabilitySet_empty;
          CallDispatch APP (RqBind 1 1 (MkObjectId 3)); CallDispatch APP (RqBind 2 1 (MkObjectId 4));
          CallTakeEvents ] fresh.

(** Placing one display describes it to every display object there is: after the first display is
    placed, the object bound to the second is told the first one's identity, position, mode and scale
    as its own. *)
Theorem placing_misdescribes :
  reachable both_bound ∧
  let s := call (CallPlaceOutput (MkOutputId 11) (MkPoint 100 0)) both_bound in
  list_retain (λ e, bool_decide (event_object e = MkObjectId 4)) (cs_events s) =
    [ MkEvent APP (MkObjectId 4) (EvOutputIdentity 11);
      MkEvent APP (MkObjectId 4) (EvOutputGeometry (MkPoint 100 0) (MkSize 527 296) FromPanel);
      MkEvent APP (MkObjectId 4) (EvOutputMode (MkSize 1920 1080) 60000);
      MkEvent APP (MkObjectId 4) (EvOutputScale 1 1);
      MkEvent APP (MkObjectId 4) EvOutputDone ] ∧
  list_retain (λ e, bool_decide (event_object e = MkObjectId 4))
    (cs_events (call (CallDispatch APP (RqBind 2 1 (MkObjectId 4)))
      (calls [ CallApplyTopology two_displays 1; CallConnect everything CapabilitySet_empty ] fresh))) =
    [ MkEvent APP (MkObjectId 4) (EvOutputIdentity 22);
      MkEvent APP (MkObjectId 4) (EvOutputGeometry Point_default (MkSize 597 336) FromPanel);
      MkEvent APP (MkObjectId 4) (EvOutputMode (MkSize 2560 1440) 60000);
      MkEvent APP (MkObjectId 4) (EvOutputScale 1 1);
      MkEvent APP (MkObjectId 4) EvOutputDone ].
Proof.
  split; [apply reachable_calls, fresh_reachable|]. cbv zeta. split; vm_compute; reflexivity.
Qed.
