(* ===== verification/Presentation.v ===== *)
(** From a commit to the screen and back: what committing does with what was attached, when a commit
    may be presented, and which buffers presenting gives back. *)
From S2P Require Import Prelude.
From S2P Require Import BTree.
From S2P Require Import Vocabulary.
From S2P Require Import Interface.
From S2P Require Import Wire.
From S2P Require Import Payloads.
From S2P Require Import Model.
From S2P Require Import Registry.
From S2P Require Import Outputs.
From S2P Require Import State.
From S2P Require Import Queue.
From S2P Require Import Objects.
From S2P Require Import Destruction.
From S2P Require Import Surfaces.
From S2P Require Import Input.
From S2P Require Import Shell.
From S2P Require Import Dispatch.
From S2P Require Import Invariant.
From S2P Require Import Preserved.
From S2P Require Import Cascade.
From S2P Require Import Desk.

(** * Looking up after an assignment *)

Lemma surface_update_same c id st st' s :
  surface c id s = Ok st → surface c id (update_object c id (OSurface st') s) = Ok st'.
Proof.
  intros (e & He & Hk & _)%surface_Ok. apply surface_Ok.
  exists (MkRegistryEntry (entry_kind e) (OSurface st')).
  by rewrite live_entry_update_object, decide_True, He.
Qed.

Lemma buffer_update_same c id b b' s :
  buffer c id s = Ok b → buffer c id (update_object c id (OBuffer b') s) = Ok b'.
Proof.
  intros (e & He & Hk & _)%buffer_Ok. apply buffer_Ok.
  exists (MkRegistryEntry (entry_kind e) (OBuffer b')).
  by rewrite live_entry_update_object, decide_True, He.
Qed.

Lemma surface_update_other c id c' id' v st s :
  (c, id) ≠ (c', id') → surface c' id' s = Ok st → surface c' id' (update_object c id v s) = Ok st.
Proof.
  intros Hne (e & He & Hk & Hv)%surface_Ok. apply surface_Ok. exists e.
  rewrite live_entry_update_object, decide_False; [done|]. intros [-> ->]. done.
Qed.

Lemma buffer_update_other c id c' id' v b s :
  (c, id) ≠ (c', id') → buffer c' id' s = Ok b → buffer c' id' (update_object c id v s) = Ok b.
Proof.
  intros Hne (e & He & Hk & Hv)%buffer_Ok. apply buffer_Ok. exists e.
  rewrite live_entry_update_object, decide_False; [done|]. intros [-> ->]. done.
Qed.

Lemma surface_not_buffer c id id' s st b :
  surface c id s = Ok st → buffer c id' s = Ok b → (c, id) ≠ (c, id').
Proof. intros (e & He & Hk & _)%surface_Ok (e' & He' & Hk' & _)%buffer_Ok [= ->]. congruence. Qed.

Lemma surface_mut_run c id f s st :
  surface c id s = Ok st →
  surface_mut c id f s = (Ok tt, update_object c id (OSurface (f st)) s).
Proof. intros Hs. unfold surface_mut. rewrite ST_bind_run. cbn [reads]. by rewrite Hs. Qed.

Lemma set_buffer_state_run c id state s b :
  buffer c id s = Ok b →
  set_buffer_state c id state s = (Ok tt, update_object c id (OBuffer (set_bo_state state b)) s).
Proof. intros Hb. unfold set_buffer_state. rewrite ST_bind_run. cbn [reads]. by rewrite Hb. Qed.

(** * Commit *)

(** What the commit of [st] puts on screen. *)
Definition shown (st : SurfaceState) (buffer_id : ObjectId) (offset : Point) (commit : CommitId)
    : CurrentSurface :=
  MkCurrentSurface
    (MkSurfaceSnapshot (su_role st) buffer_id offset
      (match ps_damage (su_pending st) with [] => [DamageFull] | d => d end) commit
      (option_or (ps_refresh_range (su_pending st))
        (su_current st ≫= λ cur, snap_refresh_range (cur_snapshot cur)))
      (ps_acquire_fence (su_pending st)))
    (su_frame_requested st) (su_frame_serial st).

Lemma map_surface_spec key s :
  key ∈ scene_stack (cs_scene (map_surface key s)) ∧
  cs_connections (map_surface key s) = cs_connections s ∧
  cs_events (map_surface key s) = cs_events s ∧
  cs_next_commit (map_surface key s) = cs_next_commit s.
Proof.
  unfold map_surface. case_decide; [done|]. cbn. split; [|done]. set_solver.
Qed.

(** Committing a newly attached buffer puts it on screen whole: the commit takes the next number,
    the snapshot holds the attached buffer, the accumulated damage (everything, if there was none),
    the acquire fence and the refresh range, the buffer is the compositor's until released, what was
    pending is cleared, the surface is stacked, and no other object and no event is touched. *)
Theorem commit_attached (c : ConnectionId) (id buffer_id : ObjectId) (offset : Point)
    (s : CompositorState) (st : SurfaceState) (b : BufferObject)
    (Hn : cs_next_commit s ≠ u64_max) (Hst : surface c id s = Ok st)
    (Ha : ps_attachment (su_pending st) = SetTo buffer_id offset)
    (Hb : buffer c buffer_id s = Ok b) :
  let key := MkSurfaceKey c id in
  let commit_number := MkCommitId (cs_next_commit s) in
  let s' := (commit c id s).2 in
  (commit c id s).1 = Ok tt ∧
  surface c id s' = Ok (set_su_current (Some (shown st buffer_id offset commit_number)) (committed st)) ∧
  buffer c buffer_id s' = Ok (set_bo_state (CompositorHeld key commit_number) b) ∧
  (∀ c' id', (c', id') ≠ (c, id) → (c', id') ≠ (c, buffer_id) →
     live_entry c' id' s' = live_entry c' id' s) ∧
  cs_next_commit s' = cs_next_commit s + 1 ∧ cs_events s' = cs_events s ∧
  key ∈ scene_stack (cs_scene s').
Proof.
  cbv zeta. pose proof (surface_not_buffer _ _ _ _ _ _ Hst Hb) as Hne.
  unfold commit. rewrite ST_bind_run. cbn [gets]. rewrite (proj2 (Z.eqb_neq _ _) Hn). cbv zeta.
  rewrite ST_bind_run. cbn [reads]. rewrite Hst. rewrite ST_bind_run. cbn [gets]. rewrite Ha.
  rewrite ST_bind_run. cbn [reads]. rewrite Hst, Ha, decide_False by done.
  rewrite ST_bind_run. cbn [mret ST_ret]. rewrite ST_bind_run. cbn [reads]. rewrite Hst.
  rewrite ST_bind_run, (surface_mut_run _ _ _ _ _ Hst).
  set (s1 := update_object c id (OSurface (committed st)) s).
  rewrite ST_bind_run. cbn [modify]. set (s2 := set_cs_next_commit _ s1).
  assert (buffer c buffer_id s2 = Ok b) as Hb2 by exact (buffer_update_other _ _ _ _ _ _ _ Hne Hb).
  rewrite ST_bind_run, (set_buffer_state_run _ _ _ _ _ Hb2).
  set (s3 := update_object c buffer_id _ s2).
  assert (surface c id s3 = Ok (committed st)) as H3.
  { apply surface_update_other; [congruence|]. exact (surface_update_same _ _ _ _ _ Hst). }
  rewrite ST_bind_run, (surface_mut_run _ _ _ _ _ H3). cbn [modify fst snd].
  set (cur := Some (MkCurrentSurface _ _ _)).
  set (s4 := update_object c id (OSurface (set_su_current cur (committed st))) s3).
  destruct (map_surface_spec (MkSurfaceKey c id) s4) as (M1 & M2 & M3 & M4).
  assert (∀ c' id', live_entry c' id' (map_surface (MkSurfaceKey c id) s4) = live_entry c' id' s4)
    as Hl by (intros c' id'; unfold live_entry; by rewrite M2).
  split_and!; [done| | | |by rewrite M4|by rewrite M3|done].
  - pose proof (surface_update_same c id _ (set_su_current cur (committed st)) _ H3) as H4.
    apply surface_Ok in H4 as (e & He & Hk & Hv). apply surface_Ok. exists e. by rewrite Hl.
  - assert (buffer c buffer_id s4 = Ok (set_bo_state (CompositorHeld (MkSurfaceKey c id)
      (MkCommitId (cs_next_commit s))) b)) as H4.
    { apply buffer_update_other; [congruence|]. exact (buffer_update_same _ _ _ _ _ Hb2). }
    apply buffer_Ok in H4 as (e & He & Hk & Hv). apply buffer_Ok. exists e. by rewrite Hl.
  - intros c' id' H1 H2. rewrite Hl. unfold s4, s3. rewrite !live_entry_update_object.
    rewrite decide_False by naive_solver. rewrite decide_False by naive_solver.
    change (live_entry c' id' s2) with (live_entry c' id' s1). unfold s1.
    rewrite live_entry_update_object. by rewrite decide_False by naive_solver.
Qed.

(** The application attaches its second buffer. *)
Definition attached_desk : CompositorState :=
  call (CallDispatch APP (RqAttach (MkObjectId 3) (MkObjectId 6) (MkPoint 1 2) None)) desk.

Lemma commit_attached_witness :
  ∃ st b, surface APP (MkObjectId 3) attached_desk = Ok st ∧
  ps_attachment (su_pending st) = SetTo (MkObjectId 6) (MkPoint 1 2) ∧
  buffer APP (MkObjectId 6) (commit APP (MkObjectId 3) attached_desk).2 =
    Ok (set_bo_state (CompositorHeld APP_WINDOW (MkCommitId 2)) b).
Proof.
  destruct (surface APP (MkObjectId 3) attached_desk) as [st|] eqn:Est;
    [|vm_compute in Est; discriminate Est].
  destruct (buffer APP (MkObjectId 6) attached_desk) as [b|] eqn:Eb;
    [|vm_compute in Eb; discriminate Eb].
  assert (ps_attachment (su_pending st) = SetTo (MkObjectId 6) (MkPoint 1 2)) as Ha
    by (vm_compute in Est; injection Est as <-; reflexivity).
  assert (cs_next_commit attached_desk = 2) as Hn by (vm_compute; reflexivity).
  exists st, b. split; [reflexivity|]. split; [exact Ha|].
  pose proof (commit_attached APP (MkObjectId 3) (MkObjectId 6) (MkPoint 1 2) attached_desk st b
    ltac:(rewrite Hn; discriminate) Est Ha Eb) as H. cbv zeta in H. rewrite Hn in H.
  exact (proj1 (proj2 (proj2 H))).
Defined.

(** * Presentation *)

Definition same_entry (e : RegistryEntry Object) : RegistryEntry Object := e.

(** Of the object at one place: nothing is there, or [P] of what is. *)
Definition entry_ok (P : RegistryEntry Object → Prop) (c : ConnectionId) (id : ObjectId)
    (s : CompositorState) : Prop := ∀ e, live_entry c id s = Some e → P e.

#[export] Instance entry_ok_stable P c id : Teardown_stable (entry_ok P c id).
Proof.
  set (Q o := ∀ e, o = Some e → P e). assert (Q None) as HQ by done.
  assert (∀ s, entry_ok P c id s ↔ trait_ok same_entry Q c id s) as He.
  { intros s. unfold trait_ok, entry_ok, Q, same_entry. by rewrite option_fmap_id. }
  destruct (trait_ok_stable same_entry Q HQ c id) as [T1 T2 T3 T4 T5 T6 T7]. split; try done.
  - intros s c' client o k Hg. rewrite He in *. by apply T1.
  - intros s c' client Hg. rewrite He in *. by apply (T2 s c' client).
  - intros s c' client Hg. rewrite He in *. by apply T3.
Qed.

Lemma entry_ok_update P c id c' id' v s :
  (∀ e, (c', id') = (c, id) → live_entry c id s = Some e → P e → P (MkRegistryEntry (entry_kind e) v)) →
  entry_ok P c id s → entry_ok P c id (update_object c' id' v s).
Proof.
  intros Hv He e. rewrite live_entry_update_object. case_decide as E; [|apply He].
  destruct E as [-> ->]. intros (e' & Hl & ->)%fmap_Some. apply (Hv e'); auto.
Qed.

Lemma release_older_entry P key commit c id l :
  (∀ e b, entry_value e = OBuffer b → P e →
     P (MkRegistryEntry (entry_kind e) (OBuffer (set_bo_state Available b)))) →
  preserves (entry_ok P c id) (release_older key commit l).
Proof.
  intros HP. induction l as [|x l IH]; [apply preserves_ret|]. cbn [release_older].
  apply preserves_bind; [apply preserves_gets|]. intros state.
  apply preserves_bind; [|intros _; exact IH]. case_match; [|apply preserves_ret].
  apply preserves_bind; [|intros _; apply preserves_modify, kept_push, _].
  unfold set_buffer_state. apply preserves_bind_reads. intros b s Hs (e & He & _ & Hv)%buffer_Ok.
  cbn [modify snd]. apply entry_ok_update; [|done]. intros e' [= <- <-] He' HPe.
  assert (e' = e) as -> by congruence. by apply HP.
Qed.

(** The buffer at [id] is not held for an older commit of [key]. *)
Definition settled (key : SurfaceKey) (number : CommitId) (e : RegistryEntry Object) : Prop :=
  ∀ b, entry_kind e = KBuffer → entry_value e = OBuffer b → releases key number (bo_state b) = false.

Lemma settled_available key number e b :
  entry_value e = OBuffer b → settled key number e →
  settled key number (MkRegistryEntry (entry_kind e) (OBuffer (set_bo_state Available b))).
Proof. intros _ _ b' _ [= <-]. done. Qed.

Lemma release_older_settles key number l s s' id :
  id ∈ l → release_older key number l s = (Ok tt, s') →
  entry_ok (settled key number) (key_connection key) id s'.
Proof.
  revert s. induction l as [|x l IH]; intros s Hin H; [by apply elem_of_nil in Hin|].
  cbn [release_older] in H. rewrite ST_bind_run in H. cbn [gets] in H.
  apply ST_bind_Ok in H as ([] & s1 & H1 & H2).
  apply elem_of_cons in Hin as [<-|Hin]; [|by eapply IH].
  change s' with ((Ok tt : result StateError unit, s').2). rewrite <- H2.
  apply (release_older_entry _ key number); [apply settled_available|].
  set (c := key_connection key) in *. destruct (buffer c id s) as [b|err] eqn:Eb; cbn in H1.
  - destruct (releases key number (bo_state b)) eqn:Er.
    + apply ST_bind_Ok in H1 as ([] & s2 & H1 & H3).
      rewrite (set_buffer_state_run _ _ _ _ _ Eb) in H1. injection H1 as <-.
      unfold modify in H3. injection H3 as <-. apply kept_push; [apply _|].
      intros e He b' _ Hv. rewrite live_entry_update_object, decide_True in He by done.
      apply fmap_Some in He as (e' & _ & ->). cbn in Hv. by injection Hv as <-.
    + injection H1 as <-. intros e He b' Hk Hv.
      assert (buffer c id s = Ok b') as Eb' by (apply buffer_Ok; eauto). congruence.
  - injection H1 as <-. intros e He b' Hk Hv.
    assert (buffer c id s = Ok b') as Eb' by (apply buffer_Ok; eauto). congruence.
Qed.

Lemma commit_ready_fence key s current fence :
  current_of key s = Ok current → snap_acquire_fence (cur_snapshot current) = Some fence →
  commit_ready key s = fence_signaled_at (key_connection key) fence s.
Proof. intros Hc Hf. unfold commit_ready. rewrite Hc. cbn. by rewrite Hf. Qed.

(** The rest of [present], once the fence is signaled. *)
Lemma present_ready_run key t s current :
  current_of key s = Ok current → commit_ready key s = Ok true →
  present key t s =
  (client ← reads (connection (key_connection key));
   _ ← release_older key (snap_commit (cur_snapshot current)) (ids (cn_registry client));
   _ ← (if cur_frame_callback current then
          _ ← modify (push_event (key_connection key) (key_object key)
                (EvFrameDone (cur_frame_serial current) t));
          surface_mut (key_connection key) (key_object key) (λ st,
            match su_current st with
            | Some cur => set_su_current (Some (set_cur_frame_callback false cur)) st
            | None => st
            end)
        else mret tt);
   _ ← surface_mut (key_connection key) (key_object key) (set_su_consecutive_deadline_misses 0);
   (mret (snap_commit (cur_snapshot current)) : ST CompositorState StateError CommitId)) s.
Proof.
  intros Hc Hr. unfold present. rewrite ST_bind_run. cbn [reads]. rewrite Hc. cbv zeta.
  destruct (snap_acquire_fence (cur_snapshot current)) as [fence|] eqn:Ef; [|reflexivity].
  rewrite (commit_ready_fence _ _ _ _ Hc Ef) in Hr. rewrite ST_bind_run, ST_bind_run. cbn [reads].
  by rewrite Hr.
Qed.

Lemma surface_mut_Ok c id f s s' :
  surface_mut c id f s = (Ok tt, s') →
  ∃ st, surface c id s = Ok st ∧ s' = update_object c id (OSurface (f st)) s.
Proof.
  unfold surface_mut. intros H. apply ST_bind_Ok in H as (st & s1 & H1 & H2).
  unfold reads in H1. injection H1 as Hst <-. unfold modify in H2. injection H2 as <-. eauto.
Qed.

Lemma surface_entry_ok P c id f st s :
  (∀ e, entry_value e = OSurface st → P e → P (MkRegistryEntry (entry_kind e) (OSurface (f st)))) →
  surface c id s = Ok st → ∀ c' id', entry_ok P c' id' s →
  entry_ok P c' id' (update_object c id (OSurface (f st)) s).
Proof.
  intros HP (e & He & _ & Hv)%surface_Ok c' id'. apply entry_ok_update. intros e' [= -> ->] He' HPe.
  assert (e' = e) as -> by congruence. by apply HP.
Qed.

Definition told_once (e : RegistryEntry Object) : Prop :=
  ∀ st cur, entry_value e = OSurface st → su_current st = Some cur → cur_frame_callback cur = false.

Definition tell_frame (key : SurfaceKey) (t : Z) (current : CurrentSurface)
    : ST CompositorState StateError unit :=
  if cur_frame_callback current then
    _ ← modify (push_event (key_connection key) (key_object key)
          (EvFrameDone (cur_frame_serial current) t));
    surface_mut (key_connection key) (key_object key) (λ st,
      match su_current st with
      | Some cur => set_su_current (Some (set_cur_frame_callback false cur)) st
      | None => st
      end)
  else mret tt.

Lemma tell_frame_entry P key t current s s' c id :
  tell_frame key t current s = (Ok tt, s') →
  (∀ e st, entry_value e = OSurface st → P e → P (MkRegistryEntry (entry_kind e)
     (OSurface match su_current st with
               | Some cur => set_su_current (Some (set_cur_frame_callback false cur)) st
               | None => st
               end))) →
  entry_ok P c id s → entry_ok P c id s'.
Proof.
  unfold tell_frame. intros H HP Hs. destruct (cur_frame_callback current).
  - apply ST_bind_Ok in H as ([] & s1 & H1 & H2). unfold modify in H1. injection H1 as <-.
    apply surface_mut_Ok in H2 as (st & Hst & ->).
    apply (surface_entry_ok P _ _ (λ st, match su_current st with
      | Some cur => set_su_current (Some (set_cur_frame_callback false cur)) st | None => st end) st);
      [intros e Hv; by apply HP|exact Hst|by apply kept_push; [apply _|]].
  - by injection H as <-.
Qed.

Lemma tell_frame_told key t current s s' :
  tell_frame key t current s = (Ok tt, s') →
  (cur_frame_callback current = false →
   entry_ok told_once (key_connection key) (key_object key) s) →
  entry_ok told_once (key_connection key) (key_object key) s'.
Proof.
  unfold tell_frame. intros H Hs. destruct (cur_frame_callback current).
  - apply ST_bind_Ok in H as ([] & s1 & _ & H2). apply surface_mut_Ok in H2 as (st & Hst & ->).
    intros e He st' cur Hv Hcur. rewrite live_entry_update_object, decide_True in He by done.
    apply fmap_Some in He as (e' & _ & ->). cbn in Hv. injection Hv as <-.
    destruct (su_current st) as [cur'|] eqn:E; [|congruence]. cbn in Hcur. by injection Hcur as <-.
  - injection H as <-. auto.
Qed.

(** A commit is presented when its fence allows, and presenting settles what came before it:
    while the acquire fence is not signaled the call is refused and nothing changes; when it
    succeeds it answers the surface's current commit, no buffer of the client is still held for an
    older commit of the surface, the count of missed deadlines starts again, and the frame callback
    has been answered, so that it is not answered twice. *)
Theorem present_outcome (key : SurfaceKey) (t : Z) (s : CompositorState) (current : CurrentSurface)
    (Hc : current_of key s = Ok current) :
  (commit_ready key s = Ok false → present key t s = (Err (InvalidState (key_object key)), s)) ∧
  ∀ number s', present key t s = (Ok number, s') →
    commit_ready key s = Ok true ∧ number = snap_commit (cur_snapshot current) ∧
    (∀ id b, buffer (key_connection key) id s' = Ok b → releases key number (bo_state b) = false) ∧
    ∀ st, surface (key_connection key) (key_object key) s' = Ok st →
      su_consecutive_deadline_misses st = 0 ∧
      ∀ cur, su_current st = Some cur → cur_frame_callback cur = false.
Proof.
  split.
  - intros Hr. unfold present. rewrite ST_bind_run. cbn [reads]. rewrite Hc. cbv zeta.
    destruct (snap_acquire_fence (cur_snapshot current)) as [fence|] eqn:Ef.
    + rewrite (commit_ready_fence _ _ _ _ Hc Ef) in Hr. rewrite ST_bind_run, ST_bind_run.
      cbn [reads]. by rewrite Hr.
    + unfold commit_ready in Hr. rewrite Hc in Hr. cbn in Hr. by rewrite Ef in Hr.
  - intros number s' Hp. assert (commit_ready key s = Ok true) as Hr.
    { destruct (snap_acquire_fence (cur_snapshot current)) as [fence|] eqn:Ef.
      - rewrite (commit_ready_fence _ _ _ _ Hc Ef). unfold present in Hp. rewrite ST_bind_run in Hp.
        cbn [reads] in Hp. rewrite Hc in Hp. cbv zeta in Hp. rewrite Ef in Hp.
        rewrite ST_bind_run, ST_bind_run in Hp. cbn [reads] in Hp.
        by destruct (fence_signaled_at _ fence s) as [[]|].
      - unfold commit_ready. rewrite Hc. cbn. by rewrite Ef. }
    split; [done|]. rewrite (present_ready_run _ _ _ _ Hc Hr) in Hp. fold (tell_frame key t current) in Hp.
    apply ST_bind_Ok in Hp as (client & s0 & H0 & Hp). unfold reads in H0. injection H0 as Hcl <-.
    apply ok_or_Ok in Hcl. apply ST_bind_Ok in Hp as ([] & s1 & H1 & Hp).
    apply ST_bind_Ok in Hp as ([] & s2 & H2 & Hp). apply ST_bind_Ok in Hp as ([] & s3 & H3 & Hp).
    unfold mret, ST_ret in Hp. injection Hp as <- <-. split; [done|].
    apply surface_mut_Ok in H3 as (st3 & Hst3 & ->). set (number := snap_commit _) in *. split.
    + intros id b Hb. assert (entry_ok (settled key number) (key_connection key) id s1) as Hs1.
      { destruct (decide (id ∈ ids (cn_registry client))) as [Hin|Hn].
        - by eapply release_older_settles.
        - change s1 with ((Ok tt : result StateError unit, s1).2). rewrite <- H1.
          apply release_older_entry; [apply settled_available|]. intros e He. exfalso. apply Hn.
          apply elem_of_ids. apply live_entry_Some in He as (cl & Hcl' & He).
          rewrite Hcl in Hcl'. injection Hcl' as <-. by eexists. }
      assert (entry_ok (settled key number) (key_connection key) id s2) as Hs2
        by (eapply tell_frame_entry; [exact H2|intros e st _ _ b'; done|exact Hs1]).
      apply buffer_Ok in Hb as (e & He & Hk & Hv).
      eapply (surface_entry_ok (settled key number) _ _ (set_su_consecutive_deadline_misses 0));
        [|exact Hst3|exact Hs2|exact He|exact Hk|exact Hv]. by intros e' _ _ b'.
    + intros st Hst. rewrite (surface_update_same _ _ _ _ _ Hst3) in Hst. injection Hst as <-.
      split; [done|]. intros cur Hcur. change (su_current st3 = Some cur) in Hcur.
      apply surface_Ok in Hst3 as (e & He & _ & Hv).
      eapply (tell_frame_told key t current s1 s2 H2); [|exact He|exact Hv|exact Hcur].
      intros Hcb. change s1 with ((Ok tt : result StateError unit, s1).2). rewrite <- H1.
      apply release_older_entry.
      * intros e' b Hv' _ st' cur' [=].
      * intros e' He' st' cur' Hv' Hcur'. unfold current_of in Hc.
        apply result_bind_Ok in Hc as (st0 & (e0 & He0 & _ & Hv0)%surface_Ok & Hc%ok_or_Ok).
        congruence.
Qed.

Lemma present_outcome_witness :
  let s := calls [CallDispatch APP (RqAttach (MkObjectId 3) (MkObjectId 6) Point_default None);
                  CallDispatch APP (RqCommit (MkObjectId 3))] desk in
  is_ok (present APP_WINDOW 0 s).1 = true ∧
  ∀ id b, buffer APP id (present APP_WINDOW 0 s).2 = Ok b →
    releases APP_WINDOW (MkCommitId 2) (bo_state b) = false.
Proof.
  cbv zeta. set (s := calls _ desk).
  destruct (current_of APP_WINDOW s) as [current|] eqn:Ec; [|vm_compute in Ec; discriminate Ec].
  destruct (present APP_WINDOW 0 s) as [[n|e] s'] eqn:E.
  - split; [reflexivity|]. cbn [snd].
    pose proof (proj2 (present_outcome APP_WINDOW 0 s current Ec) n s' E) as (_ & _ & H & _).
    assert (n = MkCommitId 2) as Hn.
    { assert ((present APP_WINDOW 0 s).1 = Ok (MkCommitId 2)) as H0 by (vm_compute; reflexivity).
      rewrite E in H0. injection H0 as ->. reflexivity. }
    rewrite <- Hn. exact H.
  - exfalso. assert ((present APP_WINDOW 0 s).1 = Ok (MkCommitId 2)) as H0 by (vm_compute; reflexivity).
    rewrite E in H0. discriminate H0.
Defined.
