(* ===== verification/Interaction.v ===== *)
(** Who may do what to whom: the shell's grant, claimed chords, the modifiers they are matched
    against, and where a moving pointer leaves the seat. *)
From S2P Require Import Prelude.
From S2P Require Import BTree.
From S2P Require Import Vocabulary.
From S2P Require Import Interface.
From S2P Require Import Wire.
From S2P Require Import Payloads.
From S2P Require Import Model.
From S2P Require Import Registry.
From S2P Require Import Outputs.
From S2P Require Import State.
From S2P Require Import Queue.
From S2P Require Import Objects.
From S2P Require Import Destruction.
From S2P Require Import Surfaces.
From S2P Require Import Input.
From S2P Require Import Shell.
From S2P Require Import Dispatch.
From S2P Require Import Invariant.
From S2P Require Import Preserved.
From S2P Require Import Cascade.
From S2P Require Import Desk.

(** * The shell *)

Lemma shell_target_refused shell h s :
  holds_capability shell ShellControlCap s = false → shell_target shell h s = Err NotGranted.
Proof. intros Hn. unfold shell_target. by rewrite Hn. Qed.

Lemma shell_surface_refused shell h s :
  holds_capability shell ShellControlCap s = false → shell_surface shell h s = Err NotGranted.
Proof. intros Hn. unfold shell_surface. by rewrite shell_target_refused. Qed.

(** Without the grant a shell learns nothing: whatever it asks of whatever handle, live, gone or
    never issued, the answer is the same refusal, and nothing changes and nobody is told anything.
    With it, a handle that names no window is what it is told about. *)
Theorem shell_needs_grant (shell : ConnectionId) (h : ToplevelHandle) (s : CompositorState) :
  (holds_capability shell ShellControlCap s = false →
   (∀ size state, shell_configure shell h size state s = (Err NotGranted, s)) ∧
   shell_close shell h s = (Err NotGranted, s) ∧
   (∀ p, shell_place shell h p s = (Err NotGranted, s)) ∧
   shell_raise shell h s = (Err NotGranted, s) ∧
   shell_focus shell SEAT_ONE h s = (Err NotGranted, s) ∧
   (∀ control, shell_grab shell SEAT_ONE h control s = (Err NotGranted, s))) ∧
  (holds_capability shell ShellControlCap s = true → cs_toplevels s !! h = None →
   shell_target shell h s = Err (UnknownHandle h)).
Proof.
  split.
  - intros Hn. pose proof (shell_target_refused shell h s Hn) as Ht.
    pose proof (shell_surface_refused shell h s Hn) as Hs.
    split_and!; intros; unfold shell_configure, shell_close, shell_place, shell_raise, shell_focus,
      shell_grab; rewrite ?ST_bind_run; cbn [reads lift]; rewrite ?ST_bind_run; cbn [reads];
      by rewrite ?Ht, ?Hs.
  - intros Hg Hh. unfold shell_target. by rewrite Hg, Hh.
Qed.

Lemma shell_needs_grant_witness :
  holds_capability APP ShellControlCap desk = false ∧
  shell_close APP (MkToplevelHandle 1) desk = (Err NotGranted, desk) ∧
  shell_close APP (MkToplevelHandle 99) desk = (Err NotGranted, desk).
Proof.
  assert (holds_capability APP ShellControlCap desk = false) as Hn by (vm_compute; reflexivity).
  split; [exact Hn|]. split.
  - exact (proj1 (proj2 (proj1 (shell_needs_grant APP (MkToplevelHandle 1) desk) Hn))).
  - exact (proj1 (proj2 (proj1 (shell_needs_grant APP (MkToplevelHandle 99) desk) Hn))).
Defined.

(** * Claimed chords *)

(** A chord has one holder: a claim is taken only from a live manager, while the table has room,
    and only of a chord nobody has claimed at that seat; a refusal changes nothing, and taking one
    leaves every other claim as it was. *)
Theorem register_shortcut_outcome (c : ConnectionId) (manager : ObjectId) (shortcut : Z)
    (seat : SeatId) (chord : Chord) (s : CompositorState) :
  let (answer, s') := register_shortcut c manager shortcut seat chord s in
  (answer = Ok tt ↔
     expect_kind c manager KShortcuts s = Ok tt ∧
     Z.of_nat (size (cs_shortcuts s)) < MAX_SHORTCUTS ∧ cs_shortcuts s !! (seat, chord) = None) ∧
  (answer = Ok tt → cs_shortcuts s' =
     <[(seat, chord) := MkShortcutClaim c manager shortcut]> (cs_shortcuts s)) ∧
  (answer ≠ Ok tt → s' = s).
Proof.
  unfold register_shortcut. rewrite ST_bind_run. cbn [reads].
  destruct (expect_kind c manager KShortcuts s) as [[]|e] eqn:Ee; [|split_and!; naive_solver].
  rewrite ST_bind_run. cbn [gets].
  destruct (_ <=? _) eqn:El; [rewrite Z.leb_le in El|rewrite Z.leb_gt in El].
  - split_and!; [|done|done]. split; [done|]. intros (_ & ? & _). lia.
  - destruct (cs_shortcuts s !! (seat, chord)) as [claim|] eqn:Ec.
    + split_and!; [|done|done]. split; [done|]. intros (_ & _ & ?). done.
    + by split_and!.
Qed.

(** The keyboard, through whatever an event sets off. *)
Definition keyboard_is (k : KeyboardRouting) (s : CompositorState) : Prop := keyboard_of s = k.

#[export] Instance keyboard_is_stable k : Teardown_stable (keyboard_is k).
Proof. by split. Qed.

Lemma set_seat_keyboard_twice k k' s :
  set_seat_keyboard k' (set_seat_keyboard k s) = set_seat_keyboard k' s.
Proof. reflexivity. Qed.

(** A key that completes a claimed chord goes to the holder alone, press and release: the press is
    told to the holder's manager and to nobody else, the key counts as held and as consumed, and its
    release is told to nobody, whatever has been claimed, focused or closed in between. *)
Theorem claimed_key_swallowed (key : PhysicalKey) (t t' : Z) (s : CompositorState)
    (claim : ShortcutClaim) (Hn : key ∉ kr_held (keyboard_of s))
    (Hroom : Z.of_nat (size (kr_held (keyboard_of s))) < MAX_HELD_KEYS) :
  let k := MkKeyboardRouting (modifiers_after key true (kr_modifiers (keyboard_of s)))
             ({[ key ]} ∪ kr_held (keyboard_of s)) (kr_consumed (keyboard_of s)) in
  claimed key (set_seat_keyboard k s) = Some claim →
  let pressed := next_serial (set_seat_keyboard (set_kr_consumed ({[ key ]} ∪ kr_consumed k) k) s) in
  key_event key true t s =
    push_event (sc_holder claim) (sc_manager claim)
      (EvShortcutTriggered (sc_shortcut claim) SEAT_ONE (serial_of pressed) t (epoch_of pressed))
      pressed ∧
  ∀ later, keyboard_of later = keyboard_of (key_event key true t s) →
    let released := key_event key false t' later in
    cs_events released = cs_events later ∧ cs_connections released = cs_connections later ∧
    key ∉ kr_held (keyboard_of released) ∧ key ∉ kr_consumed (keyboard_of released).
Proof.
  cbv zeta. set (k := MkKeyboardRouting _ _ _). intros Hc.
  assert (key_event key true t s =
    push_event (sc_holder claim) (sc_manager claim)
      (EvShortcutTriggered (sc_shortcut claim) SEAT_ONE
        (serial_of (next_serial (set_seat_keyboard (set_kr_consumed ({[ key ]} ∪ kr_consumed k) k) s)))
        t (epoch_of (next_serial (set_seat_keyboard (set_kr_consumed ({[ key ]} ∪ kr_consumed k) k) s))))
      (next_serial (set_seat_keyboard (set_kr_consumed ({[ key ]} ∪ kr_consumed k) k) s))) as Hp.
  { unfold key_event at 1. cbv zeta. unfold held_after at 1. rewrite (proj2 (Z.ltb_lt _ _) Hroom).
    rewrite (bool_decide_eq_false_2 _ Hn). cbn [negb andb].
    change (set_kr_modifiers _ _) with k. rewrite Hc. rewrite set_seat_keyboard_twice. reflexivity. }
  split; [exact Hp|]. intros later Hl.
  assert (keyboard_of later = set_kr_consumed ({[ key ]} ∪ kr_consumed k) k) as Hk.
  { rewrite Hl, Hp. by apply (kept_push (keyboard_is _)). }
  unfold key_event. cbv zeta. rewrite Hk. unfold held_after. cbn [kr_held set_kr_consumed k].
  rewrite bool_decide_eq_true_2 by set_solver. cbv beta iota zeta.
  cbn [negb andb kr_consumed kr_modifiers set_kr_modifiers set_kr_held set_kr_consumed].
  rewrite bool_decide_eq_true_2 by set_solver. cbn. set_solver.
Qed.

(** Meta is held, and then Q. *)
Definition meta_held : CompositorState :=
  call (CallKey (MkPhysicalKey Usage.LEFT_META) true 1) quiet_desk.

Lemma claimed_key_swallowed_witness :
  let released := calls [CallKey (MkPhysicalKey Usage.Q) true 2; CallKey (MkPhysicalKey Usage.Q) false 3]
    meta_held in
  cs_events (key_event (MkPhysicalKey Usage.Q) true 2 meta_held) =
    [MkEvent SHELL (MkObjectId 3) (EvShortcutTriggered 7 SEAT_ONE 1 2 0)] ∧
  cs_events released = cs_events (key_event (MkPhysicalKey Usage.Q) true 2 meta_held).
Proof.
  cbv zeta. split; [vm_compute; reflexivity|].
  assert (MkPhysicalKey Usage.Q ∉ kr_held (keyboard_of meta_held)) as Hn
    by (apply (bool_decide_unpack _); vm_compute; exact I).
  assert (Z.of_nat (size (kr_held (keyboard_of meta_held))) < MAX_HELD_KEYS) as Hr
    by (vm_compute; reflexivity).
  refine (proj1 (proj2 (claimed_key_swallowed (MkPhysicalKey Usage.Q) 2 3 meta_held
    (MkShortcutClaim SHELL (MkObjectId 3) 7) Hn Hr _) _ eq_refl)).
  vm_compute. reflexivity.
Defined.

(** A modifier held twice is lost at the first release: with both Meta keys held, letting one go
    clears the modifier although the other is still down, and the chord they would complete is no
    longer recognised. *)
Theorem modifier_lost_at_first_release :
  let s := calls [CallKey (MkPhysicalKey Usage.LEFT_META) true 1;
                  CallKey (MkPhysicalKey Usage.RIGHT_META) true 2;
                  CallKey (MkPhysicalKey Usage.LEFT_META) false 3] quiet_desk in
  reachable s ∧ btree_elements (kr_held (keyboard_of s)) = [MkPhysicalKey Usage.RIGHT_META] ∧
  Modifiers_contains (kr_modifiers (keyboard_of s)) MOD_META = false ∧
  claimed (MkPhysicalKey Usage.Q) s = None ∧
  claimed (MkPhysicalKey Usage.Q) meta_held = Some (MkShortcutClaim SHELL (MkObjectId 3) 7).
Proof.
  cbv zeta. split; [apply reachable_calls, quiet_desk_reachable|]. split_and!; vm_compute; reflexivity.
Qed.

(** * The pointer *)

(** The routing world, through whatever an event sets off. *)
Definition routing_is (r : SeatRouting) (s : CompositorState) : Prop := cs_seat s = r.

#[export] Instance routing_is_stable r : Teardown_stable (routing_is r).
Proof. by split. Qed.

Lemma seat_to_pointers c e s : cs_seat (send_to_pointers c e s) = cs_seat s.
Proof. by apply (kept_push_each (routing_is _)). Qed.

Lemma pointer_enter_routing key p s : pointer_of (send_pointer_enter key p s) = pointer_of s.
Proof. unfold send_pointer_enter, pointer_of. cbv zeta. by rewrite seat_to_pointers. Qed.
Lemma pointer_leave_routing key s : pointer_of (send_pointer_leave key s) = pointer_of s.
Proof. unfold send_pointer_leave, pointer_of. cbv zeta. by rewrite seat_to_pointers. Qed.
Lemma pointer_motion_routing key p t s : pointer_of (send_pointer_motion key p t s) = pointer_of s.
Proof. unfold send_pointer_motion, pointer_of. by rewrite seat_to_pointers. Qed.

Lemma to_target_routing target send s :
  (∀ key s, pointer_of (send key s) = pointer_of s) →
  pointer_of (to_target target send s) = pointer_of s.
Proof. intros Hs. destruct target; [apply Hs|done]. Qed.

Lemma surface_under_seat p r s : surface_under p (set_cs_seat r s) = surface_under p s.
Proof. reflexivity. Qed.

(** The topmost surface whose area holds the point, and nothing else, is under it. *)
Lemma surface_under_topmost p s key :
  surface_under p s = Some key ↔
  ∃ below above area, scene_stack (cs_scene s) = below ++ key :: above ∧
    surface_area key s = Some area ∧ Rect_contains area p = true ∧
    ∀ other area', other ∈ above → surface_area other s = Some area' → Rect_contains area' p = false.
Proof.
  unfold surface_under. split.
  - intros (l1 & l2 & El & Hk & Hl)%list_find_first_Some. rewrite Forall_forall in Hl.
    destruct (surface_area key s) as [area|] eqn:Ea; [|done].
    exists (rev l2), (rev l1), area. split_and!; [|done..|].
    + rewrite <- (rev_involutive (scene_stack _)), El, rev_app_distr. cbn. by rewrite <- app_assoc.
    + intros other area' Ho Hoa. specialize (Hl other). rewrite Hoa in Hl.
      by apply Hl, elem_of_rev.
  - intros (below & above & area & Es & Ea & Hc & Hn).
    rewrite Es, rev_app_distr. cbn. rewrite <- app_assoc. apply list_find_first_app.
    + apply Forall_forall. intros other Ho. rewrite elem_of_rev in Ho.
      destruct (surface_area other s) as [area'|] eqn:E; [|done]. by eapply Hn.
    + by rewrite Ea.
Qed.

(** Where a moving pointer leaves the seat: the position is the one reported; while a shell holds
    the pointer or a button is down the target stays what it was, whatever is under the pointer now;
    otherwise the target is the topmost surface whose area holds the point, as the scene stood before
    anybody was told, and none when no area does. Buttons and the shell's hold are not touched. *)
Theorem pointer_follows (position : Point) (t : Z) (s : CompositorState) :
  let before := pointer_of s in
  let after := pointer_of (move_pointer position t s) in
  pr_position after = position ∧
  pr_buttons_held after = pr_buttons_held before ∧
  pr_shell_grab after = pr_shell_grab before ∧
  (pr_shell_grab before ≠ None ∨ pr_buttons_held before ≠ 0 → pr_target after = pr_target before) ∧
  (pr_shell_grab before = None → pr_buttons_held before = 0 →
   ∀ key, pr_target after = Some key ↔
     ∃ below above area, scene_stack (cs_scene s) = below ++ key :: above ∧
       surface_area key s = Some area ∧ Rect_contains area position = true ∧
       ∀ other area', other ∈ above → surface_area other s = Some area' →
         Rect_contains area' position = false).
Proof.
  cbv zeta. unfold move_pointer. cbv zeta. set (s1 := set_seat_pointer _ s).
  assert (pointer_of s1 = set_pr_position position (pointer_of s)) as E1 by done.
  destruct (pr_shell_grab (pointer_of s1)) as [[c control]|] eqn:Eg.
  - assert (pointer_of (push_event c control (EvShellGrabMotion SEAT_ONE position) s1) =
      pointer_of s1) as Ep.
    { unfold pointer_of. f_equal. by apply (kept_push (routing_is (cs_seat s1))). }
    rewrite Ep, E1. rewrite E1 in Eg. cbn in Eg |- *. split_and!; [done..|congruence].
  - rewrite E1 in Eg. cbn in Eg.
    destruct (pr_buttons_held (pointer_of s1) =? 0) eqn:Eb; cbn [negb];
      [rewrite Z.eqb_eq in Eb|rewrite Z.eqb_neq in Eb]; rewrite E1 in Eb; cbn in Eb.
    + set (s2 := if decide _ then _ else _).
      assert (pointer_of s2 = set_pr_target (surface_under position s)
        (set_pr_position position (pointer_of s))) as E2.
      { unfold s2. change (surface_under position s1) with (surface_under position s).
        case_decide as Ed.
        - rewrite Ed, E1. by destruct (pointer_of s).
        - rewrite to_target_routing by (intros; apply pointer_enter_routing).
          unfold set_target, set_seat_pointer at 1. unfold pointer_of at 1. cbn [sr_pointer set_sr_pointer cs_seat set_cs_seat].
          f_equal. rewrite to_target_routing by (intros; apply pointer_leave_routing). done. }
      rewrite to_target_routing by (intros; apply pointer_motion_routing). rewrite E2. cbn.
      split_and!; [done..| |].
      * intros [|]; congruence.
      * intros _ _ key. apply surface_under_topmost.
    + rewrite to_target_routing by (intros; apply pointer_motion_routing). rewrite E1. cbn.
      split_and!; [done..|congruence].
Qed.

Lemma pointer_follows_witness :
  let over := move_pointer (MkPoint 50 50) 1 quiet_desk in
  pr_target (pointer_of over) = Some APP_WINDOW ∧
  (let pressed := pointer_button 1 true 2 over in
   pr_buttons_held (pointer_of pressed) = 1 ∧
   pr_target (pointer_of (move_pointer (MkPoint 5000 5000) 3 pressed)) = Some APP_WINDOW).
Proof.
  cbv zeta. split; [vm_compute; reflexivity|]. split; [vm_compute; reflexivity|].
  transitivity (pr_target (pointer_of
    (pointer_button 1 true 2 (move_pointer (MkPoint 50 50) 1 quiet_desk)))); [|vm_compute; reflexivity].
  apply (proj1 (proj2 (proj2 (proj2 (pointer_follows (MkPoint 5000 5000) 3 _))))).
  right. vm_compute. discriminate.
Defined.
