(* ===== verification/Pixels.v ===== *)
(** Pixel buffers and the copies between them ([atria-software-output/src/{frame,buffer,error}.rs] and
    the free functions of [output.rs]): packed rows of opaque pixels, the checks a client's buffer
    passes before it is read, and the two copies, out of a client's buffer and onto the frame. *)
From S2P Require Import Prelude.
From S2P Require Import BTree.
From S2P Require Import Vocabulary.
From S2P Require Import Model.

(** [isize::MAX] as a [usize]. *)
Definition isize_max : Z := i64_max.

Definition checked_sub_i64 (a b : Z) : option Z := checked_add_i64 a (- b).
Definition checked_neg_i64 (a : Z) : option Z := checked_sub_i64 0 a.
Definition saturating_add_i64 (a b : Z) : Z := Z.max i64_min (Z.min i64_max (a + b)).
(** [a.clamp(lo, hi)]. *)
Definition clamp_i64 (a lo hi : Z) : Z := Z.max lo (Z.min hi a).

(** * Errors *)

Inductive ValidationError :=
| UnsupportedTransport (transport : BufferTransport)
| ZeroAreaSurface
| ZeroBytesPerPixel
| StrideSmallerThanWidth (stride width : Z)
| StrideTooSmallForPixelRow (stride required : Z)
| BufferTooSmallForDeclaredGeometry (available required : Z)
| BackingStoreTooSmall (available declared : Z)
| ArithmeticOverflow.

Record PixelLayout := MkPixelLayout { bytes_per_pixel : Z }.

#[global] Instance PixelLayout_eq_dec : EqDecision PixelLayout.
Proof. solve_decision. Defined.

Record BufferKey := MkBufferKey { bk_connection : ConnectionId; bk_object : ObjectId }.

#[global] Instance BufferKey_eq_dec : EqDecision BufferKey.
Proof. solve_decision. Defined.
#[global] Instance BufferKey_countable : Countable BufferKey :=
  inj_countable' (λ k, (bk_connection k, bk_object k)) (λ p, MkBufferKey p.1 p.2)
    ltac:(by intros []).

Inductive ComposeError :=
| InvalidOutput (error : ValidationError)
| MissingSurfaceState (surface : SurfaceKey)
| MissingSurfacePosition (surface : SurfaceKey)
| MissingBuffer (buffer : BufferKey)
| MissingBufferDescriptor (buffer : BufferKey)
| BufferDescriptorMismatch (buffer : BufferKey)
| PixelLayoutMismatch (buffer : BufferKey) (expected actual : PixelLayout)
| BufferNotHeld (buffer : BufferKey) (surface : SurfaceKey) (commit : CommitId)
| CommitNotReady (surface : SurfaceKey)
| InvalidBuffer (buffer : BufferKey) (error : ValidationError)
| DamageRectangleOutsideSurface (surface : SurfaceKey) (x y width height : Z)
| GeometryOverflow (surface : SurfaceKey)
| StateChanged (surface : SurfaceKey).

Definition PixelLayout_new (bytes : Z) : result ValidationError PixelLayout :=
  if bytes =? 0 then Err ZeroBytesPerPixel else Ok (MkPixelLayout bytes).

(** * A composed frame *)

Record PixelFrame := MkPixelFrame {
  pf_size : Size;
  pf_stride : Z;
  pf_layout : PixelLayout;
  pf_bytes : list byte;
}.

Definition zeroes (n : Z) : list byte := replicate (Z.to_nat n) Corelib.Init.Byte.x00.

Definition PixelFrame_new (size : Size) (layout : PixelLayout) : result ValidationError PixelFrame :=
  if (size_width size =? 0) || (size_height size =? 0) then Err ZeroAreaSurface
  else
    stride ← ok_or (checked_mul u64_max (size_width size) (bytes_per_pixel layout)) ArithmeticOverflow;
    byte_len ← ok_or (checked_mul u64_max stride (size_height size)) ArithmeticOverflow;
    stride ← ok_or (try_from u32_max stride) ArithmeticOverflow;
    byte_len ← ok_or (try_from usize_max byte_len) ArithmeticOverflow;
    if isize_max <? byte_len then Err ArithmeticOverflow
    else Ok (MkPixelFrame size stride layout (zeroes byte_len)).

Definition set_pf_bytes (bytes : list byte) (f : PixelFrame) : PixelFrame :=
  MkPixelFrame (pf_size f) (pf_stride f) (pf_layout f) bytes.

(** [self.bytes.fill(0)]. *)
Definition PixelFrame_clear (f : PixelFrame) : PixelFrame :=
  set_pf_bytes (zeroes (len (pf_bytes f))) f.

(** * A client's buffer *)

Record SoftwareBuffer := MkSoftwareBuffer {
  sb_descriptor : BufferDescriptor;
  sb_layout : PixelLayout;
  sb_bytes : list byte;
}.

#[global] Instance BufferDescriptor_eq_dec : EqDecision BufferDescriptor.
Proof. solve_decision. Defined.

(** The same checks twice in the source: [validate_descriptor] when a buffer is made,
    [validate_for_layout] when it is read. *)
Definition validate_descriptor (d : BufferDescriptor) (layout : PixelLayout) (backing_len : Z)
    : result ValidationError unit :=
  let width := size_width (bd_size d) in
  let height := size_height (bd_size d) in
  if decide (bd_transport d ≠ ShmTransport) then Err (UnsupportedTransport (bd_transport d))
  else if (width =? 0) || (height =? 0) then Err ZeroAreaSurface
  else if bd_stride d <? width then Err (StrideSmallerThanWidth (bd_stride d) width)
  else
    row_bytes ← ok_or (checked_mul u64_max width (bytes_per_pixel layout)) ArithmeticOverflow;
    if bd_stride d <? row_bytes then Err (StrideTooSmallForPixelRow (bd_stride d) row_bytes)
    else
      required ← ok_or (prefix ← checked_mul u64_max (height - 1) (bd_stride d);
                        checked_add u64_max prefix row_bytes) ArithmeticOverflow;
      if bd_byte_len d <? required
      then Err (BufferTooSmallForDeclaredGeometry (bd_byte_len d) required)
      else if match try_from u64_max backing_len with
              | Some length => length <? bd_byte_len d
              | None => true
              end
      then Err (BackingStoreTooSmall backing_len (bd_byte_len d))
      else Ok tt.

Definition validate_for_layout := validate_descriptor.

Definition SoftwareBuffer_new (d : BufferDescriptor) (layout : PixelLayout) (bytes : list byte)
    : result ValidationError SoftwareBuffer :=
  _ ← validate_descriptor d layout (len bytes); mret (MkSoftwareBuffer d layout bytes).

Abbreviation BufferStore := (gmap BufferKey SoftwareBuffer).

Definition BufferStore_insert (key : BufferKey) (b : SoftwareBuffer) (store : BufferStore)
    : option SoftwareBuffer * BufferStore := (store !! key, <[ key := b ]> store).
Definition BufferStore_remove (key : BufferKey) (store : BufferStore)
    : option SoftwareBuffer * BufferStore := (store !! key, delete key store).
Definition BufferStore_get (store : BufferStore) (key : BufferKey) : option SoftwareBuffer :=
  store !! key.

(** * The checks of one read *)

(** Whether a damage rectangle lies inside the surface. *)
Definition damage_inside (size : Size) (rect : Rect) : bool :=
  (0 <=? rect_x rect) && (0 <=? rect_y rect) &&
  match (x ← try_from u64_max (rect_x rect); checked_add u64_max x (rect_width rect)) with
  | Some edge => edge <=? size_width size | None => false end &&
  match (y ← try_from u64_max (rect_y rect); checked_add u64_max y (rect_height rect)) with
  | Some edge => edge <=? size_height size | None => false end.

Fixpoint validate_damage (surface : SurfaceKey) (size : Size) (damage : list Damage)
    : result ComposeError unit :=
  match damage with
  | [] => Ok tt
  | DamageFull :: rest => validate_damage surface size rest
  | DamageRect rect :: rest =>
      if damage_inside size rect then validate_damage surface size rest
      else Err (DamageRectangleOutsideSurface surface (rect_x rect) (rect_y rect)
                  (rect_width rect) (rect_height rect))
  end.

Definition output_overflow : ComposeError := InvalidOutput ArithmeticOverflow.

Definition tight_stride (size : Size) (layout : PixelLayout) : result ComposeError Z :=
  stride ← ok_or (checked_mul u64_max (size_width size) (bytes_per_pixel layout)) output_overflow;
  ok_or (try_from u32_max stride) output_overflow.

Definition tight_byte_len (size : Size) (layout : PixelLayout) : result ValidationError Z :=
  stride ← ok_or (checked_mul u64_max (size_width size) (bytes_per_pixel layout)) ArithmeticOverflow;
  length ← ok_or (checked_mul u64_max stride (size_height size)) ArithmeticOverflow;
  length ← ok_or (try_from usize_max length) ArithmeticOverflow;
  if isize_max <? length then Err ArithmeticOverflow else Ok length.

(** * Copying *)

(** [destination.get_mut(a..b)] and [copy_from_slice], for as many bytes as the range has. *)
Definition write_range (a b : Z) (bytes : list byte) : ST (list byte) ComposeError unit :=
  λ destination,
  match get_range destination a b with
  | Some _ => (Ok tt, put_range destination a bytes)
  | None => (Err output_overflow, destination)
  end.

Definition copy_range (source : list byte) (source_start destination_start length : Z)
    : ST (list byte) ComposeError unit :=
  source_end ← lift (ok_or (checked_add u64_max source_start length) output_overflow);
  destination_end ← lift (ok_or (checked_add u64_max destination_start length) output_overflow);
  source_range ← lift (ok_or (a ← try_from usize_max source_start;
                              b ← try_from usize_max source_end; Some (a, b)) output_overflow);
  destination_range ← lift (ok_or (a ← try_from usize_max destination_start;
                                   b ← try_from usize_max destination_end; Some (a, b))
                              output_overflow);
  bytes ← lift (ok_or (get_range source source_range.1 source_range.2)
    (InvalidOutput (BufferTooSmallForDeclaredGeometry (len source) source_range.2)));
  write_range destination_range.1 destination_range.2 bytes.

(** [for row in from..from + n { body(row)?; }]. *)
Fixpoint for_rows {S E} (n : nat) (from : Z) (body : Z → ST S E unit) : ST S E unit :=
  match n with
  | O => mret tt
  | Datatypes.S n => _ ← body from; for_rows n (from + 1) body
  end.

(** Where a row's pixels start: [(y + row) * stride + x * pixel_bytes]. *)
Definition row_start (y row stride x pixel_bytes : Z) : option Z :=
  line ← checked_add u64_max y row;
  offset ← checked_mul u64_max line stride;
  x ← checked_mul u64_max x pixel_bytes;
  checked_add u64_max offset x.

Definition copy_rect (source : list byte) (source_stride destination_stride : Z)
    (layout : PixelLayout) (rect : Rect) : ST (list byte) ComposeError unit :=
  x ← lift (ok_or (try_from u64_max (rect_x rect)) output_overflow);
  y ← lift (ok_or (try_from u64_max (rect_y rect)) output_overflow);
  let pixel_bytes := bytes_per_pixel layout in
  row_bytes ← lift (ok_or (checked_mul u64_max (rect_width rect) pixel_bytes) output_overflow);
  for_rows (Z.to_nat (rect_height rect)) 0 (λ row,
    source_start ← lift (ok_or (row_start y row source_stride x pixel_bytes) output_overflow);
    destination_start ←
      lift (ok_or (row_start y row destination_stride x pixel_bytes) output_overflow);
    copy_range source source_start destination_start row_bytes).

(** * Onto the frame *)

(** What the compositor keeps of a surface: its pixels, tightly packed. *)
Record SurfaceImage := MkSurfaceImage {
  im_commit : option CommitId;
  im_size : Size;
  im_bytes : list byte;
}.

Definition checked_origin (surface : SurfaceKey) (position offset : Point)
    : result ComposeError (Z * Z) :=
  x ← ok_or (checked_add_i64 (point_x position) (point_x offset)) (GeometryOverflow surface);
  y ← ok_or (checked_add_i64 (point_y position) (point_y offset)) (GeometryOverflow surface);
  mret (x, y).

(** The visible part along one axis, in the surface's own coordinates. *)
Definition span (origin extent limit : Z) : option (Z * Z) :=
  first ← checked_neg_i64 origin;
  last ← checked_sub_i64 limit origin;
  Some (clamp_i64 first 0 extent, clamp_i64 last 0 extent).

(** [i64] coordinates to a byte offset: [checked_add], [u64::try_from], [checked_mul]. *)
Definition scaled (a b by_ : Z) : option Z :=
  z ← checked_add_i64 a b;
  z ← try_from u64_max z;
  checked_mul u64_max z by_.

Definition blit_rows (image : SurfaceImage) (overflow : ComposeError)
    (origin_y source_stride destination_stride source_x destination_x row_bytes row : Z)
    : ST (list byte) ComposeError unit :=
  source_start ← lift (ok_or (y ← try_from u64_max row;
                              y ← checked_mul u64_max y source_stride;
                              checked_add u64_max y source_x) overflow);
  destination_start ← lift (ok_or (y ← scaled origin_y row destination_stride;
                                   checked_add u64_max y destination_x) overflow);
  copy_range (im_bytes image) source_start destination_start row_bytes.

(** [blit_surface] once the origin is known, over the frame's bytes. *)
Definition blit_at (surface : SurfaceKey) (image : SurfaceImage) (origin : Z * Z)
    (frame_size : Size) (frame_stride : Z) (layout : PixelLayout)
    : ST (list byte) ComposeError unit :=
  let overflow := GeometryOverflow surface in
  let pixel_bytes := bytes_per_pixel layout in
  source_stride ← lift (ok_or (checked_mul u64_max (size_width (im_size image)) pixel_bytes) overflow);
  xs ← lift (ok_or (span origin.1 (size_width (im_size image)) (size_width frame_size)) overflow);
  ys ← lift (ok_or (span origin.2 (size_height (im_size image)) (size_height frame_size)) overflow);
  if (xs.2 <=? xs.1) || (ys.2 <=? ys.1) then mret tt
  else
    row_bytes ← lift (ok_or (columns ← try_from u64_max (xs.2 - xs.1);
                             checked_mul u64_max columns pixel_bytes) overflow);
    source_x ← lift (ok_or (x ← try_from u64_max xs.1; checked_mul u64_max x pixel_bytes) overflow);
    destination_x ← lift (ok_or (scaled origin.1 xs.1 pixel_bytes) overflow);
    for_rows (Z.to_nat (ys.2 - ys.1)) ys.1
      (blit_rows image overflow origin.2 source_stride frame_stride source_x destination_x row_bytes).

Definition on_bytes {E A} (m : ST (list byte) E A) : ST PixelFrame E A := λ f,
  let '(r, bytes) := m (pf_bytes f) in (r, set_pf_bytes bytes f).

Definition blit_surface (surface : SurfaceKey) (image : SurfaceImage) (position offset : Point)
    : ST PixelFrame ComposeError unit :=
  origin ← lift (checked_origin surface position offset);
  frame_size ← gets pf_size;
  frame_stride ← gets pf_stride;
  layout ← gets pf_layout;
  on_bytes (blit_at surface image origin frame_size frame_stride layout).

(** * What a copy writes *)

(** The byte at an offset. *)
Definition byte_at (l : list byte) (i : Z) : option byte := l !! Z.to_nat i.

(** [n] bytes of [source] from [ss] on have gone to [ds] on; nothing else has changed. *)
Definition copied (source : list byte) (ss ds n : Z) (before after : list byte) : Prop :=
  len after = len before ∧
  ∀ i, 0 ≤ i → byte_at after i =
    if decide (ds ≤ i < ds + n) then byte_at source (ss + (i - ds)) else byte_at before i.

Lemma try_from_ok max a : 0 ≤ a ≤ max → try_from max a = Some a.
Proof.
  intros [H1 H2]. unfold try_from.
  by rewrite (proj2 (Z.leb_le _ _) H1), (proj2 (Z.leb_le _ _) H2).
Qed.
Lemma checked_mul_ok max a b : a * b ≤ max → checked_mul max a b = Some (a * b).
Proof. intros H. unfold checked_mul. by rewrite (proj2 (Z.leb_le _ _) H). Qed.
Lemma checked_mul_inv max a b c : checked_mul max a b = Some c → c = a * b ∧ a * b ≤ max.
Proof. unfold checked_mul. case_match; [|done]. intros [= <-]. rewrite Z.leb_le in *. auto. Qed.
Lemma checked_add_i64_ok a b : i64_min ≤ a + b ≤ i64_max → checked_add_i64 a b = Some (a + b).
Proof.
  intros [H1 H2]. unfold checked_add_i64.
  by rewrite (proj2 (Z.leb_le _ _) H1), (proj2 (Z.leb_le _ _) H2).
Qed.

Ltac some_bind :=
  match goal with
  | |- context [@mbind option _ _ _ ?f (Some ?a)] => change (Some a ≫= f) with (f a); cbv beta
  end.

(** Runs the checks of a copy that arithmetic shows to succeed. *)
Ltac checks :=
  repeat first
    [ rewrite ST_lift_bind | some_bind | progress cbn [ok_or fst snd]
    | rewrite checked_add_Some by width_lia | rewrite try_from_ok by width_lia
    | rewrite checked_mul_ok by (unfold_widths; nia) ].

Lemma copy_range_run source ss ds n dst :
  0 ≤ ss → 0 ≤ ds → 0 ≤ n → ss + n ≤ len source → ds + n ≤ len dst →
  len source ≤ u64_max → len dst ≤ u64_max →
  ∃ after, copy_range source ss ds n dst = (Ok tt, after) ∧ copied source ss ds n dst after.
Proof.
  intros Hss Hds Hn Hs Hd Hus Hud. unfold copy_range, usize_max.
  destruct (get_range_ok source ss (ss + n)) as (r & Hr & Hlr); [lia..|].
  destruct (get_range_ok dst ds (ds + n)) as (r' & Hr' & _); [lia..|].
  checks. rewrite Hr. checks.
  unfold write_range. rewrite Hr'. exists (put_range dst ds r). split; [reflexivity|].
  split.
  - unfold len. rewrite length_put_range by lia. reflexivity.
  - intros i Hi. unfold byte_at. rewrite put_range_lookup by lia.
    replace (ds + len r) with (ds + n) by lia. case_decide; [|done].
    rewrite (get_range_lookup _ _ _ _ _ Hr) by lia. done.
Qed.

(** Rows of [n] bytes, [S] apart in the source and [D] apart in the destination. *)
Definition rows_copied (source : list byte) (s0 S d0 D n h : Z) (before after : list byte) : Prop :=
  len after = len before ∧
  (∀ r k, 0 ≤ r < h → 0 ≤ k < n →
     byte_at after (d0 + r * D + k) = byte_at source (s0 + r * S + k)) ∧
  (∀ i, 0 ≤ i → (∀ r k, 0 ≤ r < h → 0 ≤ k < n → i ≠ d0 + r * D + k) →
     byte_at after i = byte_at before i).

Lemma rows_copied_cons source s0 S d0 D n h before mid after :
  0 ≤ d0 → 0 ≤ n ≤ D → 0 ≤ h → copied source s0 d0 n before mid →
  rows_copied source (s0 + S) S (d0 + D) D n h mid after →
  rows_copied source s0 S d0 D n (Z.succ h) before after.
Proof.
  intros Hd0 Hn Hh (Hlen & Hmid) (Hlen' & Hin & Hout). split; [lia|]. split.
  - intros r k Hr Hk. destruct (decide (r = 0)) as [->|Hr0].
    + rewrite Hout; [|lia|intros; nia]. rewrite Hmid by nia.
      rewrite decide_True by lia. f_equal. lia.
    + specialize (Hin (r - 1) k).
      replace (d0 + r * D + k) with (d0 + D + (r - 1) * D + k) by lia.
      replace (s0 + r * S + k) with (s0 + S + (r - 1) * S + k) by lia. apply Hin; lia.
  - intros i Hi Hn'. rewrite Hout; [|done|].
    + rewrite Hmid by done. rewrite decide_False; [done|]. intros Hd'.
      apply (Hn' 0 (i - d0)); lia.
    + intros r k Hr Hk ->. apply (Hn' (r + 1) k); lia.
Qed.

(** Rows that were all copied, whatever the error the others end in. *)
Lemma for_rows_ok {E} source S D n (body : Z → ST (list byte) E unit) (h : nat) from before after :
  0 ≤ from → 0 ≤ n ≤ D →
  (∀ r l l', from ≤ r → body r l = (Ok tt, l') → copied source (r * S) (r * D) n l l') →
  for_rows h from body before = (Ok tt, after) →
  rows_copied source (from * S) S (from * D) D n (Z.of_nat h) before after.
Proof.
  intros Hfrom Hn Hb. revert from before Hfrom Hb. induction h as [|h IH]; intros from before Hfrom Hb.
  { intros [= <-]. split; [done|]. split; [lia|done]. }
  cbn [for_rows]. rewrite ST_bind_run. destruct (body from before) as [[[]|e] mid] eqn:Ebody; [|done].
  intros Hrest. rewrite Nat2Z.inj_succ. apply (rows_copied_cons _ _ _ _ _ _ _ _ mid); [nia|done|lia|by apply Hb|].
  replace (from * S + S) with ((from + 1) * S) by lia. replace (from * D + D) with ((from + 1) * D) by lia.
  apply IH; [lia| |done]. intros r l l' Hr. apply Hb. lia.
Qed.

(** Each of the rows was copied. *)
Lemma for_rows_each {St E} (body : Z → ST St E unit) (h : nat) from before after r :
  for_rows h from body before = (Ok tt, after) → from ≤ r < from + Z.of_nat h →
  ∃ l l', body r l = (Ok tt, l').
Proof.
  revert from before. induction h as [|h IH]; intros from before; [lia|]. cbn [for_rows]. rewrite ST_bind_run.
  destruct (body from before) as [[[]|e] mid] eqn:Ebody; [|done]. intros Hrest Hr.
  destruct (decide (r = from)) as [->|]; [by exists before, mid|]. apply (IH (from + 1) mid); [done|lia].
Qed.

Lemma for_rows_copied source S D n (h : nat) body from s0 d0 dst :
  0 ≤ s0 → 0 ≤ d0 → 0 ≤ n ≤ D → 0 ≤ S →
  (Z.of_nat h > 0 → s0 + (Z.of_nat h - 1) * S + n ≤ len source) →
  (Z.of_nat h > 0 → d0 + (Z.of_nat h - 1) * D + n ≤ len dst) →
  len source ≤ u64_max → len dst ≤ u64_max →
  (∀ r l, 0 ≤ r < Z.of_nat h → body (from + r) l = copy_range source (s0 + r * S) (d0 + r * D) n l) →
  ∃ after, for_rows h from body dst = (Ok tt, after) ∧
    rows_copied source s0 S d0 D n (Z.of_nat h) dst after.
Proof.
  revert from s0 d0 dst. induction h as [|h IH]; intros from s0 d0 dst Hs0 Hd0 Hn HS Hs Hd Hus Hud Hb.
  { exists dst. split; [done|]. split; [done|]. split; [lia|done]. }
  rewrite Nat2Z.inj_succ in *. specialize (Hs ltac:(lia)). specialize (Hd ltac:(lia)).
  assert (0 ≤ Z.of_nat h * S ∧ 0 ≤ Z.of_nat h * D) as [HhS HhD] by nia.
  replace (Z.succ (Z.of_nat h) - 1) with (Z.of_nat h) in * by lia.
  cbn [for_rows]. rewrite ST_bind_run.
  pose proof (Hb 0 dst) as Hb0. rewrite !Z.mul_0_l, !Z.add_0_r in Hb0. rewrite Hb0 by lia.
  destruct (copy_range_run source s0 d0 n dst) as (mid & -> & Hlen & Hmid); [lia..|].
  destruct (IH (from + 1) (s0 + S) (d0 + D) mid) as (after & -> & Hrest);
    [lia|lia|lia|lia|lia|rewrite Hlen; lia|lia|rewrite Hlen; lia| |].
  { intros r l Hr. specialize (Hb (r + 1) l). replace (from + 1 + r) with (from + (r + 1)) by lia.
    rewrite Hb by lia. f_equal; lia. }
  exists after. split; [done|]. apply (rows_copied_cons _ _ _ _ _ _ _ _ mid); [done|done|lia|done|done].
Qed.

(** * Pixels *)

(** Byte [k] of the pixel at column [x] of row [y]. *)
Definition pixel (l : list byte) (stride bpp x y k : Z) : option byte :=
  byte_at l (y * stride + x * bpp + k).

Lemma row_unique D y c y' c' :
  0 ≤ c < D → 0 ≤ c' < D → y * D + c = y' * D + c' → y = y' ∧ c = c'.
Proof. intros. assert (y = y') by nia. nia. Qed.

(** Copying rows of pixels is copying pixels. *)
Lemma rows_pixels source s0 S D bpp x0 y0 w h before after :
  0 < bpp → 0 ≤ x0 → 0 ≤ y0 → 0 ≤ w → (x0 + w) * bpp ≤ D →
  rows_copied source s0 S (y0 * D + x0 * bpp) D (w * bpp) h before after →
  ∀ x y k, 0 ≤ x → (x + 1) * bpp ≤ D → 0 ≤ y → 0 ≤ k < bpp →
    pixel after D bpp x y k =
      if decide (x0 ≤ x < x0 + w ∧ y0 ≤ y < y0 + h)
      then byte_at source (s0 + (y - y0) * S + (x - x0) * bpp + k)
      else pixel before D bpp x y k.
Proof.
  intros Hb Hx0 Hy0 Hw HD (_ & Hin & Hout) x y k Hx HxD Hy Hk. unfold pixel. case_decide as Hd.
  - specialize (Hin (y - y0) ((x - x0) * bpp + k)).
    replace (y * D + x * bpp + k) with
      (y0 * D + x0 * bpp + (y - y0) * D + ((x - x0) * bpp + k)) by lia.
    rewrite Hin; [f_equal; lia|lia|nia].
  - apply Hout; [nia|]. intros r c Hr Hc He.
    destruct (row_unique D y (x * bpp + k) (y0 + r) (x0 * bpp + c)) as [-> Hcol]; [nia|nia|lia|].
    apply Hd. split; [|lia]. nia.
Qed.

(** A row starts where it should when the last byte of its picture can be addressed. *)
Lemma row_start_ok y row stride x bpp :
  0 ≤ y → 0 ≤ row → 0 ≤ stride → 0 ≤ x → 0 ≤ bpp → y + row ≤ u64_max →
  (y + row) * stride + x * bpp ≤ u64_max →
  row_start y row stride x bpp = Some ((y + row) * stride + x * bpp).
Proof.
  intros. unfold row_start. assert (0 ≤ (y + row) * stride ∧ 0 ≤ x * bpp) by nia.
  rewrite checked_add_Some by lia. some_bind. rewrite !checked_mul_ok by lia. some_bind.
  some_bind. apply checked_add_Some. lia.
Qed.

(** A picture's geometry: [H] rows of [W] pixels, each row at least as long as its pixels, the last
    as short as that. *)
Record holds_picture (l : list byte) (stride bpp W H : Z) : Prop := {
  hp_bpp : 0 < bpp ≤ u8_max;
  hp_width : 0 < W ≤ u32_max;
  hp_height : 0 < H ≤ u32_max;
  hp_row : W * bpp ≤ stride ≤ u32_max;
  hp_length : (H - 1) * stride + W * bpp ≤ len l;
  hp_fits : len l ≤ u64_max;
}.

Lemma copy_rect_run source sstride dstride layout rect W H dst :
  let bpp := bytes_per_pixel layout in
  holds_picture source sstride bpp W H → holds_picture dst dstride bpp W H →
  0 ≤ rect_x rect → 0 ≤ rect_y rect → 0 ≤ rect_width rect → 0 ≤ rect_height rect →
  rect_x rect + rect_width rect ≤ W → rect_y rect + rect_height rect ≤ H →
  ∃ after, copy_rect source sstride dstride layout rect dst = (Ok tt, after) ∧
    len after = len dst ∧
    ∀ x y k, 0 ≤ x < W → 0 ≤ y < H → 0 ≤ k < bpp →
      pixel after dstride bpp x y k =
        if decide (rect_x rect ≤ x < rect_x rect + rect_width rect ∧
                   rect_y rect ≤ y < rect_y rect + rect_height rect)
        then pixel source sstride bpp x y k else pixel dst dstride bpp x y k.
Proof.
  intros bpp [] [] Hx Hy Hw Hh HW HH. unfold copy_rect. fold bpp.
  assert (rect_x rect * bpp + rect_width rect * bpp ≤ W * bpp) as Hcols by nia.
  assert (0 ≤ rect_x rect * bpp ∧ 0 ≤ rect_width rect * bpp) as [Hxb Hwb] by nia.
  checks.
  destruct (for_rows_copied source sstride dstride (rect_width rect * bpp)
    (Z.to_nat (rect_height rect))
    (λ row, source_start ← lift (ok_or (row_start (rect_y rect) row sstride (rect_x rect) bpp)
                                   output_overflow);
            destination_start ← lift (ok_or (row_start (rect_y rect) row dstride (rect_x rect) bpp)
                                   output_overflow);
            copy_range source source_start destination_start (rect_width rect * bpp))
    0 (rect_y rect * sstride + rect_x rect * bpp) (rect_y rect * dstride + rect_x rect * bpp) dst)
    as (after & Hrun & Hrows).
  1-8: rewrite ?Z2Nat.id by lia; try nia.
  - intros r l Hr. rewrite Z2Nat.id in Hr by lia. rewrite Z.add_0_l.
    assert (0 ≤ (H - 1 - (rect_y rect + r)) * sstride) by nia.
    assert (0 ≤ (H - 1 - (rect_y rect + r)) * dstride) by nia.
    rewrite !row_start_ok by width_lia. checks. f_equal; lia.
  - exists after. split; [exact Hrun|]. rewrite Z2Nat.id in Hrows by lia.
    split; [apply Hrows|]. intros x y k Hx' Hy' Hk.
    assert ((x + 1) * bpp ≤ W * bpp ∧ (rect_x rect + rect_width rect) * bpp ≤ dstride) as [] by nia.
    rewrite (rows_pixels _ _ _ dstride bpp (rect_x rect) (rect_y rect) (rect_width rect)
      (rect_height rect) dst after) by (done || lia).
    case_decide; [|done]. unfold pixel. f_equal. lia.
Qed.

(** A picture stored tightly. *)
Definition tight_picture (l : list byte) (bpp W H : Z) : Prop := holds_picture l (W * bpp) bpp W H.

(** Coordinates whose sums stay far inside an [i64]. *)
Definition near (a : Z) : Prop := - 2 ^ 33 ≤ a ≤ 2 ^ 33.

Lemma span_ok origin extent limit :
  near origin → 0 ≤ extent ≤ u32_max → 0 ≤ limit ≤ u32_max →
  span origin extent limit =
    Some (Z.max 0 (Z.min extent (- origin)), Z.max 0 (Z.min extent (limit - origin))).
Proof.
  unfold near. intros. unfold span, checked_neg_i64, checked_sub_i64.
  rewrite !checked_add_i64_ok by (unfold i64_min, i64_max; width_lia).
  some_bind. some_bind. done.
Qed.

Lemma scaled_ok a b by_ : near a → 0 ≤ b ≤ u32_max → 0 ≤ a + b → 0 ≤ by_ → (a + b) * by_ ≤ u64_max →
  scaled a b by_ = Some ((a + b) * by_).
Proof.
  unfold near. intros. unfold scaled.
  rewrite checked_add_i64_ok by (unfold i64_min, i64_max; width_lia). some_bind.
  rewrite try_from_ok by (unfold u64_max; width_lia). some_bind. by apply checked_mul_ok.
Qed.

(** The visible columns of an axis, in the surface's coordinates and in the frame's. *)
Lemma span_frame o n limit f l :
  f = Z.max 0 (Z.min n (- o)) → l = Z.max 0 (Z.min n (limit - o)) → f < l → 0 ≤ n →
  0 ≤ f ∧ l ≤ n ∧ 0 ≤ o + f ∧ o + l ≤ limit ∧
  ∀ x, 0 ≤ x < limit → o ≤ x < o + n ↔ o + f ≤ x < o + f + (l - f).
Proof. intros -> -> Hlt Hn. split_and!; intros; lia. Qed.

(** A row inside the picture ends before its bytes do. *)
Lemma row_fits y h S n L :
  0 ≤ y < h → 0 ≤ S → (h - 1) * S + n ≤ L → 0 ≤ y * S ∧ y * S + n ≤ L.
Proof. nia. Qed.

(** Columns inside a row keep inside its bytes. *)
Lemma columns_fit f l w bpp : 0 ≤ f ≤ l → l ≤ w → 0 < bpp →
  0 ≤ f * bpp ∧ f * bpp ≤ l * bpp ∧ l * bpp ≤ w * bpp.
Proof. nia. Qed.

(** One image onto the frame: its pixels where it lies, the rest as it was; and it cannot fail. *)
Lemma blit_at_run surface image ox oy size stride layout dst :
  let bpp := bytes_per_pixel layout in
  let w := size_width (im_size image) in let h := size_height (im_size image) in
  tight_picture (im_bytes image) bpp w h →
  holds_picture dst stride bpp (size_width size) (size_height size) → near ox → near oy →
  ∃ after, blit_at surface image (ox, oy) size stride layout dst = (Ok tt, after) ∧
    len after = len dst ∧
    ∀ x y k, 0 ≤ x < size_width size → 0 ≤ y < size_height size → 0 ≤ k < bpp →
      pixel after stride bpp x y k =
        if decide (ox ≤ x < ox + w ∧ oy ≤ y < oy + h)
        then pixel (im_bytes image) (w * bpp) bpp (x - ox) (y - oy) k
        else pixel dst stride bpp x y k.
Proof.
  intros bpp w h [] [] Hox Hoy. unfold blit_at. fold bpp w h. cbn [fst snd].
  rewrite checked_mul_ok by width_lia. cbn [ok_or]. rewrite ST_lift_bind.
  rewrite !span_ok by (done || lia). cbn [ok_or]. rewrite !ST_lift_bind. cbn [fst snd].
  set (xf := Z.max 0 (Z.min w (- ox))). set (xl := Z.max 0 (Z.min w (size_width size - ox))).
  set (yf := Z.max 0 (Z.min h (- oy))). set (yl := Z.max 0 (Z.min h (size_height size - oy))).
  destruct ((xl <=? xf) || (yl <=? yf)) eqn:Hempty.
  { exists dst. split_and!; [done..|]. intros x y k Hx Hy Hk. rewrite decide_False; [done|]. lia. }
  apply orb_false_elim in Hempty as [Hxs%Z.leb_gt Hys%Z.leb_gt].
  destruct (span_frame ox w _ xf xl eq_refl eq_refl Hxs ltac:(lia)) as (? & ? & ? & ? & Hinx).
  destruct (span_frame oy h _ yf yl eq_refl eq_refl Hys ltac:(lia)) as (? & ? & ? & ? & Hiny).
  clearbody xf xl yf yl.
  destruct (columns_fit xf xl w bpp) as (? & ? & ?); [lia..|].
  destruct (columns_fit (ox + xf) (ox + xl) (size_width size) bpp) as (? & ? & ?); [lia..|].
  rewrite scaled_ok by (done || width_lia). checks.
  destruct (for_rows_copied (im_bytes image) (w * bpp) stride ((xl - xf) * bpp) (Z.to_nat (yl - yf))
    (blit_rows image (GeometryOverflow surface) oy (w * bpp) stride (xf * bpp) ((ox + xf) * bpp)
       ((xl - xf) * bpp))
    yf (yf * (w * bpp) + xf * bpp) ((oy + yf) * stride + (ox + xf) * bpp) dst) as (after & Hrun & Hrows).
  1-8: rewrite ?Z2Nat.id by lia; intros;
    destruct (row_fits yf h (w * bpp) _ _ ltac:(lia) ltac:(lia) hp_length0) as [];
    destruct (row_fits (oy + yf) (size_height size) stride _ _ ltac:(lia) ltac:(lia) hp_length1) as [];
    destruct (row_fits (yl - 1) h (w * bpp) _ _ ltac:(lia) ltac:(lia) hp_length0) as [];
    destruct (row_fits (oy + (yl - 1)) (size_height size) stride _ _ ltac:(lia) ltac:(lia) hp_length1) as []; try lia.
  - intros r l Hr. rewrite Z2Nat.id in Hr by lia. unfold blit_rows.
    destruct (row_fits (yf + r) h (w * bpp) _ _ ltac:(lia) ltac:(lia) hp_length0).
    destruct (row_fits (oy + (yf + r)) (size_height size) stride _ _ ltac:(lia) ltac:(lia) hp_length1).
    rewrite scaled_ok by (done || width_lia). checks. f_equal; lia.
  - exists after. split; [exact Hrun|]. rewrite Z2Nat.id in Hrows by lia.
    split; [apply Hrows|]. intros x y k Hx Hy Hk.
    destruct (columns_fit x (x + 1) (size_width size) bpp) as (? & ? & ?); [lia..|].
    rewrite (rows_pixels _ _ _ stride bpp (ox + xf) (oy + yf) (xl - xf) (yl - yf) dst after)
      by (done || lia).
    specialize (Hinx x Hx). specialize (Hiny y Hy).
    repeat case_decide; [unfold pixel; f_equal; lia|lia..|done].
Qed.
