(* ===== verification/Compose.v ===== *)
(** The software output ([atria-software-output/src/output.rs]): reading what clients committed,
    painting a frame out of it, settling the commits it consumed, and saying what changed. *)
From S2P Require Import Prelude.
From S2P Require Import BTree.
From S2P Require Import Vocabulary.
From S2P Require Import Interface.
From S2P Require Import Wire.
From S2P Require Import Payloads.
From S2P Require Import Model.
From S2P Require Import Registry.
From S2P Require Import Outputs.
From S2P Require Import State.
From S2P Require Import Queue.
From S2P Require Import Objects.
From S2P Require Import Surfaces.
From S2P Require Import Pixels.

(** * The output's state *)

Record FrameReport := MkFrameReport {
  fr_timestamp_ns : Z;
  fr_surfaces_composited : Z;
  fr_commits_consumed : Z;
  fr_damage_rectangles_consumed : Z;
  fr_bytes_written : Z;
}.

Definition SPARE_FRAMES : nat := 2.

Record Placement := MkPlacement { pl_rect : Rect; pl_depth : Z }.

#[global] Instance Placement_eq_dec : EqDecision Placement.
Proof. solve_decision. Defined.

(** An [Arc<Frame>]: which one, and what it holds. *)
Record SharedFrame := MkSharedFrame { arc_id : Z; arc_frame : PixelFrame }.

Record SoftwareOutput := MkSoftwareOutput {
  so_size : Size;
  so_layout : PixelLayout;
  so_current : SharedFrame;
  so_spare : list PixelFrame;
  so_retiring : list SharedFrame;
  so_surfaces : gmap SurfaceKey SurfaceImage;
  so_placed : gmap SurfaceKey Placement;
  so_damage : list Rect;
  so_composed_once : bool;
  (** The number the next [Arc::new] gets; a device of the model, which tells [Arc]s apart. *)
  so_next_arc : Z;
}.

Definition set_so_surfaces (x : gmap SurfaceKey SurfaceImage) (r : SoftwareOutput) : SoftwareOutput :=
  MkSoftwareOutput (so_size r) (so_layout r) (so_current r) (so_spare r) (so_retiring r) x
    (so_placed r) (so_damage r) (so_composed_once r) (so_next_arc r).
Definition set_so_spare (x : list PixelFrame) (r : SoftwareOutput) : SoftwareOutput :=
  MkSoftwareOutput (so_size r) (so_layout r) (so_current r) x (so_retiring r) (so_surfaces r)
    (so_placed r) (so_damage r) (so_composed_once r) (so_next_arc r).
Definition set_so_retiring (x : list SharedFrame) (r : SoftwareOutput) : SoftwareOutput :=
  MkSoftwareOutput (so_size r) (so_layout r) (so_current r) (so_spare r) x (so_surfaces r)
    (so_placed r) (so_damage r) (so_composed_once r) (so_next_arc r).
(** [replace(&mut self.current, Arc::new(frame))]. *)
Definition set_so_current (frame : PixelFrame) (r : SoftwareOutput) : SoftwareOutput :=
  MkSoftwareOutput (so_size r) (so_layout r) (MkSharedFrame (so_next_arc r) frame) (so_spare r)
    (so_retiring r) (so_surfaces r) (so_placed r) (so_damage r) (so_composed_once r)
    (so_next_arc r + 1).
Definition set_so_shown (placed : gmap SurfaceKey Placement) (damage : list Rect) (r : SoftwareOutput)
    : SoftwareOutput :=
  MkSoftwareOutput (so_size r) (so_layout r) (so_current r) (so_spare r) (so_retiring r)
    (so_surfaces r) placed damage true (so_next_arc r).

Definition SoftwareOutput_new (size : Size) (layout : PixelLayout)
    : result ValidationError SoftwareOutput :=
  current ← PixelFrame_new size layout;
  spare ← PixelFrame_new size layout;
  mret (MkSoftwareOutput size layout (MkSharedFrame 0 current) [spare] [] ∅ ∅ [] false 1).

Definition frame (self : SoftwareOutput) : PixelFrame := arc_frame (so_current self).
Definition shared_frame (self : SoftwareOutput) : SharedFrame := so_current self.
Definition damage (self : SoftwareOutput) : list Rect := so_damage self.

(** [spare.pop()], or a new frame. *)
Definition take_frame : ST SoftwareOutput ComposeError PixelFrame := λ self,
  match rev (so_spare self) with
  | frame :: rest => (Ok frame, set_so_spare (rev rest) self)
  | [] => (map_err InvalidOutput (PixelFrame_new (so_size self) (so_layout self)), self)
  end.

(** [swap_remove(index)]: the element, and the last one in its place. *)
Definition swap_remove {A} (index : nat) (l : list A) : option (A * list A) :=
  x ← l !! index;
  last ← last l;
  Some (x, take (pred (length l)) (<[ index := last ]> l)).

Section Publish.
(** How many clones of an [Arc] live outside the output. *)
Variable holders : Z → Z.

Definition strong_count (shared : SharedFrame) : Z := 1 + holders (arc_id shared).

(** The loop of [publish], [index] counting down. *)
Fixpoint reclaim (index : nat) (self : SoftwareOutput) : SoftwareOutput :=
  match index with
  | O => self
  | Datatypes.S index =>
      match so_retiring self !! index with
      | Some shared =>
          if negb (strong_count shared =? 1) then reclaim index self
          else
            match swap_remove index (so_retiring self) with
            | Some (shared, rest) =>
                let self := set_so_retiring rest self in
                reclaim index
                  (if (length (so_spare self) <? SPARE_FRAMES)%nat
                   then set_so_spare (so_spare self ++ [arc_frame shared]) self else self)
            | None => self
            end
      | None => self
      end
  end.

(** [while retiring.len() > SPARE_FRAMES { retiring.remove(0); }]. *)
Definition bound_retiring (self : SoftwareOutput) : SoftwareOutput :=
  set_so_retiring (drop (length (so_retiring self) - SPARE_FRAMES) (so_retiring self)) self.

Definition publish (composed : PixelFrame) (self : SoftwareOutput) : SoftwareOutput :=
  let replaced := so_current self in
  let self := set_so_current composed self in
  let self := set_so_retiring (so_retiring self ++ [replaced]) self in
  bound_retiring (reclaim (length (so_retiring self)) self).
End Publish.

(** * Where surfaces lie, and what moved *)

Definition saturating_edge (origin extent limit : Z) : Z :=
  Z.min (saturating_add_i64 origin extent) limit.

(** The part of [size] placed at an origin that lands on the output. *)
Definition clipped (output : Size) (origin : Z * Z) (size : Size) : option Rect :=
  let left := Z.max origin.1 0 in
  let top := Z.max origin.2 0 in
  let right_ := saturating_edge origin.1 (size_width size) (size_width output) in
  let bottom := saturating_edge origin.2 (size_height size) (size_height output) in
  if (right_ <=? left) || (bottom <=? top) then None
  else
    x ← try_from i32_max left;
    y ← try_from i32_max top;
    width ← try_from u32_max (right_ - left);
    height ← try_from u32_max (bottom - top);
    Some (MkRect x y width height).

Definition Origins : Type := list (SurfaceKey * (Z * Z)).

(** The first loop of [note_damage]. *)
Fixpoint placements (output : Size) (images : gmap SurfaceKey SurfaceImage) (depth : Z)
    (origins : Origins) (now : gmap SurfaceKey Placement) : gmap SurfaceKey Placement :=
  match origins with
  | [] => now
  | (key, origin) :: rest =>
      let now :=
        match im_size <$> images !! key with
        | None => now
        | Some size =>
            match clipped output origin size with
            | Some rect => <[ key := MkPlacement rect depth ]> now
            | None => now
            end
        end in
      placements output images (depth + 1) rest now
  end.

(** What one surface of the new frame contributes. *)
Definition moved (before : gmap SurfaceKey Placement) (redrawn : gset SurfaceKey)
    (entry : SurfaceKey * Placement) : list Rect :=
  let '(key, place) := entry in
  match before !! key with
  | Some was =>
      if bool_decide (was = place) && negb (bool_decide (key ∈ redrawn)) then []
      else [pl_rect was; pl_rect place]
  | None => [pl_rect place]
  end.

(** What one surface of the frame before contributes when it has gone. *)
Definition left_behind (now : gmap SurfaceKey Placement) (entry : SurfaceKey * Placement) : list Rect :=
  match now !! entry.1 with Some _ => [] | None => [pl_rect entry.2] end.

Definition note_damage (origins : Origins) (redrawn : gset SurfaceKey) (self : SoftwareOutput)
    : SoftwareOutput :=
  let now := placements (so_size self) (so_surfaces self) 0 origins ∅ in
  let damage :=
    if so_composed_once self
    then (btree_items now ≫= moved (so_placed self) redrawn) ++
         (btree_items (so_placed self) ≫= left_behind now)
    else [MkRect 0 0 (size_width (so_size self)) (size_height (so_size self))] in
  set_so_shown now damage self.

(** * Reading what was committed *)

Definition buffer_state (c : ConnectionId) (id : ObjectId) (s : CompositorState) : option BufferState :=
  bo_state <$> result_ok (buffer c id s).
Definition buffer_descriptor (c : ConnectionId) (id : ObjectId) (s : CompositorState)
    : option BufferDescriptor :=
  bo_descriptor <$> result_ok (buffer c id s).

(** What one pass over the stack has gathered. *)
Record Pass := MkPass {
  pa_active : gset SurfaceKey;
  pa_consumed : list (SurfaceKey * ObjectId * CommitId);
  pa_damage_count : Z;
  pa_origins : Origins;
  pa_redrawn : gset SurfaceKey;
}.

Definition Pass_new : Pass := MkPass ∅ [] 0 [] ∅.

Abbreviation Images := (gmap SurfaceKey SurfaceImage).

Definition whole_rect (size : Size) : Rect := MkRect 0 0 (size_width size) (size_height size).

(** A buffer whose commit may be read: the checks, in the order they are made. *)
Definition readable_buffer (layout : PixelLayout) (s : CompositorState) (buffers : BufferStore)
    (key : SurfaceKey) (snapshot : SurfaceSnapshot) : result ComposeError SoftwareBuffer :=
  ready ← map_err (λ _, StateChanged key) (commit_ready key s);
  if negb ready then Err (CommitNotReady key)
  else
    let c := key_connection key in
    let buffer_key := MkBufferKey c (snap_buffer snapshot) in
    descriptor ← ok_or (buffer_descriptor c (snap_buffer snapshot) s)
                   (MissingBufferDescriptor buffer_key);
    buffer ← ok_or (BufferStore_get buffers buffer_key) (MissingBuffer buffer_key);
    if negb (bool_decide (sb_descriptor buffer = descriptor))
    then Err (BufferDescriptorMismatch buffer_key)
    else if negb (bool_decide (sb_layout buffer = layout))
    then Err (PixelLayoutMismatch buffer_key layout (sb_layout buffer))
    else if negb (bool_decide (buffer_state c (snap_buffer snapshot) s =
                               Some (CompositorHeld key (snap_commit snapshot))))
    then Err (BufferNotHeld buffer_key key (snap_commit snapshot))
    else
      _ ← map_err (InvalidBuffer buffer_key)
            (validate_for_layout descriptor layout (len (sb_bytes buffer)));
      _ ← validate_damage key (bd_size descriptor) (snap_damage snapshot);
      mret buffer.

Definition damage_rect (size : Size) (d : Damage) : Rect :=
  match d with DamageFull => whole_rect size | DamageRect rect => rect end.

(** [for damage in &snapshot.damage { copy_rect(.., &mut image.bytes, ..)?; }]. *)
Fixpoint copy_damage (source : list byte) (source_stride tight : Z) (layout : PixelLayout) (size : Size)
    (damage : list Damage) : ST (list byte) ComposeError unit :=
  match damage with
  | [] => mret tt
  | d :: rest =>
      _ ← copy_rect source source_stride tight layout (damage_rect size d);
      copy_damage source source_stride tight layout size rest
  end.

(** An image's bytes, changed in place, whether or not the change gets to its end. *)
Definition on_image (key : SurfaceKey) (m : ST (list byte) ComposeError unit)
    : ST Images ComposeError unit := λ images,
  match images !! key with
  | None => (Err (MissingSurfaceState key), images)
  | Some image =>
      let '(r, bytes) := m (im_bytes image) in
      (r, <[ key := MkSurfaceImage (im_commit image) (im_size image) bytes ]> images)
  end.

(** [image.commit = commit], where there is one. *)
Definition set_commit (key : SurfaceKey) (commit : option CommitId) (images : Images) : Images :=
  alter (λ image, MkSurfaceImage commit (im_size image) (im_bytes image)) key images.

(** The buffer's pixels into the surface's own image. *)
Definition stage_image (layout : PixelLayout) (key : SurfaceKey) (snapshot : SurfaceSnapshot)
    (buffer : SoftwareBuffer) : ST Images ComposeError unit :=
  let buffer_key := MkBufferKey (key_connection key) (snap_buffer snapshot) in
  let descriptor := sb_descriptor buffer in
  let size := bd_size descriptor in
  image ← gets (λ images : Images, images !! key);
  byte_len ← lift (map_err (InvalidBuffer buffer_key) (tight_byte_len size layout));
  tight ← lift (tight_stride size layout);
  if match image with Some image => negb (bool_decide (im_size image = size)) | None => true end
  then
    bytes ← lift (match copy_rect (sb_bytes buffer) (bd_stride descriptor) tight layout
                          (whole_rect size) (zeroes byte_len) with
                  | (Ok _, bytes) => Ok bytes
                  | (Err e, _) => Err e
                  end);
    modify (insert key (MkSurfaceImage None size bytes))
  else
    _ ← on_image key (copy_damage (sb_bytes buffer) (bd_stride descriptor) tight layout size
                        (snap_damage snapshot));
    modify (set_commit key None).

(** One surface of the stack. *)
Definition stage_surface (layout : PixelLayout) (s : CompositorState) (buffers : BufferStore)
    (pass : Pass) (key : SurfaceKey) : ST Images ComposeError Pass :=
  snapshot ← lift (ok_or (surface_snapshot (key_connection key) (key_object key) s)
                     (MissingSurfaceState key));
  position ← lift (ok_or (surface_position key s) (MissingSurfacePosition key));
  origin ← lift (checked_origin key position (snap_offset snapshot));
  let pass := MkPass ({[key]} ∪ pa_active pass) (pa_consumed pass) (pa_damage_count pass)
                (pa_origins pass ++ [(key, origin)]) (pa_redrawn pass) in
  image ← gets (λ images : Images, images !! key);
  if match image with
     | Some image => bool_decide (im_commit image = Some (snap_commit snapshot))
     | None => false
     end
  then mret pass
  else
    buffer ← lift (readable_buffer layout s buffers key snapshot);
    _ ← stage_image layout key snapshot buffer;
    mret (MkPass (pa_active pass) (pa_consumed pass ++ [(key, snap_buffer snapshot, snap_commit snapshot)])
            (saturating_add_u usize_max (pa_damage_count pass) (len (snap_damage snapshot)))
            (pa_origins pass) ({[key]} ∪ pa_redrawn pass)).

Fixpoint stage_all (layout : PixelLayout) (s : CompositorState) (buffers : BufferStore) (pass : Pass)
    (stack : list SurfaceKey) : ST Images ComposeError Pass :=
  match stack with
  | [] => mret pass
  | key :: rest =>
      pass ← stage_surface layout s buffers pass key;
      stage_all layout s buffers pass rest
  end.

(** * Painting and settling *)

Fixpoint blit_all (s : CompositorState) (images : Images) (stack : list SurfaceKey)
    : ST PixelFrame ComposeError unit :=
  match stack with
  | [] => mret tt
  | key :: rest =>
      snapshot ← lift (ok_or (surface_snapshot (key_connection key) (key_object key) s)
                         (MissingSurfaceState key));
      position ← lift (ok_or (surface_position key s) (MissingSurfacePosition key));
      image ← lift (ok_or (images !! key) (MissingSurfaceState key));
      _ ← blit_surface key image position (snap_offset snapshot);
      blit_all s images rest
  end.

Fixpoint settle (timestamp_ns : Z) (consumed : list (SurfaceKey * ObjectId * CommitId))
    : ST CompositorState ComposeError unit :=
  match consumed with
  | [] => mret tt
  | (key, buffer, _) :: rest =>
      _ ← ST_map_err (λ _, StateChanged key) (present key timestamp_ns);
      _ ← ST_map_err (λ _, StateChanged key) (release_buffer (key_connection key) buffer);
      settle timestamp_ns rest
  end.

(** What the frame accounts for, once nothing can fail any more. *)
Definition mark_commits (consumed : list (SurfaceKey * ObjectId * CommitId)) (images : Images) : Images :=
  foldl (λ images entry, set_commit entry.1.1 (Some entry.2) images) images consumed.

Definition retain_active (pass : Pass) (images : Images) : Images :=
  btree_retain (λ key _, bool_decide (key ∈ pa_active pass)) images.

(** The output and the compositor it reads are two objects: a method of one leaves the other. *)
Definition on_output {A} (m : ST SoftwareOutput ComposeError A)
    : ST (SoftwareOutput * CompositorState) ComposeError A := λ p,
  let '(r, self) := m p.1 in (r, (self, p.2)).
Definition on_images {A} (m : ST Images ComposeError A) : ST SoftwareOutput ComposeError A := λ self,
  let '(r, images) := m (so_surfaces self) in (r, set_so_surfaces images self).
Definition on_state {A} (m : ST CompositorState ComposeError A)
    : ST (SoftwareOutput * CompositorState) ComposeError A := λ p,
  let '(r, s) := m p.2 in (r, (p.1, s)).

Definition map_images (f : Images → Images) (self : SoftwareOutput) : SoftwareOutput :=
  set_so_surfaces (f (so_surfaces self)) self.

Definition compose (holders : Z → Z) (buffers : BufferStore) (timestamp_ns : Z)
    : ST (SoftwareOutput * CompositorState) ComposeError FrameReport :=
  layout ← gets (λ p, so_layout p.1);
  s ← gets snd;
  let stack := scene_stack (cs_scene s) in
  pass ← on_output (on_images (stage_all layout s buffers Pass_new stack));
  _ ← on_output (modify (map_images (retain_active pass)));
  target ← on_output take_frame;
  images ← gets (λ p, so_surfaces p.1);
  target ← lift (match blit_all s images stack (PixelFrame_clear target) with
                 | (Ok _, target) => Ok target
                 | (Err e, _) => Err e
                 end);
  _ ← on_state (settle timestamp_ns (pa_consumed pass));
  _ ← on_output (modify (map_images (mark_commits (pa_consumed pass))));
  _ ← on_output (modify (note_damage (pa_origins pass) (pa_redrawn pass)));
  report ← gets (λ p, MkFrameReport timestamp_ns (Z.of_nat (size (so_surfaces p.1)))
                        (len (pa_consumed pass)) (pa_damage_count pass) (len (pf_bytes target)));
  _ ← on_output (modify (publish holders target));
  mret report.

(** * Handing the frame on *)

Record Presented := MkPresented {
  pd_frame : SharedFrame;
  pd_damage : list Rect;
  pd_report : FrameReport;
}.

(** What a sink does with a frame; [E] is what its I/O fails with ([SinkError::Io]). *)
Class FrameSink (E K : Type) := sink_present : Presented → ST K E unit.

Record HeadlessSink := MkHeadlessSink {
  hs_frames_presented : Z;
  hs_last_report : option FrameReport;
}.

Definition HeadlessSink_new : HeadlessSink := MkHeadlessSink 0 None.

#[global] Instance HeadlessSink_sink {E} : FrameSink E HeadlessSink := λ presented sink,
  (Ok tt, MkHeadlessSink (saturating_add_u u64_max (hs_frames_presented sink) 1)
            (Some (pd_report presented))).

Inductive PresentError (E : Type) :=
| PresentCompose (error : ComposeError)
| PresentSink (error : E).
Arguments PresentCompose {E} error.
Arguments PresentSink {E} error.

Definition present_to {E K} `{!FrameSink E K} (holders : Z → Z) (buffers : BufferStore)
    (timestamp_ns : Z)
    : ST ((SoftwareOutput * CompositorState) * K) (PresentError E) FrameReport := λ '(world, sink),
  match compose holders buffers timestamp_ns world with
  | (Err e, world) => (Err (PresentCompose e), (world, sink))
  | (Ok report, world) =>
      match sink_present (MkPresented (so_current world.1) (so_damage world.1) report) sink with
      | (Ok _, sink) => (Ok report, (world, sink))
      | (Err e, sink) => (Err (PresentSink e), (world, sink))
      end
  end.
