(* ===== verification/Frames.v ===== *)
(** What a composed frame shows ([Compose]): staging copies the damaged part of a client's buffer
    into the surface's own image, and a frame is the images painted over each other in stacking
    order. Neither can fail on data of the widths Rust gives it, once a buffer's checks pass. *)
From S2P Require Import Prelude.
From S2P Require Import BTree.
From S2P Require Import Vocabulary.
From S2P Require Import Interface.
From S2P Require Import Wire.
From S2P Require Import Payloads.
From S2P Require Import Model.
From S2P Require Import Registry.
From S2P Require Import Outputs.
From S2P Require Import State.
From S2P Require Import Queue.
From S2P Require Import Objects.
From S2P Require Import Surfaces.
From S2P Require Import Pixels.
From S2P Require Import Compose.

(** * The widths of the data *)

Definition layout_typed (l : PixelLayout) : Prop := 0 < bytes_per_pixel l ≤ u8_max.

(** A buffer as Rust's types allow it: a [Vec] is at most [isize::MAX] long. *)
Record buffer_typed (b : SoftwareBuffer) : Prop := {
  bt_width : is_u32 (size_width (bd_size (sb_descriptor b)));
  bt_height : is_u32 (size_height (bd_size (sb_descriptor b)));
  bt_stride : is_u32 (bd_stride (sb_descriptor b));
  bt_layout : layout_typed (sb_layout b);
  bt_bytes : len (sb_bytes b) ≤ isize_max;
}.

Definition store_typed (buffers : gmap BufferKey SoftwareBuffer) : Prop :=
  map_Forall (λ _ b, buffer_typed b) buffers.

Definition damage_typed (d : Damage) : Prop :=
  match d with DamageFull => True | DamageRect rect => is_rect rect end.

(** Where a surface lies and what a commit says of it. *)
Definition drawn_typed (s : CompositorState) (key : SurfaceKey) : Prop :=
  (∀ p, surface_position key s = Some p → is_point p) ∧
  ∀ sn, surface_snapshot (key_connection key) (key_object key) s = Some sn →
    is_point (snap_offset sn) ∧ Forall damage_typed (snap_damage sn).

Definition scene_typed (s : CompositorState) : Prop :=
  Forall (drawn_typed s) (scene_stack (cs_scene s)).

#[global] Instance is_point_dec p : Decision (is_point p).
Proof. unfold is_point, is_i32. apply _. Defined.
#[global] Instance damage_typed_dec d : Decision (damage_typed d).
Proof. unfold damage_typed, is_rect, is_i32, is_u32. destruct d; apply _. Defined.

(** The same, computed. *)
Definition drawn_check (s : CompositorState) (key : SurfaceKey) : bool :=
  match surface_position key s with Some p => bool_decide (is_point p) | None => true end &&
  match surface_snapshot (key_connection key) (key_object key) s with
  | Some sn => bool_decide (is_point (snap_offset sn) ∧ Forall damage_typed (snap_damage sn))
  | None => true
  end.

Definition scene_check (s : CompositorState) : bool :=
  forallb (drawn_check s) (scene_stack (cs_scene s)).

Lemma scene_check_ok s : scene_check s = true → scene_typed s.
Proof.
  unfold scene_check, scene_typed. rewrite forallb_forall, Forall_forall. intros H key Hin.
  apply list_elem_of_In, H in Hin. unfold drawn_check in Hin.
  apply andb_true_iff in Hin as [Hp Hs]. split; intros ? E; rewrite E in *.
  - by apply bool_decide_eq_true in Hp.
  - by apply bool_decide_eq_true in Hs.
Qed.

(** * A well-formed output *)

Definition image_ok (layout : PixelLayout) (image : SurfaceImage) : Prop :=
  tight_picture (im_bytes image) (bytes_per_pixel layout) (size_width (im_size image))
    (size_height (im_size image)).

Definition images_ok (layout : PixelLayout) (images : Images) : Prop :=
  map_Forall (λ _ image, image_ok layout image) images.

Record frame_ok (size : Size) (layout : PixelLayout) (f : PixelFrame) : Prop := {
  fo_size : pf_size f = size;
  fo_layout : pf_layout f = layout;
  fo_stride : pf_stride f = size_width size * bytes_per_pixel layout;
  fo_alloc : size_width size * bytes_per_pixel layout * size_height size ≤ isize_max;
  fo_picture : tight_picture (pf_bytes f) (bytes_per_pixel layout) (size_width size) (size_height size);
  fo_length : len (pf_bytes f) = size_width size * bytes_per_pixel layout * size_height size;
}.

Record output_ok (self : SoftwareOutput) : Prop := {
  oo_current : frame_ok (so_size self) (so_layout self) (frame self);
  oo_spare : Forall (frame_ok (so_size self) (so_layout self)) (so_spare self);
  oo_retiring : Forall (λ a, frame_ok (so_size self) (so_layout self) (arc_frame a)) (so_retiring self);
  oo_images : images_ok (so_layout self) (so_surfaces self);
}.

Lemma try_from_inv max a b : try_from max a = Some b → b = a ∧ 0 ≤ a ≤ max.
Proof.
  unfold try_from. case_match eqn:E; [|done]. intros [= <-].
  apply andb_true_iff in E as [?%Z.leb_le ?%Z.leb_le]. auto.
Qed.

(** Inverts a run of checked conversions that succeeded. *)
Ltac checked_inv H :=
  repeat lazymatch type of H with
  | mbind _ _ = Ok _ =>
      let v := fresh "v" in let E := fresh "E" in
      apply result_bind_Ok in H as (v & E & H);
      try apply ok_or_Ok in E;
      first [ apply checked_mul_inv in E as [-> E] | apply try_from_inv in E as [-> E] | idtac ]
  | (if ?b then Err _ else _) = Ok _ => let E := fresh "E" in destruct b eqn:E; [discriminate H|]
  end.

Lemma len_zeroes n : 0 ≤ n → len (zeroes n) = n.
Proof. intros. unfold len, zeroes. rewrite length_replicate. lia. Qed.

Lemma byte_at_zeroes n i : 0 ≤ i < n → byte_at (zeroes n) i = Some Corelib.Init.Byte.x00.
Proof. intros. unfold byte_at, zeroes. apply lookup_replicate_2. lia. Qed.

Lemma PixelFrame_new_ok size layout f :
  0 ≤ size_width size → 0 ≤ size_height size → layout_typed layout → size_height size ≤ u32_max →
  PixelFrame_new size layout = Ok f → frame_ok size layout f.
Proof.
  unfold layout_typed. intros Hw Hh Hl Hhu H. unfold PixelFrame_new in H.
  checked_inv H. injection H as <-.
  rewrite orb_false_iff, !Z.eqb_neq in E. rewrite Z.ltb_ge in E4.
  assert (0 ≤ size_width size * bytes_per_pixel layout) by nia.
  assert (size_width size ≤ size_width size * bytes_per_pixel layout) by nia.
  split; cbn; try done; [split|]; rewrite ?len_zeroes; unfold isize_max in *; unfold_widths; lia.
Qed.

(** * What the checks of a read establish *)

Lemma validate_descriptor_ok d layout bytes :
  is_u32 (size_width (bd_size d)) → is_u32 (size_height (bd_size d)) → is_u32 (bd_stride d) →
  layout_typed layout → len bytes ≤ isize_max →
  validate_descriptor d layout (len bytes) = Ok tt →
  holds_picture bytes (bd_stride d) (bytes_per_pixel layout)
    (size_width (bd_size d)) (size_height (bd_size d)).
Proof.
  unfold layout_typed. intros Hw Hh Hs Hl Hb H. unfold validate_descriptor in H.
  unfold isize_max in *. assert (0 ≤ len bytes) by (unfold len; lia).
  checked_inv H. apply bind_Some in E4 as (prefix & [-> Hp]%checked_mul_inv & [-> Hr]%checked_add_inv).
  rewrite try_from_ok in E6 by width_lia.
  rewrite orb_false_iff, !Z.eqb_neq in E0. rewrite Z.ltb_ge in E1, E3, E5, E6.
  split; unfold_widths; lia.
Qed.

Lemma damage_inside_ok size rect :
  damage_inside size rect = true → is_rect rect →
  0 ≤ rect_x rect ∧ 0 ≤ rect_y rect ∧ 0 ≤ rect_width rect ∧ 0 ≤ rect_height rect ∧
  rect_x rect + rect_width rect ≤ size_width size ∧
  rect_y rect + rect_height rect ≤ size_height size.
Proof.
  intros H (_ & _ & Hw & Hh). unfold damage_inside in H.
  apply andb_true_iff in H as [[[Hx%Z.leb_le Hy%Z.leb_le]%andb_true_iff H1]%andb_true_iff H2].
  destruct (_ ≫= _) as [e1|] eqn:E1 in H1; [|done]. destruct (_ ≫= _) as [e2|] eqn:E2 in H2; [|done].
  apply bind_Some in E1 as (x & [-> _]%try_from_inv & [-> _]%checked_add_inv).
  apply bind_Some in E2 as (y & [-> _]%try_from_inv & [-> _]%checked_add_inv).
  rewrite Z.leb_le in H1, H2. unfold_widths. lia.
Qed.

Lemma validate_damage_ok surface size damage :
  validate_damage surface size damage = Ok tt →
  Forall (λ d, match d with DamageFull => True | DamageRect rect => damage_inside size rect = true end)
    damage.
Proof.
  induction damage as [|[|rect] damage IH]; cbn; intros H; [done|auto|].
  destruct (damage_inside size rect) eqn:E; [|done]. auto.
Qed.

(** The rectangle a damage names lies in the surface. *)
Definition rect_in (size : Size) (rect : Rect) : Prop :=
  0 ≤ rect_x rect ∧ 0 ≤ rect_y rect ∧ 0 ≤ rect_width rect ∧ 0 ≤ rect_height rect ∧
  rect_x rect + rect_width rect ≤ size_width size ∧
  rect_y rect + rect_height rect ≤ size_height size.

(** A buffer that may be read for a commit. *)
Record readable (layout : PixelLayout) (s : CompositorState) (buffers : gmap BufferKey SoftwareBuffer)
    (key : SurfaceKey) (sn : SurfaceSnapshot) (b : SoftwareBuffer) : Prop := {
  re_ready : commit_ready key s = Ok true;
  re_stored : buffers !! MkBufferKey (key_connection key) (snap_buffer sn) = Some b;
  re_descriptor : buffer_descriptor (key_connection key) (snap_buffer sn) s = Some (sb_descriptor b);
  re_layout : sb_layout b = layout;
  re_held : buffer_state (key_connection key) (snap_buffer sn) s =
    Some (CompositorHeld key (snap_commit sn));
  re_picture : holds_picture (sb_bytes b) (bd_stride (sb_descriptor b)) (bytes_per_pixel layout)
    (size_width (bd_size (sb_descriptor b))) (size_height (bd_size (sb_descriptor b)));
  re_damage : Forall (λ d, rect_in (bd_size (sb_descriptor b)) (damage_rect (bd_size (sb_descriptor b)) d))
    (snap_damage sn);
}.

Lemma readable_buffer_ok layout s buffers key sn b :
  store_typed buffers → Forall damage_typed (snap_damage sn) →
  readable_buffer layout s buffers key sn = Ok b → readable layout s buffers key sn b.
Proof.
  intros Hst Hd H. unfold readable_buffer in H. cbv zeta in H.
  apply result_bind_Ok in H as (ready & Hr & H). destruct ready; [|done]. cbn [negb] in H.
  apply result_bind_Ok in H as (d & Hdesc%ok_or_Ok & H).
  apply result_bind_Ok in H as (b' & Hb%ok_or_Ok & H).
  destruct (bool_decide_reflect (sb_descriptor b' = d)) as [<-|]; [|done]. cbn [negb] in H.
  destruct (bool_decide_reflect (sb_layout b' = layout)) as [<-|]; [|done]. cbn [negb] in H.
  case_bool_decide as Hheld; [|done]. cbn [negb] in H.
  apply result_bind_Ok in H as ([] & Hv & H). apply result_bind_Ok in H as ([] & Hdam & H).
  injection H as <-. destruct (Hst _ _ Hb) as [Hw Hh Hs Hl Hlen].
  assert (holds_picture (sb_bytes b') (bd_stride (sb_descriptor b')) (bytes_per_pixel (sb_layout b'))
    (size_width (bd_size (sb_descriptor b'))) (size_height (bd_size (sb_descriptor b')))) as Hpic.
  { apply validate_descriptor_ok; [done..|].
    unfold validate_for_layout in Hv. by destruct (validate_descriptor _ _ _) as [[]|]. }
  split; try done.
  - by destruct (commit_ready key s) as [[]|].
  - apply validate_damage_ok in Hdam. rewrite Forall_forall in *. intros [|rect] Hin.
    + destruct Hpic. unfold rect_in; cbn. lia.
    + by apply damage_inside_ok; [apply (Hdam _ Hin)|apply (Hd _ Hin)].
Qed.

(** * Staging *)

Definition in_rect (rect : Rect) (x y : Z) : Prop :=
  rect_x rect ≤ x < rect_x rect + rect_width rect ∧ rect_y rect ≤ y < rect_y rect + rect_height rect.

#[global] Instance in_rect_dec rect x y : Decision (in_rect rect x y).
Proof. unfold in_rect. apply _. Defined.

Definition damaged (size : Size) (damage : list Damage) (x y : Z) : Prop :=
  Exists (λ d, in_rect (damage_rect size d) x y) damage.

(** A byte of a pixel of a picture of a size. *)
Definition on_frame (size : Size) (layout : PixelLayout) (x y k : Z) : Prop :=
  0 ≤ x < size_width size ∧ 0 ≤ y < size_height size ∧ 0 ≤ k < bytes_per_pixel layout.

(** The pixel of an image. *)
Definition image_pixel (layout : PixelLayout) (image : SurfaceImage) (x y k : Z) : option byte :=
  pixel (im_bytes image) (size_width (im_size image) * bytes_per_pixel layout)
    (bytes_per_pixel layout) x y k.
(** The pixel of a client's buffer. *)
Definition buffer_pixel (layout : PixelLayout) (b : SoftwareBuffer) (x y k : Z) : option byte :=
  pixel (sb_bytes b) (bd_stride (sb_descriptor b)) (bytes_per_pixel layout) x y k.

Lemma copy_rect_run' source sstride dstride layout rect size dst :
  holds_picture source sstride (bytes_per_pixel layout) (size_width size) (size_height size) →
  holds_picture dst dstride (bytes_per_pixel layout) (size_width size) (size_height size) →
  rect_in size rect →
  ∃ after, copy_rect source sstride dstride layout rect dst = (Ok tt, after) ∧ len after = len dst ∧
    ∀ x y k, 0 ≤ x < size_width size → 0 ≤ y < size_height size → 0 ≤ k < bytes_per_pixel layout →
      pixel after dstride (bytes_per_pixel layout) x y k =
        if decide (in_rect rect x y) then pixel source sstride (bytes_per_pixel layout) x y k
        else pixel dst dstride (bytes_per_pixel layout) x y k.
Proof. intros Hs Hd (? & ? & ? & ? & ? & ?). by apply copy_rect_run. Qed.

Lemma holds_picture_len l l' stride bpp W H :
  len l' = len l → holds_picture l stride bpp W H → holds_picture l' stride bpp W H.
Proof. intros Hl []. split; rewrite ?Hl; done. Qed.

Lemma copy_damage_run source sstride dstride layout size damage dst :
  holds_picture source sstride (bytes_per_pixel layout) (size_width size) (size_height size) →
  holds_picture dst dstride (bytes_per_pixel layout) (size_width size) (size_height size) →
  Forall (λ d, rect_in size (damage_rect size d)) damage →
  ∃ after, copy_damage source sstride dstride layout size damage dst = (Ok tt, after) ∧
    len after = len dst ∧
    ∀ x y k, 0 ≤ x < size_width size → 0 ≤ y < size_height size → 0 ≤ k < bytes_per_pixel layout →
      (damaged size damage x y → pixel after dstride (bytes_per_pixel layout) x y k =
                                 pixel source sstride (bytes_per_pixel layout) x y k) ∧
      (¬ damaged size damage x y → pixel after dstride (bytes_per_pixel layout) x y k =
                                   pixel dst dstride (bytes_per_pixel layout) x y k).
Proof.
  intros Hs Hd Hin. revert dst Hd. induction Hin as [|d damage Hd0 Hin IH]; intros dst Hd.
  { exists dst. split_and!; [done..|]. intros x y k _ _ _. split; [|done]. by intros ?%Exists_nil. }
  destruct (copy_rect_run' source sstride dstride layout (damage_rect size d) size dst Hs Hd Hd0)
    as (mid & Hrun & Hlen & Hmid).
  destruct (IH mid) as (after & Hrun' & Hlen' & Hafter); [by eapply holds_picture_len|].
  exists after. cbn [copy_damage]. rewrite ST_bind_run, Hrun. split; [exact Hrun'|]. split; [lia|].
  intros x y k Hx Hy Hk. destruct (Hafter x y k Hx Hy Hk) as [H1 H2]. specialize (Hmid x y k Hx Hy Hk).
  unfold damaged in *. rewrite Exists_cons. split.
  - destruct (decide (Exists (λ d0, in_rect (damage_rect size d0) x y) damage)) as [He|He]; [by auto|].
    intros [Hr|?]; [|done]. rewrite (H2 He), Hmid. by rewrite decide_True.
  - intros Hn. rewrite H2 by tauto. rewrite Hmid. by rewrite decide_False by tauto.
Qed.

(** An image shows a commit: the buffer's pixels everywhere where there was no image of its size, in
    the damaged pixels where there was, the rest being as it was. *)
Definition shows_commit (layout : PixelLayout) (old : option SurfaceImage) (b : SoftwareBuffer)
    (sn : SurfaceSnapshot) (image : SurfaceImage) : Prop :=
  im_size image = bd_size (sb_descriptor b) ∧
  ∀ x y k, on_frame (im_size image) layout x y k →
    match old with
    | Some was =>
        if decide (im_size was = im_size image) then
          (damaged (im_size image) (snap_damage sn) x y →
             image_pixel layout image x y k = buffer_pixel layout b x y k) ∧
          (¬ damaged (im_size image) (snap_damage sn) x y →
             image_pixel layout image x y k = image_pixel layout was x y k)
        else image_pixel layout image x y k = buffer_pixel layout b x y k
    | None => image_pixel layout image x y k = buffer_pixel layout b x y k
    end.

(** What staging makes of an image. *)
Record staged (layout : PixelLayout) (old : option SurfaceImage) (b : SoftwareBuffer)
    (sn : SurfaceSnapshot) (image : SurfaceImage) : Prop := {
  sg_commit : im_commit image = None;
  sg_ok : image_ok layout image;
  sg_shows : shows_commit layout old b sn image;
}.

(** A picture that fits its bytes is a picture of its own tight length too. *)
Lemma tight_ok layout b :
  let size := bd_size (sb_descriptor b) in
  holds_picture (sb_bytes b) (bd_stride (sb_descriptor b)) (bytes_per_pixel layout)
    (size_width size) (size_height size) → len (sb_bytes b) ≤ isize_max →
  let n := size_width size * bytes_per_pixel layout * size_height size in
  tight_byte_len size layout = Ok n ∧
  tight_stride size layout = Ok (size_width size * bytes_per_pixel layout) ∧
  tight_picture (zeroes n) (bytes_per_pixel layout) (size_width size) (size_height size).
Proof.
  intros size [] Hlen n. unfold isize_max in Hlen. subst n.
  set (w := size_width size) in *. set (h := size_height size) in *.
  set (bpp := bytes_per_pixel layout) in *.
  assert (0 ≤ (h - 1) * (w * bpp) ≤ (h - 1) * bd_stride (sb_descriptor b)) by nia.
  unfold tight_byte_len, tight_stride, usize_max, isize_max. fold w h bpp.
  rewrite !checked_mul_ok by width_lia. cbn [ok_or]. unfold mbind, result_bind.
  rewrite checked_mul_ok by width_lia. cbn [ok_or]. rewrite !try_from_ok by width_lia. cbn [ok_or].
  rewrite (proj2 (Z.ltb_ge _ _)) by lia. split; [done|]. split; [done|].
  split; rewrite ?len_zeroes; lia.
Qed.

(** Staging a readable buffer does not fail. *)
Lemma stage_image_run layout s buffers key sn b images :
  readable layout s buffers key sn b → store_typed buffers → images_ok layout images →
  ∃ image, stage_image layout key sn b images = (Ok tt, <[ key := image ]> images) ∧
    staged layout (images !! key) b sn image.
Proof.
  intros [_ Hb _ Hlay _ Hpic Hdam] Hst Him. pose proof (bt_bytes _ (Hst _ _ Hb)) as Hlen.
  destruct (tight_ok layout b Hpic Hlen) as (Hbl & Hts & Htight).
  unfold stage_image. cbv zeta. rewrite ST_gets_bind. rewrite Hbl, Hts. cbn [map_err].
  rewrite !ST_lift_bind. set (size := bd_size (sb_descriptor b)) in *.
  assert (rect_in size (whole_rect size)) as Hwhole by (destruct Hpic; unfold rect_in; cbn; lia).
  destruct (copy_rect_run' (sb_bytes b) _ _ layout (whole_rect size) size _ Hpic Htight Hwhole)
    as (bytes & Hrun & Hl & Hpix).
  assert (∀ x y k, 0 ≤ x < size_width size → 0 ≤ y < size_height size →
    0 ≤ k < bytes_per_pixel layout →
    image_pixel layout (MkSurfaceImage None size bytes) x y k = buffer_pixel layout b x y k) as Hfresh.
  { intros x y k Hx Hy Hk. unfold image_pixel. cbn [im_bytes im_size]. rewrite Hpix by done.
    rewrite decide_True; [done|]. unfold in_rect; cbn; lia. }
  assert (image_ok layout (MkSurfaceImage None size bytes)) as Hok
    by (by eapply holds_picture_len).
  destruct (images !! key) as [was|] eqn:Ew.
  - case_bool_decide as Hsize; cbn [negb].
    + unfold on_image. rewrite ST_bind_run, Ew. pose proof (Him _ _ Ew) as Hwas.
      unfold image_ok, tight_picture in Hwas. rewrite Hsize in Hwas.
      destruct (copy_damage_run (sb_bytes b) (bd_stride (sb_descriptor b)) _ layout size
        (snap_damage sn) (im_bytes was) Hpic Hwas Hdam) as (after & -> & Hl' & Hafter).
      exists (MkSurfaceImage None size after). cbn [modify]. split.
      * f_equal. unfold set_commit. rewrite alter_insert_eq. cbn. by rewrite Hsize.
      * split; cbn [im_commit im_size]; [done|by eapply holds_picture_len|].
        split; [done|]. intros x y k (Hx & Hy & Hk). cbn [im_size] in *. rewrite decide_True by done. unfold image_pixel. cbn [im_size im_bytes].
        rewrite Hsize. apply Hafter; done.
    + rewrite Hrun, ST_lift_bind. exists (MkSurfaceImage None size bytes). split; [done|].
      split; [done..|]. split; [done|]. intros x y k (Hx & Hy & Hk). rewrite decide_False by done.
      by apply Hfresh.
  - rewrite Hrun, ST_lift_bind. exists (MkSurfaceImage None size bytes). split; [done|].
    split; [done..|]. split; [done|]. intros x y k (Hx & Hy & Hk). by apply Hfresh.
Qed.

(** Whether a surface's commit has yet to be read. *)
Definition redraws (images : Images) (s : CompositorState) (key : SurfaceKey) : Prop :=
  ∃ sn, surface_snapshot (key_connection key) (key_object key) s = Some sn ∧
    ∀ image, images !! key = Some image → im_commit image ≠ Some (snap_commit sn).

(** A surface of the stack, and where it is drawn. *)
Definition drawn_at (s : CompositorState) (key : SurfaceKey) (entry : SurfaceKey * (Z * Z)) : Prop :=
  ∃ sn p, surface_snapshot (key_connection key) (key_object key) s = Some sn ∧
    surface_position key s = Some p ∧
    entry = (key, (point_x p + point_x (snap_offset sn), point_y p + point_y (snap_offset sn))).

Lemma checked_origin_ok key p o :
  is_point p → is_point o → checked_origin key p o = Ok (point_x p + point_x o, point_y p + point_y o).
Proof.
  intros [Hx Hy] [Hx' Hy']. unfold checked_origin.
  rewrite !checked_add_i64_ok by (unfold i64_min, i64_max; unfold_widths; lia). done.
Qed.

(** What one surface of the pass does. *)
Definition passed (layout : PixelLayout) (s : CompositorState) (buffers : gmap BufferKey SoftwareBuffer)
    (key : SurfaceKey) (images images' : Images) (pass pass' : Pass) : Prop :=
  pa_active pass' = {[key]} ∪ pa_active pass ∧
  (∃ entry, drawn_at s key entry ∧ pa_origins pass' = pa_origins pass ++ [entry]) ∧
  ∃ sn, surface_snapshot (key_connection key) (key_object key) s = Some sn ∧
    (((∃ image, images !! key = Some image ∧ im_commit image = Some (snap_commit sn)) ∧
      images' = images ∧ pa_redrawn pass' = pa_redrawn pass ∧ pa_consumed pass' = pa_consumed pass) ∨
     (redraws images s key ∧
      pa_redrawn pass' = {[key]} ∪ pa_redrawn pass ∧
      pa_consumed pass' = pa_consumed pass ++ [(key, snap_buffer sn, snap_commit sn)] ∧
      ∃ b image, readable layout s buffers key sn b ∧ staged layout (images !! key) b sn image ∧
        images' = <[ key := image ]> images)).

Lemma stage_surface_run layout s buffers pass key images :
  store_typed buffers → drawn_typed s key → images_ok layout images →
  (∃ e, stage_surface layout s buffers pass key images = (Err e, images)) ∨
  ∃ pass' images', stage_surface layout s buffers pass key images = (Ok pass', images') ∧
    passed layout s buffers key images images' pass pass'.
Proof.
  intros Hst [Hp Hs] Him. unfold stage_surface.
  destruct (surface_snapshot _ _ s) as [sn|] eqn:Esn; [|left; by eexists].
  destruct (surface_position key s) as [p|] eqn:Ep; [|left; by eexists].
  destruct (Hs sn eq_refl) as [Hoff Hdam]. cbn [ok_or]. rewrite !ST_lift_bind.
  rewrite checked_origin_ok by auto. rewrite ST_lift_bind, ST_gets_bind.
  set (entry := (key, _)). assert (drawn_at s key entry) as Hentry by (exists sn, p; done).
  destruct (match images !! key with Some image => _ | None => false end) eqn:Ec.
  - right. eexists _, images. split; [reflexivity|]. split; [done|]. split; [by exists entry|].
    exists sn. split; [done|]. left. split; [|done].
    destruct (images !! key) as [image|]; [|done]. case_bool_decide; [|done]. by exists image.
  - destruct (readable_buffer layout s buffers key sn) as [b|e] eqn:Er; [|left; by eexists].
    rewrite ST_lift_bind. apply readable_buffer_ok in Er; [|done..].
    destruct (stage_image_run _ _ _ _ _ _ _ Er Hst Him) as (image & Hrun & Hstg).
    right. rewrite ST_bind_run, Hrun. eexists _, _. split; [reflexivity|]. split; [done|].
    split; [by exists entry|]. exists sn. split; [done|]. right. split; [|split_and!; try done].
    + exists sn. split; [done|]. intros image' Hi. rewrite Hi in Ec. by case_bool_decide.
    + by exists b, image.
Qed.

(** * A pass over the stack *)

(** What the pass has done once it has been over [stack]. *)
Record read_in (layout : PixelLayout) (s : CompositorState) (buffers : gmap BufferKey SoftwareBuffer)
    (stack : list SurfaceKey) (images images' : Images) (pass : Pass) : Prop := {
  ri_active key : key ∈ pa_active pass ↔ key ∈ stack;
  ri_origins : Forall2 (drawn_at s) stack (pa_origins pass);
  ri_redrawn key : key ∈ pa_redrawn pass ↔ key ∈ stack ∧ redraws images s key;
  ri_consumed key b c : (key, b, c) ∈ pa_consumed pass ↔
    key ∈ stack ∧ redraws images s key ∧
    ∃ sn, surface_snapshot (key_connection key) (key_object key) s = Some sn ∧
      snap_buffer sn = b ∧ snap_commit sn = c;
  ri_same key : key ∉ stack ∨ ¬ redraws images s key → images' !! key = images !! key;
  ri_staged key : key ∈ stack → redraws images s key →
    ∃ sn b image, surface_snapshot (key_connection key) (key_object key) s = Some sn ∧
      readable layout s buffers key sn b ∧ staged layout (images !! key) b sn image ∧
      images' !! key = Some image;
  ri_defined key : key ∈ stack → is_Some (images' !! key);
  ri_ok : images_ok layout images';
}.

Lemma read_in_nil layout s buffers images :
  images_ok layout images → read_in layout s buffers [] images images Pass_new.
Proof.
  split; cbn; try done; try constructor; set_solver.
Qed.

Lemma redraws_insert images s key key' image :
  key ≠ key' → redraws (<[ key' := image ]> images) s key ↔ redraws images s key.
Proof. intros Hn. unfold redraws. by rewrite lookup_insert_ne by done. Qed.

Lemma redraws_same images images' s key :
  images' !! key = images !! key → redraws images' s key ↔ redraws images s key.
Proof. intros H. unfold redraws. by rewrite H. Qed.

Lemma read_in_snoc layout s buffers stack images images1 images2 pass pass' key :
  key ∉ stack → read_in layout s buffers stack images images1 pass →
  passed layout s buffers key images1 images2 pass pass' →
  read_in layout s buffers (stack ++ [key]) images images2 pass'.
Proof.
  intros Hkey [Ha Ho Hr Hc Hsame Hst Hdef Hok] (Hact & (entry & Hentry & Hor) & sn & Hsn & Hcase).
  assert (images1 !! key = images !! key) as Hk by (apply Hsame; auto).
  pose proof (redraws_same _ _ s key Hk) as Hred.
  destruct Hcase as [((image & Hi & Hcommit) & -> & Hre & Hco)|
                     (Hredr & Hre & Hco & b & image & Hread & Hstg & ->)].
  - assert (¬ redraws images s key) as Hn.
    { intros (sn' & Hsn' & H). rewrite Hk in Hi. apply (H image Hi). congruence. }
    split.
    + intros k. rewrite Hact. set_solver.
    + rewrite Hor. apply Forall2_app; [done|]. by constructor.
    + intros k. rewrite Hre, Hr. set_solver.
    + intros k b c. rewrite Hco, Hc. set_solver.
    + intros k Hk'. apply Hsame. set_solver.
    + intros k Hk' Hrk. apply Hst; set_solver.
    + intros k. rewrite elem_of_app, list_elem_of_singleton. intros [?| ->]; [by auto|by exists image].
    + done.
  - rewrite Hred in Hredr. rewrite Hk in Hstg. split.
    + intros k. rewrite Hact. set_solver.
    + rewrite Hor. apply Forall2_app; [done|]. by constructor.
    + intros k. rewrite Hre, elem_of_union, elem_of_singleton, Hr, elem_of_app, list_elem_of_singleton.
      naive_solver.
    + intros k b' c. rewrite Hco, elem_of_app, list_elem_of_singleton, Hc, elem_of_app,
        list_elem_of_singleton. split; [|naive_solver].
      intros [?|[= -> -> ->]]; [naive_solver|]. split_and!; [by right|done|by exists sn].
    + intros k Hk'. rewrite lookup_insert_ne; [apply Hsame; set_solver|]. intros <-. set_solver.
    + intros k Hk' Hrk. destruct (decide (k = key)) as [->|Hne].
      * exists sn, b, image. by rewrite lookup_insert_eq.
      * rewrite lookup_insert_ne by done. apply Hst; set_solver.
    + intros k Hk'. destruct (decide (k = key)) as [->|Hne]; [by rewrite lookup_insert_eq; eexists|].
      rewrite lookup_insert_ne by done. apply Hdef. set_solver.
    + apply map_Forall_insert_2; [apply Hstg|done].
Qed.

(** A staged image that nobody has been told about, in the place of the one there was. *)
Definition kept_image (layout : PixelLayout) (was now : option SurfaceImage) : Prop :=
  now = was ∨ ∃ image, now = Some image ∧ im_commit image = None ∧ image_ok layout image.

Lemma read_in_kept layout s buffers stack images images' pass key :
  read_in layout s buffers stack images images' pass →
  kept_image layout (images !! key) (images' !! key).
Proof.
  intros [_ _ Hr _ Hsame Hst _ _]. destruct (decide (key ∈ pa_redrawn pass)) as [Hin|Hn].
  - rewrite Hr in Hin. destruct (Hst key) as (sn & b & image & _ & _ & [] & ->); [apply Hin..|].
    right. eauto.
  - left. apply Hsame. rewrite Hr in Hn. destruct (decide (key ∈ stack)); [right|by left]. tauto.
Qed.

Lemma stage_all_run layout s buffers stack : ∀ past pass images0 images,
  store_typed buffers → Forall (drawn_typed s) stack → NoDup (past ++ stack) →
  read_in layout s buffers past images0 images pass →
  (∃ e images' pass', stage_all layout s buffers pass stack images = (Err e, images') ∧
     ∃ seen, read_in layout s buffers seen images0 images' pass') ∨
  ∃ pass' images', stage_all layout s buffers pass stack images = (Ok pass', images') ∧
    read_in layout s buffers (past ++ stack) images0 images' pass'.
Proof.
  induction stack as [|key stack IH]; intros past pass images0 images Hst Hty Hnd Hri.
  { right. exists pass, images. by rewrite app_nil_r. }
  apply Forall_cons in Hty as [Hkey Hty]. cbn [stage_all]. rewrite ST_bind_run.
  destruct (stage_surface_run layout s buffers pass key images Hst Hkey (ri_ok _ _ _ _ _ _ _ Hri))
    as [[e ->]|(pass' & images' & -> & Hp)].
  - left. exists e, images, pass. split; [done|]. by exists past.
  - rewrite cons_middle, app_assoc in Hnd |- *. apply IH; [done..|].
    eapply read_in_snoc; [|done..].
    apply NoDup_app in Hnd as (Hnd & _). apply NoDup_app in Hnd as (_ & Hnd & _). set_solver.
Qed.

(** * Painting *)

(** An image where the frame shows it. *)
Record Layer := MkLayer { ly_key : SurfaceKey; ly_origin : Z * Z; ly_image : SurfaceImage }.

Definition covers (l : Layer) (x y : Z) : Prop :=
  (ly_origin l).1 ≤ x < (ly_origin l).1 + size_width (im_size (ly_image l)) ∧
  (ly_origin l).2 ≤ y < (ly_origin l).2 + size_height (im_size (ly_image l)).

#[global] Instance covers_dec l x y : Decision (covers l x y).
Proof. unfold covers. apply _. Defined.

(** One byte of one pixel, under one layer: the painter's algorithm. *)
Definition paint (layout : PixelLayout) (x y k : Z) (below : option byte) (l : Layer) : option byte :=
  if decide (covers l x y)
  then image_pixel layout (ly_image l) (x - (ly_origin l).1) (y - (ly_origin l).2) k
  else below.

Definition painted (layout : PixelLayout) (layers : list Layer) (x y k : Z) : option byte :=
  foldl (paint layout x y k) (Some Corelib.Init.Byte.x00) layers.

(** The layers of a pass, bottom to top. *)
Definition layers_of (images : Images) (origins : Origins) : list Layer :=
  omap (λ entry, MkLayer entry.1 entry.2 <$> images !! entry.1) origins.

Definition frame_pixel (f : PixelFrame) (x y k : Z) : option byte :=
  pixel (pf_bytes f) (pf_stride f) (bytes_per_pixel (pf_layout f)) x y k.

Lemma blit_surface_run key image p o size layout f :
  is_point p → is_point o → image_ok layout image → frame_ok size layout f →
  ∃ f', blit_surface key image p o f = (Ok tt, f') ∧ frame_ok size layout f' ∧
    ∀ x y k, on_frame size layout x y k →
      frame_pixel f' x y k = paint layout x y k (frame_pixel f x y k)
        (MkLayer key (point_x p + point_x o, point_y p + point_y o) image).
Proof.
  intros Hp Ho Him [Hsize Hlay Hstride Halloc Hpic Hflen]. unfold blit_surface.
  rewrite checked_origin_ok by done. rewrite ST_lift_bind, !ST_gets_bind. unfold on_bytes.
  rewrite Hsize, Hlay, Hstride.
  destruct (blit_at_run key image (point_x p + point_x o) (point_y p + point_y o) size
    (size_width size * bytes_per_pixel layout) layout (pf_bytes f) Him Hpic)
    as (after & -> & Hlen & Hpix).
  1-2: destruct Hp, Ho; unfold near; unfold_widths; lia.
  eexists. split; [reflexivity|]. split.
  - split; cbn; try done; [by eapply holds_picture_len|congruence].
  - intros x y k (Hx & Hy & Hk). unfold frame_pixel, paint, covers. cbn. rewrite Hlay, Hstride.
    by rewrite Hpix.
Qed.

Lemma drawn_at_entry s key entry : drawn_at s key entry → entry.1 = key.
Proof. by intros (sn & p & _ & _ & ->). Qed.

Lemma blit_all_run s images layout size stack origins f :
  Forall2 (drawn_at s) stack origins → Forall (drawn_typed s) stack → images_ok layout images →
  (∀ key, key ∈ stack → is_Some (images !! key)) → frame_ok size layout f →
  ∃ f', blit_all s images stack f = (Ok tt, f') ∧ frame_ok size layout f' ∧
    ∀ x y k, on_frame size layout x y k →
      frame_pixel f' x y k = foldl (paint layout x y k) (frame_pixel f x y k) (layers_of images origins).
Proof.
  intros Hdr. revert f. induction Hdr as [|key entry stack origins Hd Hdr IH]; intros f Hty Him Hdef Hf.
  { by exists f. }
  apply Forall_cons in Hty as [[Hp Hs] Hty]. destruct Hd as (sn & p & Hsn & Hpos & ->).
  destruct (Hdef key) as [image Hi]; [left|]. destruct (Hs _ Hsn) as [Ho _].
  destruct (blit_surface_run key image p (snap_offset sn) size layout f (Hp _ Hpos) Ho (Him _ _ Hi) Hf)
    as (f1 & Hrun & Hf1 & Hpix1).
  destruct (IH f1 Hty Him) as (f' & Hrun' & Hf' & Hpix'); [intros; apply Hdef; by right|done|].
  exists f'. split; [|split; [done|]].
  - cbn [blit_all]. rewrite Hsn, Hpos, Hi. cbn [ok_or]. rewrite !ST_lift_bind, ST_bind_run, Hrun.
    exact Hrun'.
  - intros x y k Hon. rewrite Hpix', Hpix1 by done. unfold layers_of. cbn. by rewrite Hi.
Qed.

Lemma pixel_fits l bpp W H x y k :
  tight_picture l bpp W H → 0 ≤ x < W → 0 ≤ y < H → 0 ≤ k < bpp →
  0 ≤ y * (W * bpp) + x * bpp + k < len l.
Proof. intros [] Hx Hy Hk. nia. Qed.

Lemma clear_ok size layout f : frame_ok size layout f → frame_ok size layout (PixelFrame_clear f).
Proof.
  intros [Hsize Hlay Hstride Halloc Hpic Hlen].
  assert (len (zeroes (len (pf_bytes f))) = len (pf_bytes f)) by (apply len_zeroes; unfold len; lia).
  split; cbn; try done; [by eapply holds_picture_len|congruence].
Qed.

Lemma clear_pixel size layout f x y k :
  frame_ok size layout f → on_frame size layout x y k →
  frame_pixel (PixelFrame_clear f) x y k = Some Corelib.Init.Byte.x00.
Proof.
  intros [Hsize Hlay Hstride Halloc Hpic] (Hx & Hy & Hk). unfold frame_pixel, pixel. cbn.
  rewrite Hlay, Hstride. apply byte_at_zeroes. by eapply pixel_fits.
Qed.

Lemma PixelFrame_new_total size layout f :
  frame_ok size layout f → ∃ f', PixelFrame_new size layout = Ok f'.
Proof.
  intros [_ _ _ Halloc [? ? ? [_ ?] _ _]]. unfold PixelFrame_new, usize_max. unfold isize_max in *.
  rewrite (proj2 (orb_false_iff _ _)) by (rewrite !Z.eqb_neq; lia).
  rewrite !checked_mul_ok by width_lia. cbn [ok_or]. unfold mbind, result_bind.
  rewrite checked_mul_ok by width_lia. cbn [ok_or]. rewrite !try_from_ok by width_lia. cbn [ok_or].
  rewrite (proj2 (Z.ltb_ge _ _)) by lia. by eexists.
Qed.

(** A frame to compose into can always be had. *)
Lemma take_frame_run self : output_ok self →
  ∃ f rest, take_frame self = (Ok f, set_so_spare rest self) ∧
    frame_ok (so_size self) (so_layout self) f ∧
    Forall (frame_ok (so_size self) (so_layout self)) rest.
Proof.
  intros [Hcur Hsp _ _]. unfold take_frame. destruct (rev (so_spare self)) as [|f rest] eqn:E.
  - destruct (PixelFrame_new_total _ _ _ Hcur) as [f Hf]. exists f, (so_spare self). rewrite Hf.
    split; [by destruct self|]. split; [|done].
    destruct Hcur as [_ _ _ _ []]. apply PixelFrame_new_ok; unfold layout_typed; try done; lia.
  - exists f, (rev rest). split; [done|].
    apply (f_equal (@rev _)) in E. rewrite rev_involutive in E. cbn in E. rewrite E in Hsp.
    apply Forall_app in Hsp as [Hr Hf]. split; [by inversion Hf|done].
Qed.
