(* ===== verification/Showing.v ===== *)
(** What a frame shows and what it reports: a composition that succeeds puts the painter's picture of
    the scene on screen and settles every commit it read; one that fails leaves the screen, and what
    is recorded of it, as they were; and the damage covers every pixel that changed, as long as no
    image is larger than the output. *)
From S2P Require Import Prelude.
From S2P Require Import BTree.
From S2P Require Import Vocabulary.
From S2P Require Import Interface.
From S2P Require Import Wire.
From S2P Require Import Payloads.
From S2P Require Import Model.
From S2P Require Import Registry.
From S2P Require Import Outputs.
From S2P Require Import State.
From S2P Require Import Queue.
From S2P Require Import Objects.
From S2P Require Import Surfaces.
From S2P Require Import Dispatch.
From S2P Require Import Desk.
From S2P Require Import Pixels.
From S2P Require Import Compose.
From S2P Require Import Frames.

(** * Publishing *)

(** Everything of an output but its pool of frames. *)
Definition same_picture (self self' : SoftwareOutput) : Prop :=
  so_size self' = so_size self ∧ so_layout self' = so_layout self ∧
  so_surfaces self' = so_surfaces self ∧ so_placed self' = so_placed self ∧
  so_damage self' = so_damage self ∧ so_composed_once self' = so_composed_once self.

Definition pool_ok (self : SoftwareOutput) : Prop :=
  Forall (frame_ok (so_size self) (so_layout self)) (so_spare self) ∧
  Forall (λ a, frame_ok (so_size self) (so_layout self) (arc_frame a)) (so_retiring self).

Lemma swap_remove_elem {A} index (l : list A) x rest :
  swap_remove index l = Some (x, rest) → l !! index = Some x ∧ ∀ y, y ∈ rest → y ∈ l.
Proof.
  unfold swap_remove. intros H. apply bind_Some in H as (x' & Hx & H).
  apply bind_Some in H as (z & Hz & [= <- <-]). split; [done|]. intros y Hy.
  apply list_elem_of_lookup in Hy as [i Hi]. apply lookup_take_Some in Hi as [Hi _].
  apply list_lookup_insert_Some in Hi as [(<- & <- & _)|(_ & Hi)]; [by apply last_Some_elem_of|].
  by eapply list_elem_of_lookup_2.
Qed.

Lemma reclaim_run holders index self :
  pool_ok self →
  same_picture self (reclaim holders index self) ∧ pool_ok (reclaim holders index self) ∧
  so_current (reclaim holders index self) = so_current self.
Proof.
  revert self. induction index as [|index IH]; intros self Hp; [by split_and!|]. cbn [reclaim].
  destruct (so_retiring self !! index) as [shared|]; [|by split_and!].
  destruct (negb _); [by apply IH|].
  destruct (swap_remove index (so_retiring self)) as [[shared' rest]|] eqn:E; [|by split_and!].
  apply swap_remove_elem in E as [Hin Hrest]. destruct Hp as [Hs Hr].
  match goal with |- context [reclaim holders index ?s] => set (self1 := s) end.
  assert (same_picture self self1 ∧ pool_ok self1 ∧ so_current self1 = so_current self)
    as (Hsame & Hp & Hc).
  { assert (Forall (λ a, frame_ok (so_size self) (so_layout self) (arc_frame a)) rest) as Hr'.
    { rewrite Forall_forall in *. auto. }
    subst self1. destruct (_ <? _)%nat; (split; [done|]); (split; [|done]); split; cbn; try done.
    apply Forall_app. split; [done|]. constructor; [|done]. rewrite Forall_forall in Hr. apply Hr.
    by eapply list_elem_of_lookup_2. }
  destruct (IH self1 Hp) as (Hsame' & Hp' & Hc'). split; [|split; [done|congruence]].
  unfold same_picture in *. intuition congruence.
Qed.

Lemma publish_run holders target self :
  frame_ok (so_size self) (so_layout self) (frame self) → pool_ok self →
  same_picture self (publish holders target self) ∧ pool_ok (publish holders target self) ∧
  frame (publish holders target self) = target.
Proof.
  intros Hf [Hs Hr]. unfold publish. set (self1 := set_so_retiring _ _).
  assert (pool_ok self1) as Hp.
  { split; cbn; [done|]. apply Forall_app. split; [done|]. by constructor. }
  destruct (reclaim_run holders (length (so_retiring self1)) self1 Hp) as (Hsame & [Hs' Hr'] & Hc).
  split; [exact Hsame|]. split.
  - split; cbn; [done|]. by apply Forall_drop.
  - exact (f_equal arc_frame Hc).
Qed.

(** * A composition, whichever way it goes *)

(** What a failed composition may have changed of the output: images nobody has been told about, and
    a frame taken from the pool. *)
Record failed (self self' : SoftwareOutput) : Prop := {
  fa_parts : ∃ spare images, self' = set_so_spare spare (set_so_surfaces images self);
  fa_spare : Forall (frame_ok (so_size self) (so_layout self)) (so_spare self');
  fa_images : images_ok (so_layout self) (so_surfaces self');
  fa_kept key : so_surfaces self' !! key = None ∨
    kept_image (so_layout self) (so_surfaces self !! key) (so_surfaces self' !! key);
}.

(** A composition that succeeded. *)
Record composed (holders : Z → Z) (buffers : gmap BufferKey SoftwareBuffer) (t : Z)
    (self : SoftwareOutput) (s : CompositorState) (report : FrameReport)
    (self' : SoftwareOutput) (s' : CompositorState) (images : Images) (pass : Pass) : Prop := {
  co_read : read_in (so_layout self) s buffers (scene_stack (cs_scene s)) (so_surfaces self) images pass;
  co_staged : stage_all (so_layout self) s buffers Pass_new (scene_stack (cs_scene s))
    (so_surfaces self) = (Ok pass, images);
  co_settled : settle t (pa_consumed pass) s = (Ok tt, s');
  co_frame : frame_ok (so_size self) (so_layout self) (frame self');
  co_pixels x y k : on_frame (so_size self) (so_layout self) x y k →
    frame_pixel (frame self') x y k =
      painted (so_layout self) (layers_of images (pa_origins pass)) x y k;
  co_pool : pool_ok self';
  co_same : same_picture (note_damage (pa_origins pass) (pa_redrawn pass)
    (set_so_surfaces (mark_commits (pa_consumed pass) (retain_active pass images)) self)) self';
  co_report : report = MkFrameReport t
    (Z.of_nat (size (mark_commits (pa_consumed pass) (retain_active pass images))))
    (len (pa_consumed pass)) (pa_damage_count pass) (len (pf_bytes (frame self')));
}.

Lemma retain_active_lookup layout s buffers stack images images' pass key :
  read_in layout s buffers stack images images' pass →
  retain_active pass images' !! key = if decide (key ∈ stack) then images' !! key else None.
Proof.
  intros [Ha _ _ _ _ _ _ _]. apply option_eq. intros image. unfold retain_active.
  rewrite btree_retain_Some, bool_decide_eq_true, Ha. case_decide; naive_solver.
Qed.

Lemma retain_active_ok layout s buffers stack images images' pass :
  read_in layout s buffers stack images images' pass →
  images_ok layout (retain_active pass images').
Proof.
  intros Hri key image Hi. rewrite (retain_active_lookup _ _ _ _ _ _ _ _ Hri) in Hi.
  case_decide; [|done]. by eapply (ri_ok _ _ _ _ _ _ _ Hri).
Qed.

Lemma layers_of_retained layout s buffers stack images images' pass :
  read_in layout s buffers stack images images' pass →
  layers_of (retain_active pass images') (pa_origins pass) = layers_of images' (pa_origins pass).
Proof.
  intros Hri. pose proof (ri_origins _ _ _ _ _ _ _ Hri) as Ho.
  assert (Forall (λ entry, entry.1 ∈ stack) (pa_origins pass)) as Hin.
  { rewrite Forall_forall. intros entry He.
    apply list_elem_of_lookup in He as [i Hi].
    destruct (Forall2_lookup_r _ _ _ _ _ Ho Hi) as (key & Hk & Hd).
    rewrite (drawn_at_entry _ _ _ Hd). by eapply list_elem_of_lookup_2. }
  clear Ho. unfold layers_of. induction Hin as [|entry origins He Hin IH]; [done|]. cbn.
  rewrite (retain_active_lookup _ _ _ _ _ _ _ _ Hri), decide_True by done. by rewrite IH.
Qed.

Lemma settle_Err t consumed s e s' :
  settle t consumed s = (Err e, s') → ∃ key, e = StateChanged key.
Proof.
  revert s. induction consumed as [|[[key b] c] consumed IH]; intros s H; [done|]. cbn [settle] in H.
  rewrite ST_bind_run in H. unfold ST_map_err at 1 in H.
  destruct (present key t s) as [[n|e1] s1]; [|injection H as <- <-; by exists key].
  rewrite ST_bind_run in H. unfold ST_map_err at 1 in H.
  destruct (release_buffer _ b s1) as [[u|e1] s2]; [|injection H as <- <-; by exists key].
  by eapply IH.
Qed.

(** Why a composition failed: a check of the reading pass, or the settling of what was read. *)
Definition refused_by (buffers : gmap BufferKey SoftwareBuffer) (t : Z) (self : SoftwareOutput)
    (s : CompositorState) (e : ComposeError) (s' : CompositorState) : Prop :=
  (s' = s ∧ ∃ images, stage_all (so_layout self) s buffers Pass_new (scene_stack (cs_scene s))
     (so_surfaces self) = (Err e, images)) ∨
  ∃ pass images, stage_all (so_layout self) s buffers Pass_new (scene_stack (cs_scene s))
     (so_surfaces self) = (Ok pass, images) ∧
    settle t (pa_consumed pass) s = (Err e, s') ∧ ∃ key, e = StateChanged key.

Section Composing.
Context (holders : Z → Z) (buffers : gmap BufferKey SoftwareBuffer) (t : Z).
Hypothesis stored : store_typed buffers.

Lemma compose_run self s :
  output_ok self → scene_typed s → NoDup (scene_stack (cs_scene s)) →
  (∃ e self' s', compose holders buffers t (self, s) = (Err e, (self', s')) ∧ failed self self' ∧
     refused_by buffers t self s e s') ∨
  ∃ report self' s' images pass,
    compose holders buffers t (self, s) = (Ok report, (self', s')) ∧
    composed holders buffers t self s report self' s' images pass.
Proof.
  intros Hok Hty Hnd. pose proof Hok as [Hcur Hspare Hret Him].
  unfold compose. rewrite !ST_gets_bind. cbn [fst snd]. set (stack := scene_stack (cs_scene s)) in *.
  destruct (stage_all_run (so_layout self) s buffers stack [] Pass_new (so_surfaces self)
    (so_surfaces self) stored Hty Hnd (read_in_nil _ _ _ _ Him))
    as [(e & images & pass & Hrun & seen & Hri)|(pass & images & Hrun & Hri)].
  { left. rewrite ST_bind_run. unfold on_output, on_images. cbn [fst]. rewrite Hrun.
    eexists _, _, _. split; [reflexivity|]. split; [|left; split; [done|by exists images]]. split.
    - by exists (so_spare self), images.
    - done.
    - apply (ri_ok _ _ _ _ _ _ _ Hri).
    - intros key. right. by eapply read_in_kept. }
  cbn [app] in Hri.
  set (self1 := set_so_surfaces (retain_active pass images) self).
  assert (∀ spare, Forall (frame_ok (so_size self) (so_layout self)) spare →
    failed self (set_so_spare spare self1)) as Hfailed.
  { intros spare Hsp. split; [by exists spare, (retain_active pass images)|done| |].
    - by eapply retain_active_ok.
    - intros key. cbn. rewrite (retain_active_lookup _ _ _ _ _ _ _ _ Hri).
      case_decide; [right|by left]. by eapply read_in_kept. }
  assert (output_ok self1) as Hok1 by (split; [done..|by eapply retain_active_ok]).
  destruct (take_frame_run self1 Hok1) as (f0 & spare & Et & Hf & Hsp).
  unfold on_output, on_images. rewrite ST_bind_run. cbn [fst snd]. rewrite Hrun.
  rewrite ST_bind_run. cbn [modify fst snd]. rewrite ST_bind_run. cbn [fst snd].
  change (map_images (retain_active pass) (set_so_surfaces images self)) with self1. rewrite Et.
  rewrite ST_gets_bind. cbn [fst].
  destruct (blit_all_run s (retain_active pass images) (so_layout self) (so_size self) stack
    (pa_origins pass) (PixelFrame_clear f0)) as (f & Hblit & Hframe & Hpix).
  { apply Hri. } { done. } { by eapply retain_active_ok. }
  { intros key Hin. rewrite (retain_active_lookup _ _ _ _ _ _ _ _ Hri), decide_True by done.
    by apply Hri. }
  { by eapply clear_ok. }
  change (so_surfaces (set_so_spare spare self1)) with (retain_active pass images).
  rewrite Hblit, ST_lift_bind, ST_bind_run. unfold on_state. cbn [snd].
  destruct (settle t (pa_consumed pass) s) as [[[]|e] s'] eqn:Es;
    [|left; eexists _, _, _; split; [reflexivity|split; [by apply Hfailed|]]].
  2: { right. exists pass, images. split_and!; [done..|]. by eapply settle_Err. }
  right. eexists _, _, _, images, pass. split; [reflexivity|]. cbn [fst snd].
  match goal with |- context [publish holders f ?x] => set (self3 := x) end.
  destruct (publish_run holders f self3) as (Hsame & Hpool & Hfr); [done|by split|].
  split; try done; rewrite ?Hfr; try done.
  - intros x y k Hon. rewrite Hpix by done.
    rewrite (layers_of_retained _ _ _ _ _ _ _ Hri). unfold painted. f_equal.
    by eapply clear_pixel.
Qed.
End Composing.

(** * Where a layer lies on the frame *)

Definition layer_typed (l : Layer) : Prop :=
  near (ly_origin l).1 ∧ near (ly_origin l).2 ∧
  is_u32 (size_width (im_size (ly_image l))) ∧ is_u32 (size_height (im_size (ly_image l))).

Definition output_small (size : Size) : Prop :=
  0 ≤ size_width size ≤ i32_max ∧ 0 ≤ size_height size ≤ i32_max.

Definition rect_of (size : Size) (l : Layer) : option Rect :=
  clipped size (ly_origin l) (im_size (ly_image l)).

Lemma saturating_edge_near origin extent limit :
  near origin → is_u32 extent → saturating_edge origin extent limit = Z.min (origin + extent) limit.
Proof.
  unfold near. intros. unfold saturating_edge, saturating_add_i64. unfold i64_min, i64_max.
  unfold_widths. lia.
Qed.

(** The clipped rectangle, in closed form. *)
Lemma rect_of_spec size l : output_small size → layer_typed l →
  let left := Z.max (ly_origin l).1 0 in let top := Z.max (ly_origin l).2 0 in
  let right_ := Z.min ((ly_origin l).1 + size_width (im_size (ly_image l))) (size_width size) in
  let bottom := Z.min ((ly_origin l).2 + size_height (im_size (ly_image l))) (size_height size) in
  rect_of size l = if decide (left < right_ ∧ top < bottom)
    then Some (MkRect left top (right_ - left) (bottom - top)) else None.
Proof.
  intros [Hw Hh] (Hx & Hy & Hw' & Hh') left top right_ bottom. unfold rect_of, clipped.
  rewrite !saturating_edge_near by done. fold left top right_ bottom.
  destruct (_ || _) eqn:E.
  - rewrite decide_False; [done|]. rewrite orb_true_iff, !Z.leb_le in E. lia.
  - rewrite orb_false_iff, !Z.leb_gt in E. rewrite decide_True by lia.
    rewrite !try_from_ok by (subst left top right_ bottom; unfold_widths; lia). done.
Qed.

Lemma rect_of_covers size l x y : output_small size → layer_typed l →
  0 ≤ x < size_width size → 0 ≤ y < size_height size → covers l x y →
  ∃ rect, rect_of size l = Some rect ∧ in_rect rect x y.
Proof.
  intros Hs Hl Hx Hy [Hcx Hcy]. rewrite rect_of_spec by done. rewrite decide_True by lia.
  eexists. split; [done|]. unfold in_rect. cbn. lia.
Qed.

(** An image no larger than the output lies where its rectangle says. *)
Lemma rect_of_inj size l l' rect : output_small size → layer_typed l → layer_typed l' →
  im_size (ly_image l) = im_size (ly_image l') →
  size_width (im_size (ly_image l)) ≤ size_width size →
  size_height (im_size (ly_image l)) ≤ size_height size →
  rect_of size l = Some rect → rect_of size l' = Some rect → ly_origin l = ly_origin l'.
Proof.
  intros Hs Hl Hl' Hsz Hw Hh. rewrite !rect_of_spec by done. rewrite <- Hsz.
  do 2 (case_decide; [|done]). intros [= <-] [= ? ? ? ?].
  destruct (ly_origin l), (ly_origin l'). cbn in *. f_equal; lia.
Qed.

(** * What two frames have in common *)

Definition stroke_of (layout : PixelLayout) (x y k : Z) (l : Layer) : option (option byte) :=
  if decide (covers l x y)
  then Some (image_pixel layout (ly_image l) (x - (ly_origin l).1) (y - (ly_origin l).2) k)
  else None.

Definition stroke (layout : PixelLayout) (layers : list Layer) (x y k : Z) (i : nat)
    : option (option byte) := layers !! i ≫= stroke_of layout x y k.

Lemma paint_stroke layout x y k below l :
  paint layout x y k below l = default below (stroke layout [l] x y k 0).
Proof. unfold paint, stroke, stroke_of. cbn. by case_decide. Qed.

Lemma painted_nothing layout layers x y k below :
  (∀ i, stroke layout layers x y k i = None) → foldl (paint layout x y k) below layers = below.
Proof.
  revert below. induction layers as [|l layers IH]; intros below H; [done|]. cbn.
  rewrite IH; [|intros i; apply (H (S i))]. rewrite paint_stroke.
  pose proof (H 0%nat : stroke layout [l] x y k 0 = None) as H0. by rewrite H0.
Qed.

(** A pixel is decided by which layers cover it, at which depths, and what they hold there. *)
Lemma painted_ext layout layers layers' x y k below :
  (∀ i, stroke layout layers x y k i = stroke layout layers' x y k i) →
  foldl (paint layout x y k) below layers = foldl (paint layout x y k) below layers'.
Proof.
  revert layers' below. induction layers as [|l layers IH]; intros layers' below H.
  - symmetry. apply painted_nothing. intros i. by rewrite <- H.
  - destruct layers' as [|l' layers'].
    + apply painted_nothing. intros i. by rewrite H.
    + cbn. rewrite !paint_stroke.
      pose proof (H 0%nat : stroke layout [l] x y k 0 = stroke layout [l'] x y k 0) as H0.
      rewrite H0. apply IH. intros i. apply (H (S i)).
Qed.

(** * What is recorded of the frame on screen *)

Record on_screen (self : SoftwareOutput) (shown : list Layer) : Prop := {
  os_pixels x y k : on_frame (so_size self) (so_layout self) x y k →
    frame_pixel (frame self) x y k = painted (so_layout self) shown x y k;
  os_keys : NoDup (ly_key <$> shown);
  os_typed : Forall layer_typed shown;
  os_placed key place : so_placed self !! key = Some place ↔
    ∃ i l, shown !! i = Some l ∧ ly_key l = key ∧ pl_depth place = Z.of_nat i ∧
      rect_of (so_size self) l = Some (pl_rect place);
  os_images l image : l ∈ shown → so_surfaces self !! ly_key l = Some image →
    im_commit image ≠ None →
    im_size (ly_image l) = im_size image ∧ im_bytes (ly_image l) = im_bytes image;
}.

(** The layers of a pass, entry by entry. *)
Definition layer_of (images : Images) (entry : SurfaceKey * (Z * Z)) (l : Layer) : Prop :=
  ly_key l = entry.1 ∧ ly_origin l = entry.2 ∧ images !! entry.1 = Some (ly_image l).

Lemma layers_of_spec images origins :
  Forall (λ entry, is_Some (images !! entry.1)) origins →
  Forall2 (layer_of images) origins (layers_of images origins).
Proof.
  intros H. unfold layers_of. induction H as [|[key o] origins [image Hi] H IH]; [constructor|].
  cbn in *. rewrite Hi. cbn. constructor; [|done]. by repeat split.
Qed.

Lemma placements_spec size images images' origins layers : ∀ (d : nat) now,
  Forall2 (layer_of images) origins layers →
  (∀ l, l ∈ layers → im_size <$> images' !! ly_key l = Some (im_size (ly_image l))) →
  NoDup (ly_key <$> layers) → (∀ l, l ∈ layers → now !! ly_key l = None) →
  ∀ key place, placements size images' (Z.of_nat d) origins now !! key = Some place ↔
    now !! key = Some place ∨
    ∃ i l, layers !! i = Some l ∧ ly_key l = key ∧ pl_depth place = Z.of_nat (d + i) ∧
      rect_of size l = Some (pl_rect place).
Proof.
  intros d now Hl. revert d now.
  induction Hl as [|[key0 o] l origins layers [Hk [Ho Hi]] Hl IH]; intros d now Hsz Hnd Hnow key place.
  { cbn. split; [by left|]. intros [?|(i & l & [=] & _)]. done. }
  cbn in Hk, Ho, Hi. subst o. cbn [fmap list_fmap] in Hnd. apply NoDup_cons in Hnd as [Hnin Hnd].
  pose proof (Hsz l ltac:(left)) as Hsz0. rewrite Hk in Hsz0. cbn [placements]. rewrite Hsz0.
  change (clipped size (ly_origin l) (im_size (ly_image l))) with (rect_of size l).
  set (now' := match rect_of size l with Some rect => _ | None => now end).
  replace (Z.of_nat d + 1) with (Z.of_nat (S d)) by lia. rewrite IH; [|intros l' ?; apply Hsz; by right|done|].
  - assert (now' !! key = Some place ↔ now !! key = Some place ∨
      ly_key l = key ∧ pl_depth place = Z.of_nat d ∧ rect_of size l = Some (pl_rect place)) as ->.
    { subst now'. assert (now !! key0 = None) as Hn by (rewrite <- Hk; apply Hnow; left).
      destruct (rect_of size l) as [rect|]; [|naive_solver].
      destruct (decide (key = key0)) as [->|Hne].
      - rewrite lookup_insert_eq, Hn. destruct place as [r z]. cbn. naive_solver.
      - rewrite lookup_insert_ne by done. naive_solver. }
    split.
    + intros [[?|(? & ? & ?)]|(i & l' & ? & ? & ? & ?)]; [by left|right; exists 0%nat, l|right; exists (S i), l'].
      * split_and!; try done. by rewrite Nat.add_0_r.
      * split_and!; try done. by rewrite Nat.add_succ_r.
    + intros [?|([|i] & l' & Hl' & ? & Hd & ?)]; [by left; left| |].
      * cbn in Hl'. injection Hl' as <-. rewrite Nat.add_0_r in Hd. left. by right.
      * right. exists i, l'. rewrite Nat.add_succ_r in Hd. done.
  - intros l' Hl'. subst now'.
    assert (ly_key l' ≠ key0).
    { intros He. apply Hnin. rewrite Hk, <- He. by apply list_elem_of_fmap_2. }
    destruct (rect_of size l); [rewrite lookup_insert_ne by done|]; apply Hnow; by right.
Qed.

Definition picture_of (image : SurfaceImage) : Size * list byte := (im_size image, im_bytes image).

Lemma set_commit_picture key c images k :
  picture_of <$> set_commit key c images !! k = picture_of <$> images !! k.
Proof.
  unfold set_commit. rewrite lookup_alter. case_decide as H; [|done]. subst.
  by destruct (images !! k).
Qed.

Lemma mark_commits_picture consumed images k :
  picture_of <$> mark_commits consumed images !! k = picture_of <$> images !! k.
Proof.
  unfold mark_commits. revert images. induction consumed as [|entry consumed IH]; intros images; [done|].
  cbn. rewrite IH. apply set_commit_picture.
Qed.

Section Shown.
Context (holders : Z → Z) (buffers : gmap BufferKey SoftwareBuffer) (t : Z).
Context (self : SoftwareOutput) (s : CompositorState) (report : FrameReport).
Context (self' : SoftwareOutput) (s' : CompositorState) (images : Images) (pass : Pass).
Hypothesis done_ : composed holders buffers t self s report self' s' images pass.
Hypothesis typed : scene_typed s.
Hypothesis distinct : NoDup (scene_stack (cs_scene s)).

Let stack := scene_stack (cs_scene s).
Let shown' := layers_of images (pa_origins pass).
Let marked := mark_commits (pa_consumed pass) (retain_active pass images).

Lemma marked_picture key : key ∈ stack → picture_of <$> marked !! key = picture_of <$> images !! key.
Proof.
  intros Hin. unfold marked. rewrite mark_commits_picture.
  by rewrite (retain_active_lookup _ _ _ _ _ _ _ _ (co_read _ _ _ _ _ _ _ _ _ _ done_)), decide_True.
Qed.

Lemma shown_layers : Forall2 (layer_of images) (pa_origins pass) shown'.
Proof.
  destruct done_ as [[_ Ho _ _ _ _ Hdef _] _ _ _ _ _ _ _]. apply layers_of_spec.
  rewrite Forall_forall. intros entry He. apply list_elem_of_lookup in He as [i Hi].
  destruct (Forall2_lookup_r _ _ _ _ _ Ho Hi) as (key & Hk & Hd).
  rewrite (drawn_at_entry _ _ _ Hd). apply Hdef. by eapply list_elem_of_lookup_2.
Qed.

Lemma shown_keys : ly_key <$> shown' = stack.
Proof.
  pose proof shown_layers as Hl. destruct done_ as [[_ Ho _ _ _ _ _ _] _ _ _ _ _ _ _].
  apply list_eq. intros i. rewrite list_lookup_fmap.
  destruct (shown' !! i) as [l|] eqn:El.
  - destruct (Forall2_lookup_r _ _ _ _ _ Hl El) as (entry & He & Hk & _).
    destruct (Forall2_lookup_r _ _ _ _ _ Ho He) as (key & Hkey & Hd).
    cbn. rewrite Hk, (drawn_at_entry _ _ _ Hd). symmetry. exact Hkey.
  - cbn. symmetry. apply lookup_ge_None in El. apply lookup_ge_None.
    apply Forall2_length in Ho, Hl. unfold stack. lia.
Qed.

(** What a layer of the frame is. *)
Lemma shown_layer l : l ∈ shown' →
  ly_key l ∈ stack ∧ images !! ly_key l = Some (ly_image l) ∧ drawn_at s (ly_key l) (ly_key l, ly_origin l).
Proof.
  intros Hin. pose proof shown_keys as Hkeys. pose proof shown_layers as Hl.
  destruct done_ as [[_ Ho _ _ _ _ _ _] _ _ _ _ _ _ _].
  apply list_elem_of_lookup in Hin as [i Hi].
  destruct (Forall2_lookup_r _ _ _ _ _ Hl Hi) as ([k o] & He & Hk & Hor & Him). cbn in Hk, Hor, Him. subst k o.
  destruct (Forall2_lookup_r _ _ _ _ _ Ho He) as (key & Hkey & Hd).
  pose proof (drawn_at_entry _ _ _ Hd) as Hd'. cbn in Hd'. subst key.
  split_and!; [by eapply list_elem_of_lookup_2|done|done].
Qed.

Lemma shown_typed : Forall layer_typed shown'.
Proof.
  rewrite Forall_forall. intros l (Hin & Him & sn & p & Hsn & Hp & [= Ho])%shown_layer.
  unfold scene_typed in typed. rewrite Forall_forall in typed. destruct (typed _ Hin) as [Ht1 Ht2].
  destruct (Ht1 _ Hp) as [Hpx Hpy]. destruct (Ht2 _ Hsn) as [[Hox Hoy] _].
  destruct (ri_ok _ _ _ _ _ _ _ (co_read _ _ _ _ _ _ _ _ _ _ done_) _ _ Him) as [_ Hw Hh _ _ _].
  unfold layer_typed. rewrite Ho. cbn. unfold near. unfold_widths. lia.
Qed.

Lemma placed_spec key place : so_placed self' !! key = Some place ↔
  ∃ i l, shown' !! i = Some l ∧ ly_key l = key ∧ pl_depth place = Z.of_nat i ∧
    rect_of (so_size self) l = Some (pl_rect place).
Proof.
  destruct done_ as [_ _ _ _ _ _ (_ & _ & _ & -> & _ & _) _]. cbn. fold marked.
  assert (∀ l, l ∈ shown' → im_size <$> marked !! ly_key l = Some (im_size (ly_image l))) as Hsz.
  { intros l (Hin & Hi & _)%shown_layer. pose proof (marked_picture _ Hin) as Hp. rewrite Hi in Hp.
    destruct (marked !! ly_key l) as [m|]; [|done]. cbn in Hp |- *. by injection Hp as -> _. }
  change 0 with (Z.of_nat 0). 
  rewrite (placements_spec _ _ _ _ _ _ _ shown_layers Hsz); [|by rewrite shown_keys|done].
  cbn. split; [intros [[=]|?]; done|by right].
Qed.

(** The image behind a layer, as the output keeps it from then on. *)
Lemma kept_layer l : l ∈ shown' →
  ∃ image, so_surfaces self' !! ly_key l = Some image ∧ picture_of image = picture_of (ly_image l).
Proof.
  intros (Hin & Hi & _)%shown_layer.
  destruct (co_same _ _ _ _ _ _ _ _ _ _ done_) as (_ & _ & -> & _). cbn. fold marked.
  pose proof (marked_picture _ Hin) as Hp. rewrite Hi in Hp.
  destruct (marked !! ly_key l) as [image|]; [|done]. exists image. split; [done|].
  cbn in Hp. congruence.
Qed.

Lemma on_screen_composed : on_screen self' shown'.
Proof.
  pose proof done_ as [Hri _ _ Hfr Hpix _ (Hs & Hl & Him & _) _]. cbn in Hs, Hl, Him. fold marked in Him.
  split.
  - rewrite Hs, Hl. exact Hpix.
  - by rewrite shown_keys.
  - apply shown_typed.
  - intros key place. rewrite Hs. apply placed_spec.
  - intros l image (Hin & Hi & _)%shown_layer. rewrite Him. intros Hm _.
    pose proof (marked_picture _ Hin) as Hp. rewrite Hm, Hi in Hp. by injection Hp as -> ->.
Qed.
End Shown.

Definition fits_output (size : Size) (images : Images) : Prop :=
  map_Forall (λ _ image, size_width (im_size image) ≤ size_width size ∧
                         size_height (im_size image) ≤ size_height size) images.

Section Damage.
Context (holders : Z → Z) (buffers : gmap BufferKey SoftwareBuffer) (t : Z).
Context (self : SoftwareOutput) (s : CompositorState) (report : FrameReport).
Context (self' : SoftwareOutput) (s' : CompositorState) (images : Images) (pass : Pass).
Hypothesis done_ : composed holders buffers t self s report self' s' images pass.
Hypothesis typed : scene_typed s.
Hypothesis distinct : NoDup (scene_stack (cs_scene s)).
Context (shown : list Layer).
Hypothesis screen : on_screen self shown.
Hypothesis small : output_small (so_size self).
Hypothesis fits : fits_output (so_size self) (so_surfaces self').

Let shown' := layers_of images (pa_origins pass).
Let read := co_read _ _ _ _ _ _ _ _ _ _ done_.

Definition spared (x y : Z) : Prop := ∀ rect, rect ∈ so_damage self' → ¬ in_rect rect x y.

Lemma damage_noted : so_damage self' =
  if so_composed_once self
  then (btree_items (so_placed self') ≫= moved (so_placed self) (pa_redrawn pass)) ++
       (btree_items (so_placed self) ≫= left_behind (so_placed self'))
  else [whole_rect (so_size self)].
Proof.
  destruct (co_same _ _ _ _ _ _ _ _ _ _ done_) as (_ & _ & _ & -> & -> & _). reflexivity.
Qed.

(** A surface that touches a spared pixel has neither moved nor changed. *)
Lemma spared_now x y key place : so_composed_once self = true → spared x y →
  so_placed self' !! key = Some place → in_rect (pl_rect place) x y →
  so_placed self !! key = Some place ∧ key ∉ pa_redrawn pass.
Proof.
  intros Hc Hsp Hp Hin. unfold spared in Hsp. rewrite damage_noted, Hc in Hsp.
  assert (∀ rect, rect ∈ moved (so_placed self) (pa_redrawn pass) (key, place) → ¬ in_rect rect x y)
    as Hm.
  { intros rect Hr. apply Hsp, elem_of_app. left. apply list_elem_of_bind.
    exists (key, place). split; [done|]. by apply elem_of_btree_items. }
  unfold moved in Hm. destruct (so_placed self !! key) as [was|] eqn:Ew;
    [|exfalso; apply (Hm (pl_rect place)); [left|done]].
  destruct (_ && _) eqn:Eb; [|exfalso; apply (Hm (pl_rect place)); [right; left|done]].
  apply andb_true_iff in Eb as [->%bool_decide_eq_true Hn]. split; [done|].
  apply negb_true_iff, bool_decide_eq_false in Hn. done.
Qed.

Lemma spared_before x y key place : so_composed_once self = true → spared x y →
  so_placed self !! key = Some place → in_rect (pl_rect place) x y →
  so_placed self' !! key = Some place ∧ key ∉ pa_redrawn pass.
Proof.
  intros Hc Hsp Hp Hin. pose proof Hsp as Hsp'. unfold spared in Hsp. rewrite damage_noted, Hc in Hsp.
  destruct (so_placed self' !! key) as [now|] eqn:En.
  - assert (∀ rect, rect ∈ moved (so_placed self) (pa_redrawn pass) (key, now) → ¬ in_rect rect x y)
      as Hm.
    { intros rect Hr. apply Hsp, elem_of_app. left. apply list_elem_of_bind.
      exists (key, now). split; [done|]. by apply elem_of_btree_items. }
    unfold moved in Hm. rewrite Hp in Hm.
    destruct (_ && _) eqn:Eb; [|exfalso; apply (Hm (pl_rect place)); [left|done]].
    apply andb_true_iff in Eb as [->%bool_decide_eq_true Hn]. split; [done|].
    apply negb_true_iff, bool_decide_eq_false in Hn. done.
  - exfalso. apply (Hsp (pl_rect place)); [|done]. apply elem_of_app. right. apply list_elem_of_bind.
    exists (key, place). split; [|by apply elem_of_btree_items]. unfold left_behind. cbn. rewrite En. left.
Qed.

(** Two layers recorded at one place, the content read before, are one stroke. *)
Lemma same_stroke i l l' place : shown !! i = Some l → shown' !! i = Some l' → ly_key l = ly_key l' →
  rect_of (so_size self) l = Some (pl_rect place) → rect_of (so_size self) l' = Some (pl_rect place) →
  ly_key l' ∉ pa_redrawn pass →
  ly_origin l' = ly_origin l ∧ picture_of (ly_image l') = picture_of (ly_image l).
Proof.
  intros Hl Hl' Hk Hr Hr' Hn. apply list_elem_of_lookup_2 in Hl as Hin, Hl' as Hin'.
  destruct (shown_layer _ _ _ _ _ _ _ _ _ _ done_ _ Hin') as (Hst & Hi & sn & p & Hsn & _).
  assert (¬ redraws (so_surfaces self) s (ly_key l')) as Hnr.
  { intros Hr0. apply Hn. apply (ri_redrawn _ _ _ _ _ _ _ read). by split. }
  pose proof (ri_same _ _ _ _ _ _ _ read _ (or_intror Hnr)) as Hsame. rewrite Hi in Hsame.
  assert (im_commit (ly_image l') ≠ None) as Hc.
  { intros Hc. apply Hnr. exists sn. split; [done|]. intros image. rewrite <- Hsame. intros [= <-].
    by rewrite Hc. }
  rewrite <- Hk in Hsame. destruct (os_images _ _ screen l _ Hin (eq_sym Hsame) Hc) as [Hsz Hby].
  split; [|unfold picture_of; congruence].
  pose proof (os_typed _ _ screen) as Ht. rewrite Forall_forall in Ht.
  pose proof (shown_typed _ _ _ _ _ _ _ _ _ _ done_ typed) as Ht'. rewrite Forall_forall in Ht'.
  destruct (kept_layer _ _ _ _ _ _ _ _ _ _ done_ _ Hin') as (image & Hplaced & Hpic).
  destruct (fits _ _ Hplaced) as [Hfw Hfh]. injection Hpic as Hps _. rewrite Hps, <- Hsz in Hfw, Hfh.
  symmetry. eapply rect_of_inj; [done|by apply Ht|by apply Ht'|done..].
Qed.

Lemma spared_layer_now x y k i l' : on_frame (so_size self) (so_layout self) x y k →
  so_composed_once self = true → spared x y →
  shown' !! i = Some l' → covers l' x y →
  ∃ l, shown !! i = Some l ∧ ly_origin l' = ly_origin l ∧ picture_of (ly_image l') = picture_of (ly_image l).
Proof.
  intros (Hx & Hy & _) Hc Hsp Hl' Hcov.
  pose proof (shown_typed _ _ _ _ _ _ _ _ _ _ done_ typed) as Ht'. rewrite Forall_forall in Ht'.
  destruct (rect_of_covers (so_size self) l' x y) as (rect & Hr & Hin); [done| |done..|].
  { apply Ht'. by eapply list_elem_of_lookup_2. }
  destruct (spared_now x y (ly_key l') (MkPlacement rect (Z.of_nat i))) as [Hp Hn]; [done..| |done|].
  { apply (placed_spec _ _ _ _ _ _ _ _ _ _ done_ distinct). by exists i, l'. }
  apply (os_placed _ _ screen) in Hp as (i0 & l & Hl & Hk & Hi & Hr'). cbn in Hi, Hr'.
  apply Nat2Z.inj in Hi as <-. exists l. split; [done|].
  by apply (same_stroke i l l' (MkPlacement rect (Z.of_nat i))).
Qed.

Lemma spared_layer_before x y k i l : on_frame (so_size self) (so_layout self) x y k →
  so_composed_once self = true → spared x y →
  shown !! i = Some l → covers l x y →
  ∃ l', shown' !! i = Some l' ∧ ly_origin l' = ly_origin l ∧
    picture_of (ly_image l') = picture_of (ly_image l).
Proof.
  intros (Hx & Hy & _) Hc Hsp Hl Hcov.
  pose proof (os_typed _ _ screen) as Ht. rewrite Forall_forall in Ht.
  destruct (rect_of_covers (so_size self) l x y) as (rect & Hr & Hin); [done| |done..|].
  { apply Ht. by eapply list_elem_of_lookup_2. }
  destruct (spared_before x y (ly_key l) (MkPlacement rect (Z.of_nat i))) as [Hp Hn]; [done..| |done|].
  { apply (os_placed _ _ screen). by exists i, l. }
  apply (placed_spec _ _ _ _ _ _ _ _ _ _ done_ distinct) in Hp as (i0 & l' & Hl' & Hk & Hi & Hr').
  cbn in Hi, Hr'. apply Nat2Z.inj in Hi as <-. exists l'. split; [done|].
  apply (same_stroke i l l' (MkPlacement rect (Z.of_nat i))); try done. by rewrite Hk.
Qed.

Lemma same_stroke_of layout x y k l l' : ly_origin l' = ly_origin l →
  picture_of (ly_image l') = picture_of (ly_image l) →
  stroke_of layout x y k l' = stroke_of layout x y k l.
Proof.
  intros Ho [= Hs Hb]. assert (covers l' x y ↔ covers l x y) as Hc by (unfold covers; by rewrite Ho, Hs).
  unfold stroke_of. rewrite (decide_ext _ _ _ _ Hc). unfold image_pixel. by rewrite Ho, Hs, Hb.
Qed.

Lemma spared_pixel x y k : on_frame (so_size self) (so_layout self) x y k → spared x y →
  frame_pixel (frame self') x y k = frame_pixel (frame self) x y k.
Proof.
  intros Hon Hsp. rewrite (co_pixels _ _ _ _ _ _ _ _ _ _ done_), (os_pixels _ _ screen) by done.
  fold shown'. destruct (so_composed_once self) eqn:Hc.
  2: { exfalso. apply (Hsp (whole_rect (so_size self))); [rewrite damage_noted, Hc; left|].
       destruct Hon. unfold in_rect. cbn. lia. }
  apply painted_ext. intros i. unfold stroke.
  destruct (shown' !! i) as [l'|] eqn:El'; [destruct (decide (covers l' x y)) as [Hcov|Hn]|].
  1: { destruct (spared_layer_now x y k i l' Hon Hc Hsp El' Hcov) as (l & -> & Ho & Hp).
       by apply same_stroke_of. }
  all: destruct (shown !! i) as [l|] eqn:El; [destruct (decide (covers l x y)) as [Hcov|Hn']|];
    [destruct (spared_layer_before x y k i l Hon Hc Hsp El Hcov) as (l1 & Hl1 & Ho & Hp);
     first [by rewrite Hl1 in El'|rewrite El' in Hl1; injection Hl1 as <-; by apply same_stroke_of]
    |cbn; unfold stroke_of; by rewrite ?decide_False by done..].
Qed.
End Damage.
