(* ===== verification/Painting.v ===== *)
(** The software output's guarantees ([atria-software-output/src/output.rs]), and where they stop:
    what a frame shows, what is reported of it, what a failure leaves, and how the commits a frame
    consumed are settled with the compositor. *)
From S2P Require Import Prelude.
From S2P Require Import BTree.
From S2P Require Import Vocabulary.
From S2P Require Import Interface.
From S2P Require Import Wire.
From S2P Require Import Payloads.
From S2P Require Import Model.
From S2P Require Import Registry.
From S2P Require Import Outputs.
From S2P Require Import State.
From S2P Require Import Queue.
From S2P Require Import Objects.
From S2P Require Import Surfaces.
From S2P Require Import Dispatch.
From S2P Require Import Invariant.
From S2P Require Import Preserved.
From S2P Require Import Desk.
From S2P Require Import Pixels.
From S2P Require Import Compose.
From S2P Require Import Frames.
From S2P Require Import Showing.

(** * Outputs somebody has been composing with *)

(** A compositor and a buffer store as [compose] is handed them. *)
Definition world_ok (buffers : gmap BufferKey SoftwareBuffer) (s : CompositorState) : Prop :=
  reachable s ∧ store_typed buffers ∧ scene_typed s.

Inductive drawing : SoftwareOutput → Prop :=
| drawing_new size layout self :
    is_u32 (size_width size) → is_u32 (size_height size) → layout_typed layout →
    SoftwareOutput_new size layout = Ok self → drawing self
| drawing_compose holders buffers t self s :
    drawing self → world_ok buffers s →
    drawing (compose holders buffers t (self, s)).2.1.

Lemma world_distinct buffers s : world_ok buffers s → NoDup (scene_stack (cs_scene s)).
Proof. intros (Hs%reachable_inv & _). destruct Hs as (_ & _ & _ & ([S1 _ _ _] & _) & _). exact S1. Qed.

(** What every such output has: its frames and images are pictures, and there is a list of layers
    that is on screen. *)
Definition drawing_ok (self : SoftwareOutput) : Prop :=
  output_ok self ∧ ∃ shown, on_screen self shown.

Lemma SoftwareOutput_new_ok size layout self :
  is_u32 (size_width size) → is_u32 (size_height size) → layout_typed layout →
  SoftwareOutput_new size layout = Ok self → drawing_ok self.
Proof.
  intros [Hw _] [Hh Hhu] Hl H. unfold SoftwareOutput_new in H.
  apply result_bind_Ok in H as (f & Hf & H). apply result_bind_Ok in H as (f' & Hf' & H).
  injection H as <-. rewrite Hf in Hf'. injection Hf' as <-.
  assert (frame_ok size layout f) as Hok by (by apply PixelFrame_new_ok).
  split; [|exists []].
  - split; cbn; [done|by constructor|done|by intros key image ?%lookup_empty_Some].
  - split; cbn.
    + intros x y k Hon. unfold frame. cbn. rewrite <- (clear_pixel size layout f x y k Hok Hon).
      assert (PixelFrame_clear f = f) as ->; [|done].
      unfold PixelFrame_new in Hf. checked_inv Hf. injection Hf as <-. unfold PixelFrame_clear.
      cbn. unfold set_pf_bytes. cbn. f_equal. unfold zeroes, len. by rewrite length_replicate, Nat2Z.id.
    + constructor.
    + constructor.
    + intros key place. rewrite lookup_empty. split; [done|]. intros (i & l & [=] & _).
    + intros l image ?%not_elem_of_nil. done.
Qed.

Lemma failed_ok self self' : failed self self' → drawing_ok self → drawing_ok self'.
Proof.
  intros [(spare & images & ->) Hsp Him Hkept] ([Hc Hs Hr Hi] & shown & [Hpix Hk Ht Hp Hsi]).
  split; [by split|]. exists shown. split; try done. intros l image Hl Hi' Hc'. cbn in Hi'.
  destruct (Hkept (ly_key l)) as [Hn|[Hsame|(image' & Hn & Hnone & _)]]; cbn in *; try congruence.
  apply Hsi; congruence.
Qed.

Lemma composed_ok holders buffers t self s report self' s' images pass :
  composed holders buffers t self s report self' s' images pass → scene_typed s →
  NoDup (scene_stack (cs_scene s)) → drawing_ok self'.
Proof.
  intros Hco Hty Hnd. split; [|eexists; by eapply on_screen_composed].
  pose proof Hco as [Hri _ _ Hfr _ [Hsp Hre] (Hs & Hl & Him & _) _]. cbn in Hs, Hl, Him.
  rewrite Hs, Hl in Hsp, Hre. split; rewrite ?Hs, ?Hl; try done. rewrite Him.
  intros key image Hi.
  pose proof (mark_commits_picture (pa_consumed pass) (retain_active pass images) key) as Hp.
  rewrite Hi in Hp. destruct (retain_active pass images !! key) as [image'|] eqn:E; [|done].
  cbn in Hp. injection Hp as Hsz Hb. pose proof (retain_active_ok _ _ _ _ _ _ _ Hri _ _ E) as Hok.
  unfold image_ok in *. by rewrite Hsz, Hb.
Qed.

Lemma drawing_inv self : drawing self → drawing_ok self.
Proof.
  induction 1 as [size layout self Hw Hh Hl H|holders buffers t self s Hd IH Hw].
  - by eapply SoftwareOutput_new_ok.
  - pose proof (world_distinct _ _ Hw) as Hnd. destruct Hw as (_ & Hst & Hty).
    destruct (compose_run holders buffers t Hst self s) as
      [(e & self' & s' & -> & Hf & _)|(report & self' & s' & images & pass & -> & Hco)];
      [apply IH|done..| |].
    + by eapply failed_ok.
    + by eapply composed_ok.
Qed.

(** * What a frame shows *)

(** The picture a scene asks for: the surfaces of the stack, bottom to top, each where it lies. *)
Definition scene_layer (s : CompositorState) (images : Images) (key : SurfaceKey) : option Layer :=
  sn ← surface_snapshot (key_connection key) (key_object key) s;
  p ← surface_position key s;
  image ← images !! key;
  Some (MkLayer key (point_x p + point_x (snap_offset sn), point_y p + point_y (snap_offset sn)) image).

Definition scene_layers (s : CompositorState) (images : Images) : list Layer :=
  omap (scene_layer s images) (scene_stack (cs_scene s)).

Definition same_layer (l l' : Layer) : Prop :=
  ly_origin l' = ly_origin l ∧ picture_of (ly_image l') = picture_of (ly_image l).

Lemma painted_same layout layers layers' x y k :
  Forall2 same_layer layers layers' → painted layout layers' x y k = painted layout layers x y k.
Proof.
  intros Hl. apply painted_ext. intros i. unfold stroke.
  pose proof (proj1 (Forall2_lookup _ _ _) Hl i) as Hi. destruct Hi as [l l' [Ho Hp]|]; [|done].
  cbn. by apply same_stroke_of.
Qed.

Lemma scene_layers_spec s images images' origins :
  Forall2 (drawn_at s) (scene_stack (cs_scene s)) origins →
  (∀ key, key ∈ scene_stack (cs_scene s) → is_Some (images !! key) ∧
     picture_of <$> images' !! key = picture_of <$> images !! key) →
  Forall2 same_layer (layers_of images origins) (scene_layers s images').
Proof.
  unfold scene_layers, layers_of. intros Ho.
  induction Ho as [|key entry stack origins (sn & p & Hsn & Hp & ->) Ho IH]; intros Him; [constructor|].
  destruct (Him key) as ([image Hi] & Hpic); [left|]. rewrite Hi in Hpic.
  destruct (images' !! key) as [image'|] eqn:Hi'; [|done].
  cbn [omap list_omap fst snd]. unfold scene_layer at 1. rewrite Hsn, Hp, Hi, Hi'. cbn.
  constructor; [|apply IH; intros; apply Him; by right]. split; [done|]. cbn in Hpic |- *. congruence.
Qed.

Lemma set_commit_lookup key c images k :
  set_commit key c images !! k =
    if decide (key = k) then (λ image, MkSurfaceImage c (im_size image) (im_bytes image)) <$> images !! k
    else images !! k.
Proof. unfold set_commit. rewrite lookup_alter. by case_decide; subst. Qed.

Lemma mark_commits_other consumed images key :
  (∀ b c, (key, b, c) ∉ consumed) → mark_commits consumed images !! key = images !! key.
Proof.
  unfold mark_commits. revert images. induction consumed as [|[[key' b] c] consumed IH];
    intros images Hn; [done|].
  cbn [foldl fst snd]. rewrite IH, set_commit_lookup.
  - rewrite decide_False; [done|]. intros ->. apply (Hn b c). left.
  - intros b' c' Hin. apply (Hn b' c'). by right.
Qed.

Lemma mark_commits_commit consumed images key c image :
  (∃ b, (key, b, c) ∈ consumed) → (∀ b' c', (key, b', c') ∈ consumed → c' = c) → images !! key = Some image →
  im_commit <$> mark_commits consumed images !! key = Some (Some c).
Proof.
  revert images image. induction consumed as [|[[key' b0] c0] consumed IH]; intros images image [b Hin] Hall Hi.
  { by apply not_elem_of_nil in Hin. }
  change (mark_commits ((key', b0, c0) :: consumed) images) with
    (mark_commits consumed (set_commit key' (Some c0) images)).
  pose proof (set_commit_lookup key' (Some c0) images key) as Hset. rewrite Hi in Hset.
  destruct (decide (key ∈ consumed.*1.*1)) as [Hk|Hk].
  - apply list_elem_of_fmap in Hk as ([key1 b1] & -> & Hk).
    apply list_elem_of_fmap in Hk as ([[key2 b2] c2] & [= -> ->] & Hk). cbn [fst] in *.
    destruct (Hall b2 c2) as []; [by right|].
    case_decide; (eapply IH; [by exists b2| |exact Hset]; intros; eapply Hall; by right).
  - assert (∀ b c, (key, b, c) ∉ consumed) as Hn.
    { intros b1 c1 H1. apply Hk. apply (list_elem_of_fmap_2 fst _ (key, b1)).
      by apply (list_elem_of_fmap_2 fst _ (key, b1, c1)). }
    rewrite mark_commits_other by done. apply elem_of_cons in Hin as [[= -> -> ->]|Hin]; [|by apply Hn in Hin].
    rewrite decide_True in Hset by done. by rewrite Hset.
Qed.

(** ** An easel: one window of four pixels and two buffers, on an output of nine *)

Definition RGBX : PixelLayout := MkPixelLayout 4.
Definition easel_descriptor : BufferDescriptor := MkBufferDescriptor ShmTransport (MkSize 2 2) 8 16.
Definition easel_requests : list ClientRequest :=
  [ RqCreateSurface (MkObjectId 3); RqCreatePool (MkObjectId 4) (MkSharedMem 0 64);
    RqCreateBuffer (MkObjectId 5) (MkObjectId 4) 0 (MkSize 2 2) 8 FORMAT_XRGB8888;
    RqCreateBuffer (MkObjectId 6) (MkObjectId 4) 16 (MkSize 2 2) 8 FORMAT_XRGB8888;
    RqAttach (MkObjectId 3) (MkObjectId 5) (MkPoint 1 1) None; RqCommit (MkObjectId 3) ].
Definition easel : CompositorState :=
  calls (opening ++ (CallDispatch APP <$> easel_requests)) fresh.

(** The second commit: the other buffer, one pixel damaged, a pixel to the left. *)
Definition second_requests : list ClientRequest :=
  [ RqAttach (MkObjectId 3) (MkObjectId 6) (MkPoint 0 1) None;
    RqDamage (MkObjectId 3) (MkRect 0 0 1 1); RqCommit (MkObjectId 3) ].

Definition plain (b : byte) : SoftwareBuffer := MkSoftwareBuffer easel_descriptor RGBX (replicate 16 b).
Definition easel_buffers : gmap BufferKey SoftwareBuffer :=
  <[ MkBufferKey APP (MkObjectId 5) := plain Corelib.Init.Byte.x01 ]>
    {[ MkBufferKey APP (MkObjectId 6) := plain Corelib.Init.Byte.x02 ]}.

Definition blank (size : Size) : SoftwareOutput :=
  MkSoftwareOutput size RGBX
    (MkSharedFrame 0 (MkPixelFrame size (size_width size * 4) RGBX
      (zeroes (size_width size * 4 * size_height size))))
    [MkPixelFrame size (size_width size * 4) RGBX (zeroes (size_width size * 4 * size_height size))]
    [] ∅ ∅ [] false 1.

Definition alone : Z → Z := λ _, 0.
Definition compose_once (t : Z) (p : SoftwareOutput * CompositorState)
    : SoftwareOutput * CompositorState := (compose alone easel_buffers t p).2.

Definition nine : SoftwareOutput := blank (MkSize 3 3).
Definition first_frame : SoftwareOutput * CompositorState := compose_once 1 (nine, easel).
Definition second_commit : CompositorState := calls (CallDispatch APP <$> second_requests) first_frame.2.

Lemma easel_stored : store_typed easel_buffers.
Proof.
  apply map_Forall_insert_2; [|apply map_Forall_singleton].
  all: split; vm_compute; by repeat split.
Qed.

Lemma easel_world : world_ok easel_buffers easel.
Proof.
  split; [apply reachable_calls, fresh_reachable|]. split; [exact easel_stored|].
  apply scene_check_ok. vm_compute. reflexivity.
Qed.

Lemma nine_drawing : drawing nine.
Proof. by apply (drawing_new (MkSize 3 3) RGBX). Qed.

(** Composing reaches the compositor through its public calls only, and admits nobody. *)
Lemma settle_onward s0 t consumed : preserves (onward s0) (settle t consumed).
Proof.
  induction consumed as [|[[key b] c] consumed IH]; [apply preserves_ret|]. cbn [settle].
  apply preserves_bind; [|intros _; apply preserves_bind; [|by intros _]];
    apply preserves_map_err; intros s Hs.
  - by apply (onward_call (CallPresent key t)).
  - by apply (onward_call (CallReleaseBuffer (key_connection key) b)).
Qed.

Lemma preserves_snd {A} (P : CompositorState → Prop) (m : ST SoftwareOutput ComposeError A) :
  preserves (λ p : SoftwareOutput * CompositorState, P p.2) (on_output m).
Proof. intros p Hp. unfold on_output. by destruct (m p.1). Qed.

Lemma compose_onward holders buffers t self s :
  onward s (compose holders buffers t (self, s)).2.2.
Proof.
  assert (preserves (λ p : SoftwareOutput * CompositorState, onward s p.2)
    (compose holders buffers t)) as H; [|by apply (H (self, s)), onward_refl].
  unfold compose. repeat first [apply preserves_bind; [|intros ?]|apply preserves_gets
    |apply preserves_snd|apply preserves_lift|apply preserves_ret].
  intros p Hp. unfold on_state. pose proof (settle_onward s t (pa_consumed a1) p.2 Hp).
  by destruct (settle _ _ p.2).
Qed.

Lemma compose_reachable holders buffers t self s :
  reachable s → reachable (compose holders buffers t (self, s)).2.2.
Proof. intros Hs. eapply onward_reachable, compose_onward. exact Hs. Qed.

(** * The picture *)

Lemma shows_commit_picture layout old b sn image image' :
  picture_of image' = picture_of image → shows_commit layout old b sn image →
  shows_commit layout old b sn image'.
Proof.
  intros [= Hs Hb] [Hsize Hpix]. unfold shows_commit, image_pixel in *. rewrite Hs, Hb. done.
Qed.

(** What a composed frame's image of a surface must be. *)
Definition up_to_date (layout : PixelLayout) (buffers : gmap BufferKey SoftwareBuffer)
    (key : SurfaceKey) (sn : SurfaceSnapshot) (old : option SurfaceImage) (image : SurfaceImage) : Prop :=
  im_commit image = Some (snap_commit sn) ∧
  if decide (im_commit <$> old = Some (Some (snap_commit sn)))
  then picture_of <$> old = Some (picture_of image)
  else ∃ b, buffers !! MkBufferKey (key_connection key) (snap_buffer sn) = Some b ∧
    shows_commit layout old b sn image.

Lemma composed_image holders buffers t self s report self' s' images pass key :
  composed holders buffers t self s report self' s' images pass →
  key ∈ scene_stack (cs_scene s) →
  ∃ sn image, surface_snapshot (key_connection key) (key_object key) s = Some sn ∧
    so_surfaces self' !! key = Some image ∧
    up_to_date (so_layout self) buffers key sn (so_surfaces self !! key) image.
Proof.
  intros Hco Hin. pose proof Hco as [Hri _ _ _ _ _ (_ & _ & Him & _) _]. cbn in Him.
  pose proof (marked_picture _ _ _ _ _ _ _ _ _ _ Hco key Hin) as Hpic. rewrite <- Him in Hpic.
  pose proof Hri as [_ Ho _ Hcon Hsame Hstg Hdef _].
  apply list_elem_of_lookup in Hin as Hi. destruct Hi as [i Hi].
  destruct (Forall2_lookup_l _ _ _ _ _ Ho Hi) as (entry & _ & sn & p & Hsn & _).
  destruct (Hdef key Hin) as [image Himage]. rewrite Himage in Hpic.
  destruct (so_surfaces self' !! key) as [image'|] eqn:E'; [|done].
  exists sn, image'. split_and!; [done..|].
  assert (retain_active pass images !! key = Some image) as Hret.
  { by rewrite (retain_active_lookup _ _ _ _ _ _ _ _ Hri), decide_True. }
  cbn in Hpic. injection Hpic as Hs Hb. unfold up_to_date. rewrite Him in E'.
  case_decide as Hold.
  - destruct (so_surfaces self !! key) as [old|] eqn:Eo; [|done]. injection Hold as Hold.
    assert (¬ redraws (so_surfaces self) s key) as Hn.
    { intros (sn' & Hsn' & H). apply (H old Eo). congruence. }
    rewrite (Hsame key (or_intror Hn)), Eo in Himage. injection Himage as ->.
    rewrite mark_commits_other, Hret in E'; [by injection E' as <-|].
    intros b c [_ [? _]]%Hcon. done.
  - assert (redraws (so_surfaces self) s key) as Hr.
    { exists sn. split; [done|]. intros old Ho' Hc'. apply Hold. by rewrite Ho'; cbn; rewrite Hc'. }
    destruct (Hstg key Hin Hr) as (sn' & b & im & Hsn' & Hread & Hst & Hi'). split.
    + enough (im_commit <$> Some image' = Some (Some (snap_commit sn))) as [= ?] by done.
      rewrite <- E'. eapply mark_commits_commit; [|intros b' c'|exact Hret].
      * exists (snap_buffer sn). apply Hcon. split_and!; [done..|]. by exists sn.
      * intros (_ & _ & sn1 & H1 & _ & <-)%Hcon. congruence.
    + exists b. assert (sn' = sn) as -> by congruence. split; [apply Hread|].
      eapply shows_commit_picture; [|apply Hst]. unfold picture_of. congruence.
Qed.

Lemma composed_picture holders buffers t self s report self' s' images pass :
  composed holders buffers t self s report self' s' images pass →
  (∀ x y k, on_frame (so_size self) (so_layout self) x y k →
    frame_pixel (frame self') x y k =
      painted (so_layout self) (scene_layers s (so_surfaces self')) x y k) ∧
  ∀ key, key ∈ scene_stack (cs_scene s) →
    ∃ sn image, surface_snapshot (key_connection key) (key_object key) s = Some sn ∧
      so_surfaces self' !! key = Some image ∧
      up_to_date (so_layout self) buffers key sn (so_surfaces self !! key) image.
Proof.
  intros Hco. pose proof Hco as [Hri _ _ _ Hpix _ (_ & _ & Him & _) _]. cbn in Him. split.
  - intros x y k Hon. rewrite Hpix by done. symmetry. apply painted_same, scene_layers_spec; [apply Hri|].
    intros key Hin. split; [by apply Hri|]. rewrite Him. by eapply marked_picture.
  - intros key Hin. by eapply composed_image.
Qed.

(** A composition that succeeds, from an output in use: the frame before and the new one are frames
    of the output, and the new one is the painter's picture. *)
Lemma compose_picture holders buffers t self s report self' s' :
  drawing self → world_ok buffers s →
  compose holders buffers t (self, s) = (Ok report, (self', s')) →
  frame_ok (so_size self) (so_layout self) (frame self) ∧
  frame_ok (so_size self) (so_layout self) (frame self') ∧
  ∀ x y k, on_frame (so_size self) (so_layout self) x y k →
    frame_pixel (frame self') x y k =
      painted (so_layout self) (scene_layers s (so_surfaces self')) x y k.
Proof.
  intros Hd Hw Hc. pose proof (world_distinct _ _ Hw) as Hnd. destruct Hw as (_ & Hst & Hty).
  destruct (drawing_inv _ Hd) as [Hok _].
  destruct (compose_run holders buffers t Hst self s Hok Hty Hnd)
    as [(e & self1 & s1 & H & _ & _)|(report1 & self1 & s1 & images & pass & H & Hco)];
    rewrite H in Hc; [done|]. injection Hc as -> -> ->.
  split_and!; [apply Hok|by eapply co_frame|by eapply composed_picture].
Qed.

(** C18. A composition that succeeds puts the scene on screen: every byte of the frame is the painter's
    composition of the stack, bottom to top, each surface's image lying at the surface's position
    plus its commit's offset and nothing showing where no surface lies; and every image is up to
    date with its surface's commit, holding the committed buffer's pixels in the damaged rectangles
    and what it held elsewhere, or the whole buffer where it had no image of that size. *)
Theorem compose_paints (holders : Z → Z) (buffers : gmap BufferKey SoftwareBuffer) (t : Z)
    (self : SoftwareOutput) (s : CompositorState) (report : FrameReport) (self' : SoftwareOutput)
    (s' : CompositorState) (Hd : drawing self) (Hw : world_ok buffers s)
    (Hc : compose holders buffers t (self, s) = (Ok report, (self', s'))) :
  (∀ x y k, on_frame (so_size self) (so_layout self) x y k →
    frame_pixel (frame self') x y k =
      painted (so_layout self) (scene_layers s (so_surfaces self')) x y k) ∧
  ∀ key, key ∈ scene_stack (cs_scene s) →
    ∃ sn image, surface_snapshot (key_connection key) (key_object key) s = Some sn ∧
      so_surfaces self' !! key = Some image ∧
      up_to_date (so_layout self) buffers key sn (so_surfaces self !! key) image.
Proof.
  pose proof (world_distinct _ _ Hw) as Hnd. destruct Hw as (_ & Hst & Hty).
  destruct (drawing_inv _ Hd) as [Hok _].
  destruct (compose_run holders buffers t Hst self s Hok Hty Hnd)
    as [(e & self1 & s1 & H & _ & _)|(report1 & self1 & s1 & images & pass & H & Hco)];
    rewrite H in Hc; [done|]. injection Hc as -> -> ->. by eapply composed_picture.
Qed.

(** A run that answered, spelt out. *)
Lemma answered {A E S1 S2} (m : result E A * (S1 * S2)) a : m.1 = Ok a → m = (Ok a, (m.2.1, m.2.2)).
Proof. destruct m as [r [x y]]. cbn. by intros ->. Qed.

Lemma compose_paints_witness :
  (compose alone easel_buffers 1 (nine, easel)).1 = Ok (MkFrameReport 1 1 1 1 36) ∧
  frame_pixel (frame first_frame.1) 1 1 0 = Some Corelib.Init.Byte.x01 ∧
  frame_pixel (frame first_frame.1) 0 1 0 = Some Corelib.Init.Byte.x00 ∧
  frame_pixel (frame first_frame.1) 2 2 3 =
    painted RGBX (scene_layers easel (so_surfaces first_frame.1)) 2 2 3.
Proof.
  assert ((compose alone easel_buffers 1 (nine, easel)).1 = Ok (MkFrameReport 1 1 1 1 36)) as Hc
    by (vm_compute; reflexivity).
  split; [exact Hc|]. split; [vm_compute; reflexivity|]. split; [vm_compute; reflexivity|].
  refine (proj1 (compose_paints alone easel_buffers 1 nine easel _ first_frame.1 first_frame.2
    nine_drawing easel_world (answered _ _ Hc)) 2 2 3 _). vm_compute. repeat split; discriminate.
Defined.

(** * The damage *)

(** Every pixel in which the new frame differs from the one before lies in a reported rectangle. *)
Lemma damage_conservative holders buffers t self s report self' s' :
  drawing self → world_ok buffers s →
  compose holders buffers t (self, s) = (Ok report, (self', s')) →
  output_small (so_size self) → fits_output (so_size self) (so_surfaces self') →
  ∀ x y k, on_frame (so_size self) (so_layout self) x y k →
    frame_pixel (frame self') x y k ≠ frame_pixel (frame self) x y k →
    Exists (λ rect, in_rect rect x y) (damage self').
Proof.
  intros Hd Hw Hc Hsmall Hfits x y k Hon Hdiff.
  pose proof (world_distinct _ _ Hw) as Hnd. destruct Hw as (_ & Hst & Hty).
  destruct (drawing_inv _ Hd) as [Hok [shown Hshown]].
  destruct (compose_run holders buffers t Hst self s Hok Hty Hnd)
    as [(e & self1 & s1 & H & _ & _)|(report1 & self1 & s1 & images & pass & H & Hco)];
    rewrite H in Hc; [done|]. injection Hc as -> -> ->.
  destruct (decide (Exists (λ rect, in_rect rect x y) (damage self'))) as [He|Hn]; [done|].
  exfalso. apply Hdiff. eapply spared_pixel; try done. intros rect Hin Hr. apply Hn, Exists_exists.
  by exists rect.
Qed.

(** C19. The damage a frame reports is conservative: as long as the output is no larger than an [i32]
    holds and no image is wider or taller than the output, every pixel that differs between the
    frame before and the new one lies in a reported rectangle, whatever was composed, failed or
    changed before. *)
Theorem damage_covers (holders : Z → Z) (buffers : gmap BufferKey SoftwareBuffer) (t : Z)
    (self : SoftwareOutput) (s : CompositorState) (report : FrameReport) (self' : SoftwareOutput)
    (s' : CompositorState) (Hd : drawing self) (Hw : world_ok buffers s)
    (Hc : compose holders buffers t (self, s) = (Ok report, (self', s')))
    (Hsmall : output_small (so_size self)) (Hfits : fits_output (so_size self) (so_surfaces self'))
    (x y k : Z) (Hon : on_frame (so_size self) (so_layout self) x y k)
    (Hdiff : frame_pixel (frame self') x y k ≠ frame_pixel (frame self) x y k) :
  ∃ rect, rect ∈ damage self' ∧ in_rect rect x y.
Proof.
  apply Exists_exists. by apply (damage_conservative holders buffers t self s report self' s' Hd Hw Hc
    Hsmall Hfits x y k).
Qed.

Definition second_frame : SoftwareOutput * CompositorState :=
  compose_once 2 (first_frame.1, second_commit).

Lemma second_world : world_ok easel_buffers second_commit.
Proof.
  split; [apply reachable_calls, compose_reachable, easel_world|]. split; [exact easel_stored|].
  apply scene_check_ok. vm_compute. reflexivity.
Qed.

Lemma first_drawing : drawing first_frame.1.
Proof. exact (drawing_compose alone easel_buffers 1 nine easel nine_drawing easel_world). Qed.

Lemma damage_covers_witness :
  (compose alone easel_buffers 2 (first_frame.1, second_commit)).1 = Ok (MkFrameReport 2 1 1 1 36) ∧
  damage second_frame.1 = [MkRect 1 1 2 2; MkRect 0 1 2 2] ∧
  ∃ rect, rect ∈ damage second_frame.1 ∧ in_rect rect 2 1.
Proof.
  assert ((compose alone easel_buffers 2 (first_frame.1, second_commit)).1 =
    Ok (MkFrameReport 2 1 1 1 36)) as Hc by (vm_compute; reflexivity).
  assert (so_surfaces second_frame.1 = {[ APP_WINDOW := MkSurfaceImage (Some (MkCommitId 2))
    (MkSize 2 2) (replicate 4 Corelib.Init.Byte.x02 ++ replicate 12 Corelib.Init.Byte.x01) ]}) as Him
    by (vm_compute; reflexivity).
  split; [exact Hc|]. split; [vm_compute; reflexivity|].
  refine (damage_covers alone easel_buffers 2 first_frame.1 second_commit _ second_frame.1
    second_frame.2 first_drawing second_world (answered _ _ Hc) _ _ 2 1 0 _ _).
  - vm_compute. repeat split; discriminate.
  - rewrite Him. apply map_Forall_singleton. vm_compute. split; discriminate.
  - vm_compute. repeat split; discriminate.
  - vm_compute. discriminate.
Defined.

(** * A frame that fails *)


(** A damage outside the surface, which no frame will read. *)
Definition outside_commit : CompositorState :=
  calls (CallDispatch APP <$> [RqAttach (MkObjectId 3) (MkObjectId 6) (MkPoint 0 1) None;
    RqDamage (MkObjectId 3) (MkRect 1 1 2 2); RqCommit (MkObjectId 3)]) first_frame.2.

Lemma outside_world : world_ok easel_buffers outside_commit.
Proof.
  split; [apply reachable_calls, compose_reachable, easel_world|]. split; [exact easel_stored|].
  apply scene_check_ok. vm_compute. reflexivity.
Qed.

(** A run that was refused, spelt out. *)
Lemma refused {A E S1 S2} (m : result E A * (S1 * S2)) e : m.1 = Err e → m = (Err e, (m.2.1, m.2.2)).
Proof. destruct m as [r [x y]]. cbn. by intros ->. Qed.

