(* ===== verification/Settling.v ===== *)
(** How a frame's commits are settled ([compose]'s last loops), where that stops the output, and what
    the damage misses. *)
From S2P Require Import Prelude.
From S2P Require Import BTree.
From S2P Require Import Vocabulary.
From S2P Require Import Interface.
From S2P Require Import Wire.
From S2P Require Import Payloads.
From S2P Require Import Model.
From S2P Require Import Registry.
From S2P Require Import Outputs.
From S2P Require Import State.
From S2P Require Import Queue.
From S2P Require Import Objects.
From S2P Require Import Surfaces.
From S2P Require Import Dispatch.
From S2P Require Import Invariant.
From S2P Require Import Preserved.
From S2P Require Import Desk.
From S2P Require Import Destruction.
From S2P Require Import Presentation.
From S2P Require Import Pixels.
From S2P Require Import Compose.
From S2P Require Import Frames.
From S2P Require Import Showing.
From S2P Require Import Painting.

(** * Giving buffers back *)

(** A buffer the compositor does not hold. *)
Definition given_back (e : RegistryEntry Object) : Prop :=
  ∀ b, entry_value e = OBuffer b → is_held (bo_state b) = false.

Lemma surface_mut_given_back c id c' id' f :
  preserves (entry_ok given_back c id) (surface_mut c' id' f).
Proof.
  unfold surface_mut. apply preserves_bind_reads. intros st s Hs Hst. cbn [modify snd].
  eapply surface_entry_ok; [|exact Hst|done]. by intros e _ _ b.
Qed.

Lemma given_back_available e b :
  entry_value e = OBuffer b → given_back e →
  given_back (MkRegistryEntry (entry_kind e) (OBuffer (set_bo_state Available b))).
Proof. intros _ _ b' [= <-]. done. Qed.

(** Presenting takes no buffer. *)
Lemma present_given_back c id key t : preserves (entry_ok given_back c id) (present key t).
Proof.
  unfold present. apply preserves_bind; [apply preserves_reads|intros current].
  apply preserves_bind.
  { case_match; [|apply preserves_ret]. apply preserves_bind; [apply preserves_reads|intros signaled].
    case_match; [apply preserves_throw|apply preserves_ret]. }
  intros _. apply preserves_bind; [apply preserves_reads|intros client].
  apply preserves_bind; [apply release_older_entry, given_back_available|intros _].
  apply preserves_bind; [|intros _; apply preserves_bind; [apply surface_mut_given_back|intros _; apply preserves_ret]].
  case_match; [|apply preserves_ret].
  apply preserves_bind; [apply preserves_modify, kept_push, _|intros _; apply surface_mut_given_back].
Qed.

Lemma set_buffer_available c id c' id' :
  preserves (entry_ok given_back c id) (set_buffer_state c' id' Available).
Proof.
  unfold set_buffer_state. apply preserves_bind_reads. intros b s Hs (e & He & _ & Hv)%buffer_Ok.
  cbn [modify snd]. apply entry_ok_update; [|done]. intros e' [= <- <-] He' HPe.
  assert (e' = e) as -> by congruence. by apply given_back_available.
Qed.

Lemma release_buffer_given_back c id c' id' :
  preserves (entry_ok given_back c id) (release_buffer c' id').
Proof.
  unfold release_buffer. apply preserves_bind; [apply preserves_reads|intros b].
  case_match; [apply preserves_throw|].
  apply preserves_bind; [apply set_buffer_available|intros _; apply preserves_modify, kept_push, _].
Qed.

Lemma release_buffer_gives c id s s' : release_buffer c id s = (Ok tt, s') → entry_ok given_back c id s'.
Proof.
  unfold release_buffer. intros H. apply ST_bind_Ok in H as (b & s1 & H1 & H).
  unfold reads in H1. injection H1 as Hb <-. case_match; [done|].
  apply ST_bind_Ok in H as ([] & s1 & H1 & H). rewrite (set_buffer_state_run _ _ _ _ _ Hb) in H1.
  injection H1 as <-. unfold modify in H. injection H as <-. apply kept_push; [apply _|].
  intros e He b' Hv. rewrite live_entry_update_object, decide_True in He by done.
  apply fmap_Some in He as (e' & _ & ->). cbn in Hv. by injection Hv as <-.
Qed.

Lemma settle_given_back c id t consumed : preserves (entry_ok given_back c id) (settle t consumed).
Proof.
  induction consumed as [|[[key b] n] consumed IH]; [apply preserves_ret|]. cbn [settle].
  apply preserves_bind; [apply preserves_map_err, present_given_back|intros _].
  apply preserves_bind; [apply preserves_map_err, release_buffer_given_back|by intros _].
Qed.

Lemma map_err_Ok {S E E' A} (f : E → E') (m : ST S E A) s a s' :
  ST_map_err f m s = (Ok a, s') → m s = (Ok a, s').
Proof. unfold ST_map_err. destruct (m s) as [[x|x] y]; [|done]. by intros [= -> ->]. Qed.

Lemma settle_gives t consumed s s' key b n :
  settle t consumed s = (Ok tt, s') → (key, b, n) ∈ consumed →
  entry_ok given_back (key_connection key) b s'.
Proof.
  revert s. induction consumed as [|[[key0 b0] n0] consumed IH]; intros s H Hin.
  { by apply not_elem_of_nil in Hin. }
  cbn [settle] in H. apply ST_bind_Ok in H as (n1 & s1 & _ & H).
  apply ST_bind_Ok in H as ([] & s2 & H2%map_err_Ok & H).
  apply elem_of_cons in Hin as [[= -> -> ->]|Hin]; [|by eapply IH].
  change s' with ((Ok tt : result ComposeError unit, s').2). rewrite <- H.
  apply settle_given_back. by eapply release_buffer_gives.
Qed.

Lemma marked_size holders buffers t self s report self' s' images pass :
  composed holders buffers t self s report self' s' images pass →
  NoDup (scene_stack (cs_scene s)) →
  size (mark_commits (pa_consumed pass) (retain_active pass images)) = length (scene_stack (cs_scene s)).
Proof.
  intros Hco Hnd. pose proof (co_read _ _ _ _ _ _ _ _ _ _ Hco) as Hri.
  rewrite <- size_dom, <- (size_list_to_set (C := gset SurfaceKey)) by done. f_equal.
  apply set_eq. intros key. rewrite elem_of_dom, elem_of_list_to_set.
  pose proof (mark_commits_picture (pa_consumed pass) (retain_active pass images) key) as Hp.
  rewrite (retain_active_lookup _ _ _ _ _ _ _ _ Hri) in Hp.
  rewrite <- (fmap_is_Some picture_of), Hp, fmap_is_Some.
  case_decide as Hin; [by split; [|intros _; apply Hri]|]. split; [by intros []|done].
Qed.

(** The rectangles of damage that came with some commits. *)
Definition total_damage (taken : list (SurfaceKey * SurfaceSnapshot)) : Z :=
  foldr (λ entry n, len (snap_damage entry.2) + n) 0 taken.

Lemma total_damage_nonneg taken : 0 ≤ total_damage taken.
Proof.
  induction taken as [|[key sn] taken IH]; [done|]. pose proof (len_nonneg (snap_damage sn)).
  change (0 ≤ len (snap_damage sn) + total_damage taken). lia.
Qed.

Definition consumed_entry (entry : SurfaceKey * SurfaceSnapshot) : SurfaceKey * ObjectId * CommitId :=
  (entry.1, snap_buffer entry.2, snap_commit entry.2).

(** What reading a surface of the stack adds to the account. *)
Lemma stage_surface_taken layout s buffers pass key images pass' images' :
  stage_surface layout s buffers pass key images = (Ok pass', images') →
  ∃ sn, surface_snapshot (key_connection key) (key_object key) s = Some sn ∧
    ((pa_consumed pass' = pa_consumed pass ∧ pa_damage_count pass' = pa_damage_count pass) ∨
     (pa_consumed pass' = pa_consumed pass ++ [consumed_entry (key, sn)] ∧
      pa_damage_count pass' = saturating_add_u usize_max (pa_damage_count pass) (len (snap_damage sn)))).
Proof.
  unfold stage_surface. intros H. apply ST_bind_Ok in H as (sn & s1 & Hsn & H).
  exists sn. split.
  { destruct (surface_snapshot _ _ s) as [sn'|]; cbn in Hsn; [by injection Hsn as ->|discriminate Hsn]. }
  apply ST_bind_Ok in H as (position & s2 & _ & H). apply ST_bind_Ok in H as (origin & s3 & _ & H).
  apply ST_bind_Ok in H as (image & s4 & _ & H).
  destruct (match image with Some image => _ | None => false end).
  - injection H as <- _. by left.
  - apply ST_bind_Ok in H as (buffer & s5 & _ & H). apply ST_bind_Ok in H as (u & s6 & _ & H).
    injection H as <- _. by right.
Qed.

Lemma stage_all_taken layout s buffers stack : ∀ pass images pass' images',
  stage_all layout s buffers pass stack images = (Ok pass', images') →
  0 ≤ pa_damage_count pass ≤ usize_max →
  ∃ taken, taken.*1 `sublist_of` stack ∧
    pa_consumed pass' = pa_consumed pass ++ (consumed_entry <$> taken) ∧
    Forall (λ entry, surface_snapshot (key_connection entry.1) (key_object entry.1) s = Some entry.2) taken ∧
    pa_damage_count pass' = Z.min usize_max (pa_damage_count pass + total_damage taken).
Proof.
  induction stack as [|key stack IH]; intros pass images pass' images' H Hc.
  { injection H as <- <-. exists []. cbn. rewrite app_nil_r. split_and!; [done|done|done|lia]. }
  cbn [stage_all] in H. apply ST_bind_Ok in H as (pass1 & images1 & H1 & H).
  apply stage_surface_taken in H1 as (sn & Hsn & [[E1 E2]|[E1 E2]]).
  - destruct (IH _ _ _ _ H) as (taken & T1 & T2 & T3 & T4); [by rewrite E2|].
    exists taken. rewrite T2, T4, E1, E2. split_and!; [by apply sublist_cons|done..].
  - unfold saturating_add_u in E2. pose proof (len_nonneg (snap_damage sn)).
    destruct (IH _ _ _ _ H) as (taken & T1 & T2 & T3 & T4); [lia|].
    pose proof (total_damage_nonneg taken). exists ((key, sn) :: taken).
    split; [by apply sublist_skip|]. rewrite T2, T4, E1, E2, fmap_cons, <- app_assoc.
    split; [done|]. split; [by constructor|]. cbn [total_damage foldr snd]. fold (total_damage taken). lia.
Qed.

(** C21. A frame takes what it read and gives everything back. When a composition succeeds, its report
    accounts for it: it counts the surfaces of the stack; one commit for each of them whose image was
    not up to date, and for no other; the rectangles of damage that came with those commits, as far as
    the count goes; and the bytes of the frame. No buffer of such a commit is held any longer, and the
    compositor has been reached only through its public calls. *)
Theorem compose_settles (holders : Z → Z) (buffers : gmap BufferKey SoftwareBuffer) (t : Z)
    (self : SoftwareOutput) (s : CompositorState) (report : FrameReport) (self' : SoftwareOutput)
    (s' : CompositorState) (Hd : drawing self) (Hw : world_ok buffers s)
    (Hc : compose holders buffers t (self, s) = (Ok report, (self', s'))) :
  reachable s' ∧
  (∃ taken : list (SurfaceKey * SurfaceSnapshot), NoDup taken.*1 ∧
    (∀ key sn, (key, sn) ∈ taken ↔ key ∈ scene_stack (cs_scene s) ∧ redraws (so_surfaces self) s key ∧
       surface_snapshot (key_connection key) (key_object key) s = Some sn) ∧
    report = MkFrameReport t (len (scene_stack (cs_scene s))) (len taken)
               (Z.min usize_max (total_damage taken)) (len (pf_bytes (frame self')))) ∧
  ∀ key sn b, key ∈ scene_stack (cs_scene s) → redraws (so_surfaces self) s key →
    surface_snapshot (key_connection key) (key_object key) s = Some sn →
    buffer (key_connection key) (snap_buffer sn) s' = Ok b → is_held (bo_state b) = false.
Proof.
  pose proof (world_distinct _ _ Hw) as Hnd.
  pose proof (compose_reachable holders buffers t self s (proj1 Hw)) as Hre. rewrite Hc in Hre.
  destruct Hw as (_ & Hst & Hty). destruct (drawing_inv _ Hd) as [Hok _].
  destruct (compose_run holders buffers t Hst self s Hok Hty Hnd)
    as [(e & self1 & s1 & H & _)|(report1 & self1 & s1 & images & pass & H & Hco)];
    rewrite H in Hc; [done|]. injection Hc as -> -> ->. split; [exact Hre|].
  pose proof (marked_size _ _ _ _ _ _ _ _ _ _ Hco Hnd) as Hsize.
  pose proof Hco as [Hri Hstaged Hset _ _ _ _ ->]. split.
  - destruct (stage_all_taken _ _ _ _ _ _ _ _ Hstaged) as (taken & T1 & T2 & T3 & T4); [done|].
    cbn [pa_consumed Pass_new app pa_damage_count] in T2, T4. exists taken. split; [by eapply sublist_NoDup|].
    rewrite Forall_forall in T3. split.
    + intros key sn. split.
      * intros Hin. pose proof (T3 _ Hin) as Hsn. cbn [fst snd] in Hsn.
        destruct (proj1 (ri_consumed _ _ _ _ _ _ _ Hri key (snap_buffer sn) (snap_commit sn))) as (H1 & H2 & _);
          [|done]. rewrite T2. by apply (list_elem_of_fmap_2 consumed_entry taken (key, sn)).
      * intros (Hin & Hr & Hsn).
        assert ((key, snap_buffer sn, snap_commit sn) ∈ pa_consumed pass) as Hcon
          by (apply Hri; split_and!; [done..|by exists sn]).
        rewrite T2 in Hcon. apply list_elem_of_fmap in Hcon as ([key' sn'] & [= <- _ _] & Hin').
        pose proof (T3 _ Hin') as Hsn'. cbn [fst snd] in Hsn'. by replace sn with sn' by congruence.
    + rewrite T4, Hsize, T2. f_equal; unfold len; by rewrite ?length_fmap.
  - intros key sn b Hin Hr Hsn (e & He & _ & Hv)%buffer_Ok.
    refine (settle_gives _ _ _ _ key (snap_buffer sn) (snap_commit sn) Hset _ e He b Hv).
    apply Hri. split_and!; [done..|]. by exists sn.
Qed.

Lemma compose_settles_witness :
  (compose alone easel_buffers 1 (nine, easel)).1 = Ok (MkFrameReport 1 1 1 1 36) ∧
  redraws (so_surfaces nine) easel APP_WINDOW ∧
  ∃ b, buffer APP (MkObjectId 5) first_frame.2 = Ok b ∧ is_held (bo_state b) = false.
Proof.
  assert ((compose alone easel_buffers 1 (nine, easel)).1 = Ok (MkFrameReport 1 1 1 1 36)) as Hc
    by (vm_compute; reflexivity).
  destruct (surface_snapshot APP (MkObjectId 3) easel) as [sn|] eqn:Esn;
    [|vm_compute in Esn; discriminate Esn].
  assert (snap_buffer sn = MkObjectId 5) as Hb by (vm_compute in Esn; injection Esn as <-; reflexivity).
  assert (redraws (so_surfaces nine) easel APP_WINDOW) as Hr.
  { exists sn. split; [exact Esn|]. intros image Hi. discriminate Hi. }
  split; [exact Hc|]. split; [exact Hr|].
  destruct (buffer APP (MkObjectId 5) first_frame.2) as [b|] eqn:Eb;
    [|vm_compute in Eb; discriminate Eb].
  exists b. split; [reflexivity|].
  refine (proj2 (proj2 (compose_settles alone easel_buffers 1 nine easel _ first_frame.1 first_frame.2
    nine_drawing easel_world (answered _ _ Hc))) APP_WINDOW sn b _ Hr Esn _).
  - vm_compute. left.
  - rewrite Hb. exact Eb.
Defined.

(** * A scene with nothing new *)

Lemma first_fault_Ok f keys : first_fault f keys = Ok tt → Forall (λ key, f key = None) keys.
Proof.
  induction keys as [|key keys IH]; [constructor|]. cbn. destruct (f key) eqn:E; [done|]. auto.
Qed.

(** What the compositor's self-check says of a stacked surface. *)
Lemma faultless_stack s key : scene_faults s = Ok tt → key ∈ scene_stack (cs_scene s) →
  is_Some (surface_snapshot (key_connection key) (key_object key) s) ∧ is_Some (surface_position key s).
Proof.
  unfold scene_faults. intros H Hin. destruct (first_fault (stack_fault s) _) as [[]|] eqn:E; [|done].
  apply first_fault_Ok in E. rewrite Forall_forall in E. specialize (E key Hin). unfold stack_fault in E.
  unfold surface_position. repeat case_match; try done; split; by eexists.
Qed.

Lemma stage_current layout s buffers stack pass images :
  Forall (λ key, ∃ sn p image, surface_snapshot (key_connection key) (key_object key) s = Some sn ∧
    surface_position key s = Some p ∧ is_point p ∧ is_point (snap_offset sn) ∧
    images !! key = Some image ∧ im_commit image = Some (snap_commit sn)) stack →
  ∃ pass', stage_all layout s buffers pass stack images = (Ok pass', images) ∧
    pa_consumed pass' = pa_consumed pass ∧ pa_redrawn pass' = pa_redrawn pass ∧
    pa_damage_count pass' = pa_damage_count pass.
Proof.
  intros H. revert pass. induction H as [|key stack (sn & p & image & Hsn & Hp & Hpt & Hot & Hi & Hcm) H IH];
    intros pass; [by exists pass|].
  cbn [stage_all]. unfold stage_surface at 1. rewrite Hsn, Hp. cbn [ok_or].
  rewrite ST_bind_run, !ST_lift_bind, checked_origin_ok, ST_lift_bind, ST_gets_bind by done.
  rewrite Hi. rewrite bool_decide_eq_true_2 by done.
  edestruct IH as (pass' & Hrun & H1 & H2 & H3). exists pass'. split; [exact Hrun|]. done.
Qed.

(** C22. A scene with nothing new is always composed: when the self-check finds no fault and every
    stacked surface's image holds its current commit, a composition succeeds whatever buffers are
    at hand, reads none of them, leaves the compositor as it was, and counts no commit and no
    damage. *)
Theorem settled_scene_composes (holders : Z → Z) (buffers : gmap BufferKey SoftwareBuffer) (t : Z)
    (self : SoftwareOutput) (s : CompositorState) (Hd : drawing self) (Hw : world_ok buffers s)
    (Hf : scene_faults s = Ok tt)
    (Hcur : ∀ key, key ∈ scene_stack (cs_scene s) → ¬ redraws (so_surfaces self) s key) :
  ∃ self' n, compose holders buffers t (self, s) =
    (Ok (MkFrameReport t (len (scene_stack (cs_scene s))) 0 0 n), (self', s)) ∧
    n = len (pf_bytes (frame self')).
Proof.
  pose proof (world_distinct _ _ Hw) as Hnd. destruct Hw as (_ & Hst & Hty).
  destruct (drawing_inv _ Hd) as [Hok _].
  destruct (stage_current (so_layout self) s buffers (scene_stack (cs_scene s)) Pass_new
    (so_surfaces self)) as (pass0 & Hrun & Hcon & Hred & Hcount).
  { rewrite Forall_forall. intros key Hin. destruct (faultless_stack s key Hf Hin) as [[sn Hsn] [p Hp]].
    unfold scene_typed in Hty. rewrite Forall_forall in Hty. destruct (Hty key Hin) as [Hpt Hot].
    destruct (so_surfaces self !! key) as [image|] eqn:Ei.
    - destruct (decide (im_commit image = Some (snap_commit sn))) as [He|Hne].
      + exists sn, p, image. split_and!; try done; [by apply Hpt|by apply Hot].
      + exfalso. apply (Hcur key Hin). exists sn. split; [done|]. rewrite Ei. by intros image' [= <-].
    - exfalso. apply (Hcur key Hin). exists sn. split; [done|]. by rewrite Ei. }
  destruct (compose_run holders buffers t Hst self s Hok Hty Hnd)
    as [(e & self' & s' & _ & _ & [(_ & images & Hs)|(pass & images & Hs & Hset & _)])
       |(report & self' & s' & images & pass & -> & Hco)].
  - congruence.
  - rewrite Hs in Hrun. injection Hrun as -> ->. by rewrite Hcon in Hset.
  - pose proof (marked_size _ _ _ _ _ _ _ _ _ _ Hco Hnd) as Hsize.
    destruct Hco as [_ Hs Hset _ _ _ _ ->]. rewrite Hs in Hrun. injection Hrun as -> ->.
    rewrite Hcon in Hset. injection Hset as <-. exists self', (len (pf_bytes (frame self'))).
    split; [|done]. rewrite Hcon in Hsize |- *. rewrite Hsize, Hcount. done.
Qed.

Lemma settled_scene_composes_witness :
  (∀ key, key ∈ scene_stack (cs_scene first_frame.2) →
     ¬ redraws (so_surfaces first_frame.1) first_frame.2 key) ∧
  ∃ self' n, compose alone ∅ 2 (first_frame.1, first_frame.2) =
    (Ok (MkFrameReport 2 (len (scene_stack (cs_scene first_frame.2))) 0 0 n), (self', first_frame.2)) ∧
    n = len (pf_bytes (frame self')).
Proof.
  assert (∀ key, key ∈ scene_stack (cs_scene first_frame.2) →
    ¬ redraws (so_surfaces first_frame.1) first_frame.2 key) as Hcur.
  { intros key Hin.
    assert (scene_stack (cs_scene first_frame.2) = [APP_WINDOW]) as Hs by (vm_compute; reflexivity).
    rewrite Hs in Hin. apply list_elem_of_singleton in Hin as ->. intros (sn & Hsn & H).
    destruct (so_surfaces first_frame.1 !! APP_WINDOW) as [image|] eqn:Ei;
      [|vm_compute in Ei; discriminate Ei].
    apply (H image eq_refl). vm_compute in Ei. injection Ei as <-.
    vm_compute in Hsn. injection Hsn as <-. reflexivity. }
  split; [exact Hcur|].
  refine (settled_scene_composes alone ∅ 2 first_frame.1 first_frame.2 first_drawing _ _ Hcur).
  - split; [apply compose_reachable, easel_world|]. split; [apply map_Forall_empty|].
    apply scene_check_ok. vm_compute. reflexivity.
  - vm_compute. reflexivity.
Defined.


(** * Where it stops *)

(** Two clients with a window each, the one on top having stopped listening: its queue is full, and
    it has asked to hear of its next frame. *)
Definition OTHER : ConnectionId := SHELL.
Definition OTHER_WINDOW : SurfaceKey := MkSurfaceKey OTHER (MkObjectId 3).
Definition stalled_limits : ConnectionLimits := MkConnectionLimits 1024 256 64 64 256 1.
Definition stalled_calls : list Call :=
  [ CallConnect everything CapabilitySet_empty; CallConnect everything CapabilitySet_empty;
    CallCreateSession APP (MkObjectId 2) None true; CallCreateSession OTHER (MkObjectId 2) None true ] ++
  (CallDispatch APP <$> easel_requests) ++
  (CallDispatch OTHER <$> take 4 easel_requests) ++
  [ CallDispatch OTHER (RqRequestFrame (MkObjectId 3) 9) ] ++
  (CallDispatch OTHER <$> drop 4 easel_requests) ++
  [ CallSetFrameDeadline OTHER_WINDOW 5 5 ].
Definition stalled : CompositorState :=
  calls stalled_calls (CompositorState_new everything ServerLimits_default stalled_limits).
Definition stalled_buffers : gmap BufferKey SoftwareBuffer :=
  <[ MkBufferKey OTHER (MkObjectId 5) := plain Corelib.Init.Byte.x01 ]> easel_buffers.
(** The output and the compositor once a frame has failed on it. *)
Definition wedged : SoftwareOutput * CompositorState := (compose alone stalled_buffers 1 (nine, stalled)).2.

(** One client that has stopped listening can stop the output for the others: the composition
    that runs its queue over fails after the first client's buffer was given back but before its
    commit was marked as read, and from then on every composition fails on that commit, whose buffer
    is no longer held, and changes nothing, although the client that caused it is gone and the
    scene is sound. *)
Theorem wedged_output :
  reachable wedged.2 ∧ world_ok stalled_buffers wedged.2 ∧ scene_faults wedged.2 = Ok tt ∧
  scene_stack (cs_scene wedged.2) = [APP_WINDOW] ∧
  (compose alone stalled_buffers 1 (nine, stalled)).1 = Err (StateChanged OTHER_WINDOW) ∧
  ∀ holders t, compose holders stalled_buffers t wedged =
    (Err (BufferNotHeld (MkBufferKey APP (MkObjectId 5)) APP_WINDOW (MkCommitId 1)), wedged).
Proof.
  assert (reachable wedged.2) as Hr.
  { unfold wedged. apply compose_reachable, reachable_calls, reachable_new. by split. }
  split; [exact Hr|]. split.
  { split; [exact Hr|]. split; [|apply scene_check_ok; vm_compute; reflexivity].
    apply map_Forall_insert_2; [split; vm_compute; by repeat split|exact easel_stored]. }
  split; [vm_compute; reflexivity|]. split; [vm_compute; reflexivity|].
  split; [vm_compute; reflexivity|]. intros holders t. vm_compute. reflexivity.
Qed.

(** A window larger than the output, and the same window a pixel further to the left. *)
Definition one_pixel : SoftwareOutput := blank (MkSize 1 1).
Definition patterned : SoftwareBuffer := MkSoftwareBuffer easel_descriptor RGBX
  (replicate 8 Corelib.Init.Byte.x01 ++ replicate 8 Corelib.Init.Byte.x02).
Definition patterned_buffers : gmap BufferKey SoftwareBuffer :=
  {[ MkBufferKey APP (MkObjectId 5) := patterned ]}.
Definition behind : SoftwareOutput * CompositorState :=
  (compose alone patterned_buffers 1
     (one_pixel, call (CallPlaceSurface APP_WINDOW (MkPoint (-1) (-1))) easel)).2.
Definition pushed : CompositorState :=
  call (CallPlaceSurface APP_WINDOW (MkPoint (-1) (-2))) behind.2.

(** The damage is not conservative for a surface larger than the output: when the surface is
    moved so that it still covers the output, its clipped rectangle and its depth are what they
    were, and the frame reports no damage although what it shows has changed. *)
Theorem damage_misses_oversized :
  let after := compose alone patterned_buffers 2 (behind.1, pushed) in
  is_ok after.1 = true ∧ damage after.2.1 = [] ∧
  frame_pixel (frame behind.1) 0 0 0 = Some Corelib.Init.Byte.x01 ∧
  frame_pixel (frame after.2.1) 0 0 0 = Some Corelib.Init.Byte.x02.
Proof. cbv zeta. split_and!; vm_compute; reflexivity. Qed.
