(* ===== verification/Transport.v ===== *)
(** Carrying messages and the handles beside them ([atria-transport/src]): the envelope and its slots,
    the memory a client hands over, and what a transport owes the sessions above it. What the
    platform does (sockets, descriptors) is a parameter. *)
From S2P Require Import Prelude.
From S2P Require Import BTree.
From S2P Require Import Vocabulary.
From S2P Require Import Interface.
From S2P Require Import Wire.
From S2P Require Import Payloads.
From S2P Require Import Model.
From S2P Require Import Binding.

(** * Errors *)

Inductive TransportError :=
| Closed
| TransportMessageTooLarge (size maximum : Z)
| TransportTruncated (size : Z)
| TooManyHandles (count maximum : Z)
| Io (error : IoError).

#[global] Instance TransportError_eq_dec : EqDecision TransportError.
Proof. solve_decision. Defined.

(** * Envelopes *)

Record Envelope (H : Type) := MkEnvelope { env_bytes : list byte; env_handles : list (option H) }.
Arguments MkEnvelope {H} _ _.
Arguments env_bytes {H} _.
Arguments env_handles {H} _.

Section Envelope.
Context {H : Type}.

Definition Envelope_new (bytes : list byte) (handles : list H) : Envelope H :=
  MkEnvelope bytes (Some <$> handles).

Definition take_bytes (e : Envelope H) : list byte * Envelope H :=
  (env_bytes e, MkEnvelope [] (env_handles e)).

Definition handle_count (e : Envelope H) : Z :=
  len (filter (λ slot : option H, is_Some slot) (env_handles e)).

(** [handles.get_mut(slot)?.take()]. *)
Definition claim (slot : Z) (e : Envelope H) : option H * Envelope H :=
  match env_handles e !! Z.to_nat slot with
  | Some h => (h, MkEnvelope (env_bytes e) (<[ Z.to_nat slot := None ]> (env_handles e)))
  | None => (None, e)
  end.
End Envelope.

(** * The memory of a client *)

(** When something outside is asked. The memory a handle names is its client's to write and to
    shrink at any time, so what a read answers depends on when it is made. *)
Definition Moment : Type := nat.

(** The trait, for a source [M] of handles [H] that fails with [E]. *)
Class SharedMemorySource (H E M : Type) := {
  adopt : H → ST M E SharedMem;
  read_memory : Moment → SharedMem → Z → Z → M → result E (list byte);
  release : SharedMem → M → bool * M;
  source_len : M → Z;
  source_default : M;
}.

Definition source_is_empty `{!SharedMemorySource H E M} (m : M) : bool := source_len m =? 0.

(** What a source promises: what it has been given is counted once and no adoption disturbs what an
    earlier one named; a refused handle leaves it able to answer what it answered. [ok] is the
    source's own invariant. *)
Class SharedMemoryLaws (H E M : Type) `{!SharedMemorySource H E M} (ok : M → Prop) : Prop := {
  default_ok : ok source_default;
  default_empty : source_len source_default = 0;
  adopt_ok h m : ok m → ok (adopt h m).2;
  adopt_len h m : ok m → source_len (adopt h m).2 =
    match (adopt h m).1 with Ok _ => source_len m + 1 | Err _ => source_len m end;
  adopt_keeps h m now memory offset n bytes : ok m →
    read_memory now memory offset n m = Ok bytes →
    read_memory now memory offset n (adopt h m).2 = Ok bytes;
  read_length now memory offset n m bytes :
    0 ≤ n → read_memory now memory offset n m = Ok bytes → len bytes = n;
}.

(** * Resolving slots *)

(** The envelope being resolved, and the store that adopts what it delivers. *)
#[global] Instance EnvelopeResolver `{!SharedMemorySource H E M} : HandleResolver (Envelope H * M) :=
  λ slot '(envelope, store),
  let index := handle_index slot in
  match claim index envelope with
  | (None, envelope) => (Err (SlotEmpty index), (envelope, store))
  | (Some handle, envelope) =>
      match adopt handle store with
      | (Ok memory, store) => (Ok memory, (envelope, store))
      | (Err _, store) => (Err (WrongKind index SharedMemory), (envelope, store))
      end
  end.

(** * Transports *)

(** The trait, for a transport [T] of handles [H]. *)
Class Transport (H T : Type) := {
  send : list byte → list H → ST T TransportError unit;
  receive : ST T TransportError (Envelope H);
}.

(** * The store of a Unix client's memory ([memory.rs])

    A descriptor, and what [fstat], [pread] and the constants of [libc] answer for it. A descriptor is
    measured once, when it is adopted; it is read at many moments. *)
Class Platform (Fd : Type) := {
  (** [st_mode] and [st_size]. *)
  fstat : Fd → result IoError (Z * Z);
  S_IFMT : Z;
  S_IFREG : Z;
  (** At most so many bytes from an offset; none at the end. *)
  pread : Moment → Fd → Z → Z → result IoError (list byte);
}.

(** POSIX: a read transfers no more than it was asked for. *)
Class PlatformLaws (Fd : Type) `{!Platform Fd} : Prop :=
  pread_bound now (fd : Fd) n offset bytes :
    0 ≤ n → pread now fd n offset = Ok bytes → len bytes ≤ n.

Record SharedMemoryStore (Fd : Type) := MkSharedMemoryStore { sm_next_id : Z; sm_live : gmap Z Fd }.
Arguments MkSharedMemoryStore {Fd} _ _.
Arguments sm_next_id {Fd} _.
Arguments sm_live {Fd} _.

Section Store.
Context {Fd : Type} `{!Platform Fd}.

Definition SharedMemoryStore_new : SharedMemoryStore Fd := MkSharedMemoryStore 1 ∅.

Definition measure (handle : Fd) : result IoError Z :=
  status ← fstat handle;
  if negb (Z.land status.1 S_IFMT =? S_IFREG) then Err IoInvalidInput
  else ok_or (try_from u64_max status.2) IoInvalidData.

Definition adopt_handle (handle : Fd) : ST (SharedMemoryStore Fd) IoError SharedMem := λ self,
  match measure handle with
  | Err e => (Err e, self)
  | Ok size =>
      let id := sm_next_id self in
      match checked_add u64_max id 1 with
      | None => (Err IoOther, self)
      | Some next => (Ok (MkSharedMem id size), MkSharedMemoryStore next (<[ id := handle ]> (sm_live self)))
      end
  end.

(** The loop of [read_at]; every turn reads at least a byte, so [length] turns are enough. Each turn
    asks at a moment of its own. *)
Fixpoint read_loop (fuel : nat) (now : Moment) (handle : Fd) (offset length : Z) (bytes : list byte)
    : result IoError (list byte) :=
  if length <=? len bytes then Ok bytes
  else
    match fuel with
    | O => Err IoOther
    | Datatypes.S fuel =>
        read ← pread now handle (length - len bytes) (Z.min i64_max (offset + len bytes));
        if len read =? 0 then Err IoUnexpectedEof
        else read_loop fuel (S now) handle offset length (bytes ++ read)
    end.

Definition read_at (now : Moment) (memory : SharedMem) (offset length : Z) (self : SharedMemoryStore Fd)
    : result IoError (list byte) :=
  handle ← ok_or (sm_live self !! memory_id memory) IoNotFound;
  read_loop (Z.to_nat length) now handle offset length [].

#[global] Instance SharedMemoryStore_source : SharedMemorySource Fd IoError (SharedMemoryStore Fd) := {
  adopt := adopt_handle;
  read_memory := read_at;
  release memory self :=
    (bool_decide (is_Some (sm_live self !! memory_id memory)),
     MkSharedMemoryStore (sm_next_id self) (delete (memory_id memory) (sm_live self)));
  source_len self := Z.of_nat (size (sm_live self));
  source_default := SharedMemoryStore_new;
}.

(** Identities issued are below the next one. *)
Definition store_ok (self : SharedMemoryStore Fd) : Prop :=
  ∀ id, is_Some (sm_live self !! id) → id < sm_next_id self.

Lemma adopt_handle_run handle self :
  (∃ e, adopt_handle handle self = (Err e, self)) ∨
  ∃ size, adopt_handle handle self =
    (Ok (MkSharedMem (sm_next_id self) size),
     MkSharedMemoryStore (sm_next_id self + 1) (<[ sm_next_id self := handle ]> (sm_live self))).
Proof.
  unfold adopt_handle. destruct (measure handle) as [size|e]; [|left; by exists e].
  destruct (checked_add _ _ _) as [next|] eqn:E; [|left; by eexists].
  apply checked_add_inv in E as [-> _]. right. by exists size.
Qed.

Lemma store_fresh self : store_ok self → sm_live self !! sm_next_id self = None.
Proof. intros H. apply eq_None_not_Some. intros ?%H. lia. Qed.

Lemma read_loop_length `{!PlatformLaws Fd} fuel now handle offset length bytes bytes' :
  len bytes ≤ length → read_loop fuel now handle offset length bytes = Ok bytes' → len bytes' = length.
Proof.
  revert now bytes. induction fuel as [|fuel IH]; intros now bytes Hb H; cbn [read_loop] in H.
  - destruct (Z.leb_spec length (len bytes)); [|done]. injection H as <-. lia.
  - destruct (Z.leb_spec length (len bytes)); [injection H as <-; lia|].
    apply result_bind_Ok in H as (read & Hr & H). apply pread_bound in Hr; [|lia].
    destruct (len read =? 0); [done|]. apply IH in H; [done|].
    unfold len in *. rewrite length_app. lia.
Qed.

(** What the platform answered to the reads of one [read_at], the first [have] bytes being there: each
    is asked at a moment of its own for all that is missing, from where the last one ended, and
    answered something. *)
Fixpoint answered_reads (now : Moment) (handle : Fd) (offset length have : Z)
    (answers : list (list byte)) : Prop :=
  match answers with
  | [] => True
  | answer :: rest =>
      have < length ∧ answer ≠ [] ∧
      pread now handle (length - have) (Z.min i64_max (offset + have)) = Ok answer ∧
      answered_reads (S now) handle offset length (have + len answer) rest
  end.

Lemma read_loop_outcome `{!PlatformLaws Fd} fuel now handle offset length bytes :
  len bytes ≤ length → length - len bytes ≤ Z.of_nat fuel →
  ∃ answers, answered_reads now handle offset length (len bytes) answers ∧
    let have := bytes ++ concat answers in
    let next := pread (now + List.length answers)%nat handle (length - len have)
                  (Z.min i64_max (offset + len have)) in
    (len have = length ∧ read_loop fuel now handle offset length bytes = Ok have) ∨
    (len have < length ∧ next = Ok [] ∧
       read_loop fuel now handle offset length bytes = Err IoUnexpectedEof) ∨
    (len have < length ∧ ∃ e, next = Err e ∧
       read_loop fuel now handle offset length bytes = Err e).
Proof.
  revert now bytes. induction fuel as [|fuel IH]; intros now bytes Hb Hf; cbn [read_loop].
  { exists []. cbn. rewrite app_nil_r, (proj2 (Z.leb_le _ _)) by lia. split; [done|]. left. split; [lia|done]. }
  destruct (Z.leb_spec length (len bytes)).
  { exists []. cbn. rewrite app_nil_r. split; [done|]. left. split; [lia|done]. }
  destruct (pread now handle (length - len bytes) _) as [answer|e] eqn:Ea.
  2: { exists []. cbn. rewrite app_nil_r, Nat.add_0_r, Ea. split; [done|]. right. right. split; [lia|].
       by exists e. }
  assert (len answer ≤ length - len bytes) as Hl by (eapply pread_bound; [|exact Ea]; lia). cbn [mbind result_bind].
  destruct answer as [|x answer].
  { exists []. cbn. rewrite app_nil_r, Nat.add_0_r, Ea. split; [done|]. auto with lia. }
  assert (1 ≤ len (x :: answer)) as H1 by (unfold len; cbn [List.length]; lia).
  rewrite (proj2 (Z.eqb_neq (len (x :: answer)) 0)) by lia.
  assert (len (bytes ++ x :: answer) = len bytes + len (x :: answer)) as Happ
    by (unfold len; rewrite length_app; lia).
  destruct (IH (Datatypes.S now) (bytes ++ x :: answer)) as (answers & Ha & Hr);
    [lia..|].
  exists ((x :: answer) :: answers). rewrite Happ in Ha. split; [by split_and!|].
  cbn [concat List.length]. rewrite <- app_assoc in Hr. by rewrite Nat.add_succ_r.
Qed.

Lemma answered_reads_still now handle offset length content have answers :
  (∀ later n o bytes, (now ≤ later)%nat → pread later handle n o = Ok bytes →
     bytes `prefix_of` drop (Z.to_nat o) content) →
  0 ≤ offset → 0 ≤ have → offset + length ≤ i64_max →
  answered_reads now handle offset length have answers →
  concat answers `prefix_of` drop (Z.to_nat (offset + have)) content.
Proof.
  revert now have. induction answers as [|answer answers IH]; intros now have Hc Ho Hh Hl H.
  { apply prefix_nil. }
  destruct H as (Hlt & _ & Hp & H). apply Hc in Hp as [tail Htail]; [|lia].
  apply IH in H; [|intros; eapply Hc; [|done]; lia|done|unfold len; lia|done].
  rewrite Z.min_r in Htail by lia.
  replace (Z.to_nat (offset + (have + len answer))) with
    (Z.to_nat (offset + have) + List.length answer)%nat in H by (unfold len; lia).
  rewrite <- drop_drop, Htail, drop_app_length in H. cbn. rewrite Htail. by apply prefix_app.
Qed.

(** C29. Reading a client's memory gives all that was asked for or nothing. An identity nobody holds is
    not found. Otherwise the descriptor is read until every byte is there, each read at a moment of
    its own for all that is missing and from where the last one ended: the answer is what those
    reads gave, one after the other and as long as was asked, or else a read that gave nothing
    (the memory has been shrunk), answered as the end of the memory, or the platform's own error.
    And however the platform splits its answers, of a memory nobody writes to meanwhile the bytes
    are those at the offset asked for, none skipped and none twice. *)
Theorem read_at_outcome `{!PlatformLaws Fd} (now : Moment) (memory : SharedMem) (offset length : Z)
    (self : SharedMemoryStore Fd) (Hlength : 0 ≤ length) :
  match sm_live self !! memory_id memory with
  | None => read_at now memory offset length self = Err IoNotFound
  | Some handle =>
      (∃ answers, answered_reads now handle offset length 0 answers ∧
        let have := concat answers in
        let next := pread (now + List.length answers)%nat handle (length - len have)
                      (Z.min i64_max (offset + len have)) in
        (len have = length ∧ read_at now memory offset length self = Ok have) ∨
        (len have < length ∧ next = Ok [] ∧
           read_at now memory offset length self = Err IoUnexpectedEof) ∨
        (len have < length ∧ ∃ e, next = Err e ∧ read_at now memory offset length self = Err e)) ∧
      ∀ content bytes,
        (∀ later n o read, (now ≤ later)%nat → pread later handle n o = Ok read →
           read `prefix_of` drop (Z.to_nat o) content) →
        0 ≤ offset → offset + length ≤ i64_max →
        read_at now memory offset length self = Ok bytes →
        bytes = take (Z.to_nat length) (drop (Z.to_nat offset) content)
  end.
Proof.
  unfold read_at. destruct (sm_live self !! memory_id memory) as [handle|]; [|done]. cbn [ok_or mbind result_bind].
  destruct (read_loop_outcome (Z.to_nat length) now handle offset length [])
    as (answers & Ha & Hr); [unfold len; cbn; lia..|]. split; [by exists answers|].
  intros content bytes Hc Ho Hl Hb. cbn [app] in Hr.
  apply (answered_reads_still _ _ _ _ content) in Ha; [|done|done|done|done].
  destruct Hr as [[Hlen Hr]|[(_ & _ & Hr)|(_ & e & _ & Hr)]]; rewrite Hr in Hb; [|done|done].
  injection Hb as <-. unfold len in Ha. cbn in Ha. rewrite Z.add_0_r in Ha.
  destruct Ha as [tail ->]. rewrite <- Hlen. unfold len. by rewrite Nat2Z.id, take_app_length.
Qed.

(** The store keeps its promise. *)
#[global] Instance SharedMemoryStore_laws `{!PlatformLaws Fd} :
  SharedMemoryLaws Fd IoError (SharedMemoryStore Fd) store_ok.
Proof.
  split; cbn.
  - unfold store_ok. cbn. intros id [fd Hfd]. by rewrite lookup_empty in Hfd.
  - by rewrite map_size_empty.
  - intros h self Hok. destruct (adopt_handle_run h self) as [(e & ->)|(size & ->)]; [done|].
    intros id. cbn. destruct (decide (id = sm_next_id self)) as [->|Hn]; [lia|].
    rewrite lookup_insert_ne by done. intros ?%Hok. lia.
  - intros h self Hok. destruct (adopt_handle_run h self) as [(e & ->)|(size & ->)]; cbn; [done|].
    rewrite map_size_insert_None by by apply store_fresh. lia.
  - intros h self now memory offset n bytes Hok H.
    destruct (adopt_handle_run h self) as [(e & ->)|(size & ->)]; cbn; [done|].
    unfold read_at in *. cbn. destruct (sm_live self !! memory_id memory) as [fd|] eqn:E; [|done].
    rewrite lookup_insert_ne, E; [done|]. intros Heq.
    by rewrite <- Heq, store_fresh in E by done.
  - intros now memory offset n self bytes Hn H. unfold read_at in H.
    apply result_bind_Ok in H as (fd & _ & H). eapply read_loop_length; [|exact H].
    unfold len. cbn. lia.
Qed.
End Store.
Arguments SharedMemoryStore_new {Fd}.

(** * Unix sockets ([lib.rs], [backend/unix]) *)

Definition MAX_HANDLES : Z := 8.

(** What one [recvmsg] gave: how many bytes it says arrived, the bytes, the descriptors that came
    with them, and the kernel's flags for a control message and for data that did not fit. *)
Record Datagram (H : Type) := MkDatagram {
  dg_received : Z;
  dg_bytes : list byte;
  dg_handles : list H;
  dg_control_truncated : bool;
  dg_truncated : bool;
}.
Arguments MkDatagram {H} _ _ _ _ _.
Arguments dg_received {H} _.
Arguments dg_bytes {H} _.
Arguments dg_handles {H} _.
Arguments dg_control_truncated {H} _.
Arguments dg_truncated {H} _.

(** A socket [S]: the two calls. *)
Class Socket (H S : Type) := {
  sendmsg : list byte → list H → ST S IoError unit;
  recvmsg : Z → ST S IoError (Datagram H);
}.

Section Unix.
Context {H S : Type} `{!Socket H S}.

Definition unix_send (bytes : list byte) (handles : list H) : ST S TransportError unit :=
  if MAX_HANDLES <? len handles then throw (TooManyHandles (len handles) MAX_HANDLES)
  else ST_map_err (λ e, match e with IoBrokenPipe | IoConnectionReset => Closed | _ => Io e end)
         (sendmsg bytes handles).

Definition unix_receive (capacity : Z) : ST S TransportError (list byte * list H) :=
  datagram ← ST_map_err Io (recvmsg capacity);
  if dg_received datagram =? 0 then throw Closed
  else if dg_control_truncated datagram
  then throw (TooManyHandles (len (dg_handles datagram) + 1) MAX_HANDLES)
  else if dg_truncated datagram
  then throw (TransportMessageTooLarge (dg_received datagram) capacity)
  else mret (take (Z.to_nat (dg_received datagram)) (dg_bytes datagram), dg_handles datagram).

Record UnixTransport := MkUnixTransport { ut_socket : S }.

Definition on_socket {A} (m : ST S TransportError A) : ST UnixTransport TransportError A := λ t,
  let '(r, socket) := m (ut_socket t) in (r, MkUnixTransport socket).

#[global] Instance UnixTransport_transport : Transport H UnixTransport := {
  send bytes handles :=
    if MAX_MESSAGE_SIZE <? len bytes
    then throw (TransportMessageTooLarge (len bytes) MAX_MESSAGE_SIZE)
    else on_socket (unix_send bytes handles);
  receive :=
    received ← on_socket (unix_receive MAX_MESSAGE_SIZE);
    if len received.1 <? HEADER_SIZE then throw (TransportTruncated (len received.1))
    else mret (Envelope_new received.1 received.2);
}.
End Unix.

(** ** Files in memory *)

(** A descriptor is its file, as the file is from one moment to the next; the last stays. *)
Definition File : Type := list (list byte).
Definition still (bytes : list byte) : File := [bytes].
Definition file_at (now : Moment) (file : File) : list byte :=
  default [] (file !! Nat.min now (pred (List.length file))).

#[global] Instance files : Platform File := {
  fstat file := Ok (32768, len (file_at 0%nat file));
  S_IFMT := 61440;
  S_IFREG := 32768;
  pread now file n offset :=
    Ok (take (Z.to_nat n) (drop (Z.to_nat offset) (file_at now file)));
}.

#[global] Instance files_laws : PlatformLaws File.
Proof. intros now file n offset bytes Hn [= <-]. unfold len. rewrite length_take. lia. Qed.

Definition blank (n : nat) : list byte := replicate n Corelib.Init.Byte.x00.

(** A file of four bytes that its client cuts to two before the second read. *)
Definition shrinking : SharedMemoryStore File :=
  MkSharedMemoryStore 2 {[ 1 := [blank 4; blank 2] ]}.

Lemma read_at_outcome_witness :
  read_at 0%nat (MkSharedMem 1 4) 1 3 shrinking = Ok (blank 3) ∧
  read_at 1%nat (MkSharedMem 1 4) 2 2 shrinking = Err IoUnexpectedEof ∧
  ∃ answers, answered_reads 0%nat [blank 4; blank 2] 1 3 0 answers ∧ concat answers = blank 3.
Proof.
  pose proof (read_at_outcome 0%nat (MkSharedMem 1 4) 1 3 shrinking ltac:(lia)) as H.
  replace (sm_live shrinking !! memory_id (MkSharedMem 1 4)) with (Some [blank 4; blank 2])
    in H by (vm_compute; reflexivity).
  assert (read_at 0%nat (MkSharedMem 1 4) 1 3 shrinking = Ok (blank 3)) as Hr by (vm_compute; reflexivity).
  split; [exact Hr|]. split; [vm_compute; reflexivity|].
  destruct H as [(answers & Ha & Hout) _]. exists answers. split; [exact Ha|].
  destruct Hout as [[_ H]|[(_ & _ & H)|(_ & e & _ & H)]]; rewrite Hr in H; [by injection H|discriminate H..].
Defined.
