(* ===== verification/Session.v ===== *)
(** One client's connection and the presenter all of them share ([atriad/src/{lib,session,present}.rs]):
    the pump that takes a packet through decoding, resolution and dispatch and writes the events
    back, and the staging of committed pixels for the software output. *)
From S2P Require Import Prelude.
From S2P Require Import BTree.
From S2P Require Import Vocabulary.
From S2P Require Import Interface.
From S2P Require Import Wire.
From S2P Require Import Payloads.
From S2P Require Import Model.
From S2P Require Import Registry.
From S2P Require Import Outputs.
From S2P Require Import Binding.
From S2P Require Import Emit.
From S2P Require Import State.
From S2P Require Import Queue.
From S2P Require Import Objects.
From S2P Require Import Surfaces.
From S2P Require Import Dispatch.
From S2P Require Import Pixels.
From S2P Require Import Compose.
From S2P Require Import Transport.

(** * What the server offers ([lib.rs]) *)

Definition software_capabilities : CapabilitySet := cap_with default_grants SoftwareShm.

Definition compositor (server : ServerLimits) (limits : ConnectionLimits) : CompositorState :=
  CompositorState_new (cap_with (cap_with software_capabilities ShellControlCap) ShortcutControl)
    server limits.

(** * Sessions ([session.rs]) *)

Inductive SessionError := SessionClosed | SessionTransport (error : TransportError).

(** [From<TransportError>]. *)
Definition session_error (e : TransportError) : SessionError :=
  match e with Closed => SessionClosed | other => SessionTransport other end.

Record Served := MkServed { sv_dispatched : bool; sv_events_sent : Z; sv_events_unassigned : Z }.

Inductive Refused := RefusedProtocol | RefusedResolution.

Record Session (T M : Type) := MkSession {
  ss_transport : T;
  ss_connection : ConnectionId;
  ss_memory : M;
  ss_sequence : Z;
}.
Arguments MkSession {T M} _ _ _ _.
Arguments ss_transport {T M} _.
Arguments ss_connection {T M} _.
Arguments ss_memory {T M} _.
Arguments ss_sequence {T M} _.

Section Session.
Context {H E T M : Type} `{!Transport H T, !SharedMemorySource H E M}.

Definition Session_new (transport : T) (c : ConnectionId) : Session T M :=
  MkSession transport c source_default 1.

Definition set_transport (t : T) (s : Session T M) : Session T M :=
  MkSession t (ss_connection s) (ss_memory s) (ss_sequence s).
Definition set_memory (m : M) (s : Session T M) : Session T M :=
  MkSession (ss_transport s) (ss_connection s) m (ss_sequence s).
(** [self.sequence.wrapping_add(1)]. *)
Definition next_sequence (s : Session T M) : Session T M :=
  MkSession (ss_transport s) (ss_connection s) (ss_memory s) (as_u32 (ss_sequence s + 1)).

Definition adopted_memory (s : Session T M) : Z := source_len (ss_memory s).

(** A session and the compositor it serves. *)
Definition Served_world : Type := Session T M * CompositorState.

Definition on_transport {A} (m : ST T TransportError A) : ST Served_world SessionError A := λ w,
  let '(r, t) := m (ss_transport w.1) in (map_err session_error r, (set_transport t w.1, w.2)).

(** Decode, resolve and dispatch one message. *)
Definition act (envelope : Envelope H) : ST Served_world Refused unit := λ '(self, s),
  let '(bytes, envelope) := take_bytes envelope in
  let c := ss_connection self in
  match map_err (λ _, RefusedProtocol) (Frame_decode bytes) with
  | Err e => (Err e, (self, s))
  | Ok frame =>
      match object_kind c (header_object_id (frame_header frame)) s with
      | None => (Err RefusedProtocol, (self, s))
      | Some kind =>
          match decode kind frame with
          | Err _ => (Err RefusedProtocol, (self, s))
          | Ok decoded =>
              match resolve decoded (envelope, ss_memory self) with
              | (Err _, (_, memory)) => (Err RefusedResolution, (set_memory memory self, s))
              | (Ok request, (_, memory)) =>
                  match dispatch c request s with
                  | (Ok _, s) => (Ok tt, (set_memory memory self, s))
                  | (Err _, s) => (Err RefusedProtocol, (set_memory memory self, s))
                  end
              end
          end
      end
  end.

(** The loop of [flush]: the buffer, and the two counts. *)
Fixpoint write_events (events : list Event) (buffer : list byte) (sent unassigned : Z)
    : ST Served_world SessionError (Z * Z) :=
  match events with
  | [] => mret (sent, unassigned)
  | event :: rest =>
      self ← gets fst;
      match encode_event event (ss_sequence self) buffer with
      | (Ok size, buffer) =>
          _ ← on_transport (send (take (Z.to_nat size) buffer) []);
          _ ← modify (λ w : Served_world, (next_sequence w.1, w.2));
          write_events rest buffer (sent + 1) unassigned
      | (Err _, buffer) => write_events rest buffer sent (unassigned + 1)
      end
  end.

Definition flush : ST Served_world SessionError (Z * Z) :=
  events ← (λ '(self, s), let '(events, s) := take_events_for (ss_connection self) s in
                          (Ok events, (self, s)));
  write_events events (zeroes MAX_MESSAGE_SIZE) 0 0.

Definition deliver : ST Served_world SessionError (Z * Z) := flush.

(** [match self.act(..)]: a refusal is not an error here. *)
Definition attempt {S Er A} (m : ST S Er A) : ST S SessionError bool := λ s,
  let '(r, s) := m s in (Ok (is_ok r), s).

Definition serve_one : ST Served_world SessionError Served :=
  envelope ← on_transport receive;
  dispatched ← attempt (act envelope);
  counts ← flush;
  mret (MkServed dispatched counts.1 counts.2).
End Session.

(** * Presenting ([present.rs]) *)

Inductive PresentFailure (E : Type) :=
| Unreadable
| Invalid (error : ValidationError)
| PresentFailed (error : PresentError E)
| SceneFailed (fault : SceneFault).
Arguments Unreadable {E}.
Arguments Invalid {E} error.
Arguments PresentFailed {E} error.
Arguments SceneFailed {E} fault.

Record Presenter := MkPresenter {
  ps_output : SoftwareOutput;
  ps_layout : PixelLayout;
  ps_buffers : gmap BufferKey SoftwareBuffer;
  ps_staged : gmap BufferKey CommitId;
}.

Definition Presenter_new (size : Size) (layout : PixelLayout) : result ValidationError Presenter :=
  output ← SoftwareOutput_new size layout; mret (MkPresenter output layout ∅ ∅).

Section Presenting.
Context {H E T M : Type} `{!Transport H T, !SharedMemorySource H E M}.
(** The sink [K] and what it fails with. *)
Context {KE K : Type} `{!FrameSink KE K} (holders : Z → Z).

(** [now] is when the client's memory is read. *)
Definition stage (now : Moment) (s : CompositorState) (c : ConnectionId) (memory : M) (buffer_id : ObjectId)
    (commit : CommitId) : ST Presenter (PresentFailure KE) unit :=
  let key := MkBufferKey c buffer_id in
  staged ← gets (λ p, ps_staged p !! key);
  if bool_decide (staged = Some commit) then mret tt
  else
    source ← lift (ok_or (buffer_source c buffer_id s) Unreadable);
    length ← lift (ok_or (try_from usize_max (bd_byte_len (bs_descriptor source))) Unreadable);
    bytes ← lift (map_err (λ _, Unreadable)
                    (read_memory now (bs_memory source) (bs_offset source) length memory));
    layout ← gets ps_layout;
    buffer ← lift (map_err Invalid (SoftwareBuffer_new (bs_descriptor source) layout bytes));
    modify (λ p, MkPresenter (ps_output p) (ps_layout p)
      (<[ key := buffer ]> (ps_buffers p)) (<[ key := commit ]> (ps_staged p))).

Definition on_presenter_output {Er A} (m : ST ((SoftwareOutput * CompositorState) * K) Er A)
    : ST (Presenter * CompositorState * K) Er A := λ '(p, s, sink),
  let '(r, ((output, s), sink)) := m ((ps_output p, s), sink) in
  (r, (MkPresenter output (ps_layout p) (ps_buffers p) (ps_staged p), s, sink)).

Definition presenter_present (timestamp_ns : Z)
    : ST (Presenter * CompositorState * K) (PresentFailure KE) FrameReport := λ w,
  ST_map_err PresentFailed
    (on_presenter_output (present_to holders (ps_buffers w.1.1) timestamp_ns)) w.

Definition forget_all_but (live : gset BufferKey) (p : Presenter) : Presenter :=
  MkPresenter (ps_output p) (ps_layout p) (ps_buffers p)
    (btree_retain (λ key _, bool_decide (key ∈ live)) (ps_staged p)).

(** The staging loop of [present_all]; the buffers that are live, so far. [reads_at] is when each
    surface's memory is read. *)
Fixpoint stage_scene (reads_at : SurfaceKey → Moment) (s : CompositorState) (sessions : list (Session T M)) (live : gset BufferKey)
    (order : list SurfaceKey) : ST Presenter (PresentFailure KE) (gset BufferKey) :=
  match order with
  | [] => mret live
  | key :: rest =>
      match surface_snapshot (key_connection key) (key_object key) s with
      | None => stage_scene reads_at s sessions live rest
      | Some snapshot =>
          let live := {[ MkBufferKey (key_connection key) (snap_buffer snapshot) ]} ∪ live in
          match list_find_first
                  (λ session, bool_decide (ss_connection session = key_connection key)) sessions with
          | None => throw (SceneFailed (ConnectionGone key))
          | Some session =>
              _ ← stage (reads_at key) s (key_connection key) (ss_memory session) (snap_buffer snapshot)
                    (snap_commit snapshot);
              stage_scene reads_at s sessions live rest
          end
      end
  end.

(** [for session in sessions.iter_mut() { let _ = session.deliver(state); }]. *)
Fixpoint deliver_all (sessions : list (Session T M)) (s : CompositorState)
    : list (Session T M) * CompositorState :=
  match sessions with
  | [] => ([], s)
  | session :: rest =>
      let '(_, (session, s)) := deliver (session, s) in
      let '(rest, s) := deliver_all rest s in (session :: rest, s)
  end.

(** What [present_all] changes. *)
Record Desktop := MkDesktop {
  dt_presenter : Presenter;
  dt_state : CompositorState;
  dt_sessions : list (Session T M);
  dt_sink : K;
}.

Definition on_presenter {Er A} (m : ST Presenter Er A) : ST Desktop Er A := λ d,
  let '(r, p) := m (dt_presenter d) in (r, MkDesktop p (dt_state d) (dt_sessions d) (dt_sink d)).

Definition on_screen_part {Er A} (m : ST (Presenter * CompositorState * K) Er A) : ST Desktop Er A := λ d,
  let '(r, (p, s, sink)) := m (dt_presenter d, dt_state d, dt_sink d) in
  (r, MkDesktop p s (dt_sessions d) sink).

Definition present_all (reads_at : SurfaceKey → Moment) (timestamp_ns : Z) : ST Desktop (PresentFailure KE) FrameReport :=
  _ ← reads (λ d, map_err SceneFailed (scene_faults (dt_state d)));
  s ← gets dt_state;
  sessions ← gets dt_sessions;
  live ← on_presenter (stage_scene reads_at s sessions ∅ (scene_stack (cs_scene s)));
  _ ← on_presenter (modify (forget_all_but live));
  report ← on_screen_part (presenter_present timestamp_ns);
  _ ← modify (λ d, let '(sessions, s) := deliver_all (dt_sessions d) (dt_state d) in
                   MkDesktop (dt_presenter d) s sessions (dt_sink d));
  mret report.

(** What [present_for] changes: as [present_all], for one session. *)
Definition present_for (now : Moment) (buffer_id : ObjectId) (commit : CommitId) (timestamp_ns : Z)
    : ST (Presenter * CompositorState * K * Session T M) (PresentFailure KE) FrameReport :=
  λ '(p, s, sink, session),
  match stage now s (ss_connection session) (ss_memory session) buffer_id commit p with
  | (Err e, p) => (Err e, (p, s, sink, session))
  | (Ok _, p) =>
      match presenter_present timestamp_ns (p, s, sink) with
      | (Err e, (p, s, sink)) => (Err e, (p, s, sink, session))
      | (Ok report, (p, s, sink)) =>
          let '(_, (session, s)) := deliver (session, s) in (Ok report, (p, s, sink, session))
      end
  end.
End Presenting.
