(* ===== verification/Serving.v ===== *)
(** What serving one message guarantees ([atriad/src/session.rs]): only the transport stops a session,
    what is sent is fixed by the events and the session's next number, and what a client handed over
    is kept. *)
From S2P Require Import Prelude.
From S2P Require Import BTree.
From S2P Require Import Vocabulary.
From S2P Require Import Interface.
From S2P Require Import Wire.
From S2P Require Import Messages.
From S2P Require Import Payloads.
From S2P Require Import Model.
From S2P Require Import Registry.
From S2P Require Import Outputs.
From S2P Require Import Binding.
From S2P Require Import Emit.
From S2P Require Import State.
From S2P Require Import Queue.
From S2P Require Import Objects.
From S2P Require Import Surfaces.
From S2P Require Import Dispatch.
From S2P Require Import Desk.
From S2P Require Import Pixels.
From S2P Require Import Compose.
From S2P Require Import Frames.
From S2P Require Import Showing.
From S2P Require Import Painting.
From S2P Require Import Settling.
From S2P Require Import Transport.
From S2P Require Import Session.

(** * Writing events *)

Section Writing.
Context {H E T M : Type} `{!Transport H T, !SharedMemorySource H E M}.

(** Every value of the event's message is of its wire type, which the source's types guarantee. *)
Definition event_typed (event : Event) : Prop :=
  match event_wire event with Some (_, _, values) => fields_ok values | None => True end.

#[global] Instance value_ok_dec (v : wire_value) : Decision (value_ok v).
Proof. destruct v; cbn [value_ok]; unfold is_str, is_u8, is_u32, is_i32, is_u64; apply _. Defined.
#[global] Instance event_typed_dec (event : Event) : Decision (event_typed event).
Proof.
  unfold event_typed. destruct (event_wire event) as [[[target op] values]|]; [|apply _].
  unfold fields_ok. apply _.
Defined.

(** The frame an event is sent as, under a sequence number: its header and its values; none where it
    has no message, or one larger than any message may be. *)
Definition event_frame (sequence : Z) (event : Event) : option (list byte) :=
  '(target, op, values) ← event_wire event;
  let size := HEADER_SIZE + len (fields_bytes values) in
  if MAX_MESSAGE_SIZE <? size then None
  else Some (header_bytes (MkHeader target (MkOpcode (op_opcode op)) size sequence) ++ fields_bytes values).

(** The frames events are sent as, in their order, each sent one under the next number. *)
Fixpoint frames_of (sequence : Z) (events : list Event) : list (list byte) :=
  match events with
  | [] => []
  | event :: rest =>
      match event_frame sequence event with
      | Some frame => frame :: frames_of (as_u32 (sequence + 1)) rest
      | None => frames_of sequence rest
      end
  end.

Lemma as_u32_add_l a b : as_u32 (as_u32 a + b) = as_u32 (a + b).
Proof. unfold as_u32. apply Zplus_mod_idemp_l. Qed.

Lemma encode_event_run event sequence buffer :
  event_typed event → len buffer = MAX_MESSAGE_SIZE →
  match event_frame sequence event with
  | Some frame => ∃ rest, encode_event event sequence buffer = (Ok (len frame), frame ++ rest) ∧
      len (frame ++ rest) = MAX_MESSAGE_SIZE
  | None => ∃ e, encode_event event sequence buffer = (Err e, buffer)
  end.
Proof.
  intros Hty Hl. assert (len buffer ≤ usize_max) as Ho by (rewrite Hl; unfold MAX_MESSAGE_SIZE; width_lia).
  pose proof (encode_event_frame event sequence buffer Ho) as He. unfold event_frame, event_typed in *.
  destruct (event_wire event) as [[[target op] values]|]; cbn [mbind option_bind]; [|by eexists].
  destruct He as [_ He]. specialize (He Hty). rewrite He. unfold ST_map_err.
  rewrite encode_frame_run by done. unfold encode_frame_result.
  pose proof (len_fields_bytes_HEADER values) as Ha. pose proof (len_nonneg (fields_bytes values)) as Hn.
  destruct (Z.ltb_spec MAX_MESSAGE_SIZE (HEADER_SIZE + len (fields_bytes values))) as [Hbig|Hfit].
  { destruct (usize_max <? _); by eexists. }
  rewrite (proj2 (Z.ltb_ge usize_max (HEADER_SIZE + len (fields_bytes values))))
    by (unfold MAX_MESSAGE_SIZE in *; width_lia).
  rewrite Ha. cbn [negb Z.eqb]. rewrite Hl, (proj2 (Z.ltb_ge _ _)) by done.
  rewrite len_app, len_header_bytes. eexists. split; [by rewrite <- app_assoc|].
  rewrite !len_app, len_header_bytes, len_drop_Z; unfold HEADER_SIZE in *; lia.
Qed.

(** Sends one after another. *)
Fixpoint send_all (frames : list (list byte)) : ST T TransportError unit :=
  match frames with
  | [] => mret tt
  | frame :: rest => _ ← send frame []; send_all rest
  end.

Lemma write_events_others events : ∀ buffer sent unassigned (self : Session T M) s r self' s',
  write_events events buffer sent unassigned (self, s) = (r, (self', s')) →
  s' = s ∧ ss_connection self' = ss_connection self ∧ ss_memory self' = ss_memory self.
Proof.
  induction events as [|event events IH]; intros buffer sent unassigned self s r self' s' Hw.
  { by injection Hw as <- <- <-. }
  cbn [write_events] in Hw. rewrite ST_gets_bind in Hw. cbn [fst] in Hw.
  destruct (encode_event event (ss_sequence self) buffer) as [[size|e] buffer']; [|by eapply IH].
  rewrite ST_bind_run in Hw. unfold on_transport in Hw. cbn [fst snd] in Hw.
  destruct (send _ [] (ss_transport self)) as [[[]|e] t]; [|by injection Hw as <- <- <-].
  cbn [map_err] in Hw. rewrite ST_bind_run in Hw. cbn [modify fst snd] in Hw.
  apply IH in Hw as (-> & Hc & Hm). by cbn in Hc, Hm.
Qed.

(** The loop sends the events' frames, as far as the transport takes them. *)
Lemma write_events_run events : ∀ buffer sent unassigned (self : Session T M) s,
  Forall event_typed events → len buffer = MAX_MESSAGE_SIZE →
  let frames := frames_of (ss_sequence self) events in
  let '(r, (self', _)) := write_events events buffer sent unassigned (self, s) in
  let '(outcome, t) := send_all frames (ss_transport self) in
  ss_transport self' = t ∧
  match outcome with
  | Ok _ => r = Ok (sent + len frames, unassigned + (len events - len frames)) ∧
      as_u32 (ss_sequence self') = as_u32 (ss_sequence self + len frames)
  | Err e => r = Err (session_error e)
  end.
Proof.
  induction events as [|event events IH]; intros buffer sent unassigned self s Hty Hl.
  { cbn. split; [done|]. unfold len. cbn. split; [do 2 f_equal; lia|by rewrite Z.add_0_r]. }
  apply Forall_cons in Hty as [Hev Hty]. cbn [write_events frames_of]. rewrite ST_gets_bind. cbn [fst].
  pose proof (encode_event_run event (ss_sequence self) buffer Hev Hl) as He.
  destruct (event_frame (ss_sequence self) event) as [frame|].
  - destruct He as (tail & -> & Hl'). unfold len at 1. rewrite Nat2Z.id, take_app_length.
    cbn [send_all]. rewrite !ST_bind_run. unfold on_transport. cbn [fst snd].
    destruct (send frame [] (ss_transport self)) as [[[]|e] t]; cbn [map_err]; [|done].
    rewrite ST_bind_run. cbn [modify fst snd].
    specialize (IH (frame ++ tail) (sent + 1) unassigned (next_sequence (set_transport t self)) s Hty Hl').
    cbn [next_sequence set_transport ss_sequence ss_transport] in IH.
    destruct (write_events events _ _ _ _) as [r [self' s']], (send_all _ t) as [[[]|e] t'];
      destruct IH as [-> IH]; (split; [done|]); [|done]. destruct IH as [-> ->].
    rewrite !len_cons. split; [do 2 f_equal; lia|]. rewrite as_u32_add_l. f_equal. lia.
  - destruct He as [e ->]. specialize (IH buffer sent (unassigned + 1) self s Hty Hl). cbv zeta in IH.
    destruct (write_events events _ _ _ _) as [r [self' s']], (send_all _ _) as [[[]|e'] t'];
      destruct IH as [-> IH]; (split; [done|]); [|done]. destruct IH as [-> ->].
    rewrite len_cons. split; [do 2 f_equal; lia|done].
Qed.
End Writing.

Section Serving.
Context {H E T M : Type} `{!Transport H T, !SharedMemorySource H E M}.

(** Acting on a message uses the session's memory and nothing else of it. *)
Lemma act_session envelope (self : Session T M) s r self' s' :
  act envelope (self, s) = (r, (self', s')) → self' = set_memory (ss_memory self') self.
Proof.
  unfold act. destruct (take_bytes envelope) as [bytes envelope'].
  assert (self = set_memory (ss_memory self) self) as Hself by (by destruct self).
  repeat (case_match; try (by intros [= <- <- <-])).
Qed.

(** C28. Serving one message receives it, acts on it, and then takes every event queued for the client
    and sends those that have a message, in order. What is sent is fixed by the events and by the
    session's next sequence number: for each, the frame of its operation around its values, each
    sent one under the next number; left out is only what has no message, or one larger than any
    message may be. A session whose transport takes all of it goes on, whether or not the client's
    message was accepted, and the answer counts what went out and what was left out; the only errors
    are receiving's, which leaves everything else as it was, and the first a send answers, after
    which nothing more is sent. The events' values are of their wire types, as the source's types
    guarantee. *)
Theorem serve_one_outcome (self : Session T M) (s : CompositorState)
    (r : result SessionError Served) (self' : Session T M) (s' : CompositorState)
    (Hs : serve_one (self, s) = (r, (self', s'))) :
  ss_connection self' = ss_connection self ∧
  match receive (ss_transport self) with
  | (Err e, t) => r = Err (session_error e) ∧ s' = s ∧ self' = set_transport t self
  | (Ok envelope, t) =>
      ∃ answer self1 s1, act envelope (set_transport t self, s) = (answer, (self1, s1)) ∧
      let '(events, s2) := take_events_for (ss_connection self) s1 in
      s' = s2 ∧ ss_memory self' = ss_memory self1 ∧
      (Forall event_typed events →
       let frames := frames_of (ss_sequence self) events in
       let '(outcome, t') := send_all frames t in
       ss_transport self' = t' ∧
       match outcome with
       | Ok _ => r = Ok (MkServed (is_ok answer) (len frames) (len events - len frames)) ∧
           as_u32 (ss_sequence self') = as_u32 (ss_sequence self + len frames)
       | Err e => r = Err (session_error e)
       end)
  end.
Proof.
  unfold serve_one in Hs. rewrite ST_bind_run in Hs. unfold on_transport in Hs. cbn [fst snd] in Hs.
  destruct (receive (ss_transport self)) as [[envelope|e] t]; cbn [map_err] in Hs.
  2: { by injection Hs as <- <- <-. }
  rewrite ST_bind_run in Hs. unfold attempt in Hs.
  destruct (act envelope (set_transport t self, s)) as [answer [self1 s1]] eqn:Ea.
  pose proof (act_session _ _ _ _ _ _ Ea) as Hself1.
  rewrite ST_bind_run in Hs. unfold flush in Hs. rewrite ST_bind_run in Hs.
  assert (ss_connection self1 = ss_connection self) as Hc by (by rewrite Hself1).
  assert (ss_sequence self1 = ss_sequence self ∧ ss_transport self1 = t) as [Hseq Ht]
    by (by rewrite Hself1).
  rewrite Hc in Hs. destruct (take_events_for (ss_connection self) s1) as [events s2] eqn:Et.
  pose proof (write_events_run events (zeroes MAX_MESSAGE_SIZE) 0 0 self1 s2) as Hrun.
  destruct (write_events events (zeroes MAX_MESSAGE_SIZE) 0 0 (self1, s2)) as [r2 [self2 s3]] eqn:Ew.
  apply write_events_others in Ew as (-> & Hc2 & Hm). cbv zeta in Hrun. rewrite Hseq, Ht in Hrun.
  assert (r = match r2 with
              | Ok counts => Ok (MkServed (is_ok answer) counts.1 counts.2)
              | Err e => Err e
              end ∧ self' = self2 ∧ s' = s2) as (-> & -> & ->) by (destruct r2; by injection Hs as <- <- <-).
  split; [congruence|]. exists answer, self1, s1. split; [done|]. rewrite Et. split; [done|].
  split; [done|]. intros Hty. cbv zeta.
  specialize (Hrun Hty (len_zeroes MAX_MESSAGE_SIZE ltac:(by vm_compute))).
  destruct (send_all _ t) as [[[]|e'] t']; destruct Hrun as [-> Hrun]; (split; [done|]).
  - by destruct Hrun as [-> ->].
  - by rewrite Hrun.
Qed.
End Serving.

(** ** A transport played from a script *)

Record Script := MkScript { sc_inbox : list (Envelope File); sc_outbox : list (list byte) }.

#[global] Instance script : Transport File Script := {
  send bytes _ s := (Ok tt, MkScript (sc_inbox s) (sc_outbox s ++ [bytes]));
  receive s := match sc_inbox s with
               | envelope :: rest => (Ok envelope, MkScript rest (sc_outbox s))
               | [] => (Err Closed, s)
               end;
}.

Abbreviation ScriptSession := (Session Script (SharedMemoryStore File)).

(** A session of the desk's application that is about to read these packets. *)
Definition app_session (inbox : list (Envelope File)) : ScriptSession :=
  Session_new (MkScript inbox []) APP.

(** A request as the client sends it. *)
Definition packet (object : Z) (op : Operation) (payload : list byte) : list byte :=
  match encode_frame (MkObjectId object) (MkOpcode (op_opcode op)) 1 payload
          (zeroes (HEADER_SIZE + len payload)) with
  | (Ok size, bytes) => take (Z.to_nat size) bytes
  | (Err _, _) => []
  end.


(** A client asks for its registry, and hears of the five globals. *)
Definition get_registry : list byte :=
  packet 1 OpDisplayGetRegistry [Corelib.Init.Byte.x0c; Corelib.Init.Byte.x00; Corelib.Init.Byte.x00; Corelib.Init.Byte.x00].

Definition asking : ScriptSession := app_session [Envelope_new get_registry []].

Definition heard_from : ScriptSession := set_transport (MkScript [] []) asking.
Definition asked_act := act (Envelope_new get_registry []) (heard_from, quiet_desk).
Definition asked_events : list Event := (take_events_for APP asked_act.2.2).1.

Lemma asked_typed : Forall event_typed asked_events.
Proof. refine (bool_decide_eq_true_1 _ _). vm_compute. reflexivity. Qed.

Lemma serve_one_outcome_witness :
  ∃ self' s', serve_one (asking, quiet_desk) = (Ok (MkServed true 5 0), (self', s')) ∧
    sc_outbox (ss_transport self') = frames_of 1 asked_events ∧ len (frames_of 1 asked_events) = 5.
Proof.
  assert ((serve_one (asking, quiet_desk)).1 = Ok (MkServed true 5 0)) as Hr by (vm_compute; reflexivity).
  destruct (serve_one (asking, quiet_desk)) as [r [self' s']] eqn:E. cbn [fst] in Hr. subst r.
  exists self', s'. split; [done|]. split; [|vm_compute; reflexivity].
  destruct (serve_one_outcome asking quiet_desk _ _ _ E) as [_ H].
  assert (receive (ss_transport asking) = (Ok (Envelope_new get_registry []), MkScript [] [])) as Hin
    by reflexivity.
  rewrite Hin in H. destruct H as (answer & self1 & s1 & Ha & H).
  assert (ss_connection asking = APP) as Hc by reflexivity. rewrite Hc in H.
  assert (s1 = asked_act.2.2) as -> by (unfold asked_act, heard_from; by rewrite Ha).
  destruct (take_events_for APP asked_act.2.2) as [events s2] eqn:Et.
  assert (events = asked_events) as -> by (unfold asked_events; by rewrite Et).
  destruct H as (_ & _ & H). specialize (H asked_typed). cbv zeta in H.
  assert (ss_sequence asking = 1) as Hseq by reflexivity. rewrite Hseq in H.
  assert (∀ frames t, send_all (T := Script) frames t =
    (Ok tt, MkScript (sc_inbox t) (sc_outbox t ++ frames))) as Hsend.
  { induction frames as [|frame frames IH]; intros t; cbn [send_all].
    - by destruct t; rewrite app_nil_r.
    - rewrite ST_bind_run. cbn. rewrite IH. cbn. by rewrite <- app_assoc. }
  rewrite Hsend in H. destruct H as [H _]. rewrite H. cbn [sc_outbox]. apply app_nil_l.
Defined.

(** * The memory a client has handed over *)

Section Memory.
Context {H E T M : Type} `{!Transport H T, !SharedMemorySource H E M}.
Context {ok : M → Prop} `{!SharedMemoryLaws H E M ok}.

(** [m'] has what [m] had, and whatever was handed over since. *)
Definition extends (m m' : M) : Prop :=
  ok m' ∧ source_len m ≤ source_len m' ∧
  ∀ now memory offset n bytes,
    read_memory now memory offset n m = Ok bytes → read_memory now memory offset n m' = Ok bytes.

Lemma extends_refl m : ok m → extends m m.
Proof. intros Hm. split; [done|]. split; [lia|done]. Qed.

Lemma adopt_extends h m : ok m → extends m (adopt h m).2.
Proof.
  intros Hm. split; [by apply adopt_ok|]. split; [|intros; by apply adopt_keeps].
  rewrite (adopt_len h m Hm). destruct (adopt h m).1; lia.
Qed.

Lemma claim_extends slot envelope m : ok m → extends m (shared_memory slot (envelope, m)).2.2.
Proof.
  intros Hm. unfold shared_memory, EnvelopeResolver.
  destruct (claim (handle_index slot) envelope) as [[h|] envelope']; [|by apply extends_refl].
  pose proof (adopt_extends h m Hm). by destruct (adopt h m) as [[memory|e] m'].
Qed.

Lemma resolve_extends request envelope m : ok m → extends m (resolve request (envelope, m)).2.2.
Proof.
  intros Hm. destruct (resolve_claims request (envelope, m)) as [->|[slot ->]].
  - by apply extends_refl.
  - by apply claim_extends.
Qed.

Lemma act_extends envelope (self : Session T M) s :
  ok (ss_memory self) → extends (ss_memory self) (ss_memory (act envelope (self, s)).2.1).
Proof.
  intros Hm. unfold act. destruct (take_bytes envelope) as [bytes envelope'].
  destruct (map_err _ _) as [frame|]; [|by apply extends_refl].
  destruct (object_kind _ _ s) as [kind|]; [|by apply extends_refl].
  destruct (decode kind frame) as [decoded|]; [|by apply extends_refl].
  pose proof (resolve_extends decoded envelope' (ss_memory self) Hm) as Hr.
  destruct (resolve decoded (envelope', ss_memory self)) as [[request|e] [envelope'' m']]; cbn in Hr |- *; [|done].
  by destruct (dispatch _ request s) as [[]].
Qed.

(** The descriptors a client sent are all kept: whatever message a session serves, and however that
    ends, a read its memory would have answered before is answered the same after, and it holds at
    least as many handles. Nothing ever releases one, the destruction of what named it included. *)
Theorem session_memory_kept (self : Session T M) (s : CompositorState)
    (r : result SessionError Served) (self' : Session T M) (s' : CompositorState)
    (Hok : ok (ss_memory self)) (Hs : serve_one (self, s) = (r, (self', s'))) :
  ok (ss_memory self') ∧ adopted_memory self ≤ adopted_memory self' ∧
  ∀ now memory offset n bytes, read_memory now memory offset n (ss_memory self) = Ok bytes →
    read_memory now memory offset n (ss_memory self') = Ok bytes.
Proof.
  change (extends (ss_memory self) (ss_memory self')).
  unfold serve_one in Hs. rewrite ST_bind_run in Hs. unfold on_transport in Hs. cbn [fst snd] in Hs.
  destruct (receive (ss_transport self)) as [[envelope|e] t]; cbn [map_err] in Hs.
  2: { injection Hs as <- <- <-. by apply extends_refl. }
  rewrite ST_bind_run in Hs. unfold attempt in Hs.
  pose proof (act_extends envelope (set_transport t self) s Hok) as Ha.
  destruct (act envelope (set_transport t self, s)) as [answer [self1 s1]]. cbn [fst snd] in Ha.
  rewrite ST_bind_run in Hs. unfold flush in Hs. rewrite ST_bind_run in Hs.
  destruct (take_events_for (ss_connection self1) s1) as [events s2].
  destruct (write_events events (zeroes MAX_MESSAGE_SIZE) 0 0 (self1, s2)) as [r2 [self2 s3]] eqn:Ew.
  apply write_events_others in Ew as (_ & _ & Hm).
  destruct r2; injection Hs as <- <- <-; by rewrite Hm.
Qed.

(** A handle adopted for a request that is then refused is kept all the same: when a client asks
    for a pool larger than the memory it sent, the request is refused and the compositor untouched,
    but its memory stays with the session, which nothing ever makes let go of it. *)
Theorem refused_pool_kept (envelope : Envelope H) (self : Session T M) (s : CompositorState)
    (frame : Frame) (kind : ObjectKind) (new_id : ObjectId) (slot : HandleIndex) (size : Z) (handle : H)
    (rest : Envelope H) (memory : SharedMem) (m' : M) (Hok : ok (ss_memory self))
    (Hf : Frame_decode (env_bytes envelope) = Ok frame)
    (Hk : object_kind (ss_connection self) (header_object_id (frame_header frame)) s = Some kind)
    (Hd : decode kind frame = Ok (DqCreatePool new_id slot size))
    (Hc : claim (handle_index slot) (take_bytes envelope).2 = (Some handle, rest))
    (Ha : adopt handle (ss_memory self) = (Ok memory, m')) (Hsize : memory_size memory < size) :
  act envelope (self, s) = (Err RefusedResolution, (set_memory m' self, s)) ∧
  adopted_memory (set_memory m' self) = adopted_memory self + 1.
Proof.
  split.
  - unfold act. cbn [take_bytes]. rewrite Hf. cbn [map_err]. rewrite Hk, Hd. cbn [resolve].
    rewrite ST_bind_run. unfold shared_memory, EnvelopeResolver. cbn [take_bytes snd] in Hc.
    rewrite Hc, Ha. by rewrite (proj2 (Z.ltb_lt _ _) Hsize).
  - pose proof (adopt_len handle (ss_memory self) Hok) as Hl. by rewrite Ha in Hl.
Qed.
End Memory.

Lemma session_memory_kept_witness :
  (serve_one (asking, quiet_desk)).1 = Ok (MkServed true 5 0) ∧
  store_ok (ss_memory (serve_one (asking, quiet_desk)).2.1).
Proof.
  assert ((serve_one (asking, quiet_desk)).1 = Ok (MkServed true 5 0)) as Hr by (vm_compute; reflexivity).
  split; [exact Hr|].
  refine (proj1 (session_memory_kept asking quiet_desk _ _ _ _ (answered _ _ Hr))). apply default_ok.
Defined.

(** A pool of 32 bytes asked for, out of a file of 16. *)
Definition with_shm : CompositorState :=
  calls [CallAdvertiseGlobal KShm 1; CallDispatch APP (RqBind 6 1 (MkObjectId 12))] quiet_desk.
Definition slot_zero : HandleIndex := MkHandleIndex 0 SharedMemory.
Definition overasking : Envelope File :=
  Envelope_new (packet 12 OpShmCreatePool
    (to_le_bytes 4 13 ++ to_le_bytes 4 (placeholder slot_zero) ++ to_le_bytes 4 32)) [still (zeroes 16)].

Lemma refused_pool_kept_witness :
  let self := app_session [] in
  act overasking (self, with_shm) =
    (Err RefusedResolution,
     (set_memory (MkSharedMemoryStore 2 {[ 1 := still (zeroes 16) ]}) self, with_shm)) ∧
  adopted_memory self = 0 ∧
  adopted_memory (set_memory (MkSharedMemoryStore 2 {[ 1 := still (zeroes 16) ]}) self) = adopted_memory self + 1.
Proof.
  cbv zeta. destruct (Frame_decode (env_bytes overasking)) as [frame|] eqn:Ef;
    [|vm_compute in Ef; discriminate Ef].
  assert (object_kind APP (header_object_id (frame_header frame)) with_shm = Some KShm) as Hk
    by (vm_compute in Ef; injection Ef as <-; vm_compute; reflexivity).
  assert (decode KShm frame = Ok (DqCreatePool (MkObjectId 13) slot_zero 32)) as Hd
    by (vm_compute in Ef; injection Ef as <-; vm_compute; reflexivity).
  destruct (refused_pool_kept overasking (app_session []) with_shm frame KShm (MkObjectId 13) slot_zero 32
    (still (zeroes 16)) (MkEnvelope [] [None]) (MkSharedMem 1 16) (MkSharedMemoryStore 2 {[ 1 := still (zeroes 16) ]})
    default_ok Ef Hk Hd ltac:(reflexivity) ltac:(vm_compute; reflexivity) ltac:(reflexivity)) as [H1 H2].
  split; [exact H1|]. split; [reflexivity|exact H2].
Defined.
