(* ===== verification/Presenting.v ===== *)
(** What the presenter guarantees ([atriad/src/present.rs]): a presented frame shows the whole scene, each
    surface out of the memory of the session that owns it; what has been read of a commit is not
    read again; and where one surface stops the frame for all. *)
From S2P Require Import Prelude.
From S2P Require Import BTree.
From S2P Require Import Vocabulary.
From S2P Require Import Interface.
From S2P Require Import Wire.
From S2P Require Import Payloads.
From S2P Require Import Model.
From S2P Require Import Registry.
From S2P Require Import Outputs.
From S2P Require Import State.
From S2P Require Import Queue.
From S2P Require Import Objects.
From S2P Require Import Surfaces.
From S2P Require Import Dispatch.
From S2P Require Import Invariant.
From S2P Require Import Preserved.
From S2P Require Import Desk.
From S2P Require Import Pixels.
From S2P Require Import Compose.
From S2P Require Import Frames.
From S2P Require Import Showing.
From S2P Require Import Painting.
From S2P Require Import Settling.
From S2P Require Import Transport.
From S2P Require Import Session.
From S2P Require Import Serving.

(** A buffer source as Rust's types and [fstat]'s allow it: a memory is no larger than an [i64]. *)
Definition source_typed (src : BufferSource) : Prop :=
  is_u32 (size_width (bd_size (bs_descriptor src))) ∧ is_u32 (size_height (bd_size (bs_descriptor src))) ∧
  is_u32 (bd_stride (bs_descriptor src)) ∧ 0 ≤ bd_byte_len (bs_descriptor src) ≤ isize_max.

(** The sources a frame may read. *)
Definition sources_typed (s : CompositorState) : Prop :=
  ∀ key sn src, key ∈ scene_stack (cs_scene s) →
    surface_snapshot (key_connection key) (key_object key) s = Some sn →
    buffer_source (key_connection key) (snap_buffer sn) s = Some src → source_typed src.

#[global] Instance source_typed_dec src : Decision (source_typed src).
Proof. unfold source_typed, is_u32. apply _. Defined.

(** The same, computed. *)
Definition sources_check (s : CompositorState) : bool :=
  forallb (λ key,
    match surface_snapshot (key_connection key) (key_object key) s with
    | Some sn =>
        match buffer_source (key_connection key) (snap_buffer sn) s with
        | Some src => bool_decide (source_typed src)
        | None => true
        end
    | None => true
    end) (scene_stack (cs_scene s)).

Lemma sources_check_ok s : sources_check s = true → sources_typed s.
Proof.
  unfold sources_check, sources_typed. rewrite forallb_forall. intros H key sn src Hin Hsn Hsrc.
  apply list_elem_of_In, H in Hin. rewrite Hsn, Hsrc in Hin. by apply bool_decide_eq_true in Hin.
Qed.

Record presenter_ok (p : Presenter) : Prop := {
  po_drawing : drawing (ps_output p);
  po_layout : so_layout (ps_output p) = ps_layout p;
  po_bpp : layout_typed (ps_layout p);
  po_stored : store_typed (ps_buffers p);
  po_staged key c : ps_staged p !! key = Some c → is_Some (ps_buffers p !! key);
}.

Section Presenting.
Context {H E T M : Type} `{!Transport H T, !SharedMemorySource H E M}.
Context {ok : M → Prop} `{!SharedMemoryLaws H E M ok}.
Context {KE K : Type} `{!FrameSink KE K} (holders : Z → Z).

(** What staging a commit puts in the store: what the owner's memory answers. *)
Definition read_from (now : Moment) (s : CompositorState) (memory : M) (c : ConnectionId) (buffer_id : ObjectId)
    (b : SoftwareBuffer) : Prop :=
  ∃ src, buffer_source c buffer_id s = Some src ∧ sb_descriptor b = bs_descriptor src ∧
    read_memory now (bs_memory src) (bs_offset src) (bd_byte_len (bs_descriptor src)) memory =
      Ok (sb_bytes b).

Lemma stage_run now s c memory buffer_id commit p r p' :
  stage (KE := KE) now s c memory buffer_id commit p = (r, p') →
  (r ≠ Ok tt ∧ p' = p) ∨
  (r = Ok tt ∧ p' = p ∧ ps_staged p !! MkBufferKey c buffer_id = Some commit) ∨
  ∃ b, r = Ok tt ∧ read_from now s memory c buffer_id b ∧ sb_layout b = ps_layout p ∧
    p' = MkPresenter (ps_output p) (ps_layout p) (<[ MkBufferKey c buffer_id := b ]> (ps_buffers p))
           (<[ MkBufferKey c buffer_id := commit ]> (ps_staged p)).
Proof.
  unfold stage. intros Hs. rewrite ST_gets_bind in Hs. case_bool_decide as Hst.
  { injection Hs as <- <-. auto. }
  rewrite ST_bind_run in Hs. destruct (buffer_source c buffer_id s) as [src|] eqn:Esrc;
    cbn [ok_or lift] in Hs; [|injection Hs as <- <-; left; done].
  rewrite ST_bind_run in Hs.
  destruct (try_from usize_max (bd_byte_len (bs_descriptor src))) as [n|] eqn:En;
    cbn [ok_or lift] in Hs; [|injection Hs as <- <-; left; done].
  apply try_from_inv in En as [-> _]. rewrite ST_bind_run in Hs.
  destruct (read_memory _ _ _ _ memory) as [bytes|e] eqn:Er; cbn [map_err lift] in Hs;
    [|injection Hs as <- <-; left; done].
  rewrite ST_gets_bind, ST_bind_run in Hs. unfold SoftwareBuffer_new in Hs.
  destruct (validate_descriptor _ _ _) as [[]|e] eqn:Ev; cbn in Hs;
    [|injection Hs as <- <-; left; done].
  injection Hs as <- <-. right. right.
  exists (MkSoftwareBuffer (bs_descriptor src) (ps_layout p) bytes). split; [done|].
  split; [by exists src|done].
Qed.

Lemma stage_ok now s c memory buffer_id commit p :
  (∀ src, buffer_source c buffer_id s = Some src → source_typed src) →
  presenter_ok p → presenter_ok (stage (KE := KE) now s c memory buffer_id commit p).2.
Proof.
  intros Hty Hp. destruct (stage now s c memory buffer_id commit p) as [r p'] eqn:Es. cbn [snd].
  apply stage_run in Es as [[_ ->]|[(_ & -> & _)|(b & _ & (src & Hsrc & Hd & Hr) & Hl & ->)]];
    [done..|].
  destruct Hp as [H1 H2 H3 H4 H5]. split; cbn; try done.
  - apply map_Forall_insert_2; [|done]. destruct (Hty _ Hsrc) as (Hw & Hh & Hs & Hn & Hb).
    apply read_length in Hr; [|done]. split; rewrite ?Hd; try done; [by rewrite Hl|by rewrite Hr].
  - intros key c'. destruct (decide (key = MkBufferKey c buffer_id)) as [->|Hne].
    + intros _. rewrite lookup_insert_eq. by eexists.
    + rewrite !lookup_insert_ne by done. apply H5.
Qed.

(** Where a presenter's store may differ from an earlier one's: at what has been staged. *)
Definition owner (sessions : list (Session T M)) (c : ConnectionId) : option (Session T M) :=
  list_find_first (λ session, bool_decide (ss_connection session = c)) sessions.

Lemma stage_output now s c memory buffer_id commit p :
  ps_output (stage (KE := KE) now s c memory buffer_id commit p).2 = ps_output p ∧
  ps_layout (stage (KE := KE) now s c memory buffer_id commit p).2 = ps_layout p.
Proof.
  destruct (stage now s c memory buffer_id commit p) as [r p'] eqn:Es.
  by apply stage_run in Es as [[_ ->]|[(_ & -> & _)|(b & _ & _ & _ & ->)]].
Qed.

(** The name a surface's buffer has in the store. *)
Definition shown_buffer (key : SurfaceKey) (sn : SurfaceSnapshot) : BufferKey :=
  MkBufferKey (key_connection key) (snap_buffer sn).

(** A buffer of the store that has been left alone. *)
Definition kept (p p' : Presenter) (buffer : BufferKey) : Prop :=
  ps_buffers p' !! buffer = ps_buffers p !! buffer ∧ ps_staged p' !! buffer = ps_staged p !! buffer.

(** A buffer of the store that has been read, for a surface among [keys] that shows it, out of what its
    owner's memory answered at the moment the surface was read. *)
Definition read_for (reads_at : SurfaceKey → Moment) (s : CompositorState)
    (sessions : list (Session T M)) (keys : list SurfaceKey) (p' : Presenter) (buffer : BufferKey) : Prop :=
  ∃ key sn session b, key ∈ keys ∧
    surface_snapshot (key_connection key) (key_object key) s = Some sn ∧ buffer = shown_buffer key sn ∧
    owner sessions (key_connection key) = Some session ∧
    read_from (reads_at key) s (ss_memory session) (key_connection key) (snap_buffer sn) b ∧
    ps_buffers p' !! buffer = Some b ∧ ps_staged p' !! buffer = Some (snap_commit sn).

(** A buffer of the store holds a commit of a surface among [keys] that shows it. *)
Definition staged_for (s : CompositorState) (keys : list SurfaceKey) (p' : Presenter)
    (buffer : BufferKey) : Prop :=
  ∃ key sn, key ∈ keys ∧ surface_snapshot (key_connection key) (key_object key) s = Some sn ∧
    buffer = shown_buffer key sn ∧ ps_staged p' !! buffer = Some (snap_commit sn).

(** What staging surfaces establishes, however it ends. *)
Record scene_staged (reads_at : SurfaceKey → Moment) (s : CompositorState)
    (sessions : list (Session T M)) (keys : list SurfaceKey) (p p' : Presenter) : Prop := {
  ss_output : ps_output p' = ps_output p;
  ss_layout : ps_layout p' = ps_layout p;
  ss_ok : presenter_ok p';
  ss_provenance buffer : kept p p' buffer ∨ read_for reads_at s sessions keys p' buffer;
}.

Lemma scene_staged_refl reads_at s sessions keys p :
  presenter_ok p → scene_staged reads_at s sessions keys p p.
Proof. intros Hp. split; try done. by left. Qed.

Lemma stage_step (reads_at : SurfaceKey → Moment) s sessions key sn session p :
  (∀ src, buffer_source (key_connection key) (snap_buffer sn) s = Some src → source_typed src) →
  surface_snapshot (key_connection key) (key_object key) s = Some sn →
  owner sessions (key_connection key) = Some session → presenter_ok p →
  let '(r, p') := stage (KE := KE) (reads_at key) s (key_connection key) (ss_memory session)
                    (snap_buffer sn) (snap_commit sn) p in
  scene_staged reads_at s sessions [key] p p' ∧
  (r = Ok tt → ps_staged p' !! shown_buffer key sn = Some (snap_commit sn)).
Proof.
  intros Hty Hsn Ho Hp.
  pose proof (stage_output (reads_at key) s (key_connection key) (ss_memory session) (snap_buffer sn)
    (snap_commit sn) p) as [H1 H2].
  pose proof (stage_ok (reads_at key) s (key_connection key) (ss_memory session) (snap_buffer sn)
    (snap_commit sn) p Hty Hp) as H3.
  destruct (stage _ s _ _ _ _ p) as [r p'] eqn:Es. cbn [snd] in *.
  apply stage_run in Es as [[Hr ->]|[(_ & -> & Hst)|(b & _ & Hr & _ & ->)]];
    [split; [by apply scene_staged_refl|done]..|].
  split; [split; try done|intros _; cbn; by rewrite lookup_insert_eq].
  intros buffer. unfold kept. cbn.
  destruct (decide (buffer = shown_buffer key sn)) as [->|Hne]; [right|left; by rewrite !lookup_insert_ne].
  exists key, sn, session, b. split_and!; try done; [by left|..]; cbn; by rewrite lookup_insert_eq.
Qed.

Lemma read_for_mono reads_at s sessions keys keys' p' buffer :
  keys ⊆ keys' → read_for reads_at s sessions keys p' buffer → read_for reads_at s sessions keys' p' buffer.
Proof. intros Hsub (key & sn & session & b & Hin & Hrest). exists key, sn, session, b. auto. Qed.

Lemma read_for_kept reads_at s sessions keys p' p'' buffer :
  kept p' p'' buffer → read_for reads_at s sessions keys p' buffer →
  read_for reads_at s sessions keys p'' buffer.
Proof.
  intros [Hb Hs] (key & sn & session & b & H1 & H2 & H3 & H4 & H5 & H6 & H7).
  exists key, sn, session, b. rewrite Hb, Hs. auto 10.
Qed.

Lemma read_for_staged reads_at s sessions keys p' buffer :
  read_for reads_at s sessions keys p' buffer → staged_for s keys p' buffer.
Proof. intros (key & sn & session & b & H1 & H2 & H3 & _ & _ & _ & H7). by exists key, sn. Qed.

Lemma scene_staged_trans reads_at s sessions keys1 keys2 p1 p2 p3 :
  scene_staged reads_at s sessions keys1 p1 p2 → scene_staged reads_at s sessions keys2 p2 p3 →
  scene_staged reads_at s sessions (keys1 ++ keys2) p1 p3.
Proof.
  intros [A1 A2 A3 A4] [B1 B2 B3 B4]. split; [congruence|congruence|done|]. intros buffer.
  destruct (B4 buffer) as [Hk|Hr]; [|right; eapply read_for_mono; [|exact Hr]; set_solver].
  destruct (A4 buffer) as [[Hb Hs]|Hr].
  - left. destruct Hk as [Hb' Hs']. split; congruence.
  - right. eapply read_for_kept; [exact Hk|]. eapply read_for_mono; [|exact Hr]. set_solver.
Qed.

(** What is staged stays so while the rest is, or is staged anew. *)
Lemma staged_for_later reads_at s sessions keys keys' p' p'' buffer :
  scene_staged reads_at s sessions keys' p' p'' → staged_for s keys p' buffer →
  staged_for s (keys ++ keys') p'' buffer.
Proof.
  intros Hst (key & sn & Hin & Hsn & Hb & Hc).
  destruct (ss_provenance _ _ _ _ _ _ Hst buffer) as [[_ Hs]|Hr%read_for_staged].
  - exists key, sn. rewrite Hs. split_and!; try done. set_solver.
  - destruct Hr as (key' & sn' & Hin' & Hrest). exists key', sn'. split; [set_solver|done].
Qed.

Lemma stage_scene_run reads_at s sessions order : ∀ live p r p',
  (∀ key sn src, key ∈ order → surface_snapshot (key_connection key) (key_object key) s = Some sn →
     buffer_source (key_connection key) (snap_buffer sn) s = Some src → source_typed src) →
  presenter_ok p → stage_scene (KE := KE) reads_at s sessions live order p = (r, p') →
  scene_staged reads_at s sessions order p p' ∧
  ∀ live', r = Ok live' → live ⊆ live' ∧
    ∀ key sn, key ∈ order → surface_snapshot (key_connection key) (key_object key) s = Some sn →
      shown_buffer key sn ∈ live' ∧ staged_for s order p' (shown_buffer key sn).
Proof.
  induction order as [|key order IH]; intros live p r p' Hty Hp Hs.
  { injection Hs as <- <-. split; [by apply scene_staged_refl|]. intros live' [= <-]. split; [done|].
    intros key sn Hin. by apply not_elem_of_nil in Hin. }
  cbn [stage_scene] in Hs. change (key :: order) with ([key] ++ order).
  destruct (surface_snapshot (key_connection key) (key_object key) s) as [sn|] eqn:Esn.
  2: { apply IH in Hs as [Hst Hall]; [|intros; eapply Hty; [by right|done..]|done].
       split; [by eapply (scene_staged_trans _ _ _ [key]); [apply scene_staged_refl|]|].
       intros live' Hr. destruct (Hall live' Hr) as [Hsub Hrest]. split; [done|].
       intros key' sn' [->|Hin]%elem_of_cons Hsn; [congruence|]. destruct (Hrest _ _ Hin Hsn) as [Hl Hf].
       split; [done|]. destruct Hf as (k & n & Hk & Hf). exists k, n. split; [by right|done]. }
  fold (owner sessions (key_connection key)) in Hs.
  destruct (owner sessions (key_connection key)) as [session|] eqn:Eo.
  2: { injection Hs as <- <-. split; [by apply scene_staged_refl|done]. }
  pose proof (stage_step reads_at s sessions key sn session p
    (λ src, Hty key sn src ltac:(by left) Esn) Esn Eo Hp) as Hstep.
  rewrite ST_bind_run in Hs. destruct (stage _ _ _ _ _ _ p) as [[[]|e] p1] eqn:Es;
    destruct Hstep as [Hstep Hone].
  2: { injection Hs as <- <-. split; [|done].
       eapply scene_staged_trans; [exact Hstep|apply scene_staged_refl, Hstep]. }
  apply IH in Hs as [Hst Hall]; [|intros; eapply Hty; [by right|done..]|apply Hstep].
  split; [by eapply scene_staged_trans|].
  intros live' Hr. destruct (Hall live' Hr) as [Hsub Hrest]. split; [set_solver|].
  intros key' sn' [->|Hin]%elem_of_cons Hsn.
  - rewrite Esn in Hsn. injection Hsn as <-. split; [apply Hsub; unfold shown_buffer; set_solver|].
    eapply staged_for_later; [exact Hst|]. exists key, sn. split_and!; [by left|done|done|by apply Hone].
  - destruct (Hrest _ _ Hin Hsn) as [Hl (k & n & Hk & Hf)]. split; [done|]. exists k, n. split; [by right|done].
Qed.

Lemma forget_ok live p : presenter_ok p → presenter_ok (forget_all_but live p).
Proof.
  intros [H1 H2 H3 H4 H5]. split; try done. cbn. intros key c [Hk _]%btree_retain_Some. by eapply H5.
Qed.

Lemma deliver_onward (session : Session T M) s : onward s (deliver (session, s)).2.2.
Proof.
  unfold deliver, flush. rewrite ST_bind_run.
  destruct (take_events_for (ss_connection session) s) as [events s1] eqn:Et.
  destruct (write_events events (zeroes MAX_MESSAGE_SIZE) 0 0 (session, s1)) as [r [session' s2]] eqn:Ew.
  apply write_events_others in Ew as (-> & _). cbn [snd]. change s1 with ((events, s1).2). rewrite <- Et.
  apply (onward_call (CallTakeEventsFor (ss_connection session))); [done|apply onward_refl].
Qed.

Lemma deliver_connection (session : Session T M) s :
  ss_connection (deliver (session, s)).2.1 = ss_connection session.
Proof.
  unfold deliver, flush. rewrite ST_bind_run.
  destruct (take_events_for (ss_connection session) s) as [events s1].
  destruct (write_events events (zeroes MAX_MESSAGE_SIZE) 0 0 (session, s1)) as [r [session' s2]] eqn:Ew.
  by apply write_events_others in Ew as (_ & Hc & _).
Qed.

Lemma deliver_all_onward (sessions : list (Session T M)) s :
  onward s (deliver_all sessions s).2 ∧
  ss_connection <$> (deliver_all sessions s).1 = ss_connection <$> sessions.
Proof.
  revert s. induction sessions as [|session sessions IH]; intros s; [by split; [apply onward_refl|]|].
  cbn [deliver_all]. pose proof (deliver_onward session s) as Hd.
  pose proof (deliver_connection session s) as Hc.
  destruct (deliver (session, s)) as [r [session' s1]]. cbn [fst snd] in Hd, Hc.
  destruct (IH s1) as [H1 H2]. destruct (deliver_all sessions s1) as [sessions' s2].
  cbn [fst snd] in *. split; [by eapply onward_trans|]. rewrite !fmap_cons. by rewrite Hc, H2.
Qed.

Lemma deliver_all_reachable (sessions : list (Session T M)) s :
  reachable s → reachable (deliver_all sessions s).2.
Proof. intros Hs. eapply onward_reachable, deliver_all_onward. exact Hs. Qed.

(** A desktop that may be presented. *)
Definition desktop_ok (d : Desktop (T := T) (M := M) (K := K)) : Prop :=
  presenter_ok (dt_presenter d) ∧ reachable (dt_state d) ∧ sources_typed (dt_state d) ∧
  scene_typed (dt_state d).

(** A composition through the presenter. *)
Lemma presenter_present_run t p s sink r p' s' sink' :
  presenter_ok p → reachable s → scene_typed s →
  presenter_present (KE := KE) holders t (p, s, sink) = (r, (p', s', sink')) →
  presenter_ok p' ∧ reachable s' ∧ ps_buffers p' = ps_buffers p ∧ ps_staged p' = ps_staged p ∧
  ∀ report, r = Ok report → ∃ images pass,
    composed holders (ps_buffers p) t (ps_output p) s report (ps_output p') s' images pass.
Proof.
  intros Hp Hs Hty Hrun. pose proof Hp as [H1 H2 H3 H4 H5].
  assert (world_ok (ps_buffers p) s) as Hw by done. pose proof (world_distinct _ _ Hw) as Hnd.
  destruct (drawing_inv _ H1) as [Hok _].
  pose proof (drawing_compose holders (ps_buffers p) t (ps_output p) s H1 Hw) as Hd'.
  pose proof (compose_reachable holders (ps_buffers p) t (ps_output p) s Hs) as Hs'.
  unfold presenter_present, ST_map_err, on_presenter_output, present_to in Hrun. cbn [fst] in Hrun.
  destruct (compose_run holders (ps_buffers p) t H4 (ps_output p) s Hok Hty Hnd)
    as [(e & self' & s1 & Hc & Hf & _)|(report & self' & s1 & images & pass & Hc & Hco)];
    rewrite Hc in Hrun, Hd', Hs'; cbn [fst snd] in Hd', Hs'.
  - injection Hrun as <- <- <- <-. destruct Hf as [(spare & ims & ->) _ _ _].
    split; [by split|]. split_and!; [done..|]. intros report [=].
  - destruct (co_same _ _ _ _ _ _ _ _ _ _ Hco) as (_ & Hl & _). cbn in Hl.
    destruct (sink_present _ sink) as [[u|e] sink1]; injection Hrun as <- <- <- <-.
    + split; [split; cbn; congruence || done|]. split_and!; [done..|].
      intros report' [= <-]. by exists images, pass.
    + split; [split; cbn; congruence || done|]. split_and!; [done..|]. intros report' [=].
Qed.

(** A buffer of the store that was there before, or is what its owner's memory answered for a surface
    among [keys] that shows it, at the moment that surface was read. *)
Definition held (reads_at : SurfaceKey → Moment) (s : CompositorState) (sessions : list (Session T M))
    (keys : list SurfaceKey) (p p' : Presenter) (buffer : BufferKey) : Prop :=
  ps_buffers p' !! buffer = ps_buffers p !! buffer ∨
  ∃ key sn session b, key ∈ keys ∧
    surface_snapshot (key_connection key) (key_object key) s = Some sn ∧ buffer = shown_buffer key sn ∧
    owner sessions (key_connection key) = Some session ∧
    read_from (reads_at key) s (ss_memory session) (key_connection key) (snap_buffer sn) b ∧
    ps_buffers p' !! buffer = Some b.

(** A buffer that is shown holds the commit of a surface that shows it: it has been read for that very
    commit already, or is read now. *)
Definition current (reads_at : SurfaceKey → Moment) (s : CompositorState)
    (sessions : list (Session T M)) (p p' : Presenter) (buffer : BufferKey) : Prop :=
  ∃ key sn, key ∈ scene_stack (cs_scene s) ∧
    surface_snapshot (key_connection key) (key_object key) s = Some sn ∧ buffer = shown_buffer key sn ∧
    ps_staged p' !! buffer = Some (snap_commit sn) ∧
    ((ps_staged p !! buffer = Some (snap_commit sn) ∧ ps_buffers p' !! buffer = ps_buffers p !! buffer) ∨
     ∃ session b, owner sessions (key_connection key) = Some session ∧
       read_from (reads_at key) s (ss_memory session) (key_connection key) (snap_buffer sn) b ∧
       ps_buffers p' !! buffer = Some b).

Lemma staged_held reads_at s sessions keys p p' p'' buffer :
  scene_staged reads_at s sessions keys p p' → ps_buffers p'' = ps_buffers p' →
  held reads_at s sessions keys p p'' buffer.
Proof.
  intros Hst Hb. unfold held. rewrite Hb.
  destruct (ss_provenance _ _ _ _ _ _ Hst buffer) as [[? _]|Hr]; [by left|right].
  destruct Hr as (key & sn & session & b & H1 & H2 & H3 & H4 & H5 & H6 & _).
  by exists key, sn, session, b.
Qed.

Lemma staged_current reads_at s sessions p p' p'' buffer :
  scene_staged reads_at s sessions (scene_stack (cs_scene s)) p p' →
  staged_for s (scene_stack (cs_scene s)) p' buffer → kept p' p'' buffer →
  current reads_at s sessions p p'' buffer.
Proof.
  intros Hst Hfor [Hb Hs]. unfold current. rewrite Hb, Hs.
  destruct (ss_provenance _ _ _ _ _ _ Hst buffer) as [[Hb1 Hs1]|Hr].
  - destruct Hfor as (key & sn & H1 & H2 & H3 & H4). exists key, sn. split_and!; try done. left.
    by rewrite <- Hs1.
  - destruct Hr as (key & sn & session & b & H1 & H2 & H3 & H4 & H5 & H6 & H7).
    exists key, sn. split_and!; try done. right. by exists session, b.
Qed.

Lemma forget_kept live p buffer : buffer ∈ live → kept p (forget_all_but live p) buffer.
Proof.
  intros Hl. split; [done|]. cbn. apply option_eq. intros c. rewrite btree_retain_Some.
  rewrite bool_decide_eq_true. naive_solver.
Qed.

Lemma present_all_run reads_at t d r d' :
  desktop_ok d → present_all (KE := KE) holders reads_at t d = (r, d') →
  presenter_ok (dt_presenter d') ∧ reachable (dt_state d') ∧
  let s := dt_state d in let p := dt_presenter d in let p' := dt_presenter d' in
  let stack := scene_stack (cs_scene s) in
  (∀ buffer, held reads_at s (dt_sessions d) stack p p' buffer) ∧
  ∀ report, r = Ok report →
    scene_faults s = Ok tt ∧
    (∀ key sn, key ∈ stack → surface_snapshot (key_connection key) (key_object key) s = Some sn →
      current reads_at s (dt_sessions d) p p' (shown_buffer key sn)) ∧
    ∃ s' images pass, composed holders (ps_buffers p') t (ps_output p) s report (ps_output p') s' images pass.
Proof.
  intros (Hp & Hs & Hsrc & Hty) Hrun. destruct d as [p s sessions sink]. cbn in *.
  unfold present_all in Hrun. rewrite ST_bind_run in Hrun. cbn [reads dt_state] in Hrun.
  assert (∀ buffer, held reads_at s sessions (scene_stack (cs_scene s)) p p buffer) as Hheld by (by left).
  destruct (scene_faults s) as [[]|fault] eqn:Ef; cbn [map_err] in Hrun;
    [|injection Hrun as <- <-; split_and!; done].
  rewrite !ST_gets_bind, ST_bind_run in Hrun. unfold on_presenter at 1 in Hrun. cbn in Hrun.
  destruct (stage_scene reads_at s sessions ∅ (scene_stack (cs_scene s)) p) as [rs p1] eqn:Est.
  apply stage_scene_run in Est as [Hst Hall]; [|by intros; eapply Hsrc|done].
  destruct rs as [live|e].
  2: { injection Hrun as <- <-. split_and!; try done; [apply Hst|].
       intros buffer. by eapply staged_held. }
  rewrite ST_bind_run in Hrun. unfold on_presenter in Hrun. cbn in Hrun.
  rewrite ST_bind_run in Hrun. unfold on_screen_part in Hrun. cbn in Hrun.
  pose proof (forget_ok live p1 (ss_ok _ _ _ _ _ _ Hst)) as Hp2.
  destruct (presenter_present holders t (forget_all_but live p1, s, sink)) as [r2 [[p3 s3] sink3]] eqn:Epp.
  apply presenter_present_run in Epp as (Hp3 & Hs3 & Hb3 & Hg3 & Hco); [|done..].
  destruct r2 as [report|e].
  2: { injection Hrun as <- <-. split_and!; try done. intros buffer. by eapply staged_held. }
  rewrite ST_bind_run in Hrun. cbn in Hrun. pose proof (deliver_all_reachable sessions s3 Hs3) as Hs4.
  destruct (deliver_all sessions s3) as [sessions4 s4]. injection Hrun as <- <-. cbn in *.
  split; [done|]. split; [done|]. split; [intros buffer; by eapply staged_held|]. intros report' [= <-].
  split; [done|]. split.
  - intros key sn Hin Hsn. destruct (Hall live eq_refl) as [_ Hl].
    destruct (Hl key sn Hin Hsn) as [Hlive Hfor]. eapply staged_current; [exact Hst|exact Hfor|].
    destruct (forget_kept live p1 _ Hlive) as [H1 H2]. split; [by rewrite Hb3, <- H1|by rewrite Hg3, <- H2].
  - destruct (Hco report eq_refl) as (images & pass & Hc). exists s3, images, pass.
    rewrite Hb3. cbn in Hc. by rewrite (ss_output _ _ _ _ _ _ Hst) in Hc.
Qed.


(** The pixels of a buffer are never let go: whatever is presented, and whatever comes of it, every
    buffer the presenter holds a copy of is still held afterwards, also when its client is gone. *)
Theorem staged_pixels_kept (reads_at : SurfaceKey → Moment) (t : Z) (d : Desktop (T := T) (M := M) (K := K))
    (r : result (PresentFailure KE) FrameReport) (d' : Desktop (T := T) (M := M) (K := K))
    (Hd : desktop_ok d) (Hp : present_all holders reads_at t d = (r, d')) (key : BufferKey) :
  is_Some (ps_buffers (dt_presenter d) !! key) → is_Some (ps_buffers (dt_presenter d') !! key).
Proof.
  apply present_all_run in Hp as (_ & _ & Hk & _); [|done].
  destruct (Hk key) as [->|(? & ? & ? & b & _ & _ & _ & _ & _ & ->)]; [done|by exists b].
Qed.
End Presenting.

(** ** The easel, its owner's memory, and a sink that counts *)

Definition easel_presenter : Presenter := MkPresenter nine RGBX ∅ ∅.
(** A file of two halves, which its client blackens after the first moment. *)
Definition painted_file : File :=
  [replicate 32 Corelib.Init.Byte.x01 ++ replicate 32 Corelib.Init.Byte.x02; zeroes 64].
(** Every surface read at the first moment. *)
Definition at_once : SurfaceKey → Moment := λ _, 0%nat.
Definition easel_session : Session Script (SharedMemoryStore File) :=
  MkSession (MkScript [] []) APP
    (MkSharedMemoryStore 1 {[ 0 := painted_file ]}) 1.
Definition easel_desktop : Desktop (T := Script) (M := SharedMemoryStore File) (K := HeadlessSink) :=
  MkDesktop easel_presenter easel [easel_session] HeadlessSink_new.
Abbreviation presented := (present_all (KE := IoError) alone at_once 1 easel_desktop).

Lemma easel_desktop_ok : desktop_ok easel_desktop.
Proof.
  split; [|split; [exact (proj1 easel_world)|split]].
  - split; [exact nine_drawing|reflexivity|by vm_compute|apply map_Forall_empty|].
    intros key c Hk. cbn in Hk. by rewrite lookup_empty in Hk.
  - apply sources_check_ok. vm_compute. reflexivity.
  - exact (proj2 (proj2 easel_world)).
Qed.

Lemma answered_one {A E S} (m : result E A * S) a : m.1 = Ok a → m = (Ok a, m.2).
Proof. destruct m as [r s]. cbn. by intros ->. Qed.


(** The client closes its window and leaves; what was copied of it stays. *)
Definition left_desktop : Desktop (T := Script) (M := SharedMemoryStore File) (K := HeadlessSink) :=
  MkDesktop (dt_presenter presented.2) (call (CallCloseConnection APP) (dt_state presented.2)) []
    (dt_sink presented.2).

Lemma presented_ok : presenter_ok (dt_presenter presented.2) ∧ reachable (dt_state presented.2).
Proof.
  destruct presented as [r d] eqn:E.
  apply present_all_run in E as (Hp & Hr & _); [done|exact easel_desktop_ok].
Qed.

Lemma empty_desktop_ok {T M K} p s (sink : K) :
  presenter_ok p → reachable s → scene_stack (cs_scene s) = [] →
  desktop_ok (MkDesktop (T := T) (M := M) p s [] sink).
Proof.
  intros Hp Hr Hs. split; [exact Hp|]. split; [exact Hr|]. split; cbn.
  - intros key sn src Hin. rewrite Hs in Hin. by apply not_elem_of_nil in Hin.
  - unfold scene_typed. rewrite Hs. constructor.
Qed.

Lemma left_desktop_ok : desktop_ok left_desktop.
Proof.
  apply empty_desktop_ok; [apply presented_ok|apply reachable_call, presented_ok|vm_compute; reflexivity].
Qed.

Lemma staged_pixels_kept_witness :
  dt_sessions left_desktop = [] ∧
  ∃ d', present_all (KE := IoError) alone at_once 2 left_desktop = (Ok (MkFrameReport 2 0 0 0 36), d') ∧
    is_Some (ps_buffers (dt_presenter d') !! MkBufferKey APP (MkObjectId 5)).
Proof.
  split; [reflexivity|].
  assert ((present_all (KE := IoError) alone at_once 2 left_desktop).1 = Ok (MkFrameReport 2 0 0 0 36)) as Hr
    by (vm_compute; reflexivity).
  exists (present_all (KE := IoError) alone at_once 2 left_desktop).2. split; [exact (answered_one _ _ Hr)|].
  apply (staged_pixels_kept alone at_once 2 left_desktop _ _ left_desktop_ok (answered_one _ _ Hr)).
  refine (bool_decide_eq_true_1 _ _). vm_compute. reflexivity.
Defined.

(** A stacked surface without a session stops every frame: once its client's session is gone and
    the surface is not, nothing is presented to anybody, and the failure names the scene. *)
Theorem gone_session_stops_all {H E T M : Type} `{!Transport H T, !SharedMemorySource H E M}
    {KE K : Type} `{!FrameSink KE K} (holders : Z → Z) (reads_at : SurfaceKey → Moment) (t : Z)
    (d : Desktop (T := T) (M := M) (K := K)) (key : SurfaceKey) (sn : SurfaceSnapshot)
    (rest : list SurfaceKey) (Hf : scene_faults (dt_state d) = Ok tt)
    (Hs : scene_stack (cs_scene (dt_state d)) = key :: rest)
    (Hsn : surface_snapshot (key_connection key) (key_object key) (dt_state d) = Some sn)
    (Hgone : owner (dt_sessions d) (key_connection key) = None) :
  present_all (KE := KE) holders reads_at t d = (Err (SceneFailed (ConnectionGone key)), d).
Proof.
  destruct d as [p s sessions sink]. cbn in *. unfold present_all.
  rewrite ST_bind_run. cbn [reads dt_state]. rewrite Hf. cbn [map_err].
  rewrite !ST_gets_bind, ST_bind_run. unfold on_presenter at 1. cbn [dt_state dt_sessions dt_presenter].
  rewrite Hs. cbn [stage_scene]. rewrite Hsn. unfold owner in Hgone. by rewrite Hgone.
Qed.

Lemma gone_session_stops_all_witness :
  (present_all (KE := IoError) (K := HeadlessSink) (T := Script) (M := SharedMemoryStore File) alone at_once 1
     (MkDesktop easel_presenter easel [] HeadlessSink_new)).1 =
    Err (SceneFailed (ConnectionGone APP_WINDOW)).
Proof.
  destruct (surface_snapshot APP (MkObjectId 3) easel) as [sn|] eqn:Esn;
    [|vm_compute in Esn; discriminate Esn].
  rewrite (gone_session_stops_all alone at_once 1 (MkDesktop easel_presenter easel [] HeadlessSink_new)
    APP_WINDOW sn []); [reflexivity|vm_compute; reflexivity|vm_compute; reflexivity|exact Esn|reflexivity].
Defined.
