(* ===== verification/Rfb.v ===== *)
(** The remote framebuffer protocol as [atria-vnc] speaks it ([protocol.rs]), and what a viewer did,
    queued for the compositor ([input.rs]): pixel formats, keysyms, the comparison of a frame with
    the one before it, the raw and the hextile encoding, and the input queue. *)
From S2P Require Import Prelude.
From S2P Require Import Vocabulary.

(** * Big-endian integers, and indexing a fixed array *)

Definition to_be_bytes (n : nat) (z : Z) : list byte := rev (le_split n z).
Definition from_be_bytes (bytes : list byte) : Z := le_combine (rev bytes).
Definition u8_of (bytes : list byte) (i : nat) : Z :=
  match bytes !! i with Some b => byte_val b | None => 0 end.
Definition u16_at (bytes : list byte) (i : nat) : Z := from_be_bytes (take 2 (drop i bytes)).
Definition u32_at (bytes : list byte) (i : nat) : Z := from_be_bytes (take 4 (drop i bytes)).
Definition u8_byte (z : Z) : byte := coqutil.Byte.byte.of_Z z.
(** [x as u8], [x as u16]. *)
Definition as_u8 (z : Z) : Z := z mod 256.
Definition as_u16 (z : Z) : Z := z mod 65536.
(** [u32 << u8]: the shift distance is taken modulo the width. *)
Definition shl_u32 (x s : Z) : Z := as_u32 (Z.shiftl x (s mod 32)).
(** [usize::div_ceil]. *)
Definition div_ceil (a b : Z) : Z := (a + b - 1) / b.
(** The values of [tile * side] for [tile] from 0 to [extent.div_ceil(side)], which are those of
    [y] in [while y < extent { ..; y += side }]. *)
Definition starts (side extent : Z) : list Z := (λ i, i * side) <$> seqZ 0 (div_ceil extent side).

(** * The handshake's constants *)

Definition VERSION : list byte :=
  String.list_byte_of_string "RFB 003.008" ++ [u8_byte 10].
Definition SECURITY_NONE : Z := 1.

Definition SET_PIXEL_FORMAT : Z := 0.
Definition SET_ENCODINGS : Z := 2.
Definition FRAMEBUFFER_UPDATE_REQUEST : Z := 3.
Definition KEY_EVENT : Z := 4.
Definition POINTER_EVENT : Z := 5.
Definition CLIENT_CUT_TEXT : Z := 6.

(** What the server declares its pixels to be: thirty-two bits, little-endian, red lowest. *)
Definition pixel_format : list byte :=
  u8_byte <$> [32; 24; 0; 1] ++ [0; 255] ++ [0; 255] ++ [0; 255] ++ [0; 8; 16] ++ [0; 0; 0].

(** * Pixel formats *)

Record PixelFormat := MkPixelFormat {
  fm_bits_per_pixel : Z;
  fm_big_endian : bool;
  fm_true_colour : bool;
  fm_red_max : Z;
  fm_green_max : Z;
  fm_blue_max : Z;
  fm_red_shift : Z;
  fm_green_shift : Z;
  fm_blue_shift : Z;
}.

#[global] Instance PixelFormat_eq_dec : EqDecision PixelFormat.
Proof. solve_decision. Defined.

Definition declared : PixelFormat := MkPixelFormat 32 false true 255 255 255 0 8 16.

Definition PixelFormat_decode (body : list byte) : result IoError PixelFormat :=
  let format := MkPixelFormat (u8_of body 0) (negb (u8_of body 2 =? 0)) (negb (u8_of body 3 =? 0))
    (u16_at body 4) (u16_at body 6) (u16_at body 8)
    (u8_of body 10) (u8_of body 11) (u8_of body 12) in
  if negb (fm_true_colour format) then Err IoInvalidData
  else if negb (bool_decide (fm_bits_per_pixel format ∈ [8; 16; 32])) then Err IoInvalidData
  else Ok format.

(** Bytes one pixel takes on the wire ([PixelFormat::stride]). *)
Definition fm_stride (self : PixelFormat) : Z := fm_bits_per_pixel self / 8.

Definition scale (value max : Z) : Z := Z.land (value * max / 255) max.

(** The 32-bit word the channels are packed into. *)
Definition packed (self : PixelFormat) (red green blue : Z) : Z :=
  Z.lor (Z.lor (shl_u32 (scale red (fm_red_max self)) (fm_red_shift self))
               (shl_u32 (scale green (fm_green_max self)) (fm_green_shift self)))
        (shl_u32 (scale blue (fm_blue_max self)) (fm_blue_shift self)).

Definition write_pixel (self : PixelFormat) (red green blue : Z) (out : list byte) : list byte :=
  let bytes := le_split 4 (packed self red green blue) in
  let width := Z.to_nat (fm_stride self) in
  (if fm_big_endian self then rev (take width bytes) else take width bytes) ++ drop width out.

Definition write_into (self : PixelFormat) (source out : list byte) : list byte :=
  write_pixel self (u8_of source 0) (u8_of source 1) (u8_of source 2) out.

(** [slice.chunks_exact(4)]. *)
Fixpoint chunks_exact_4 (l : list byte) : list (list byte) :=
  match l with
  | a :: b :: c :: d :: rest => [a; b; c; d] :: chunks_exact_4 rest
  | _ => []
  end.

(** One pixel on the wire, in a buffer of its own. *)
Definition encoded (self : PixelFormat) (source : list byte) : list byte :=
  write_into self source (replicate (Z.to_nat (fm_stride self)) (u8_byte 0)).

Definition convert (self : PixelFormat) (frame : list byte) : list byte :=
  if bool_decide (self = declared) then frame
  else flat_map (encoded self) (chunks_exact_4 frame).

(** * Keysyms *)

Definition usage_of_keysym (keysym : Z) : option Z :=
  if (0x41 <=? keysym) && (keysym <=? 0x5a) then Some (Usage.A + (keysym - 0x41))
  else if (0x61 <=? keysym) && (keysym <=? 0x7a) then Some (Usage.A + (keysym - 0x61))
  else if (0x31 <=? keysym) && (keysym <=? 0x39) then Some (Usage.ONE + (keysym - 0x31))
  else if (0xffbe <=? keysym) && (keysym <=? 0xffc5) then Some (Usage.F1 + (keysym - 0xffbe))
  else match keysym with
  | 0x30 => Some (Usage.ONE + 9)
  | 0xff0d => Some Usage.ENTER
  | 0xff1b => Some Usage.ESCAPE
  | 0xff08 => Some Usage.BACKSPACE
  | 0xff09 => Some Usage.TAB
  | 0x20 => Some Usage.SPACE
  | 0xff51 => Some Usage.LEFT
  | 0xff52 => Some Usage.UP
  | 0xff53 => Some Usage.RIGHT
  | 0xff54 => Some Usage.DOWN
  | 0xffe1 => Some Usage.LEFT_SHIFT
  | 0xffe2 => Some Usage.RIGHT_SHIFT
  | 0xffe3 => Some Usage.LEFT_CONTROL
  | 0xffe4 => Some Usage.RIGHT_CONTROL
  | 0xffe9 => Some Usage.LEFT_ALT
  | 0xffea => Some Usage.RIGHT_ALT
  | 0xffeb => Some Usage.LEFT_META
  | 0xffec => Some Usage.RIGHT_META
  | 0xffe7 => Some Usage.LEFT_META
  | 0xffe8 => Some Usage.RIGHT_META
  | 0xffed => Some Usage.LEFT_META
  | 0xffee => Some Usage.RIGHT_META
  | 0xfe03 => Some Usage.RIGHT_ALT
  | _ => None
  end.

(** * Regions, and what changed between two frames *)

Record Region := MkRegion { rg_x : Z; rg_y : Z; rg_width : Z; rg_height : Z }.

#[global] Instance Region_eq_dec : EqDecision Region.
Proof. solve_decision. Defined.

(** Whether a bound reaches into the square from [left], [top] to [right], [bottom]. *)
Definition reaches (left_ top right_ bottom : Z) (bound : Region) : bool :=
  (rg_x bound <? right_) && (rg_y bound <? bottom) &&
  (left_ <? rg_x bound + rg_width bound) && (top <? rg_y bound + rg_height bound).

Definition overlaps (bounds : list Region) (left_ top right_ bottom : Z) : bool :=
  existsb (reaches left_ top right_ bottom) bounds.

Definition TILE : Z := 64.
Definition WHOLESALE_TILES : Z := 2.

Definition region (left_ top right_ bottom : Z) : Region :=
  MkRegion (as_u16 left_) (as_u16 top) (as_u16 (right_ - left_)) (as_u16 (bottom - top)).

(** Whether one of the rows differs between [left] and [right]; [None] where the frame is shorter
    than its size says, which is an index out of range. *)
Fixpoint rows_differ (previous current : list byte) (pixels left_ right_ : Z) (rows : list Z)
    : option bool :=
  match rows with
  | [] => Some false
  | row :: rest =>
      let first := (row * pixels + left_) * 4 in
      let last := (row * pixels + right_) * 4 in
      was ← get_range previous first last;
      now ← get_range current first last;
      if bool_decide (was = now) then rows_differ previous current pixels left_ right_ rest
      else Some true
  end.

(** The regions found, and how many pixels they hold. *)
Definition Changes : Type := list Region * Z.

(** A run of changed tiles, from its left edge to its right, has ended. *)
Definition end_run (top bottom : Z) (run : option (Z * Z)) (found : Changes) : Changes :=
  match run with
  | Some (start, last) =>
      (found.1 ++ [region start top last bottom], found.2 + (last - start) * (bottom - top))
  | None => found
  end.

(** One row of tiles, from left to right. *)
Fixpoint scan_tiles (previous current : list byte) (pixels : Z) (bounds : list Region)
    (top bottom : Z) (lefts : list Z) (run : option (Z * Z)) (found : Changes) : option Changes :=
  match lefts with
  | [] => Some (end_run top bottom run found)
  | left_ :: rest =>
      let right_ := Z.min (left_ + TILE) pixels in
      differs ← (if overlaps bounds left_ top right_ bottom
                 then rows_differ previous current pixels left_ right_ (seqZ top (bottom - top))
                 else Some false);
      if (differs : bool)
      then scan_tiles previous current pixels bounds top bottom rest
             (Some (match run with Some (start, _) => start | None => left_ end, right_)) found
      else scan_tiles previous current pixels bounds top bottom rest None
             (end_run top bottom run found)
  end.

Fixpoint scan_rows (previous current : list byte) (pixels rows : Z) (bounds : list Region)
    (tops : list Z) (found : Changes) : option Changes :=
  match tops with
  | [] => Some found
  | top :: rest =>
      found ← scan_tiles previous current pixels bounds top (Z.min (top + TILE) rows)
                (starts TILE pixels) None found;
      scan_rows previous current pixels rows bounds rest found
  end.

Definition changed_regions (previous : option (list byte)) (current : list byte)
    (width height : Z) (bounds : list Region) : option (list Region) :=
  let whole := [MkRegion 0 0 width height] in
  match previous with
  | None => Some whole
  | Some previous =>
      if negb (len previous =? len current) then Some whole
      else if bool_decide (bounds = []) then Some []
      else
        found ← scan_rows previous current width height bounds (starts TILE height) ([], 0);
        Some (if width * height <=? found.2 * WHOLESALE_TILES then whole else found.1)
  end.

(** * Hextile *)

Definition RAW : Z := 0.
Definition HEXTILE : Z := 5.
Definition HEXTILE_SIDE : Z := 16.
Definition HEXTILE_RAW : Z := 1.
Definition HEXTILE_BACKGROUND : Z := 2.
Definition HEXTILE_FOREGROUND : Z := 4.
Definition HEXTILE_SUBRECTS : Z := 8.
Definition MAX_SUBRECTS : Z := 255.

(** The pixel of a square at a row and a column. *)
Definition At : Type := Z → Z → list byte.

(** The closure [at] of [write_hextile]. The range lies in the frame whenever the region does. *)
Definition square_at (frame : list byte) (stride : Z) (region : Region) (y x : Z) : At :=
  λ row column,
    let start := (rg_y region + y + row) * stride + (rg_x region + x + column) * 4 in
    slice frame start (start + 4).

(** Row by row, column by column. *)
Definition square_cells (tall wide : Z) : list (Z * Z) :=
  flat_map (λ row, (λ column, (row, column)) <$> seqZ 0 wide) (seqZ 0 tall).

(** The runs of one row, given where an open one started. *)
Fixpoint row_runs (row wide : Z) (is_background : Z → bool) (columns : list Z) (start : option Z)
    : list (Z * Z * Z) :=
  match columns with
  | [] => match start with Some from => [(row, from, wide - from)] | None => [] end
  | column :: rest =>
      match is_background column, start with
      | false, None => row_runs row wide is_background rest (Some column)
      | true, Some from => (row, from, column - from) :: row_runs row wide is_background rest None
      | _, _ => row_runs row wide is_background rest start
      end
  end.

Definition foreground_runs (at_ : At) (tall wide : Z) (background : list byte)
    : list (Z * Z * Z) :=
  flat_map (λ row, row_runs row wide (λ column, bool_decide (at_ row column = background))
                     (seqZ 0 wide) None) (seqZ 0 tall).

Definition write_raw_square (at_ : At) (tall wide : Z) (format : PixelFormat) : list byte :=
  u8_byte HEXTILE_RAW ::
  flat_map (λ cell, encoded format (at_ cell.1 cell.2)) (square_cells tall wide).

(** One run as a subrectangle: where it starts, and its width less one over a height of one. *)
Definition subrect (run : Z * Z * Z) : list byte :=
  let '(row, start, span) := run in
  [u8_byte (as_u8 (Z.lor (Z.shiftl start 4) row)); u8_byte (as_u8 (Z.shiftl (span - 1) 4))].

Definition write_two_colours (at_ : At) (tall wide : Z) (format : PixelFormat)
    (background foreground : list byte) : list byte :=
  let runs := foreground_runs at_ tall wide background in
  if MAX_SUBRECTS <? len runs then write_raw_square at_ tall wide format
  else u8_byte (Z.lor (Z.lor HEXTILE_BACKGROUND HEXTILE_FOREGROUND) HEXTILE_SUBRECTS) ::
       encoded format background ++ encoded format foreground ++
       u8_byte (as_u8 (len runs)) :: flat_map subrect runs.

Definition write_square (at_ : At) (tall wide : Z) (format : PixelFormat) : list byte :=
  let background := at_ 0 0 in
  let colours := (λ cell, at_ cell.1 cell.2) <$> square_cells tall wide in
  match list_find (λ colour, colour ≠ background) colours with
  | None => u8_byte HEXTILE_BACKGROUND :: encoded format background
  | Some (_, foreground) =>
      if forallb (λ colour, bool_decide (colour = background) || bool_decide (colour = foreground))
           colours
      then write_two_colours at_ tall wide format background foreground
      else write_raw_square at_ tall wide format
  end.

(** The squares of an area, as the two [while] loops visit them: where, and how large. *)
Definition squares (height width : Z) : list (Z * Z * Z * Z) :=
  flat_map (λ y, (λ x, (y, x, Z.min HEXTILE_SIDE (height - y), Z.min HEXTILE_SIDE (width - x))) <$>
                   starts HEXTILE_SIDE width) (starts HEXTILE_SIDE height).

Definition write_hextile (region : Region) (frame : list byte) (width : Z) (format : PixelFormat)
    : list byte :=
  flat_map (λ '(y, x, tall, wide), write_square (square_at frame (width * 4) region y x) tall wide format)
    (squares (rg_height region) (rg_width region)).

(** * Updates *)

(** A rectangle that does not reach past the frame. *)
Definition fits (stride rows : Z) (region : Region) : bool :=
  ((rg_x region + rg_width region) * 4 <=? stride) && (rg_y region + rg_height region <=? rows).

Definition write_raw (region : Region) (frame : list byte) (stride : Z) (format : PixelFormat)
    : list byte :=
  flat_map (λ row,
    let start := (rg_y region + row) * stride + rg_x region * 4 in
    convert format (slice frame start (start + rg_width region * 4))) (seqZ 0 (rg_height region)).

Definition write_region (frame : list byte) (width : Z) (format : PixelFormat) (hextile : bool)
    (region : Region) : list byte :=
  to_be_bytes 2 (rg_x region) ++ to_be_bytes 2 (rg_y region) ++
  to_be_bytes 2 (rg_width region) ++ to_be_bytes 2 (rg_height region) ++
  if hextile
  then to_be_bytes 4 HEXTILE ++ write_hextile region frame width format
  else to_be_bytes 4 RAW ++ write_raw region frame (width * 4) format.

Definition fitting (regions : list Region) (frame : list byte) (width : Z) : list Region :=
  let stride := width * 4 in
  let rows := if stride =? 0 then 0 else len frame / stride in
  filter (λ region, fits stride rows region = true) regions.

(** The message [write_update] writes. *)
Definition update_message (regions : list Region) (frame : list byte) (width : Z)
    (format : PixelFormat) (hextile : bool) : list byte :=
  let fitting := fitting regions frame width in
  u8_byte 0 :: u8_byte 0 :: to_be_bytes 2 (as_u16 (len fitting)) ++
  flat_map (write_region frame width format hextile) fitting.

(** How many bytes follow the number of a client message, where that does not depend on them. *)
Definition client_message_length (number : Z) : option Z :=
  if number =? SET_PIXEL_FORMAT then Some 19
  else if number =? FRAMEBUFFER_UPDATE_REQUEST then Some 9
  else if number =? KEY_EVENT then Some 7
  else if number =? POINTER_EVENT then Some 5
  else None.

(** * What a viewer did ([input.rs]) *)

Record PointerInput := MkPointerInput { pi_x : Z; pi_y : Z }.
Record ButtonInput := MkButtonInput { bi_button : Z; bi_pressed : bool }.
Record KeyInput := MkKeyInput { ki_usage : Z; ki_pressed : bool }.

Inductive Input :=
| Pointer (p : PointerInput)
| Button (b : ButtonInput)
| Key (k : KeyInput).

#[global] Instance PointerInput_eq_dec : EqDecision PointerInput.
Proof. solve_decision. Defined.
#[global] Instance ButtonInput_eq_dec : EqDecision ButtonInput.
Proof. solve_decision. Defined.
#[global] Instance KeyInput_eq_dec : EqDecision KeyInput.
Proof. solve_decision. Defined.
#[global] Instance Input_eq_dec : EqDecision Input.
Proof. solve_decision. Defined.

Definition MAX_PENDING : Z := 256.

Record InputQueue := MkInputQueue {
  iq_events : list Input;
  iq_buttons : Z;
  iq_overflowed : bool;
  iq_stale : bool;
}.

Definition InputQueue_new : InputQueue := MkInputQueue [] 0 false false.

Definition is_pointer (input : Input) : bool := match input with Pointer _ => true | _ => false end.

(** Replaces a position by a newer one, or keeps the event if there is room. *)
Definition push (input : Input) (q : InputQueue) : InputQueue :=
  let set events := MkInputQueue events (iq_buttons q) (iq_overflowed q) (iq_stale q) in
  if is_pointer input && default false (is_pointer <$> last (iq_events q))
  then set (take (length (iq_events q) - 1) (iq_events q) ++ [input])
  else if MAX_PENDING <=? len (iq_events q)
  then MkInputQueue (iq_events q) (iq_buttons q) true (iq_stale q)
  else set (iq_events q ++ [input]).

(** The transition of one bit of the button mask, if it changed. *)
Definition push_button (changed mask : Z) (q : InputQueue) (bit : Z) : InputQueue :=
  if Z.land changed (Z.shiftl 1 bit) =? 0 then q
  else push (Button (MkButtonInput (bit + 1) (negb (Z.land mask (Z.shiftl 1 bit) =? 0)))) q.

(** A [PointerEvent] body: a button mask, then x and y. *)
Definition pointer (body : list byte) (q : InputQueue) : InputQueue :=
  if len body <? 5 then q
  else
    let mask := u8_of body 0 in
    let q := push (Pointer (MkPointerInput (u16_at body 1) (u16_at body 3))) q in
    let changed := Z.lxor (iq_buttons q) mask in
    let q := MkInputQueue (iq_events q) mask (iq_overflowed q) (iq_stale q) in
    foldl (push_button changed mask) q (seqZ 0 8).

Definition key (usage : Z) (pressed : bool) (q : InputQueue) : InputQueue :=
  push (Key (MkKeyInput usage pressed)) q.

(** Take everything waiting, in order. *)
Definition take_queue (q : InputQueue) : list Input * InputQueue :=
  (iq_events q, MkInputQueue [] (iq_buttons q) (iq_overflowed q) (iq_stale q)).

Definition forget_held (q : InputQueue) : InputQueue :=
  MkInputQueue (iq_events q) 0 (iq_overflowed q) true.

Definition is_stale (q : InputQueue) : bool * InputQueue :=
  (iq_stale q, MkInputQueue (iq_events q) (iq_buttons q) (iq_overflowed q) false).

Definition overflowed (q : InputQueue) : bool * InputQueue :=
  (iq_overflowed q, MkInputQueue (iq_events q) (iq_buttons q) false (iq_stale q)).
