(* ===== verification/Picture.v ===== *)
(** What a viewer makes of the updates it is sent: a viewer as RFC 6143 describes one, which reads
    raw and hextile rectangles into a picture, and the proof that it reads what [write_update]
    ([atria-vnc/src/protocol.rs]) writes back as the pixels of the frame. *)
From S2P Require Import Prelude.
From S2P Require Import Vocabulary.
From S2P Require Import Rfb.

(** * The viewer *)

Definition Colour : Type := Z * Z * Z.
(** The colour of a column and a row. *)
Definition Picture : Type := Z → Z → Colour.
Abbreviation Viewer := (ST (list byte) unit).

(** A pixel on the wire, as the number its bytes spell, and its channels. *)
Definition word_of (format : PixelFormat) (bytes : list byte) : Z :=
  if fm_big_endian format then from_be_bytes bytes else le_combine bytes.
Definition channel (word max shift : Z) : Z := Z.land (Z.shiftr word shift) max.
Definition colour (format : PixelFormat) (bytes : list byte) : Colour :=
  let word := word_of format bytes in
  (channel word (fm_red_max format) (fm_red_shift format),
   channel word (fm_green_max format) (fm_green_shift format),
   channel word (fm_blue_max format) (fm_blue_shift format)).

Definition read_bytes (n : Z) : Viewer (list byte) := λ l,
  if n <=? len l then (Ok (take (Z.to_nat n) l), drop (Z.to_nat n) l) else (Err tt, l).
Definition read_be (n : Z) : Viewer Z := bytes ← read_bytes n; mret (from_be_bytes bytes).
Definition read_colour (format : PixelFormat) : Viewer Colour :=
  bytes ← read_bytes (fm_stride format); mret (colour format bytes).

(** A picture laid over another. *)
Definition painted_over (x y w h : Z) (inside outside : Picture) : Picture := λ px py,
  if (x <=? px) && (px <? x + w) && (y <=? py) && (py <? y + h) then inside (px - x) (py - y)
  else outside px py.

(** Every pixel, row by row. *)
Definition read_pixels (format : PixelFormat) (tall wide : Z) : Viewer Picture :=
  data ← read_bytes (tall * wide * fm_stride format);
  mret (λ x y,
    let first := (y * wide + x) * fm_stride format in
    colour format (slice data first (first + fm_stride format))).

(** So many subrectangles of a square, each with a colour of its own or all with one. *)
Fixpoint read_subrects (format : PixelFormat) (coloured : bool) (foreground : Colour) (n : nat)
    (picture : Picture) : Viewer Picture :=
  match n with
  | O => mret picture
  | S n =>
      c ← (if coloured then read_colour format else mret foreground);
      place ← read_be 1;
      extent ← read_be 1;
      read_subrects format coloured foreground n
        (painted_over (place / 16) (place mod 16) (extent / 16 + 1) (extent mod 16 + 1)
           (λ _ _, c) picture)
  end.

(** A square, given the background and the foreground that the squares before it left. *)
Definition read_square (format : PixelFormat) (tall wide : Z) (palette : Colour * Colour)
    : Viewer (Picture * (Colour * Colour)) :=
  kind ← read_be 1;
  if Z.testbit kind 0
  then picture ← read_pixels format tall wide; mret (picture, palette)
  else
    background ← (if Z.testbit kind 1 then read_colour format else mret palette.1);
    foreground ← (if Z.testbit kind 2 then read_colour format else mret palette.2);
    count ← (if Z.testbit kind 3 then read_be 1 else mret 0);
    picture ← read_subrects format (Z.testbit kind 4) foreground (Z.to_nat count)
                (λ _ _, background);
    mret (picture, (background, foreground)).

(** The squares of sixteen a rectangle is divided into, each a row, a column and its extent: from
    left to right, from top to bottom, those at the right and the bottom cut short. *)
Definition tiles (height width : Z) : list (Z * Z * Z * Z) :=
  r ← seqZ 0 ((height + 15) / 16);
  c ← seqZ 0 ((width + 15) / 16);
  [(16 * r, 16 * c, Z.min 16 (height - 16 * r), Z.min 16 (width - 16 * c))].

Fixpoint read_squares (format : PixelFormat) (squares : list (Z * Z * Z * Z))
    (palette : Colour * Colour) (picture : Picture) : Viewer Picture :=
  match squares with
  | [] => mret picture
  | (y, x, tall, wide) :: rest =>
      read ← read_square format tall wide palette;
      read_squares format rest read.2 (painted_over x y wide tall read.1 picture)
  end.

Definition black : Colour := (0, 0, 0).

Definition read_region (format : PixelFormat) (screen : Picture) : Viewer Picture :=
  x ← read_be 2;
  y ← read_be 2;
  width ← read_be 2;
  height ← read_be 2;
  encoding ← read_be 4;
  inside ← (if encoding =? 0 then read_pixels format height width
            else if encoding =? 5
            then read_squares format (tiles height width) (black, black) (λ _ _, black)
            else throw tt);
  mret (painted_over x y width height inside screen).

Fixpoint read_regions (format : PixelFormat) (n : nat) (screen : Picture) : Viewer Picture :=
  match n with
  | O => mret screen
  | S n => screen ← read_region format screen; read_regions format n screen
  end.

(** A whole [FramebufferUpdate]: its number, a byte of padding, a count, the rectangles. *)
Definition read_update (format : PixelFormat) (screen : Picture) : Viewer Picture :=
  number ← read_be 1;
  if negb (number =? 0) then throw tt
  else
    _ ← read_be 1;
    count ← read_be 2;
    read_regions format (Z.to_nat count) screen.

(** The colour a viewer shows for a pixel of the frame that was laid out in its format. *)
Definition shown (format : PixelFormat) (source : list byte) : Colour :=
  colour format (encoded format source).

(** A format whose pixels are one, two or four bytes. *)
Definition produced (format : PixelFormat) : Prop := fm_bits_per_pixel format ∈ [8; 16; 32].

(** The pixel of a frame at a column and a row. *)
Definition frame_at (frame : list byte) (width x y : Z) : list byte :=
  slice frame ((y * width + x) * 4) ((y * width + x) * 4 + 4).

Definition in_region (x y : Z) (r : Region) : bool :=
  (rg_x r <=? x) && (x <? rg_x r + rg_width r) && (rg_y r <=? y) && (y <? rg_y r + rg_height r).

(** * Reading what was written *)

(** [reads m bytes a]: the viewer takes exactly these bytes and makes [a] of them. *)
Definition reads_as {A} (m : Viewer A) (bytes : list byte) (a : A) : Prop :=
  ∀ rest, m (bytes ++ rest) = (Ok a, rest).

Lemma reads_as_ret {A} (a : A) : reads_as (mret a) [] a.
Proof. intros rest. reflexivity. Qed.

Lemma reads_as_bind {A B} (m : Viewer A) (k : A → Viewer B) bytes bytes' a b :
  reads_as m bytes a → reads_as (k a) bytes' b → reads_as (m ≫= k) (bytes ++ bytes') b.
Proof. intros Hm Hk rest. rewrite ST_bind_run, <- app_assoc, Hm. apply Hk. Qed.

Lemma reads_as_map {A B} (m : Viewer A) (f : A → B) bytes a :
  reads_as m bytes a → reads_as (m ≫= λ a, mret (f a)) bytes (f a).
Proof. intros Hm rest. rewrite ST_bind_run, Hm. reflexivity. Qed.

Lemma reads_as_bytes bytes : reads_as (read_bytes (len bytes)) bytes bytes.
Proof.
  intros rest. unfold read_bytes. rewrite len_app, (proj2 (Z.leb_le _ _)), to_nat_len.
  - by rewrite take_app_length, drop_app_length.
  - pose proof (len_nonneg rest). lia.
Qed.

Lemma from_to_be_bytes n z : from_be_bytes (to_be_bytes n z) = z mod 2 ^ (Z.of_nat n * 8).
Proof. unfold from_be_bytes, to_be_bytes. by rewrite rev_involutive, le_combine_split. Qed.

Lemma reads_as_be (n : nat) z :
  0 ≤ z < 2 ^ (Z.of_nat n * 8) → reads_as (read_be (Z.of_nat n)) (to_be_bytes n z) z.
Proof.
  intros Hz. replace z with (from_be_bytes (to_be_bytes n z)) at 2
    by (rewrite from_to_be_bytes; by apply Z.mod_small).
  replace (Z.of_nat n) with (len (to_be_bytes n z))
    by (unfold len, to_be_bytes; by rewrite length_rev, length_le_split).
  apply reads_as_map, reads_as_bytes.
Qed.

Lemma reads_as_u8 z : is_u8 z → reads_as (read_be 1) [u8_byte z] z.
Proof. intros Hz. apply (reads_as_be 1). width_lia. Qed.

Lemma reads_as_u16 z : is_u16 z → reads_as (read_be 2) (to_be_bytes 2 z) z.
Proof. intros Hz. apply (reads_as_be 2). width_lia. Qed.

Lemma stride_pos format : produced format → 1 ≤ fm_stride format ≤ 4.
Proof. intros H. unfold produced in H. unfold fm_stride. set_unfold in H. destruct_or?; subst;
  match goal with H : fm_bits_per_pixel format = _ |- _ => rewrite H end; split; by vm_compute. Qed.

Lemma length_encoded format source :
  produced format → length (encoded format source) = Z.to_nat (fm_stride format).
Proof.
  intros Hf%stride_pos. unfold encoded, write_into, write_pixel.
  rewrite drop_replicate_all, app_nil_r.
  destruct (fm_big_endian format); rewrite ?length_rev, length_take, length_le_split; lia.
Qed.

Lemma len_encoded format source : produced format → len (encoded format source) = fm_stride format.
Proof. intros Hf. unfold len. rewrite (length_encoded _ _ Hf). apply stride_pos in Hf. lia. Qed.

Lemma reads_as_colour format source :
  produced format → reads_as (read_colour format) (encoded format source) (shown format source).
Proof.
  intros Hf. unfold read_colour, shown. rewrite <- (len_encoded _ source Hf).
  apply (reads_as_map _ (colour format)), reads_as_bytes.
Qed.

Lemma square_cells_at tall wide row column :
  0 ≤ row < tall → 0 ≤ column < wide →
  square_cells tall wide !! Z.to_nat (row * wide + column) = Some (row, column).
Proof.
  intros Hr Hc. unfold square_cells. set (f := λ row, (λ column, (row, column)) <$> seqZ 0 wide).
  assert (∀ r, r ∈ seqZ 0 tall → length (f r) = Z.to_nat wide) as Hlen.
  { intros r _. unfold f. by rewrite length_fmap, length_seqZ. }
  pose proof (flat_map_chunk f _ _ _ row Hlen (lookup_seqZ_at 0 tall row Hr)) as Hf.
  replace (Z.to_nat (row * wide + column)) with (Z.to_nat row * Z.to_nat wide + Z.to_nat column)%nat
    by nia.
  rewrite <- lookup_drop, <- (lookup_take_lt _ (Z.to_nat wide)) by lia. rewrite Hf. unfold f.
  by rewrite list_lookup_fmap, lookup_seqZ_at.
Qed.

Lemma length_square_cells tall wide :
  length (square_cells tall wide) = (Z.to_nat tall * Z.to_nat wide)%nat.
Proof.
  unfold square_cells. rewrite (length_flat_map _ (Z.to_nat wide)).
  - by rewrite length_seqZ.
  - intros r _. by rewrite length_fmap, length_seqZ.
Qed.

Lemma elem_of_square_cells tall wide cell :
  cell ∈ square_cells tall wide ↔ 0 ≤ cell.1 < tall ∧ 0 ≤ cell.2 < wide.
Proof.
  destruct cell as [row column]. unfold square_cells. rewrite list_elem_of_In, in_flat_map. cbn. split.
  - intros (r & Hr & Hc). apply list_elem_of_In, elem_of_seqZ in Hr.
    apply list_elem_of_In, list_elem_of_fmap in Hc as (c & [= -> ->] & Hc%elem_of_seqZ). lia.
  - intros [Hr Hc]. exists row. rewrite <- !list_elem_of_In. split; [apply elem_of_seqZ; lia|].
    apply list_elem_of_fmap. exists column. split; [done|]. apply elem_of_seqZ. lia.
Qed.

(** ** Pixels one by one *)

(** [draws format tall wide at_ picture]: what a picture shows of a square is what the pixels given
    for it look like. *)
Definition draws (format : PixelFormat) (tall wide : Z) (at_ : At) (picture : Picture) : Prop :=
  ∀ row column, 0 ≤ row < tall → 0 ≤ column < wide →
    picture column row = shown format (at_ row column).

Lemma reads_as_pixels format tall wide at_ :
  produced format → 0 ≤ tall → 0 ≤ wide →
  ∃ picture,
    reads_as (read_pixels format tall wide)
      (flat_map (λ cell, encoded format (at_ cell.1 cell.2)) (square_cells tall wide)) picture ∧
    draws format tall wide at_ picture.
Proof.
  intros Hf Ht Hw. set (f := λ cell : Z * Z, encoded format (at_ cell.1 cell.2)).
  pose proof (stride_pos _ Hf) as Hs.
  assert (∀ cell, len (f cell) = fm_stride format) as Hlen by (intros; by apply len_encoded).
  eexists. split.
  - unfold read_pixels.
    replace (tall * wide * fm_stride format) with (len (flat_map f (square_cells tall wide))).
    + apply (reads_as_map _ _ _ _ (reads_as_bytes _)).
    + unfold len. rewrite (length_flat_map _ (Z.to_nat (fm_stride format))), length_square_cells; [nia|].
      intros cell _. specialize (Hlen cell). unfold len in Hlen. lia.
  - intros row column Hr Hc. cbv beta. unfold shown. f_equal.
    rewrite (flat_map_slice f (fm_stride format) _ _ (row, column)); [done|lia|nia|auto|].
    by apply square_cells_at.
Qed.

Lemma reads_as_raw_square format tall wide palette at_ :
  produced format → 0 ≤ tall → 0 ≤ wide →
  ∃ picture,
    reads_as (read_square format tall wide palette) (write_raw_square at_ tall wide format)
      (picture, palette) ∧ draws format tall wide at_ picture.
Proof.
  intros Hf Ht Hw. destruct (reads_as_pixels format tall wide at_ Hf Ht Hw) as (p & Hp & Hd).
  exists p. split; [|done]. unfold read_square, write_raw_square.
  apply (reads_as_bind _ _ [u8_byte HEXTILE_RAW] _ HEXTILE_RAW);
    [by apply (reads_as_u8 HEXTILE_RAW)|].
  cbn [Z.testbit HEXTILE_RAW]. apply (reads_as_map _ (λ p, (p, palette)) _ _ Hp).
Qed.

(** ** Squares of two colours *)

Definition in_run (row column : Z) (run : Z * Z * Z) : bool :=
  let '(r, from, span) := run in (row =? r) && (from <=? column) && (column <? from + span).

(** A run that a subrectangle of a square can spell. *)
Definition run_ok (run : Z * Z * Z) : Prop :=
  let '(r, from, span) := run in 0 ≤ r < 16 ∧ 0 ≤ from ∧ 1 ≤ span ∧ from + span ≤ 16.

Lemma row_runs_ok row wide is_background n c start :
  0 ≤ row < 16 → wide ≤ 16 → 0 ≤ c → 0 ≤ n → c + n = wide →
  match start with Some from => 0 ≤ from < c | None => True end →
  Forall run_ok (row_runs row wide is_background (seqZ c n) start).
Proof.
  intros Hrow Hwide. remember (Z.to_nat n) as k eqn:Hk. revert n c start Hk.
  induction k as [|k IH]; intros n c start Hk Hc Hn0 Hn Hs.
  - rewrite seqZ_nil by lia. cbn [row_runs].
    destruct start as [from|]; [|constructor]. constructor; [cbn; lia|constructor].
  - rewrite seqZ_cons by lia. cbn [row_runs].
    destruct (is_background c), start as [from|].
    + constructor; [cbn; lia|]. apply IH; lia.
    + apply IH; lia.
    + apply IH; lia.
    + apply IH; lia.
Qed.

Lemma row_runs_in row wide is_background n c start column :
  0 ≤ c → 0 ≤ n → c + n = wide → match start with Some from => 0 ≤ from < c | None => True end →
  existsb (in_run row column) (row_runs row wide is_background (seqZ c n) start) =
    ((c <=? column) && (column <? wide) && negb (is_background column)) ||
    match start with Some from => (from <=? column) && (column <? c) | None => false end.
Proof.
  remember (Z.to_nat n) as k eqn:Hk. revert n c start Hk.
  induction k as [|k IH]; intros n c start Hk Hc Hn0 Hn Hs.
  - rewrite seqZ_nil by lia. cbn [row_runs].
    destruct start as [from|]; cbn [existsb in_run]; rewrite ?Z.eqb_refl;
      replace ((c <=? column) && (column <? wide)) with false by lia; [|done].
    replace (from + (wide - from)) with c by lia. by rewrite orb_false_r.
  - rewrite seqZ_cons by lia. cbn [row_runs].
    destruct (decide (column = c)) as [->|Hne].
    + destruct (is_background c) eqn:E, start as [from|]; cbn [existsb in_run];
        rewrite IH, ?E by lia; z_cases.
    + destruct (is_background c) eqn:E, start as [from|]; cbn [existsb in_run];
        rewrite IH by lia; destruct (is_background column); z_cases.
Qed.

Lemma foreground_runs_ok at_ tall wide background :
  tall ≤ 16 → 0 ≤ wide ≤ 16 → Forall run_ok (foreground_runs at_ tall wide background).
Proof.
  intros Ht Hw. unfold foreground_runs. apply Forall_forall. intros run Hrun.
  apply list_elem_of_In, in_flat_map in Hrun as (row & Hrow & Hrun).
  apply list_elem_of_In, elem_of_seqZ in Hrow. apply list_elem_of_In in Hrun.
  eapply Forall_forall in Hrun; [exact Hrun|]. apply row_runs_ok; lia || done.
Qed.

Lemma foreground_runs_in at_ tall wide background row column :
  0 ≤ row < tall → 0 ≤ column < wide →
  existsb (in_run row column) (foreground_runs at_ tall wide background) =
    negb (bool_decide (at_ row column = background)).
Proof.
  intros Hr Hc. unfold foreground_runs. rewrite existsb_flat_map.
  rewrite (existsb_seqZ_one _ _ _ row); [|intros j Hj|lia].
  - rewrite row_runs_in by lia. rewrite orb_false_r.
    by replace ((0 <=? column) && (column <? wide)) with true by lia.
  - assert (∀ columns start, existsb (in_run row column)
      (row_runs j wide (λ column, bool_decide (at_ j column = background)) columns start) = false)
      as H; [|by apply H].
    intros columns. induction columns as [|c columns IH]; intros start; cbn [row_runs].
    + destruct start; cbn [existsb in_run]; [|done]. lia.
    + destruct (bool_decide _), start; cbn [existsb in_run]; rewrite IH; lia.
Qed.

(** The bytes of a subrectangle give back where its run starts and how long it is. *)
Lemma subrect_bytes row from span :
  run_ok (row, from, span) →
  let place := as_u8 (Z.lor (Z.shiftl from 4) row) in
  let extent := as_u8 (Z.shiftl (span - 1) 4) in
  (is_u8 place ∧ place / 16 = from ∧ place mod 16 = row) ∧
  (is_u8 extent ∧ extent / 16 + 1 = span ∧ extent mod 16 + 1 = 1).
Proof.
  intros (Hr & Hf & Hs & Hfs). cbv zeta.
  assert (forallb (λ f, forallb (λ r,
    let place := as_u8 (Z.lor (Z.shiftl f 4) r) in
    (0 <=? place) && (place <=? 255) && (place / 16 =? f) && (place mod 16 =? r))
      (seqZ 0 16)) (seqZ 0 16) = true) as H1 by (vm_compute; reflexivity).
  assert (forallb (λ s,
    let extent := as_u8 (Z.shiftl (s - 1) 4) in
    (0 <=? extent) && (extent <=? 255) && (extent / 16 + 1 =? s) && (extent mod 16 =? 0))
      (seqZ 1 16) = true) as H2 by (vm_compute; reflexivity).
  rewrite forallb_forall in H1. specialize (H1 from ltac:(apply list_elem_of_In, elem_of_seqZ; lia)).
  cbv beta in H1. rewrite forallb_forall in H1.
  specialize (H1 row ltac:(apply list_elem_of_In, elem_of_seqZ; lia)).
  rewrite forallb_forall in H2. specialize (H2 span ltac:(apply list_elem_of_In, elem_of_seqZ; lia)).
  cbv zeta in H1, H2. unfold is_u8, u8_max. lia.
Qed.

Lemma reads_as_subrects format foreground runs : Forall run_ok runs → ∀ picture,
  ∃ picture',
    reads_as (read_subrects format false foreground (length runs) picture)
      (flat_map subrect runs) picture' ∧
    ∀ row column, picture' column row =
      if existsb (in_run row column) runs then foreground else picture column row.
Proof.
  induction 1 as [|[[r from] span] runs Hrun Hruns IH]; intros picture.
  - exists picture. split; [apply reads_as_ret|done].
  - destruct (subrect_bytes _ _ _ Hrun) as [(Hp & Hp1 & Hp2) (He & He1 & He2)].
    cbn [length read_subrects flat_map].
    destruct (IH (painted_over from r span 1 (λ _ _, foreground) picture)) as (p & Hread & Hpic).
    exists p. split.
    + eapply (reads_as_bind (mret _) _ []); [apply reads_as_ret|].
      cbn [subrect app].
      eapply (reads_as_bind _ _ [_] (_ :: _)); [by apply reads_as_u8|].
      eapply (reads_as_bind _ _ [_]); [by apply reads_as_u8|]. by rewrite Hp1, Hp2, He1, He2.
    + intros row column. rewrite Hpic. cbn [existsb in_run]. unfold painted_over.
      destruct (existsb _ runs); [by rewrite orb_true_r|]. rewrite orb_false_r.
      replace ((from <=? column) && (column <? from + span) && (r <=? row) && (row <? r + 1))
        with ((row =? r) && (from <=? column) && (column <? from + span)) by lia. done.
Qed.

Lemma elem_of_colours (at_ : At) tall wide row column :
  0 ≤ row < tall → 0 ≤ column < wide →
  at_ row column ∈ ((λ cell, at_ cell.1 cell.2) <$> square_cells tall wide).
Proof.
  intros Hr Hc. apply list_elem_of_fmap. exists (row, column). split; [done|].
  by apply elem_of_square_cells.
Qed.

(** A square of one colour: its background and nothing over it. *)
Lemma reads_as_flat format tall wide palette at_ :
  produced format → 
  Forall (λ colour, ¬ colour ≠ at_ 0 0) ((λ cell, at_ cell.1 cell.2) <$> square_cells tall wide) →
  ∃ picture palette',
    reads_as (read_square format tall wide palette)
      (u8_byte HEXTILE_BACKGROUND :: encoded format (at_ 0 0)) (picture, palette') ∧
    draws format tall wide at_ picture.
Proof.
  intros Hf Hflat. exists (λ _ _, shown format (at_ 0 0)), (shown format (at_ 0 0), palette.2). split.
  - unfold read_square.
    eapply (reads_as_bind _ _ [_] (encoded _ _)); [by apply (reads_as_u8 HEXTILE_BACKGROUND)|].
    cbn [Z.testbit HEXTILE_BACKGROUND Pos.testbit]. rewrite <- (app_nil_r (encoded _ _)).
    eapply reads_as_bind; [by apply reads_as_colour|].
    eapply (reads_as_bind _ _ [] []); [apply reads_as_ret|].
    eapply (reads_as_bind _ _ [] []); [apply reads_as_ret|].
    eapply (reads_as_bind _ _ [] []); apply reads_as_ret.
  - intros row column Hr Hc. rewrite Forall_forall in Hflat.
    specialize (Hflat _ (elem_of_colours at_ _ _ _ _ Hr Hc)).
    by destruct (decide (at_ row column = at_ 0 0)) as [->|].
Qed.

(** A square of two colours: its background, and the runs of the other over it. *)
Lemma reads_as_two_colours format tall wide palette at_ background foreground :
  produced format → 0 ≤ tall ≤ 16 → 0 ≤ wide ≤ 16 →
  (∀ row column, 0 ≤ row < tall → 0 ≤ column < wide →
    at_ row column = background ∨ at_ row column = foreground) →
  ∃ picture palette',
    reads_as (read_square format tall wide palette)
      (write_two_colours at_ tall wide format background foreground) (picture, palette') ∧
    draws format tall wide at_ picture.
Proof.
  intros Hf Ht Hw Htwo. unfold write_two_colours.
  destruct (MAX_SUBRECTS <? len (foreground_runs at_ tall wide background)) eqn:Hmax.
  { destruct (reads_as_raw_square format tall wide palette at_ Hf) as (p & Hp); [lia..|].
    by exists p, palette. }
  apply Z.ltb_ge in Hmax. unfold MAX_SUBRECTS in Hmax.
  set (runs := foreground_runs at_ tall wide background) in *.
  destruct (reads_as_subrects format (shown format foreground) runs) with
    (picture := λ _ _ : Z, shown format background) as (p & Hp & Hpic).
  { apply foreground_runs_ok; lia. }
  exists p, (shown format background, shown format foreground). split.
  - unfold read_square.
    eapply (reads_as_bind _ _ [_] (_ ++ _ ++ _ :: _)); [by apply (reads_as_u8 14)|].
    cbn [Z.testbit Pos.testbit].
    eapply reads_as_bind; [by apply reads_as_colour|].
    eapply reads_as_bind; [by apply reads_as_colour|].
    assert (as_u8 (len runs) = len runs) as ->.
    { unfold as_u8. apply Z.mod_small. pose proof (len_nonneg runs). lia. }
    eapply (reads_as_bind _ _ [_] (flat_map _ _)).
    { apply reads_as_u8. pose proof (len_nonneg runs). width_lia. }
    rewrite <- (app_nil_r (flat_map _ _)). rewrite to_nat_len.
    eapply reads_as_bind; [exact Hp|apply reads_as_ret].
  - intros row column Hr Hc. rewrite Hpic. unfold runs.
    rewrite foreground_runs_in by done.
    case_bool_decide as Hb; cbn [negb]; [by rewrite Hb|].
    by destruct (Htwo row column Hr Hc) as [| ->].
Qed.

Lemma reads_as_square format tall wide palette at_ :
  produced format → 0 ≤ tall ≤ 16 → 0 ≤ wide ≤ 16 →
  ∃ picture palette',
    reads_as (read_square format tall wide palette) (write_square at_ tall wide format)
      (picture, palette') ∧ draws format tall wide at_ picture.
Proof.
  intros Hf Ht Hw. unfold write_square.
  destruct (list_find _ _) as [[i foreground]|] eqn:Hfind.
  - destruct (forallb _ _) eqn:Htwo.
    + apply reads_as_two_colours; [done..|]. intros row column Hr Hc.
      rewrite forallb_forall in Htwo.
      specialize (Htwo _ (proj1 (list_elem_of_In _ _) (elem_of_colours at_ _ _ _ _ Hr Hc))).
      apply orb_true_iff in Htwo as [H%bool_decide_eq_true|H%bool_decide_eq_true]; auto.
    + destruct (reads_as_raw_square format tall wide palette at_ Hf) as (p & Hp); [lia..|].
      by exists p, palette.
  - apply list_find_None in Hfind. by apply reads_as_flat.
Qed.

(** ** Rectangles *)

Lemma squares_tiles height width : squares height width = tiles height width.
Proof.
  unfold squares, tiles, starts, div_ceil, HEXTILE_SIDE.
  replace (height + 16 - 1) with (height + 15) by lia.
  replace (width + 16 - 1) with (width + 15) by lia.
  generalize (seqZ 0 ((height + 15) / 16)). intros rows.
  induction rows as [|r rows IH]; [done|]. cbn [fmap list_fmap flat_map].
  rewrite bind_cons, <- IH. f_equal.
  generalize (seqZ 0 ((width + 15) / 16)). intros columns.
  induction columns as [|c columns IHc]; [done|]. rewrite bind_cons, <- IHc. cbn.
  by rewrite !(Z.mul_comm _ 16).
Qed.

Definition in_square (row column : Z) (square : Z * Z * Z * Z) : bool :=
  let '(y, x, tall, wide) := square in
  (x <=? column) && (column <? x + wide) && (y <=? row) && (row <? y + tall).

Definition square_ok (square : Z * Z * Z * Z) : Prop :=
  let '(y, x, tall, wide) := square in 0 ≤ tall ≤ 16 ∧ 0 ≤ wide ≤ 16.

(** Squares written one after another are read one after another, each in its place. *)
Lemma reads_as_squares format frame stride region (pixels : At) (l : list (Z * Z * Z * Z)) :
  produced format → Forall square_ok l →
  (∀ y x row column, square_at frame stride region y x row column = pixels (y + row) (x + column)) →
  ∀ palette picture, ∃ picture',
    reads_as (read_squares format l palette picture)
      (flat_map (λ '(y, x, tall, wide), write_square (square_at frame stride region y x) tall wide format) l)
      picture' ∧
    ∀ row column, picture' column row =
      if existsb (in_square row column) l then shown format (pixels row column)
      else picture column row.
Proof.
  intros Hf Hl Hat. induction Hl as [|[[[y x] tall] wide] l [Ht Hw] _ IH]; intros palette picture.
  { exists picture. split; [apply reads_as_ret|done]. }
  destruct (reads_as_square format tall wide palette (square_at frame stride region y x) Hf Ht Hw)
    as (p & palette' & Hp & Hd).
  destruct (IH palette' (painted_over x y wide tall p picture)) as (p' & Hp' & Hpic).
  exists p'. split.
  - cbn [read_squares flat_map]. eapply reads_as_bind; [exact Hp|exact Hp'].
  - intros row column. rewrite Hpic. cbn [existsb in_square].
    destruct (existsb _ l); [by rewrite orb_true_r|]. rewrite orb_false_r. unfold painted_over.
    destruct ((x <=? column) && _ && _ && _) eqn:Hin; [|done].
    rewrite Hd, Hat by lia. do 2 f_equal; lia.
Qed.

Lemma elem_of_tiles height width square :
  square ∈ tiles height width ↔ ∃ r c, 0 ≤ r < (height + 15) / 16 ∧ 0 ≤ c < (width + 15) / 16 ∧
    square = (16 * r, 16 * c, Z.min 16 (height - 16 * r), Z.min 16 (width - 16 * c)).
Proof.
  unfold tiles. rewrite list_elem_of_bind. split.
  - intros (r & Hsq & Hr%elem_of_seqZ). apply list_elem_of_bind in Hsq as (c & Hsq & Hc%elem_of_seqZ).
    apply list_elem_of_singleton in Hsq. exists r, c. split_and!; [lia..|done].
  - intros (r & c & Hr & Hc & ->). exists r. split; [|apply elem_of_seqZ; lia].
    apply list_elem_of_bind. exists c. split; [by apply list_elem_of_singleton|].
    apply elem_of_seqZ; lia.
Qed.

Lemma tiles_ok height width : Forall square_ok (tiles height width).
Proof.
  apply Forall_forall. intros sq (r & c & Hr & Hc & ->)%elem_of_tiles. cbn.
  Z.div_mod_to_equations. lia.
Qed.

Lemma tiles_cover height width row column :
  0 ≤ row < height → 0 ≤ column < width →
  existsb (in_square row column) (tiles height width) = true.
Proof.
  intros Hr Hc. apply existsb_exists.
  exists (16 * (row / 16), 16 * (column / 16),
          Z.min 16 (height - 16 * (row / 16)), Z.min 16 (width - 16 * (column / 16))). split.
  - apply list_elem_of_In, elem_of_tiles. exists (row / 16), (column / 16).
    split_and!; [..|done]; Z.div_mod_to_equations; lia.
  - cbn. Z.div_mod_to_equations. lia.
Qed.

Lemma reads_as_hextile format frame width region :
  produced format →
  ∃ picture,
    reads_as (read_squares format (tiles (rg_height region) (rg_width region)) (black, black)
                (λ _ _, black))
      (write_hextile region frame width format) picture ∧
    draws format (rg_height region) (rg_width region)
      (λ row column, frame_at frame width (rg_x region + column) (rg_y region + row)) picture.
Proof.
  intros Hf. unfold write_hextile. rewrite squares_tiles.
  destruct (reads_as_squares format frame (width * 4) region
    (λ row column, frame_at frame width (rg_x region + column) (rg_y region + row))
    _ Hf (tiles_ok (rg_height region) (rg_width region))) with
    (palette := (black, black)) (picture := λ _ _ : Z, black) as (p & Hp & Hpic).
  - intros y x row column. unfold square_at, frame_at. f_equal; lia.
  - exists p. split; [exact Hp|]. intros row column Hr Hc. by rewrite Hpic, tiles_cover.
Qed.

(** ** Raw rectangles *)

Lemma chunks_exact_4_at l i :
  (4 * i + 4 ≤ length l)%nat → chunks_exact_4 l !! i = Some (take 4 (drop (4 * i) l)).
Proof.
  revert l. induction i as [|i IH]; intros l Hl.
  - destruct l as [|a [|b [|c [|d l]]]]; cbn in Hl; try lia. done.
  - destruct l as [|a [|b [|c [|d l]]]]; cbn in Hl; try lia.
    cbn [chunks_exact_4 lookup list_lookup]. rewrite IH by lia.
    by replace (4 * S i)%nat with (4 + 4 * i)%nat by lia.
Qed.

Lemma length_chunks_exact_4 l : length (chunks_exact_4 l) = (length l / 4)%nat.
Proof.
  remember (length l) as n eqn:Hn. revert l Hn. induction n as [n IH] using lt_wf_ind; intros l Hn.
  destruct l as [|a [|b [|c [|d l]]]]; subst n; try done. cbn [chunks_exact_4 length].
  rewrite (IH (length l)) by (cbn; lia || done).
  replace (S (S (S (S (length l))))) with (length l + 1 * 4)%nat by lia.
  rewrite Nat.div_add by lia. lia.
Qed.

(** ** Formats whose channels keep apart *)

(** A channel of all ones that lies within the pixel. *)
Definition channel_ok (bits max shift : Z) : Prop :=
  ∃ k, 1 ≤ k ∧ max = Z.ones k ∧ 0 ≤ shift ∧ shift + k ≤ bits.

Definition apart (max shift max' shift' : Z) : Prop :=
  Z.land (Z.shiftl max shift) (Z.shiftl max' shift') = 0.

Record well_formed (format : PixelFormat) : Prop := {
  wf_produced : produced format;
  wf_red : channel_ok (fm_bits_per_pixel format) (fm_red_max format) (fm_red_shift format);
  wf_green : channel_ok (fm_bits_per_pixel format) (fm_green_max format) (fm_green_shift format);
  wf_blue : channel_ok (fm_bits_per_pixel format) (fm_blue_max format) (fm_blue_shift format);
  wf_red_green : apart (fm_red_max format) (fm_red_shift format)
                   (fm_green_max format) (fm_green_shift format);
  wf_red_blue : apart (fm_red_max format) (fm_red_shift format)
                  (fm_blue_max format) (fm_blue_shift format);
  wf_green_blue : apart (fm_green_max format) (fm_green_shift format)
                    (fm_blue_max format) (fm_blue_shift format);
}.

Lemma word_of_encoded format source :
  produced format →
  word_of format (encoded format source) =
    packed format (u8_of source 0) (u8_of source 1) (u8_of source 2)
      mod 2 ^ fm_bits_per_pixel format.
Proof.
  intros Hf. unfold word_of, encoded, write_into, write_pixel.
  rewrite drop_replicate_all, app_nil_r.
  set (word := packed _ _ _ _). set (w := Z.to_nat (fm_stride format)).
  assert (w ≤ 4)%nat as Hw by (pose proof (stride_pos _ Hf); lia).
  assert (8 * Z.of_nat w = fm_bits_per_pixel format) as Hbits.
  { unfold produced in Hf. unfold w, fm_stride. set_unfold in Hf.
    destruct_or?; match goal with H : fm_bits_per_pixel format = _ |- _ => rewrite H end; done. }
  assert (le_combine (take w (le_split 4 word)) = word mod 2 ^ fm_bits_per_pixel format) as H.
  { rewrite le_combine_firstn, le_combine_split, Hbits.
    change (Z.of_nat 4 * 8) with 32. apply Z.mod_mod_divide.
    exists (2 ^ (32 - fm_bits_per_pixel format)). rewrite <- Z.pow_add_r by lia. f_equal. lia. }
  unfold from_be_bytes. destruct (fm_big_endian format); [by rewrite rev_involutive|done].
Qed.

Lemma scale_bit value max i : Z.testbit (scale value max) i = true → Z.testbit max i = true.
Proof. unfold scale. rewrite Z.land_spec. by intros [_ ?]%andb_true_iff. Qed.

Lemma shl_u32_bit x s i : 0 ≤ s < 32 → 0 ≤ i < 32 →
  Z.testbit (shl_u32 x s) i = Z.testbit x (i - s).
Proof.
  intros Hs Hi. unfold shl_u32, as_u32. rewrite (Z.mod_small s 32) by lia.
  change (u32_max + 1) with (2 ^ 32). rewrite Z.mod_pow2_bits_low by lia.
  apply Z.shiftl_spec. lia.
Qed.

Lemma apart_bit max shift max' shift' value i :
  apart max shift max' shift' → 0 ≤ i → 0 ≤ shift → Z.testbit max i = true →
  Z.testbit (scale value max') (i + shift - shift') = false.
Proof.
  intros Ha Hi Hs Hm. apply not_true_is_false. intros Hv%scale_bit.
  assert (Z.testbit (Z.land (Z.shiftl max shift) (Z.shiftl max' shift')) (i + shift) = true) as H.
  { rewrite Z.land_spec, !Z.shiftl_spec by lia. rewrite Hv, andb_true_r.
    by replace (i + shift - shift) with i by lia. }
  unfold apart in Ha. by rewrite Ha, Z.bits_0 in H.
Qed.

(** One channel of a word into which three have been packed, the other two keeping clear of it. *)
Lemma channel_packed bits max shift word value :
  channel_ok bits max shift → bits ≤ 32 →
  (∀ i, 0 ≤ i → Z.testbit max i = true →
     Z.testbit word (i + shift) = Z.testbit (scale value max) i) →
  channel (word mod 2 ^ bits) max shift = scale value max.
Proof.
  intros (k & Hk & Hmax & Hs & Hb) H32 Hw. unfold channel. apply Z.bits_inj'. intros i Hi.
  rewrite Z.land_spec, Z.shiftr_spec by lia.
  destruct (Z.testbit max i) eqn:Hm.
  - rewrite andb_true_r. assert (i < k).
    { apply Z.nle_gt. intros Hge. by rewrite Hmax, Z.ones_spec_high in Hm by lia. }
    rewrite Z.mod_pow2_bits_low by lia. by apply Hw.
  - rewrite andb_false_r. symmetry. apply not_true_is_false. intros Hv%scale_bit. congruence.
Qed.

(** A viewer shows of each channel the top of what the frame holds of it: for a format whose
    channels are within the pixel and keep apart, what it reads back from a pixel laid out for it
    is each component, scaled to the range the format gives it. *)
Theorem shown_scaled (format : PixelFormat) (source : list byte) (Hf : well_formed format) :
  shown format source =
    (scale (u8_of source 0) (fm_red_max format), scale (u8_of source 1) (fm_green_max format),
     scale (u8_of source 2) (fm_blue_max format)).
Proof.
  destruct Hf as [Hp Hr Hg Hb Hrg Hrb Hgb]. unfold shown, colour.
  rewrite (word_of_encoded _ _ Hp).
  assert (fm_bits_per_pixel format ≤ 32) as H32.
  { unfold produced in Hp. set_unfold in Hp. lia. }
  assert (∀ max shift, channel_ok (fm_bits_per_pixel format) max shift → 0 ≤ shift < 32) as Hsh.
  { intros max shift (k & Hk & _ & Hs & Hk32). lia. }
  pose proof (Hsh _ _ Hr). pose proof (Hsh _ _ Hg). pose proof (Hsh _ _ Hb).
  assert (∀ max shift i, channel_ok (fm_bits_per_pixel format) max shift → 0 ≤ i →
    Z.testbit max i = true → 0 ≤ i + shift < 32) as Hin.
  { intros max shift i (k & Hk & Hmax & Hs & Hk32) Hi Hm. split; [lia|].
    apply Z.nle_gt. intros Hge. by rewrite Hmax, Z.ones_spec_high in Hm by lia. }
  assert (∀ max shift max' shift', apart max shift max' shift' → apart max' shift' max shift) as Hsym.
  { intros max shift max' shift' Ha. unfold apart. by rewrite Z.land_comm. }
  repeat f_equal; (eapply channel_packed; [eassumption|lia|]); intros i Hi Hm;
    unfold packed; rewrite !Z.lor_spec, !shl_u32_bit by eauto using Hin.
  - rewrite (apart_bit _ _ _ _ _ _ Hrg), (apart_bit _ _ _ _ _ _ Hrb) by (done || lia).
    rewrite !orb_false_r. f_equal. lia.
  - rewrite (apart_bit _ _ _ _ _ _ (Hsym _ _ _ _ Hrg)), (apart_bit _ _ _ _ _ _ Hgb) by (done || lia).
    rewrite orb_false_r, orb_false_l. f_equal. lia.
  - rewrite (apart_bit _ _ _ _ _ _ (Hsym _ _ _ _ Hrb)), (apart_bit _ _ _ _ _ _ (Hsym _ _ _ _ Hgb))
      by (done || lia).
    rewrite !orb_false_l. f_equal. lia.
Qed.

Lemma declared_well_formed : well_formed declared.
Proof. split; try reflexivity; try (exists 8; repeat split; done). unfold produced. set_solver. Qed.

Lemma u8_of_range l i : is_u8 (u8_of l i).
Proof.
  unfold u8_of. destruct (l !! i) as [b|]; [|by unfold is_u8, u8_max].
  pose proof (coqutil.Byte.byte.unsigned_range b). unfold byte_val. width_lia.
Qed.

Lemma shown_declared source :
  shown declared source = (u8_of source 0, u8_of source 1, u8_of source 2).
Proof.
  rewrite (shown_scaled _ _ declared_well_formed). cbn [fm_red_max fm_green_max fm_blue_max declared].
  assert (∀ v, is_u8 v → scale v 255 = v) as H.
  { intros v Hv. unfold scale. rewrite Z.div_mul by lia. change 255 with (Z.ones 8) at 1.
    rewrite Z.land_ones by lia. apply Z.mod_small. width_lia. }
  by rewrite !H by apply u8_of_range.
Qed.

Lemma le_combine_cons b l :
  le_combine (b :: l) = Z.lor (coqutil.Byte.byte.unsigned b) (Z.shiftl (le_combine l) 8).
Proof. reflexivity. Qed.

Lemma le_combine_byte (l : list byte) (i : nat) (x : byte) : l !! i = Some x →
  Z.land (Z.shiftr (le_combine l) (8 * Z.of_nat i)) 255 = coqutil.Byte.byte.unsigned x.
Proof.
  revert l. induction i as [|i IH]; intros [|b l] Hx; try done; cbn in Hx; rewrite le_combine_cons;
    pose proof (coqutil.Byte.byte.unsigned_range b) as Hb.
  - injection Hx as ->. change 255 with (Z.ones 8). rewrite Z.mul_0_r, Z.shiftr_0_r.
    rewrite Z.land_lor_distr_l, !Z.land_ones, Z.shiftl_mul_pow2, Z.mod_mul, Z.lor_0_r by lia.
    by apply Z.mod_small.
  - rewrite <- (IH _ Hx). f_equal.
    replace (8 * Z.of_nat (S i)) with (8 + 8 * Z.of_nat i) by lia.
    rewrite <- Z.shiftr_shiftr, Z.shiftr_lor, Z.shiftr_shiftl_l, Z.shiftl_0_r by lia.
    rewrite (Z.shiftr_div_pow2 (coqutil.Byte.byte.unsigned b)), Z.div_small by lia.
    by rewrite Z.lor_0_l.
Qed.

(** A pixel of the frame, read as the declared format has it, is what it would be laid out as. *)
Lemma colour_declared source : length source = 4%nat → colour declared source = shown declared source.
Proof.
  intros Hl. rewrite shown_declared. destruct source as [|a [|b [|c [|d [|]]]]]; try done.
  unfold colour, channel, word_of, declared. cbn [fm_big_endian fm_red_max fm_red_shift
    fm_green_max fm_green_shift fm_blue_max fm_blue_shift].
  pose proof (le_combine_byte [a; b; c; d] 0 a eq_refl) as Ha.
  pose proof (le_combine_byte [a; b; c; d] 1 b eq_refl) as Hb.
  pose proof (le_combine_byte [a; b; c; d] 2 c eq_refl) as Hc.
  apply (f_equal2 pair); [apply (f_equal2 pair); [exact Ha|exact Hb]|exact Hc].
Qed.

(** ** Raw rectangles *)

Lemma convert_at format data w x :
  produced format → len data = w * 4 → 0 ≤ x < w →
  colour format (slice (convert format data) (x * fm_stride format) (x * fm_stride format + fm_stride format)) =
    shown format (slice data (x * 4) (x * 4 + 4)).
Proof.
  intros Hf Hd Hx. unfold convert. case_bool_decide as Hdecl.
  - rewrite Hdecl. apply colour_declared. change (fm_stride declared) with 4.
    pose proof (len_slice data (x * 4) (x * 4 + 4) ltac:(lia) ltac:(lia)) as Hl. unfold len in Hl. lia.
  - unfold shown. f_equal. apply flat_map_slice; [pose proof (stride_pos _ Hf); lia|lia| |].
    + intros source _. by apply len_encoded.
    + rewrite slice_in by lia. unfold len in Hd. rewrite chunks_exact_4_at by lia.
      f_equal. f_equal; [lia|]. f_equal. lia.
Qed.

Lemma len_convert format data w :
  produced format → len data = w * 4 → len (convert format data) = w * fm_stride format.
Proof.
  intros Hf Hd. unfold convert. case_bool_decide as Hdecl; [by rewrite Hdecl|].
  pose proof (stride_pos _ Hf). unfold len in *.
  rewrite (length_flat_map _ (Z.to_nat (fm_stride format))).
  - rewrite length_chunks_exact_4. replace (length data) with (Z.to_nat w * 4)%nat by lia.
    rewrite Nat.div_mul by lia. nia.
  - intros source _. by apply length_encoded.
Qed.

(** A rectangle with an extent that lies in a frame of so many whole rows. *)
Record region_in (frame : list byte) (width : Z) (r : Region) : Prop := {
  ri_x : is_u16 (rg_x r);
  ri_y : is_u16 (rg_y r);
  ri_width : is_u16 (rg_width r);
  ri_height : is_u16 (rg_height r);
  ri_across : rg_x r + rg_width r ≤ width;
  ri_down : (rg_y r + rg_height r) * (width * 4) ≤ len frame;
}.

Lemma reads_as_raw format frame width region :
  produced format → region_in frame width region →
  ∃ picture,
    reads_as (read_pixels format (rg_height region) (rg_width region))
      (write_raw region frame (width * 4) format) picture ∧
    draws format (rg_height region) (rg_width region)
      (λ row column, frame_at frame width (rg_x region + column) (rg_y region + row)) picture.
Proof.
  intros Hf [Hx Hy Hw Hh Ha Hd]. pose proof (stride_pos _ Hf) as Hs. unfold_widths.
  set (s := fm_stride format) in *. set (w := rg_width region) in *. set (h := rg_height region) in *.
  set (row_at := λ row, slice frame ((rg_y region + row) * (width * 4) + rg_x region * 4)
                   ((rg_y region + row) * (width * 4) + rg_x region * 4 + w * 4)).
  set (f := λ row, convert format (row_at row)).
  assert (∀ row, row ∈ seqZ 0 h → len (row_at row) = w * 4) as Hrow.
  { intros row Hrow%elem_of_seqZ. unfold row_at. rewrite len_slice; nia. }
  assert (∀ row, row ∈ seqZ 0 h → len (f row) = w * s) as Hlen.
  { intros row Hr. by apply len_convert, Hrow. }
  assert (len (flat_map f (seqZ 0 h)) = h * w * s) as Hall.
  { unfold len. rewrite (length_flat_map _ (Z.to_nat (w * s))); [rewrite length_seqZ; nia|].
    intros row Hr%Hlen. unfold len in Hr. lia. }
  eexists. split.
  - unfold read_pixels. fold s. rewrite <- Hall. apply (reads_as_map _ _ _ _ (reads_as_bytes _)).
  - intros row column Hr Hc. cbv beta. fold s.
    replace ((row * w + column) * s) with (row * (w * s) + column * s) by lia.
    replace (row * (w * s) + column * s + s) with (row * (w * s) + (column * s + s)) by lia.
    rewrite <- (slice_slice _ _ (row * (w * s) + w * s)) by nia.
    rewrite (flat_map_slice f (w * s) _ row row); [|nia|lia|done|by apply (lookup_seqZ_at 0)].
    assert (row ∈ seqZ 0 h) as Hin by (apply elem_of_seqZ; lia).
    unfold f. rewrite (convert_at format _ w) by auto. unfold shown, row_at, frame_at. do 2 f_equal.
    rewrite slice_slice by nia. f_equal; lia.
Qed.

(** ** Updates *)

(** What a screen shows once some regions of it have been redrawn from the frame. *)
Definition redrawn_from (format : PixelFormat) (frame : list byte) (width : Z)
    (regions : list Region) (screen screen' : Picture) : Prop :=
  ∀ x y, screen' x y =
    if existsb (in_region x y) regions then shown format (frame_at frame width x y)
    else screen x y.

Lemma reads_as_region format frame width hextile region screen :
  produced format → region_in frame width region →
  ∃ screen', reads_as (read_region format screen) (write_region frame width format hextile region) screen' ∧
    redrawn_from format frame width [region] screen screen'.
Proof.
  intros Hf Hin. pose proof Hin as [Hx Hy Hw Hh _ _].
  assert (∀ inside,
    draws format (rg_height region) (rg_width region)
      (λ row column, frame_at frame width (rg_x region + column) (rg_y region + row)) inside →
    redrawn_from format frame width [region] screen
      (painted_over (rg_x region) (rg_y region) (rg_width region) (rg_height region) inside screen))
    as Hdraw.
  { intros inside Hd x y. unfold painted_over. cbn [existsb]. rewrite orb_false_r.
    change ((rg_x region <=? x) && _ && _ && _) with (in_region x y region).
    destruct (in_region x y region) eqn:Hxy; [|done]. unfold in_region in Hxy.
    rewrite Hd by lia. do 2 f_equal; lia. }
  destruct hextile.
  - destruct (reads_as_hextile format frame width region Hf) as (p & Hp & Hd).
    eexists. split; [|by apply Hdraw]. unfold read_region, write_region.
    do 4 (eapply reads_as_bind; [by apply reads_as_u16|]).
    eapply reads_as_bind; [by apply (reads_as_be 4 HEXTILE)|].
    change (HEXTILE =? 0) with false. change (HEXTILE =? 5) with true. cbn [negb].
    exact (reads_as_map _ (λ inside, painted_over _ _ _ _ inside screen) _ _ Hp).
  - destruct (reads_as_raw format frame width region Hf Hin) as (p & Hp & Hd).
    eexists. split; [|by apply Hdraw]. unfold read_region, write_region.
    do 4 (eapply reads_as_bind; [by apply reads_as_u16|]).
    eapply reads_as_bind; [by apply (reads_as_be 4 RAW)|].
    change (RAW =? 0) with true. exact (reads_as_map _ (λ inside, painted_over _ _ _ _ inside screen) _ _ Hp).
Qed.

Lemma reads_as_regions format frame width hextile regions :
  produced format → Forall (region_in frame width) regions → ∀ screen,
  ∃ screen', reads_as (read_regions format (length regions) screen)
      (flat_map (write_region frame width format hextile) regions) screen' ∧
    redrawn_from format frame width regions screen screen'.
Proof.
  intros Hf. induction 1 as [|r regions Hr _ IH]; intros screen.
  - exists screen. split; [apply reads_as_ret|done].
  - destruct (reads_as_region format frame width hextile r screen Hf Hr) as (s1 & H1 & Hd1).
    destruct (IH s1) as (s2 & H2 & Hd2). exists s2. split.
    + cbn [length read_regions flat_map]. eapply reads_as_bind; [exact H1|exact H2].
    + intros x y. rewrite Hd2, Hd1. cbn [existsb].
      destruct (in_region x y r), (existsb (in_region x y) regions); done.
Qed.

(** A region of [u16]s. *)
Definition region_typed (r : Region) : Prop :=
  is_u16 (rg_x r) ∧ is_u16 (rg_y r) ∧ is_u16 (rg_width r) ∧ is_u16 (rg_height r).

Lemma fitting_in regions frame width :
  Forall region_typed regions → is_u16 width →
  Forall (region_in frame width) (fitting regions frame width).
Proof.
  intros Ht Hw. apply Forall_forall. intros r [Hfit Hr]%list_elem_of_filter.
  rewrite Forall_forall in Ht. destruct (Ht r Hr) as (? & ? & ? & ?). unfold fits in Hfit.
  apply andb_true_iff in Hfit as [Ha%Z.leb_le Hd%Z.leb_le].
  split; [done..|lia|]. pose proof (len_nonneg frame). unfold_widths.
  destruct (width * 4 =? 0) eqn:E; [nia|]. apply Z.eqb_neq in E.
  pose proof (Z.mul_div_le (len frame) (width * 4)). nia.
Qed.

Lemma update_reads format frame width hextile regions screen :
  produced format → Forall region_typed regions → is_u16 width →
  len (fitting regions frame width) ≤ u16_max →
  ∃ screen', read_update format screen (update_message regions frame width format hextile) =
    (Ok screen', []) ∧ redrawn_from format frame width (fitting regions frame width) screen screen'.
Proof.
  intros Hf Ht Hw Hn.
  destruct (reads_as_regions format frame width hextile (fitting regions frame width) Hf
    (fitting_in _ _ _ Ht Hw) screen) as (screen' & Hr & Hd).
  exists screen'. split; [|done]. unfold update_message, read_update.
  pose proof (len_nonneg (fitting regions frame width)).
  assert (as_u16 (len (fitting regions frame width)) = len (fitting regions frame width)) as ->.
  { apply Z.mod_small. width_lia. }
  rewrite <- (app_nil_r (_ :: _)).
  refine (reads_as_bind _ _ [_] (_ :: _ ++ _) 0 _ _ _ []); [by apply (reads_as_u8 0)|].
  cbn [Z.eqb negb].
  eapply (reads_as_bind _ _ [_] (_ ++ _) 0); [by apply (reads_as_u8 0)|].
  eapply reads_as_bind; [apply reads_as_u16; width_lia|]. rewrite to_nat_len. exact Hr.
Qed.

(** The regions that are sent are those that lie in the frame. *)
Lemma elem_of_fitting r regions frame width :
  r ∈ fitting regions frame width ↔ r ∈ regions ∧ rg_x r + rg_width r ≤ width ∧
    (rg_y r + rg_height r ≤ if width =? 0 then 0 else len frame / (width * 4)).
Proof.
  unfold fitting. rewrite list_elem_of_filter. unfold fits.
  rewrite andb_true_iff, !Z.leb_le. unfold_widths.
  replace (width * 4 =? 0) with (width =? 0) by lia. destruct (width =? 0); split; intros; lia || intuition lia.
Qed.

(** C6. What the server writes, a viewer reads back: whichever encoding the update is in, a viewer that
    follows the protocol takes exactly its bytes, and redraws from the frame exactly the regions
    that fit it, showing each pixel as the format it asked for lays it out; the rest of its screen
    stays as it was. The regions left out are those that reach past the frame. *)
Theorem update_read_back (format : PixelFormat) (frame : list byte) (width : Z) (hextile : bool)
    (regions : list Region) (screen : Picture)
    (Hf : produced format) (Ht : Forall region_typed regions) (Hw : is_u16 width)
    (Hn : len (fitting regions frame width) ≤ u16_max) :
  (∃ screen', read_update format screen (update_message regions frame width format hextile) =
     (Ok screen', []) ∧
     redrawn_from format frame width (fitting regions frame width) screen screen') ∧
  ∀ r, r ∈ fitting regions frame width ↔ r ∈ regions ∧
    rg_x r + rg_width r ≤ width ∧
    (rg_y r + rg_height r ≤ if width =? 0 then 0 else len frame / (width * 4)).
Proof. split; [by apply update_reads|]. intros r. apply elem_of_fitting. Qed.


(** Two columns of two rows, the second row of another colour than the first: one region within the
    frame, and one that reaches past it, in sixteen bits a pixel and in hextile. *)
Definition two_rows : list byte :=
  replicate 8 (u8_byte 255) ++ (u8_byte <$> [1; 2; 3; 0; 1; 2; 3; 0]).
Definition sixteen_bits : PixelFormat := MkPixelFormat 16 true true 31 63 31 11 5 0.

Lemma update_read_back_witness :
  fitting [MkRegion 0 0 2 2; MkRegion 1 1 2 1] two_rows 2 = [MkRegion 0 0 2 2] ∧
  ∃ screen', read_update sixteen_bits (λ _ _, black)
      (update_message [MkRegion 0 0 2 2; MkRegion 1 1 2 1] two_rows 2 sixteen_bits true) = (Ok screen', []) ∧
    screen' 0 0 = (31, 63, 31) ∧ screen' 5 5 = black.
Proof.
  assert (fitting [MkRegion 0 0 2 2; MkRegion 1 1 2 1] two_rows 2 = [MkRegion 0 0 2 2]) as Hfit
    by (vm_compute; reflexivity).
  split; [exact Hfit|].
  destruct (update_read_back sixteen_bits two_rows 2 true [MkRegion 0 0 2 2; MkRegion 1 1 2 1]
    (λ _ _, black)) as [(screen' & H1 & H2) _].
  - unfold produced. set_solver.
  - repeat constructor; by vm_compute.
  - by vm_compute.
  - rewrite Hfit. by vm_compute.
  - exists screen'. split; [exact H1|]. rewrite Hfit in H2. rewrite (H2 0 0), (H2 5 5).
    split; vm_compute; reflexivity.
Defined.
