(* ===== verification/Changes.v ===== *)
(** What comparing two frames finds ([changed_regions] of [atria-vnc/src/protocol.rs]), and what the
    queue of a viewer's input keeps ([input.rs]). *)
From S2P Require Import Prelude.
From S2P Require Import Vocabulary.
From S2P Require Import Rfb.
From S2P Require Import Picture.

(** * Comparing frames *)

Definition covered (x y : Z) (regions : list Region) : bool := existsb (in_region x y) regions.

(** A region of a screen of a size. *)
Definition within (width height : Z) (r : Region) : Prop :=
  region_typed r ∧ rg_x r + rg_width r ≤ width ∧ rg_y r + rg_height r ≤ height.

Lemma covered_app x y l k : covered x y (l ++ k) = covered x y l || covered x y k.
Proof. apply existsb_app. Qed.

Lemma region_ok left_ top right_ bottom width height :
  is_u16 width → is_u16 height → 0 ≤ left_ ≤ right_ → right_ ≤ width → 0 ≤ top ≤ bottom →
  bottom ≤ height →
  within width height (region left_ top right_ bottom) ∧
  ∀ x y, in_region x y (region left_ top right_ bottom) =
    (left_ <=? x) && (x <? right_) && (top <=? y) && (y <? bottom).
Proof.
  intros Hw Hh Hl Hr Ht Hb. unfold_widths.
  assert (region left_ top right_ bottom = MkRegion left_ top (right_ - left_) (bottom - top)) as ->.
  { unfold region, as_u16. by rewrite !Z.mod_small by lia. }
  split; [unfold within, region_typed; cbn; unfold_widths; lia|].
  intros x y. unfold in_region. cbn. do 2 f_equal; [f_equal; f_equal|f_equal]; lia.
Qed.

Section Compare.
Context (previous current : list byte) (pixels height : Z).
Context (Hw : is_u16 pixels) (Hh : is_u16 height).
Context (Hprevious : len previous = pixels * height * 4) (Hcurrent : len current = pixels * height * 4).

Definition differs_at (x y : Z) : Prop := frame_at previous pixels x y ≠ frame_at current pixels x y.

Lemma rows_differ_run left_ right_ rows :
  0 ≤ left_ ≤ right_ → right_ ≤ pixels → (∀ row, row ∈ rows → 0 ≤ row < height) →
  ∃ d, rows_differ previous current pixels left_ right_ rows = Some d ∧
    (∀ x y, left_ ≤ x < right_ → y ∈ rows → differs_at x y → d = true) ∧
    (previous = current → d = false).
Proof.
  intros Hl Hr. induction rows as [|row rows IH]; intros Hrows.
  { exists false. split_and!; [done| |done]. intros x y _ Hy. by apply not_elem_of_nil in Hy. }
  assert (0 ≤ row < height) as Hrow by (apply Hrows, list_elem_of_here).
  destruct IH as (d & Hd & Hdiff & Hsame).
  { intros y Hy. apply Hrows. by apply list_elem_of_further. }
  set (first := (row * pixels + left_) * 4). set (last := (row * pixels + right_) * 4).
  assert (0 ≤ first ≤ last ∧ last ≤ len previous ∧ last ≤ len current) as (Hfl & Hp & Hc) by nia.
  cbn [rows_differ]. fold first last. rewrite !get_range_slice by lia. cbn [mbind option_bind].
  case_bool_decide as Heq.
  - exists d. split_and!; [done| |done]. intros x y Hx [->|Hy]%elem_of_cons Hxy; [|eauto].
    exfalso. apply Hxy. unfold frame_at.
    replace ((row * pixels + x) * 4) with (first + (x - left_) * 4) by lia.
    rewrite <- Z.add_assoc, <- !(slice_slice _ first last), Heq by lia. done.
  - exists true. split_and!; [done..|]. intros ->. done.
Qed.

Lemma overlaps_bound bounds left_ top right_ bottom x y :
  covered x y bounds = true → left_ ≤ x < right_ → top ≤ y < bottom →
  overlaps bounds left_ top right_ bottom = true.
Proof.
  unfold covered, overlaps. rewrite !existsb_exists. intros (r & Hr & Hin) Hx Hy.
  exists r. split; [done|]. unfold in_region in Hin. unfold reaches. lia.
Qed.

(** ** One row of tiles *)

Section Row.
Context (bounds : list Region) (top bottom : Z).
Context (Htop : 0 ≤ top ≤ bottom) (Hbottom : bottom ≤ height).

(** A run that may be open at the left edge [left]. *)
Definition run_open (left_ : Z) (run : option (Z * Z)) : Prop :=
  match run with Some (start, last) => 0 ≤ start ≤ last ∧ last = left_ | None => True end.

Definition run_covers (x : Z) (run : option (Z * Z)) : Prop :=
  match run with Some (start, last) => start ≤ x < last | None => False end.

(** What scanning on, from [left] with an open run, has found when it ends. *)
Record scanned (left_ n : Z) (run : option (Z * Z)) (found found' : Changes) : Prop := {
  sc_on_screen : Forall (within pixels height) found.1 → Forall (within pixels height) found'.1;
  sc_kept : ∀ x y, covered x y found.1 = true → covered x y found'.1 = true;
  sc_run : ∀ x y, run_covers x run → top ≤ y < bottom → covered x y found'.1 = true;
  sc_found : ∀ x y, left_ ≤ x < pixels → top ≤ y < bottom → covered x y bounds = true →
    differs_at x y → covered x y found'.1 = true;
  sc_count : len found'.1 ≤ len found.1 + n + match run with Some _ => 1 | None => 0 end;
  sc_same : previous = current → run = None → found' = found;
}.

Lemma end_run_scanned left_ run found :
  run_open left_ run → left_ ≤ pixels → 0 ≤ left_ →
  let found' := end_run top bottom run found in
  (Forall (within pixels height) found.1 → Forall (within pixels height) found'.1) ∧
  (∀ x y, covered x y found.1 = true → covered x y found'.1 = true) ∧
  (∀ x y, run_covers x run → top ≤ y < bottom → covered x y found'.1 = true) ∧
  len found'.1 = len found.1 + match run with Some _ => 1 | None => 0 end.
Proof.
  intros Ho Hl H0. destruct run as [[start last]|]; cbn [end_run].
  - cbn in Ho. destruct (region_ok start top last bottom pixels height Hw Hh) as [Hon Hin]; [lia..|].
    cbn [fst]. split_and!.
    + intros Hf. apply Forall_app. split; [done|by constructor].
    + intros x y Hx. rewrite covered_app, Hx. done.
    + intros x y Hx Hy. cbn in Hx. rewrite covered_app. unfold covered at 2. cbn [existsb].
      rewrite Hin. replace ((start <=? x) && _ && _ && _) with true by lia. by rewrite orb_true_r.
    + rewrite len_app. reflexivity.
  - split_and!; [done..|cbn; lia].
Qed.

Lemma scan_tiles_run (n k : Z) : ∀ run found,
  0 ≤ k → 0 ≤ n → k + n = div_ceil pixels TILE → run_open (Z.min (k * TILE) pixels) run →
  ∃ found', scan_tiles previous current pixels bounds top bottom ((λ i, i * TILE) <$> seqZ k n) run found =
      Some found' ∧ scanned (k * TILE) n run found found'.
Proof.
  remember (Z.to_nat n) as m eqn:Hm. revert n k Hm.
  induction m as [|m IH]; intros n k Hm run found Hk Hn Hkn Ho.
  - assert (n = 0) as -> by lia. rewrite seqZ_nil by lia. cbn [fmap list_fmap scan_tiles].
    destruct (end_run_scanned _ _ found Ho) as (H1 & H2 & H3 & H4); [unfold_widths; unfold TILE in *; lia..|].
    eexists. split; [done|]. split; [done..| | | ].
    + intros x y Hx. exfalso. unfold div_ceil, TILE in *. unfold_widths.
      Z.div_mod_to_equations. lia.
    + lia.
    + intros _ ->. done.
  - rewrite seqZ_cons by lia. cbn [fmap list_fmap scan_tiles].
    set (left_ := k * TILE). set (right_ := Z.min (left_ + TILE) pixels).
    assert (left_ < pixels) as Hlp.
    { unfold left_, TILE, div_ceil in *. Z.div_mod_to_equations. lia. }
    assert (Z.min ((Z.succ k) * TILE) pixels = right_) as Hnext by (unfold right_, left_, TILE; lia).
    assert (0 ≤ left_ ≤ right_ ∧ right_ ≤ pixels) as [Hlr Hrp] by (unfold right_, left_, TILE in *; lia).
    assert (∃ d, (if overlaps bounds left_ top right_ bottom
       then rows_differ previous current pixels left_ right_ (seqZ top (bottom - top)) else Some false) =
       Some d ∧ (∀ x y, left_ ≤ x < right_ → top ≤ y < bottom → covered x y bounds = true →
                  differs_at x y → d = true) ∧ (previous = current → d = false))
      as (d & Hd & Hdiff & Hsame).
    { destruct (overlaps bounds left_ top right_ bottom) eqn:Hov.
      - destruct (rows_differ_run left_ right_ (seqZ top (bottom - top)) Hlr Hrp) as (d & Hd & H1 & H2).
        { intros row Hrow%elem_of_seqZ. lia. }
        exists d. split_and!; [done| |done]. intros x y Hx Hy _. apply H1; [done|].
        apply elem_of_seqZ. lia.
      - exists false. split_and!; [done| |done]. intros x y Hx Hy Hb _.
        by rewrite (overlaps_bound _ _ _ _ _ _ _ Hb Hx Hy) in Hov. }
    rewrite Hd. cbn [mbind option_bind]. unfold run_open in Ho.
    replace (Z.min (k * TILE) pixels) with left_ in Ho by (unfold left_ in *; lia).
    destruct d.
    + edestruct (IH (Z.pred n) (Z.succ k) ltac:(lia)
        (Some (match run with Some (start, _) => start | None => left_ end, right_)) found)
        as (found' & Hf & [H1 H2 H3 H4 H5 H6]); [lia..| |].
      { cbn. rewrite Hnext. destruct run as [[start last]|]; lia. }
      exists found'. split; [done|]. split; [done|done| | | |].
      * intros x y Hx. apply H3. destruct run as [[start last]|]; cbn in Hx |- *; [lia|done].
      * intros x y Hx Hy. destruct (decide (x < right_)) as [Hlt|Hge].
        -- intros _ _. apply H3; [|done]. cbn. destruct run as [[start last]|]; lia.
        -- apply H4; [|done]. unfold right_, left_, TILE in *. lia.
      * destruct run; lia.
      * intros Heq. by specialize (Hsame Heq).
    + destruct (end_run_scanned _ _ found Ho) as (E1 & E2 & E3 & E4); [lia..|].
      edestruct (IH (Z.pred n) (Z.succ k) ltac:(lia) None (end_run top bottom run found))
        as (found' & Hf & [H1 H2 H3 H4 H5 H6]); [lia..|done|].
      exists found'. split; [done|]. split; [eauto..| | |].
      * intros x y Hx Hy Hb Hxy. destruct (decide (x < right_)) as [Hlt|Hge].
        -- by specialize (Hdiff x y ltac:(lia) Hy Hb Hxy).
        -- apply H4; try done. unfold right_, left_, TILE in *. lia.
      * rewrite E4 in H5. destruct run; lia.
      * intros Heq ->. by apply H6.
Qed.
End Row.

(** ** All rows of tiles *)

Lemma scan_rows_run bounds (n k : Z) : ∀ found,
  0 ≤ k → 0 ≤ n → k + n = div_ceil height TILE →
  ∃ found', scan_rows previous current pixels height bounds ((λ i, i * TILE) <$> seqZ k n) found =
      Some found' ∧
    (Forall (within pixels height) found.1 → Forall (within pixels height) found'.1) ∧
    (∀ x y, covered x y found.1 = true → covered x y found'.1 = true) ∧
    (∀ x y, 0 ≤ x < pixels → k * TILE ≤ y < height → covered x y bounds = true →
       differs_at x y → covered x y found'.1 = true) ∧
    len found'.1 ≤ len found.1 + n * div_ceil pixels TILE ∧
    (previous = current → found' = found).
Proof.
  remember (Z.to_nat n) as m eqn:Hm. revert n k Hm.
  induction m as [|m IH]; intros n k Hm found Hk Hn Hkn.
  - assert (n = 0) as -> by lia. rewrite seqZ_nil by lia. exists found. split_and!; [done..| |lia|done].
    intros x y Hx Hy. exfalso. unfold div_ceil, TILE in *. Z.div_mod_to_equations. lia.
  - rewrite seqZ_cons by lia. cbn [fmap list_fmap scan_rows].
    set (top := k * TILE). set (bottom := Z.min (top + TILE) height).
    assert (top < height) as Hth by (unfold top, TILE, div_ceil in *; Z.div_mod_to_equations; lia).
    destruct (scan_tiles_run bounds top bottom) with (n := div_ceil pixels TILE) (k := 0)
      (run := @None (Z * Z)) (found := found) as (f1 & Hf1 & [H1 H2 _ H4 H5 H6]).
    1-2: unfold bottom, top, TILE in *; lia.
    1-2: unfold div_ceil, TILE; unfold_widths; try (apply Z.div_pos); lia.
    1-2: done.
    unfold starts. rewrite Hf1. cbn [mbind option_bind].
    destruct (IH (Z.pred n) (Z.succ k) ltac:(lia) f1) as (f2 & Hf2 & G1 & G2 & G3 & G4 & G5);
      [lia..|].
    exists f2. split_and!; [done|auto|auto| | |].
    + intros x y Hx Hy Hb Hxy. destruct (decide (y < bottom)) as [Hlt|Hge].
      * apply G2. apply H4; try done. unfold top in *. lia.
      * apply G3; try done. unfold bottom, top, TILE in *. lia.
    + nia.
    + intros Heq. rewrite (G5 Heq). by apply H6.
Qed.
End Compare.

Lemma div_ceil_nonneg a b : 0 ≤ a → 0 < b → 0 ≤ div_ceil a b.
Proof. intros. unfold div_ceil. apply Z.div_pos; lia. Qed.

(** How many squares a screen is compared in. *)
Definition tile_count (width height : Z) : Z := div_ceil height TILE * div_ceil width TILE.

(** What the comparison finds. *)
Lemma changes_safe (previous : option (list byte)) (current : list byte)
    (width height : Z) (bounds : list Region) (Hw : is_u16 width) (Hh : is_u16 height)
    (Hc : len current = width * height * 4) :
  ∃ regions, changed_regions previous current width height bounds = Some regions ∧
    Forall (within width height) regions ∧ len regions ≤ Z.max 1 (tile_count width height) ∧
    ∀ x y, 0 ≤ x < width → 0 ≤ y < height →
      (match previous with
       | Some was => len was ≠ len current ∨
           covered x y bounds = true ∧ frame_at was width x y ≠ frame_at current width x y
       | None => True
       end → covered x y regions = true) ∧
      (previous = Some current → regions = []).
Proof.
  set (whole := [MkRegion 0 0 width height]).
  assert (Forall (within width height) whole) as Hwhole.
  { constructor; [|done]. unfold within, region_typed. cbn. unfold_widths. lia. }
  assert (∀ x y, 0 ≤ x < width → 0 ≤ y < height → covered x y whole = true) as Hall.
  { intros x y Hx Hy. unfold covered, whole, in_region. cbn. lia. }
  assert (len whole ≤ Z.max 1 (tile_count width height)) as Hone by (change (len whole) with 1; lia).
  unfold changed_regions. fold whole. destruct previous as [was|].
  2: { exists whole. split_and!; [done..|]. intros x y Hx Hy. split; [auto|done]. }
  destruct (len was =? len current) eqn:Hlen; cbn [negb].
  2: { apply Z.eqb_neq in Hlen. exists whole. split_and!; [done..|]. intros x y Hx Hy.
    split; [auto|]. intros [= ->]. done. }
  apply Z.eqb_eq in Hlen. case_bool_decide as Hb.
  { exists []. split_and!; [done|constructor|rewrite len_nil; lia|]. intros x y Hx Hy. split; [|done].
    intros [Hne|[Hcov _]]; [done|]. by rewrite Hb in Hcov. }
  destruct (scan_rows_run was current width height Hw Hh ltac:(congruence) Hc bounds
    (div_ceil height TILE) 0 ([], 0)) as (found & Hf & H1 & _ & H3 & H4 & H5).
  1-2: unfold_widths; try (apply div_ceil_nonneg); unfold TILE; lia.
  1: done.
  unfold starts at 1. rewrite Hf. cbn [mbind option_bind]. eexists. split; [done|].
  destruct (width * height <=? found.2 * WHOLESALE_TILES) eqn:Hwh; cbn [fst] in *.
  - split_and!; [done..|]. intros x y Hx Hy. split; [auto|]. intros [= ->].
    rewrite (H5 eq_refl) in Hwh. cbn in Hwh. nia.
  - split_and!; [by apply H1|rewrite len_nil in H4; unfold tile_count; lia|].
    intros x y Hx Hy. split.
    + intros [Hne|[Hcov Hdiff]]; [done|]. by apply H3.
    + intros [= ->]. by rewrite (H5 eq_refl).
Qed.

(** C7. The comparison answers, and its answer is safe to send: given frames of the size that is
    claimed it reads neither outside its bounds, and finds regions that lie on the screen, no more
    of them than there are tiles, or one; every pixel within the bounds that differs from the frame
    before is in one of them, and when there is no frame before, or one of another size, every
    pixel is. It is also never wasteful on a still picture: two equal frames have no region
    between them. *)
Theorem changed_regions_cover (previous : option (list byte)) (current : list byte)
    (width height : Z) (bounds : list Region) (Hw : is_u16 width) (Hh : is_u16 height)
    (Hc : len current = width * height * 4) :
  ∃ regions, changed_regions previous current width height bounds = Some regions ∧
    Forall (within width height) regions ∧ len regions ≤ Z.max 1 (tile_count width height) ∧
    ∀ x y, 0 ≤ x < width → 0 ≤ y < height →
      (match previous with
       | Some was => len was ≠ len current ∨
           covered x y bounds = true ∧ frame_at was width x y ≠ frame_at current width x y
       | None => True
       end → covered x y regions = true) ∧
      (previous = Some current → regions = []).
Proof. by apply changes_safe. Qed.

(** * The input queue *)

(** What a viewer reports, and the whole history it amounts to: every position, and for every change
    of the button mask the transitions it takes, lowest button first. *)
Inductive Report :=
| PointerReport (mask x y : Z)
| KeyReport (usage : Z) (pressed : bool).

Definition pointer_body (mask x y : Z) : list byte :=
  u8_byte mask :: to_be_bytes 2 x ++ to_be_bytes 2 y.

Definition apply_report (q : InputQueue) (r : Report) : InputQueue :=
  match r with
  | PointerReport mask x y => pointer (pointer_body mask x y) q
  | KeyReport usage pressed => key usage pressed q
  end.

Definition report_typed (r : Report) : Prop :=
  match r with
  | PointerReport mask x y => is_u8 mask ∧ is_u16 x ∧ is_u16 y
  | KeyReport _ _ => True
  end.

Definition button_changes (was now : Z) : list Input :=
  bit ← seqZ 0 8;
  if eqb (Z.testbit was bit) (Z.testbit now bit) then []
  else [Button (MkButtonInput (bit + 1) (Z.testbit now bit))].

Fixpoint history (mask : Z) (reports : list Report) : list Input :=
  match reports with
  | [] => []
  | PointerReport now x y :: rest =>
      Pointer (MkPointerInput x y) :: button_changes mask now ++ history now rest
  | KeyReport usage pressed :: rest => Key (MkKeyInput usage pressed) :: history mask rest
  end.

(** A history in which only the last of a run of positions is kept. *)
Fixpoint settled (l : list Input) : list Input :=
  match l with
  | Pointer _ :: (Pointer _ :: _) as rest => settled rest
  | input :: rest => input :: settled rest
  | [] => []
  end.

Definition ends_in_pointer (l : list Input) : bool := default false (is_pointer <$> last l).

Lemma settled_cons i l : ¬ (is_pointer i = true ∧ default false (is_pointer <$> head l) = true) →
  settled (i :: l) = i :: settled l.
Proof. destruct i, l as [|[]]; cbn; tauto. Qed.

Lemma settled_ends l : ends_in_pointer (settled l) = ends_in_pointer l ∧ (settled l = [] → l = []).
Proof.
  induction l as [|i l [IH IHn]]; [done|].
  destruct (is_pointer i && default false (is_pointer <$> head l)) eqn:E.
  - destruct i as [p| |], l as [|[p'| |] l]; try done.
    change (settled (Pointer p :: Pointer p' :: l)) with (settled (Pointer p' :: l)).
    split; [exact IH|]. intros H. by apply IHn in H.
  - rewrite settled_cons by (intros [H1 H2]; by rewrite H1, H2 in E). split; [|done].
    unfold ends_in_pointer in *. destruct l as [|j l]; [done|].
    destruct (settled (j :: l)) eqn:Es; [by specialize (IHn eq_refl)|]. exact IH.
Qed.

Lemma settled_snoc l i :
  settled (l ++ [i]) =
    if is_pointer i && ends_in_pointer (settled l)
    then take (length (settled l) - 1) (settled l) ++ [i] else settled l ++ [i].
Proof.
  induction l as [|j l IH]; [by destruct i|].
  destruct l as [|k l]; [by destruct i, j|].
  cbn [app] in *. destruct (is_pointer j && is_pointer k) eqn:E.
  - by destruct j, k.
  - rewrite settled_cons by (intros [H1 H2]; cbn in H2; by rewrite H1, H2 in E).
    rewrite (settled_cons j (k :: l)) by (intros [H1 H2]; cbn in H2; by rewrite H1, H2 in E).
    rewrite IH. pose proof (settled_ends (k :: l)) as [_ Hne].
    destruct (settled (k :: l)) as [|a s] eqn:Es; [by specialize (Hne eq_refl)|].
    change (ends_in_pointer (j :: a :: s)) with (ends_in_pointer (a :: s)).
    destruct (is_pointer i && ends_in_pointer (a :: s)); [|done].
    cbn [length]. by replace (S (S (length s)) - 1)%nat with (S (S (length s) - 1)) by lia.
Qed.

(** Unless the queue says it overflowed, it holds the whole history, settled. *)
Definition holds_history (q : InputQueue) (h : list Input) : Prop :=
  len (iq_events q) ≤ MAX_PENDING ∧ (iq_overflowed q = false → iq_events q = settled h).

Lemma push_holds input q h :
  holds_history q h → holds_history (push input q) (h ++ [input]) ∧
  iq_buttons (push input q) = iq_buttons q ∧
  iq_stale (push input q) = iq_stale q ∧ (iq_overflowed q = true → iq_overflowed (push input q) = true).
Proof.
  intros [Hlen Hh]. unfold push. change (default false (is_pointer <$> last (iq_events q))) with
    (ends_in_pointer (iq_events q)).
  destruct (is_pointer input && ends_in_pointer (iq_events q)) eqn:E.
  - split_and!; [|done..]. split; cbn [iq_events iq_overflowed].
    + assert (iq_events q ≠ []) by (intros He; rewrite He in E; by rewrite andb_false_r in E).
      unfold len in *. rewrite length_app, length_take. destruct (iq_events q); [done|]. cbn in *. lia.
    + intros Ho%Hh. by rewrite settled_snoc, <- Ho, E.
  - destruct (MAX_PENDING <=? len (iq_events q)) eqn:Ef; [by split_and!|].
    apply Z.leb_gt in Ef. split_and!; [|done..]. split; cbn [iq_events iq_overflowed].
    + rewrite len_app. change (len [input]) with 1. lia.
    + intros Ho%Hh. by rewrite settled_snoc, <- Ho, E.
Qed.

Lemma push_button_at changed mask q bit was : 0 ≤ bit →
  Z.testbit changed bit = xorb (Z.testbit was bit) (Z.testbit mask bit) →
  push_button changed mask q bit =
    foldl (λ q i, push i q) q (if eqb (Z.testbit was bit) (Z.testbit mask bit) then []
                               else [Button (MkButtonInput (bit + 1) (Z.testbit mask bit))]).
Proof.
  intros Hb Hc. unfold push_button.
  assert (∀ x, (Z.land x (Z.shiftl 1 bit) =? 0) = negb (Z.testbit x bit)) as Hland.
  { intros x. rewrite Z.shiftl_1_l. apply eq_bool_prop_intro. rewrite !Is_true_true, Z.eqb_eq. split.
    - intros H0. assert (Z.testbit (Z.land x (2 ^ bit)) bit = false) as Ht by (by rewrite H0, Z.bits_0).
      rewrite Z.land_spec, Z.pow2_bits_true, andb_true_r in Ht by lia. by rewrite Ht.
    - intros Hx. apply Z.bits_inj'. intros i Hi. rewrite Z.land_spec, Z.bits_0.
      destruct (decide (i = bit)) as [->|Hne].
      + apply negb_true_iff in Hx. by rewrite Hx.
      + rewrite (Z.pow2_bits_false bit i) by lia. apply andb_false_r. }
  rewrite !Hland, Hc, negb_involutive.
  destruct (Z.testbit was bit), (Z.testbit mask bit); done.
Qed.

Lemma pushes_hold l : ∀ q h, holds_history q h →
  let q' := foldl (λ q i, push i q) q l in
  holds_history q' (h ++ l) ∧ iq_buttons q' = iq_buttons q ∧ iq_stale q' = iq_stale q ∧
  (iq_overflowed q = true → iq_overflowed q' = true).
Proof.
  induction l as [|i l IH]; intros q h Hq; cbn [foldl].
  - rewrite app_nil_r. split_and!; auto.
  - destruct (push_holds i q h Hq) as (H1 & H2 & H3 & H4).
    destruct (IH _ _ H1) as (G1 & G2 & G3 & G4).
    rewrite (cons_middle i h l), app_assoc. split_and!; [exact G1|congruence|congruence|auto].
Qed.

Definition set_buttons (mask : Z) (q : InputQueue) : InputQueue :=
  MkInputQueue (iq_events q) mask (iq_overflowed q) (iq_stale q).

Lemma pointer_pushes mask x y q :
  report_typed (PointerReport mask x y) →
  pointer (pointer_body mask x y) q =
    foldl (λ q i, push i q) (set_buttons mask (push (Pointer (MkPointerInput x y)) q))
      (button_changes (iq_buttons (push (Pointer (MkPointerInput x y)) q)) mask).
Proof.
  intros (Hm & Hx & Hy). unfold pointer.
  assert (u8_of (pointer_body mask x y) 0 = mask) as ->.
  { unfold u8_of, pointer_body. cbn. unfold byte_val, u8_byte.
    rewrite coqutil.Byte.byte.unsigned_of_Z. apply Z.mod_small. width_lia. }
  assert (u16_at (pointer_body mask x y) 1 = x) as ->.
  { change (u16_at (pointer_body mask x y) 1) with (from_be_bytes (to_be_bytes 2 x)).
    rewrite from_to_be_bytes. apply Z.mod_small. width_lia. }
  assert (u16_at (pointer_body mask x y) 3 = y) as ->.
  { change (u16_at (pointer_body mask x y) 3) with (from_be_bytes (to_be_bytes 2 y)).
    rewrite from_to_be_bytes. apply Z.mod_small. width_lia. }
  change (len (pointer_body mask x y) <? 5) with false. cbn iota.
  set (q1 := push _ q). change (MkInputQueue _ _ _ _) with (set_buttons mask q1).
  generalize (set_buttons mask q1). unfold button_changes.
  assert (Forall (λ bit, 0 ≤ bit) (seqZ 0 8)) as Hbits.
  { apply Forall_forall. intros b Hb%elem_of_seqZ. lia. }
  revert Hbits. generalize (seqZ 0 8). intros bits.
  induction 1 as [|bit bits Hbit _ IH]; intros q2; [done|].
  rewrite bind_cons, foldl_app. cbn [foldl].
  rewrite (push_button_at _ _ _ _ (iq_buttons q1)) by (try done; apply Z.lxor_spec). apply IH.
Qed.

(** What is held once a transition is heard. *)
Definition pressed_after (held : Z) (input : Input) : Z :=
  match input with
  | Button (MkButtonInput button true) => Z.setbit held (button - 1)
  | Button (MkButtonInput button false) => Z.clearbit held (button - 1)
  | _ => held
  end.

Lemma button_changes_bits was now n k held :
  0 ≤ k → 0 ≤ n →
  (∀ j, 0 ≤ j → Z.testbit held j = if j <? k then Z.testbit now j else Z.testbit was j) →
  ∀ j, 0 ≤ j →
  Z.testbit (foldl pressed_after held (bit ← seqZ k n;
    if eqb (Z.testbit was bit) (Z.testbit now bit) then []
    else [Button (MkButtonInput (bit + 1) (Z.testbit now bit))])) j =
  if j <? k + n then Z.testbit now j else Z.testbit was j.
Proof.
  remember (Z.to_nat n) as m eqn:Hm. revert n k held Hm.
  induction m as [|m IH]; intros n k held Hm Hk Hn Hheld j Hj.
  - rewrite seqZ_nil by lia. cbn. rewrite Hheld by done. by replace (k + n) with k by lia.
  - rewrite seqZ_cons by lia. rewrite bind_cons, foldl_app.
    replace (k + n) with (Z.succ k + Z.pred n) by lia. apply IH; [lia..| |done].
    intros i Hi. destruct (eqb (Z.testbit was k) (Z.testbit now k)) eqn:E.
    + apply eqb_prop in E. cbn [foldl]. rewrite Hheld by done.
      destruct (decide (i = k)) as [->|Hne]; [rewrite Z.ltb_irrefl, E; by case_match|].
      destruct (Z.ltb_spec i k), (Z.ltb_spec i (Z.succ k)); done || lia.
    + cbn [foldl pressed_after]. replace (k + 1 - 1) with k by lia.
      destruct (Z.testbit now k) eqn:Enow.
      * rewrite Z.setbit_eqb, Hheld by done. destruct (Z.eqb_spec k i) as [->|Hne]; cbn [orb].
        -- rewrite (proj2 (Z.ltb_lt _ _)) by lia. done.
        -- destruct (Z.ltb_spec i k), (Z.ltb_spec i (Z.succ k)); done || lia.
      * rewrite Z.clearbit_eqb, Hheld by done. destruct (Z.eqb_spec k i) as [->|Hne]; cbn [negb].
        -- rewrite andb_false_r, (proj2 (Z.ltb_lt _ _)) by lia. done.
        -- rewrite andb_true_r. destruct (Z.ltb_spec i k), (Z.ltb_spec i (Z.succ k)); done || lia.
Qed.

Lemma button_changes_held was now :
  is_u8 was → is_u8 now → foldl pressed_after was (button_changes was now) = now.
Proof.
  intros Hw Hn. apply Z.bits_inj'. intros j Hj. unfold button_changes.
  rewrite (button_changes_bits was now 8 0 was) by (lia || (intros i Hi; by rewrite (proj2 (Z.ltb_ge _ _)))).
  destruct (Z.ltb_spec j (0 + 8)); [done|].
  assert (∀ z, is_u8 z → Z.testbit z j = false) as Hz; [|by rewrite !Hz].
  intros z Hz. rewrite <- (Z.mod_small z (2 ^ 8)) by width_lia. apply Z.mod_pow2_bits_high. lia.
Qed.

Definition mask_after (mask : Z) (r : Report) : Z :=
  match r with PointerReport now _ _ => now | KeyReport _ _ => mask end.

(** Nothing a viewer does is lost in silence: of everything reported since the queue was last read,
    it holds the whole history in order, but for positions that a newer one replaced at once, unless
    it says that it overflowed, and it holds no more than its bound in any case. The transitions of
    that history, replayed on the buttons held before, end in the mask the viewer reported last. *)
Theorem queue_keeps_history (q : InputQueue) (reports : list Report)
    (He : iq_events q = []) (Hb : is_u8 (iq_buttons q)) (Ht : Forall report_typed reports) :
  let q' := foldl apply_report q reports in
  let h := history (iq_buttons q) reports in
  len (iq_events q') ≤ MAX_PENDING ∧
  (iq_overflowed q' = false → iq_events q' = settled h) ∧
  iq_buttons q' = foldl mask_after (iq_buttons q) reports ∧
  foldl pressed_after (iq_buttons q) h = iq_buttons q'.
Proof.
  assert (∀ reports q h, Forall report_typed reports → is_u8 (iq_buttons q) → holds_history q h →
    let q' := foldl apply_report q reports in
    holds_history q' (h ++ history (iq_buttons q) reports) ∧
    iq_buttons q' = foldl mask_after (iq_buttons q) reports ∧
    foldl pressed_after (iq_buttons q) (history (iq_buttons q) reports) = iq_buttons q') as H.
  { clear. intros reports. induction reports as [|r reports IH]; intros q h Ht Hb Hq; cbn [foldl].
    { rewrite app_nil_r. done. }
    apply Forall_cons in Ht as [Hr Ht]. destruct r as [mask x y|usage pressed]; cbn [apply_report].
    - rewrite (pointer_pushes _ _ _ _ Hr).
      destruct (push_holds (Pointer (MkPointerInput x y)) q h Hq) as (H1 & H2 & _ & _).
      rewrite H2. destruct (pushes_hold (button_changes (iq_buttons q) mask)
        (set_buttons mask (push (Pointer (MkPointerInput x y)) q)) _ H1) as (G1 & G2 & _ & _).
      cbn [iq_buttons set_buttons] in G2. destruct Hr as (Hm & _).
      destruct (IH _ _ Ht ltac:(by rewrite G2) G1) as (I1 & I2 & I3). rewrite G2 in I1, I2, I3.
      cbn [history mask_after foldl]. rewrite foldl_app. cbn [pressed_after].
      rewrite button_changes_held by done. split_and!; [|done..].
      by rewrite <- !app_assoc in I1.
    - destruct (push_holds (Key (MkKeyInput usage pressed)) q h Hq) as (H1 & H2 & _ & _).
      unfold key. destruct (IH _ _ Ht ltac:(by rewrite H2) H1) as (I1 & I2 & I3).
      rewrite H2 in I1, I2, I3. cbn [history mask_after foldl pressed_after]. split_and!; [|done..].
      by rewrite <- app_assoc in I1. }
  assert (holds_history q []) as Hq.
  { split; rewrite He; [by vm_compute|done]. }
  destruct (H reports q [] Ht Hb Hq) as ([H1 H2] & H3 & H4). by split_and!.
Qed.

(** Two rows of two pixels, of which the last has changed. *)
Lemma changed_regions_cover_witness :
  changed_regions (Some (replicate 16 (u8_byte 0))) (replicate 15 (u8_byte 0) ++ [u8_byte 1]) 2 2
    [MkRegion 1 1 1 1] = Some [MkRegion 0 0 2 2] ∧
  ∃ regions, changed_regions (Some (replicate 16 (u8_byte 0))) (replicate 15 (u8_byte 0) ++ [u8_byte 1]) 2 2
      [MkRegion 1 1 1 1] = Some regions ∧ covered 1 1 regions = true.
Proof.
  split; [vm_compute; reflexivity|].
  destruct (changed_regions_cover (Some (replicate 16 (u8_byte 0)))
    (replicate 15 (u8_byte 0) ++ [u8_byte 1]) 2 2 [MkRegion 1 1 1 1]) as (regions & H1 & _ & _ & H2).
  - by vm_compute.
  - by vm_compute.
  - by vm_compute.
  - exists regions. split; [exact H1|]. apply (H2 1 1); [by vm_compute..|]. right.
    split; [by vm_compute|]. by vm_compute.
Defined.

(** A press that moves, a key, and a release. *)
Lemma queue_keeps_history_witness :
  let reports := [PointerReport 0 1 1; PointerReport 1 2 2; KeyReport 4 true; PointerReport 0 2 3] in
  let q' := foldl apply_report InputQueue_new reports in
  iq_events q' = [Pointer (MkPointerInput 2 2); Button (MkButtonInput 1 true); Key (MkKeyInput 4 true);
                  Pointer (MkPointerInput 2 3); Button (MkButtonInput 1 false)] ∧
  foldl pressed_after 0 (history 0 reports) = 0.
Proof.
  cbv zeta. set (reports := [_; _; _; _]).
  destruct (queue_keeps_history InputQueue_new reports) as (_ & H2 & H3 & H4).
  - reflexivity.
  - by vm_compute.
  - repeat constructor; by vm_compute.
  - split; [rewrite H2; vm_compute; reflexivity|]. cbn [InputQueue_new iq_buttons] in H4. rewrite H4.
    vm_compute. reflexivity.
Defined.
