(* ===== verification/Viewer.v ===== *)
(** The remote framebuffer server ([atria-vnc/src/server.rs]): the sink that holds the newest frame
    and what it changed, and the thread that serves one viewer at a time. *)
From S2P Require Import Prelude.
From S2P Require Import Vocabulary.
From S2P Require Import Model.
From S2P Require Import Pixels.
From S2P Require Import Compose.
From S2P Require Import Rfb.

(** * Connections ([TcpStream])

    What arrives on a connection, in order: a byte, or nothing yet for one look at it. A connection
    at the end of the list has been closed by the other side. *)
Record Stream := MkStream {
  st_incoming : list (option byte);
  st_written : list byte;
  st_refuses : option IoError;
  st_nonblocking : bool;
}.

(** One byte: [Ok None] at the end. A blocking read waits where there is nothing yet. *)
Fixpoint read_one (nonblocking : bool) (incoming : list (option byte))
    : result IoError (option byte) * list (option byte) :=
  match incoming with
  | [] => (Ok None, [])
  | Some b :: rest => (Ok (Some b), rest)
  | None :: rest => if nonblocking then (Err IoWouldBlock, rest) else read_one nonblocking rest
  end.

(** [stream.read] into one byte. *)
Definition read_byte : ST Stream IoError (option byte) := λ st,
  let '(r, incoming) := read_one (st_nonblocking st) (st_incoming st) in
  (r, MkStream incoming (st_written st) (st_refuses st) (st_nonblocking st)).

(** [Read::read_exact], into so many bytes. *)
Fixpoint read_exact (n : nat) : ST Stream IoError (list byte) :=
  match n with
  | O => mret []
  | S n =>
      b ← read_byte;
      match b with
      | None => throw IoUnexpectedEof
      | Some b => rest ← read_exact n; mret (b :: rest)
      end
  end.

Definition write_all (bytes : list byte) : ST Stream IoError unit := λ st,
  match st_refuses st with
  | Some e => (Err e, st)
  | None => (Ok tt, MkStream (st_incoming st) (st_written st ++ bytes) None (st_nonblocking st))
  end.

Definition set_nonblocking (flag : bool) (st : Stream) : Stream :=
  MkStream (st_incoming st) (st_written st) (st_refuses st) flag.

(** [write_update]: the whole message in one write. *)
Definition write_update (regions : list Region) (frame : list byte) (width : Z)
    (format : PixelFormat) (hextile : bool) : ST Stream IoError unit :=
  write_all (update_message regions frame width format hextile).

(** * What the sink and the viewer's thread share *)

Inductive VncError :=
| UnsupportedVersion (version : list byte)
| UnsupportedSecurity (chosen : Z)
| VncIo (error : IoError).

Inductive Pending :=
| Whole
| Regions (regions : list Region).

Record Held := MkHeld {
  hd_id : Z;
  hd_frame : option SharedFrame;
  hd_pending : Pending;
}.

Definition Held_default : Held := MkHeld 0 None Whole.

(** The wakeup descriptor is readable once something has been written to it. *)
Record Latest := MkLatest {
  lt_held : Held;
  lt_input : InputQueue;
  lt_unplaced : gset Z;
  lt_woken : bool;
}.

Definition Latest_default : Latest := MkLatest Held_default InputQueue_new ∅ false.

Definition set_held (held : Held) (l : Latest) : Latest :=
  MkLatest held (lt_input l) (lt_unplaced l) (lt_woken l).

Definition MAX_CUT_TEXT : Z := Z.shiftl 1 20.
Definition MAX_REPORTED_KEYSYMS : Z := 64.
Definition MAX_PENDING_REGIONS : Z := 64.

(** * The sink *)

(** A rectangle of the output as one of the wire's, if it fits the wire's coordinates. *)
Definition wire_region (rect : Rect) : option Region :=
  x ← try_from u16_max (rect_x rect);
  y ← try_from u16_max (rect_y rect);
  width ← try_from u16_max (rect_width rect);
  height ← try_from u16_max (rect_height rect);
  Some (MkRegion x y width height).

Fixpoint push_rects (regions : list Region) (damage : list Rect) : Pending :=
  match damage with
  | [] => Regions regions
  | rect :: rest =>
      match wire_region rect with
      | None => Whole
      | Some region => push_rects (regions ++ [region]) rest
      end
  end.

Definition accumulate (pending : Pending) (damage : list Rect) : Pending :=
  match pending with
  | Whole => Whole
  | Regions regions =>
      if MAX_PENDING_REGIONS <? saturating_add_u usize_max (len regions) (len damage) then Whole
      else push_rects regions damage
  end.

Record VncSink := MkVncSink { vk_latest : Latest; vk_frames_composed : Z }.

#[global] Instance VncSink_sink {E} : FrameSink E VncSink := λ presented sink,
  let frames_composed := as_u64 (vk_frames_composed sink + 1) in
  let held := lt_held (vk_latest sink) in
  (Ok tt, MkVncSink
    (set_held (MkHeld frames_composed (Some (pd_frame presented))
                 (accumulate (hd_pending held) (pd_damage presented))) (vk_latest sink))
    frames_composed).

(** What the viewer did since this was last called, and the descriptor drained. *)
Definition take_input (sink : VncSink) : list Input * VncSink :=
  let l := vk_latest sink in
  let '(events, queue) := take_queue (lt_input l) in
  (events, MkVncSink (MkLatest (lt_held l) queue (lt_unplaced l) false) (vk_frames_composed sink)).

Definition on_input {A} (f : InputQueue → A * InputQueue) (sink : VncSink) : A * VncSink :=
  let l := vk_latest sink in
  let '(a, queue) := f (lt_input l) in
  (a, MkVncSink (MkLatest (lt_held l) queue (lt_unplaced l) (lt_woken l)) (vk_frames_composed sink)).

Definition stale_input : VncSink → bool * VncSink := on_input is_stale.
Definition sink_overflowed : VncSink → bool * VncSink := on_input overflowed.

(** * The viewer's thread *)

(** The newest frame if it is not the one shown, and everything that changed since this was called
    last. *)
Definition frame_after (shown : Z) (l : Latest) : option (Z * SharedFrame * Pending) * Latest :=
  let held := lt_held l in
  if hd_id held =? shown then (None, l)
  else match hd_frame held with
       | None => (None, l)
       | Some frame =>
           (Some (hd_id held, frame, hd_pending held),
            set_held (MkHeld (hd_id held) (hd_frame held) (Regions [])) l)
       end.

Definition forget_pending (l : Latest) : Latest :=
  set_held (MkHeld (hd_id (lt_held l)) (hd_frame (lt_held l)) Whole) l.

Definition queue (act : InputQueue → InputQueue) (l : Latest) : Latest :=
  MkLatest (lt_held l) (act (lt_input l)) (lt_unplaced l) true.

Definition record_pointer (body : list byte) : Latest → Latest := queue (pointer body).

Definition report_unplaced (keysym : Z) (l : Latest) : Latest :=
  if (MAX_REPORTED_KEYSYMS <=? Z.of_nat (size (lt_unplaced l))) ||
     bool_decide (keysym ∈ lt_unplaced l) then l
  else MkLatest (lt_held l) (lt_input l) ({[ keysym ]} ∪ lt_unplaced l) (lt_woken l).

Definition record_key (body : list byte) (l : Latest) : Latest :=
  let pressed := negb (u8_of body 0 =? 0) in
  let keysym := u32_at body 3 in
  match usage_of_keysym keysym with
  | None => report_unplaced keysym l
  | Some usage => queue (key usage pressed) l
  end.

(** RFB 3.8: version, security, then the description of the framebuffer. *)
Definition server_init (size : Z * Z) (name : list byte) : list byte :=
  to_be_bytes 2 size.1 ++ to_be_bytes 2 size.2 ++ pixel_format ++
  to_be_bytes 4 (as_u32 (len name)) ++ name.

Definition handshake (size : Z * Z) (name : list byte) : ST Stream VncError unit :=
  _ ← ST_map_err VncIo (write_all VERSION);
  theirs ← ST_map_err VncIo (read_exact 12);
  if negb (bool_decide (take 8 theirs = take 8 VERSION)) then throw (UnsupportedVersion theirs)
  else
    _ ← ST_map_err VncIo (write_all (u8_byte <$> [1; SECURITY_NONE]));
    chosen ← ST_map_err VncIo (read_exact 1);
    if negb (u8_of chosen 0 =? SECURITY_NONE) then throw (UnsupportedSecurity (u8_of chosen 0))
    else
      _ ← ST_map_err VncIo (write_all (to_be_bytes 4 0));
      _ ← ST_map_err VncIo (read_exact 1);
      ST_map_err VncIo (write_all (server_init size name)).

(** What [serve] keeps of the viewer it is serving. *)
Record Watching := MkWatching {
  wt_stream : Stream;
  wt_shown : Z;
  wt_asked : bool;
  wt_asked_whole : bool;
  wt_format : PixelFormat;
  wt_hextile : bool;
  wt_sent : option SharedFrame;
}.

Definition Watching_new (stream : Stream) : Watching :=
  MkWatching stream 0 false false declared false None.

Definition set_stream (st : Stream) (w : Watching) : Watching :=
  MkWatching st (wt_shown w) (wt_asked w) (wt_asked_whole w) (wt_format w) (wt_hextile w) (wt_sent w).
Definition set_asked (asked : bool) (w : Watching) : Watching :=
  MkWatching (wt_stream w) (wt_shown w) asked (wt_asked_whole w) (wt_format w) (wt_hextile w) (wt_sent w).
Definition set_asked_whole (whole : bool) (w : Watching) : Watching :=
  MkWatching (wt_stream w) (wt_shown w) (wt_asked w) whole (wt_format w) (wt_hextile w) (wt_sent w).
Definition set_format (format : PixelFormat) (w : Watching) : Watching :=
  MkWatching (wt_stream w) (wt_shown w) (wt_asked w) (wt_asked_whole w) format (wt_hextile w) (wt_sent w).
Definition set_hextile (hextile : bool) (w : Watching) : Watching :=
  MkWatching (wt_stream w) (wt_shown w) (wt_asked w) (wt_asked_whole w) (wt_format w) hextile (wt_sent w).

(** Reading the viewer's messages changes what is kept of it and what is shared. *)
Definition Listening : Type := Watching * Latest.

Definition on_stream {A} (m : ST Stream IoError A) : ST Listening IoError A := λ w,
  let '(r, st) := m (wt_stream w.1) in (r, (set_stream st w.1, w.2)).
Definition on_watching (f : Watching → Watching) : ST Listening IoError unit :=
  modify (λ w, (f w.1, w.2)).
Definition on_latest (f : Latest → Latest) : ST Listening IoError unit :=
  modify (λ w, (w.1, f w.2)).
Definition set_blocking (nonblocking : bool) : ST Listening IoError unit :=
  on_watching (λ w, set_stream (set_nonblocking nonblocking (wt_stream w)) w).

(** Read and thrown away in pieces of 4096. *)
Fixpoint discard_pieces (fuel : nat) (left_ : Z) : ST Stream IoError unit :=
  match fuel with
  | O => mret tt
  | S fuel =>
      if left_ <=? 0 then mret tt
      else
        let want := Z.min left_ 4096 in
        _ ← read_exact (Z.to_nat want);
        discard_pieces fuel (left_ - want)
  end.

Definition discard (length : Z) : ST Stream IoError unit :=
  if MAX_CUT_TEXT <? length then throw IoInvalidData
  else discard_pieces (Z.to_nat (length / 4096 + 1)) length.

(** A message whose length its number decides. *)
Definition consume_fixed (number : Z) (body : list byte) : ST Listening IoError unit :=
  _ ← (if number =? POINTER_EVENT then on_latest (record_pointer body) else mret tt);
  _ ← (if number =? KEY_EVENT then on_latest (record_key body) else mret tt);
  _ ← (if (number =? FRAMEBUFFER_UPDATE_REQUEST) && (u8_of body 0 =? 0)
       then _ ← on_watching (set_asked_whole true); on_latest (queue forget_held)
       else mret tt);
  if number =? SET_PIXEL_FORMAT
  then format ← lift (PixelFormat_decode (take 16 (drop 3 body))); on_watching (set_format format)
  else mret tt.

Definition consume_encodings : ST Listening IoError unit :=
  head ← on_stream (read_exact 3);
  let count := u16_at head 1 in
  body ← on_stream (read_exact (Z.to_nat (count * 4)));
  on_watching (set_hextile
    (existsb (λ listed, as_i32 (u32_at listed 0) =? HEXTILE) (chunks_exact_4 body))).

Definition consume_cut_text : ST Listening IoError unit :=
  head ← on_stream (read_exact 7);
  on_stream (discard (u32_at head 3)).

Definition consume_body (number : Z) : ST Listening IoError unit :=
  match client_message_length number with
  | Some length =>
      body ← on_stream (read_exact (Z.to_nat length));
      consume_fixed number body
  | None =>
      if number =? SET_ENCODINGS then consume_encodings
      else if number =? CLIENT_CUT_TEXT then consume_cut_text
      else throw IoInvalidData
  end.

(** One message, whose number has been read: its body is read with the connection blocking, which
    is undone however that ends. *)
Definition consume (number : Z) : ST Listening IoError unit := λ w,
  match (_ ← set_blocking false;
         _ ← (if number =? FRAMEBUFFER_UPDATE_REQUEST then on_watching (set_asked true) else mret tt);
         consume_body number) w with
  | (r, w) => (r, (set_blocking true w).2)
  end.

Fixpoint drain (fuel : nat) : ST Listening IoError unit := λ w,
  match fuel with
  | O => (Ok tt, w)
  | S fuel =>
      match on_stream read_byte w with
      | (Ok None, w) => (Err IoUnexpectedEof, w)
      | (Ok (Some number), w) => (_ ← consume (byte_val number); drain fuel) w
      | (Err IoWouldBlock, w) => (Ok tt, w)
      | (Err e, w) => (Err e, w)
      end
  end.

(** Every message begins with a byte, and there is one look at each that finds none. *)
Definition drain_fuel (w : Listening) : nat := S (length (st_incoming (wt_stream w.1))).

Definition drain_requests : ST Listening IoError unit := λ w,
  let w := (set_blocking true w).2 in
  match drain (drain_fuel w) w with
  | (r, w) => (r, (set_blocking false w).2)
  end.

(** * Serving

    The thread's loop is taken apart where it lets others in: taking a newcomer, reading what the
    viewer sent, answering it. *)
Record Server := MkServer {
  sv_size : Z * Z;
  sv_name : list byte;
  sv_listener : list (option Stream);
  sv_watching : option Watching;
  sv_running : bool;
  sv_sink : VncSink;
}.

Definition sv_latest (s : Server) : Latest := vk_latest (sv_sink s).

Definition set_latest (l : Latest) (s : Server) : Server :=
  MkServer (sv_size s) (sv_name s) (sv_listener s) (sv_watching s) (sv_running s)
    (MkVncSink l (vk_frames_composed (sv_sink s))).
Definition set_watching (w : option Watching) (s : Server) : Server :=
  MkServer (sv_size s) (sv_name s) (sv_listener s) w (sv_running s) (sv_sink s).
Definition set_listener (l : list (option Stream)) (s : Server) : Server :=
  MkServer (sv_size s) (sv_name s) l (sv_watching s) (sv_running s) (sv_sink s).
(** An index out of range unwinds the thread, which serves nobody from then on. *)
Definition panicked (s : Server) : Server :=
  MkServer (sv_size s) (sv_name s) (sv_listener s) None false (sv_sink s).

Definition whole (s : Server) : Region := MkRegion 0 0 (sv_size s).1 (sv_size s).2.

(** A waiting viewer, if there is one and it can be served. *)
Definition accept (s : Server) : option Stream * Server :=
  match sv_listener s with
  | [] => (None, s)
  | None :: rest => (None, set_listener rest s)
  | Some stream :: rest =>
      let s := set_listener rest s in
      match handshake (sv_size s) (sv_name s) stream with
      | (Ok _, stream) => (Some stream, set_latest (queue forget_held (sv_latest s)) s)
      | (Err _, _) => (None, s)
      end
  end.

(** A newcomer is served, and replaces whoever was. *)
Definition welcome (s : Server) : Server :=
  match accept s with
  | (None, s) => s
  | (Some stream, s) =>
      let s := match sv_watching s with
               | None => s
               | Some _ => set_latest (forget_pending (sv_latest s)) s
               end in
      set_watching (Some (Watching_new stream)) s
  end.

(** The viewer's messages are read; it is dropped if they cannot be. *)
Definition listen (s : Server) : Server :=
  match sv_watching s with
  | None => s
  | Some w =>
      match drain_requests (w, sv_latest s) with
      | (Ok _, (w, l)) => set_watching (Some w) (set_latest l s)
      | (Err _, (_, l)) => set_watching None (set_latest l s)
      end
  end.

(** What a viewer is sent of a frame: [None] where the comparison indexes out of range, and
    otherwise the viewer afterwards, if it is still there. *)
Definition send_changes (s : Server) (w : Watching) (id : Z) (frame : SharedFrame) (pending : Pending)
    : option (option Watching) :=
  let previous := if wt_asked_whole w then None else (λ f, pf_bytes (arc_frame f)) <$> wt_sent w in
  let bounds := match pending with Whole => [whole s] | Regions regions => regions end in
  let bytes := pf_bytes (arc_frame frame) in
  regions ← changed_regions previous bytes (sv_size s).1 (sv_size s).2 bounds;
  Some (
    if bool_decide (regions = []) then
      Some (MkWatching (wt_stream w) id (wt_asked w) (wt_asked_whole w) (wt_format w) (wt_hextile w)
              (Some frame))
    else
      match write_update regions bytes (sv_size s).1 (wt_format w) (wt_hextile w) (wt_stream w) with
      | (Ok _, stream) =>
          Some (MkWatching stream id false false (wt_format w) (wt_hextile w) (Some frame))
      | (Err _, _) => None
      end).

(** The viewer is answered if it asked and there is a frame it has not been shown. *)
Definition answer (s : Server) : Server :=
  match sv_watching s with
  | None => s
  | Some w =>
      if negb (wt_asked w) then s
      else match frame_after (wt_shown w) (sv_latest s) with
           | (None, _) => s
           | (Some (id, frame, pending), l) =>
               let s := set_latest l s in
               match send_changes s w id frame pending with
               | None => panicked s
               | Some w => set_watching w s
               end
           end
  end.

(** One pass of the loop: the outer one while there is no viewer, the inner one while there is. *)
Definition turn (s : Server) : Server :=
  if negb (sv_running s) then s
  else match sv_watching s with
       | None => welcome s
       | Some _ => answer (listen (welcome s))
       end.

(** [VncSink::bind], without the sockets: nothing composed and nobody watching. *)
Definition bind (size : Z * Z) (name : list byte) (listener : list (option Stream)) : Server :=
  MkServer size name listener None true (MkVncSink Latest_default 0).
