(* ===== verification/Asking.v ===== *)
(** What a viewer asks for ([atria-vnc/src/server.rs]): its messages as RFC 6143 lays them out, and
    the proof that reading them takes each of them whole, however it arrives. *)
From S2P Require Import Prelude.
From S2P Require Import Vocabulary.
From S2P Require Import Pixels.
From S2P Require Import Compose.
From S2P Require Import Rfb.
From S2P Require Import Picture.
From S2P Require Import Changes.
From S2P Require Import Viewer.

(** * A viewer's messages *)

Inductive ClientMessage :=
| SetPixelFormat (body : list byte)
| SetEncodings (encodings : list Z)
| UpdateRequest (incremental : bool) (x y width height : Z)
| KeyMessage (pressed : bool) (keysym : Z)
| PointerMessage (mask x y : Z)
| CutText (text : list byte).

Definition u8_of_bool (b : bool) : Z := if b then 1 else 0.

Definition message_number (m : ClientMessage) : Z :=
  match m with
  | SetPixelFormat _ => 0
  | SetEncodings _ => 2
  | UpdateRequest _ _ _ _ _ => 3
  | KeyMessage _ _ => 4
  | PointerMessage _ _ _ => 5
  | CutText _ => 6
  end.

Definition message_body (m : ClientMessage) : list byte :=
  match m with
  | SetPixelFormat body => replicate 3 (u8_byte 0) ++ body
  | SetEncodings encodings =>
      (u8_byte 0 :: to_be_bytes 2 (len encodings)) ++ flat_map (to_be_bytes 4) encodings
  | UpdateRequest incremental x y width height =>
      u8_byte (u8_of_bool incremental) ::
      to_be_bytes 2 x ++ to_be_bytes 2 y ++ to_be_bytes 2 width ++ to_be_bytes 2 height
  | KeyMessage pressed keysym =>
      u8_byte (u8_of_bool pressed) :: u8_byte 0 :: u8_byte 0 :: to_be_bytes 4 keysym
  | PointerMessage mask x y => pointer_body mask x y
  | CutText text => (replicate 3 (u8_byte 0) ++ to_be_bytes 4 (len text)) ++ text
  end.

Definition message_ok (m : ClientMessage) : Prop :=
  match m with
  | SetPixelFormat body => length body = 16%nat ∧ is_ok (PixelFormat_decode body) = true
  | SetEncodings encodings => len encodings ≤ u16_max ∧ Forall is_u32 encodings
  | KeyMessage _ keysym => is_u32 keysym
  | PointerMessage mask x y => is_u8 mask ∧ is_u16 x ∧ is_u16 y
  | UpdateRequest _ _ _ _ _ => True
  | CutText text => len text ≤ MAX_CUT_TEXT
  end.

(** What each means to the server. *)
Definition effect (w : Listening) (m : ClientMessage) : Listening :=
  match m with
  | SetPixelFormat body =>
      match PixelFormat_decode body with Ok f => (set_format f w.1, w.2) | Err _ => w end
  | SetEncodings encodings => (set_hextile (bool_decide (HEXTILE ∈ encodings)) w.1, w.2)
  | UpdateRequest true _ _ _ _ => (set_asked true w.1, w.2)
  | UpdateRequest false _ _ _ _ =>
      (set_asked_whole true (set_asked true w.1), queue forget_held w.2)
  | KeyMessage pressed keysym =>
      (w.1, match usage_of_keysym keysym with
            | Some usage => queue (key usage pressed) w.2
            | None => report_unplaced keysym w.2
            end)
  | PointerMessage mask x y => (w.1, queue (pointer (pointer_body mask x y)) w.2)
  | CutText _ => w
  end.

(** * How bytes arrive *)

(** [arrives bytes incoming rest]: the bytes, with delays before any of them, and then the rest. *)
Inductive arrives : list byte → list (option byte) → list (option byte) → Prop :=
| arrives_all rest : arrives [] rest rest
| arrives_now b bytes incoming rest :
    arrives bytes incoming rest → arrives (b :: bytes) (Some b :: incoming) rest
| arrives_late b bytes incoming rest :
    arrives (b :: bytes) incoming rest → arrives (b :: bytes) (None :: incoming) rest.

(** Messages one after another, each begun as soon as the one before it has ended, and then nothing
    yet. *)
Inductive messages_arrive : list ClientMessage → list (option byte) → list (option byte) → Prop :=
| messages_none rest : messages_arrive [] (None :: rest) rest
| messages_next m ms incoming mid rest :
    arrives (message_body m) incoming mid → messages_arrive ms mid rest →
    messages_arrive (m :: ms) (Some (u8_byte (message_number m)) :: incoming) rest.

Definition with_incoming (incoming : list (option byte)) (nonblocking : bool) (st : Stream) : Stream :=
  MkStream incoming (st_written st) (st_refuses st) nonblocking.

Lemma arrives_app bytes bytes' incoming rest :
  arrives (bytes ++ bytes') incoming rest →
  ∃ mid, arrives bytes incoming mid ∧ arrives bytes' mid rest.
Proof.
  intros H. remember (bytes ++ bytes') as all eqn:E. revert bytes E.
  induction H as [rest|b all incoming rest H IH|b all incoming rest H IH]; intros bytes E.
  - symmetry in E. apply app_eq_nil in E as [-> ->]. exists rest. split; constructor.
  - destruct bytes as [|b' bytes]; cbn in E.
    + exists (Some b :: incoming). rewrite <- E. by repeat constructor.
    + injection E as <- E. destruct (IH _ E) as (mid & H1 & H2). exists mid. by repeat constructor.
  - destruct bytes as [|b' bytes]; cbn in E.
    + exists (None :: incoming). rewrite <- E. by repeat constructor.
    + destruct (IH (b' :: bytes) E) as (mid & H1 & H2). exists mid. split; [|done]. by constructor.
Qed.

Lemma read_exact_arrives bytes incoming rest st :
  arrives bytes incoming rest →
  read_exact (length bytes) (with_incoming incoming false st) = (Ok bytes, with_incoming rest false st).
Proof.
  induction 1 as [rest|b bytes incoming rest H IH|b bytes incoming rest H IH]; [done| |].
  - cbn [length read_exact]. rewrite ST_bind_run. cbn. rewrite ST_bind_run.
    change (MkStream incoming (st_written st) (st_refuses st) false) with (with_incoming incoming false st).
    by rewrite IH.
  - rewrite <- IH. reflexivity.
Qed.

Definition at_stream (incoming : list (option byte)) (nonblocking : bool) (w : Listening) : Listening :=
  (set_stream (with_incoming incoming nonblocking (wt_stream w.1)) w.1, w.2).

Lemma on_stream_read bytes n incoming rest w :
  arrives bytes incoming rest → n = length bytes →
  on_stream (read_exact n) (at_stream incoming false w) = (Ok bytes, at_stream rest false w).
Proof.
  intros H ->. unfold on_stream, at_stream. cbn [fst snd].
  change (wt_stream (set_stream ?st w.1)) with st. by rewrite (read_exact_arrives _ _ rest).
Qed.

Lemma discard_arrives text incoming rest w :
  arrives text incoming rest → len text ≤ MAX_CUT_TEXT →
  on_stream (discard (len text)) (at_stream incoming false w) = (Ok tt, at_stream rest false w).
Proof.
  intros H Hmax. unfold discard. rewrite (proj2 (Z.ltb_ge _ _)) by done.
  assert (∀ fuel text incoming st, arrives text incoming rest → len text / 4096 < Z.of_nat fuel →
    discard_pieces fuel (len text) (with_incoming incoming false st) =
      (Ok tt, with_incoming rest false st)) as Hpieces.
  { clear. induction fuel as [|fuel IH]; intros text incoming st H Hf.
    - pose proof (Z.div_pos (len text) 4096 (len_nonneg text)). lia.
    - cbn [discard_pieces]. destruct (len text <=? 0) eqn:E.
      + apply Z.leb_le in E. destruct text; [|unfold len in E; cbn in E; lia].
        inversion H; subst. reflexivity.
      + apply Z.leb_gt in E. rewrite <- (take_drop (Z.to_nat (Z.min (len text) 4096)) text) in H.
        apply arrives_app in H as (mid & H1 & H2). rewrite ST_bind_run.
        assert (length (take (Z.to_nat (Z.min (len text) 4096)) text) =
          Z.to_nat (Z.min (len text) 4096)) as Hl by (rewrite length_take; unfold len; lia).
        rewrite <- Hl at 1. rewrite (read_exact_arrives _ _ mid) by done.
        replace (len text - Z.min (len text) 4096) with (len (drop (Z.to_nat (Z.min (len text) 4096)) text))
          by (unfold len; rewrite length_drop; lia).
        destruct (decide (len text ≤ 4096)) as [Hs|Hs].
        * assert (drop (Z.to_nat (Z.min (len text) 4096)) text = []) as Hd
            by (apply drop_ge; unfold len in *; lia).
          rewrite Hd in *. inversion H2; subst. by destruct fuel.
        * apply IH; [done|]. unfold len in *. rewrite length_drop.
          Z.div_mod_to_equations. lia. }
  unfold on_stream, at_stream. cbn [fst snd].
  change (wt_stream (set_stream ?st w.1)) with st.
  rewrite (Hpieces _ text); [done|done|].
  pose proof (Z.div_pos (len text) 4096 (len_nonneg text)). lia.
Qed.

(** * Each message is taken whole *)

Lemma unblocked incoming nonblocking w :
  set_blocking false (at_stream incoming nonblocking w) = (Ok tt, at_stream incoming false w).
Proof. reflexivity. Qed.
Lemma blocked incoming nonblocking w :
  set_blocking true (at_stream incoming nonblocking w) = (Ok tt, at_stream incoming true w).
Proof. reflexivity. Qed.

Lemma consume_at number incoming mid w w' :
  (_ ← (if number =? FRAMEBUFFER_UPDATE_REQUEST then on_watching (set_asked true) else mret tt);
   consume_body number) (at_stream incoming false w) = (Ok tt, at_stream mid false w') →
  consume number (at_stream incoming true w) = (Ok tt, at_stream mid true w').
Proof. intros H. unfold consume. by rewrite ST_bind_run, unblocked, H, blocked. Qed.

Lemma consume_quiet number incoming mid w w' :
  (number =? FRAMEBUFFER_UPDATE_REQUEST) = false →
  consume_body number (at_stream incoming false w) = (Ok tt, at_stream mid false w') →
  consume number (at_stream incoming true w) = (Ok tt, at_stream mid true w').
Proof. intros Hn H. apply consume_at. by rewrite Hn. Qed.

Lemma fixed_body number n bytes incoming mid w :
  client_message_length number = Some (Z.of_nat n) → arrives bytes incoming mid → length bytes = n →
  consume_body number (at_stream incoming false w) = consume_fixed number bytes (at_stream mid false w).
Proof.
  intros Hn Ha Hl. unfold consume_body. rewrite Hn, ST_bind_run.
  by rewrite (on_stream_read bytes _ _ mid) by (done || lia).
Qed.

Lemma length_to_be_bytes n z : length (to_be_bytes n z) = n.
Proof. unfold to_be_bytes. by rewrite length_rev, length_le_split. Qed.

Lemma u8_of_byte z rest : is_u8 z → u8_of (u8_byte z :: rest) 0 = z.
Proof.
  intros Hz. unfold u8_of. cbn. unfold byte_val, u8_byte.
  rewrite coqutil.Byte.byte.unsigned_of_Z. apply Z.mod_small. width_lia.
Qed.

Lemma u32_at_here z rest : is_u32 z → u32_at (to_be_bytes 4 z ++ rest) 0 = z.
Proof.
  intros Hz. unfold u32_at. rewrite drop_0, take_app_length'; [|by rewrite length_to_be_bytes].
  rewrite from_to_be_bytes. apply Z.mod_small. width_lia.
Qed.

Lemma u16_at_here z rest : is_u16 z → u16_at (to_be_bytes 2 z ++ rest) 0 = z.
Proof.
  intros Hz. unfold u16_at. rewrite drop_0, take_app_length'; [|by rewrite length_to_be_bytes].
  rewrite from_to_be_bytes. apply Z.mod_small. width_lia.
Qed.

(** Skipping what stands before. *)
Lemma u16_at_1 a l : u16_at (a :: l) 1 = u16_at l 0.
Proof. reflexivity. Qed.
Lemma u32_at_3 a b c l : u32_at (a :: b :: c :: l) 3 = u32_at l 0.
Proof. reflexivity. Qed.

Lemma chunks_of_words l :
  chunks_exact_4 (flat_map (to_be_bytes 4) l) = to_be_bytes 4 <$> l.
Proof.
  induction l as [|z l IH]; [done|]. cbn [flat_map fmap list_fmap]. rewrite <- IH.
  pose proof (length_to_be_bytes 4 z) as Hl.
  destruct (to_be_bytes 4 z) as [|a [|b [|c [|d [|]]]]]; done.
Qed.

Lemma as_i32_hextile z : is_u32 z → (as_i32 z =? HEXTILE) = true → z = HEXTILE.
Proof.
  intros [H1 H2] H%Z.eqb_eq. unfold u32_max in H2. revert H. unfold as_i32, HEXTILE, i32_max, u32_max.
  destruct (z <=? 2147483647); lia.
Qed.

Lemma consume_SetEncodings encodings incoming mid w :
  message_ok (SetEncodings encodings) → arrives (message_body (SetEncodings encodings)) incoming mid →
  consume 2 (at_stream incoming true w) = (Ok tt, at_stream mid true (effect w (SetEncodings encodings))).
Proof.
  intros [Hlen Htyped] Ha. cbn [message_body] in Ha. apply arrives_app in Ha as (m1 & H1 & H2).
  apply consume_quiet; [done|].
  change (consume_body 2) with consume_encodings. unfold consume_encodings. rewrite ST_bind_run.
  rewrite (on_stream_read _ _ _ m1 w H1) by (cbn [length]; by rewrite length_to_be_bytes).
  assert (u16_at (u8_byte 0 :: to_be_bytes 2 (len encodings)) 1 = len encodings) as ->.
  { rewrite u16_at_1, <- (app_nil_r (to_be_bytes _ _)). apply u16_at_here.
    pose proof (len_nonneg encodings). width_lia. }
  rewrite ST_bind_run, (on_stream_read _ _ _ mid w H2).
  2: { rewrite (length_flat_map _ 4) by (intros; apply length_to_be_bytes). unfold len. lia. }
  rewrite chunks_of_words. cbn [effect].
  assert (existsb (λ listed, as_i32 (u32_at listed 0) =? HEXTILE) (to_be_bytes 4 <$> encodings) =
    bool_decide (HEXTILE ∈ encodings)) as ->; [|done].
  apply eq_bool_prop_intro. rewrite bool_decide_spec, Is_true_true, existsb_exists. split.
  - intros (bytes & Hin & H5). apply list_elem_of_In, list_elem_of_fmap in Hin as (z & -> & Hz).
    rewrite Forall_forall in Htyped. specialize (Htyped z Hz).
    rewrite <- (app_nil_r (to_be_bytes 4 z)), u32_at_here in H5 by done.
    by rewrite <- (as_i32_hextile z Htyped H5).
  - intros Hin. exists (to_be_bytes 4 HEXTILE). split.
    + apply list_elem_of_In, list_elem_of_fmap. by exists HEXTILE.
    + by rewrite <- (app_nil_r (to_be_bytes 4 HEXTILE)), u32_at_here.
Qed.

Lemma consume_CutText text incoming mid w :
  message_ok (CutText text) → arrives (message_body (CutText text)) incoming mid →
  consume 6 (at_stream incoming true w) = (Ok tt, at_stream mid true (effect w (CutText text))).
Proof.
  intros Hlen Ha. cbn [message_body message_ok] in *. apply arrives_app in Ha as (m1 & H1 & H2).
  apply consume_quiet; [done|].
  change (consume_body 6) with consume_cut_text. unfold consume_cut_text. rewrite ST_bind_run.
  rewrite (on_stream_read _ _ _ m1 w H1) by (by rewrite length_app, length_to_be_bytes).
  assert (u32_at (replicate 3 (u8_byte 0) ++ to_be_bytes 4 (len text)) 3 = len text) as ->.
  { cbn [replicate app]. rewrite u32_at_3, <- (app_nil_r (to_be_bytes _ _)). apply u32_at_here.
    pose proof (len_nonneg text). unfold MAX_CUT_TEXT in Hlen. change (Z.shiftl 1 20) with 1048576 in Hlen.
    width_lia. }
  by apply discard_arrives.
Qed.

Lemma consume_SetPixelFormat body incoming mid w :
  message_ok (SetPixelFormat body) → arrives (message_body (SetPixelFormat body)) incoming mid →
  consume 0 (at_stream incoming true w) = (Ok tt, at_stream mid true (effect w (SetPixelFormat body))).
Proof.
  intros [Hl Hok] Ha. cbn [message_body] in Ha.
  apply consume_quiet; [done|].
  rewrite (fixed_body 0 19 _ _ mid w eq_refl Ha) by (by rewrite length_app, Hl).
  unfold consume_fixed. cbn [Z.eqb andb SET_PIXEL_FORMAT POINTER_EVENT KEY_EVENT FRAMEBUFFER_UPDATE_REQUEST].
  rewrite !ST_bind_run. cbn [mret ST_ret].
  change (drop 3 (replicate 3 (u8_byte 0) ++ body)) with body.
  rewrite take_ge by lia. cbn [effect]. by destruct (PixelFormat_decode body).
Qed.

Lemma u8_of_bool_ok b : is_u8 (u8_of_bool b).
Proof. destruct b; by split. Qed.

Lemma consume_UpdateRequest incremental x y width height incoming mid w :
  let m := UpdateRequest incremental x y width height in
  arrives (message_body m) incoming mid →
  consume 3 (at_stream incoming true w) = (Ok tt, at_stream mid true (effect w m)).
Proof.
  intros m Ha. apply consume_at. rewrite ST_bind_run.
  change ((if 3 =? FRAMEBUFFER_UPDATE_REQUEST then on_watching (set_asked true) else mret tt)
    (at_stream incoming false w)) with
    (Ok tt : result IoError unit, at_stream incoming false (set_asked true w.1, w.2)).
  cbv iota beta. rewrite (fixed_body 3 9 _ _ mid _ eq_refl Ha).
  2: { cbn [m message_body length]. by rewrite !length_app, !length_to_be_bytes. }
  unfold consume_fixed. cbn [m message_body]. rewrite u8_of_byte by apply u8_of_bool_ok.
  by destruct incremental.
Qed.

Lemma consume_KeyMessage pressed keysym incoming mid w :
  message_ok (KeyMessage pressed keysym) → arrives (message_body (KeyMessage pressed keysym)) incoming mid →
  consume 4 (at_stream incoming true w) = (Ok tt, at_stream mid true (effect w (KeyMessage pressed keysym))).
Proof.
  intros Hk Ha. apply consume_quiet; [done|]. cbn [message_ok message_body] in *.
  rewrite (fixed_body 4 7 _ _ mid _ eq_refl Ha) by (cbn [length]; by rewrite length_to_be_bytes).
  set (body := u8_byte _ :: _).
  assert (record_key body w.2 = match usage_of_keysym keysym with
     | Some usage => queue (key usage pressed) w.2 | None => report_unplaced keysym w.2 end) as Hrec.
  { unfold record_key, body. rewrite u8_of_byte by apply u8_of_bool_ok.
    rewrite u32_at_3, <- (app_nil_r (to_be_bytes 4 keysym)), u32_at_here by done.
    by destruct pressed. }
  cbn [effect]. rewrite <- Hrec. clearbody body. reflexivity.
Qed.

Lemma consume_PointerMessage mask x y incoming mid w :
  arrives (message_body (PointerMessage mask x y)) incoming mid →
  consume 5 (at_stream incoming true w) = (Ok tt, at_stream mid true (effect w (PointerMessage mask x y))).
Proof.
  intros Ha. apply consume_quiet; [done|]. cbn [message_body effect] in *.
  rewrite (fixed_body 5 5 _ _ mid _ eq_refl Ha).
  2: { unfold pointer_body. cbn [length]. by rewrite length_app, !length_to_be_bytes. }
  generalize (pointer_body mask x y). reflexivity.
Qed.

Lemma consume_message m incoming mid w :
  message_ok m → arrives (message_body m) incoming mid →
  consume (message_number m) (at_stream incoming true w) = (Ok tt, at_stream mid true (effect w m)).
Proof.
  intros Hm Ha. destruct m; cbn [message_number];
    auto using consume_SetPixelFormat, consume_SetEncodings, consume_UpdateRequest,
      consume_KeyMessage, consume_PointerMessage, consume_CutText.
Qed.

Lemma effect_stream w m : wt_stream (effect w m).1 = wt_stream w.1.
Proof.
  destruct m as [body|encodings|[] x y width height|pressed keysym|mask x y|text]; try done.
  cbn [effect]. by destruct (PixelFormat_decode body).
Qed.

Lemma drain_messages ms incoming rest : messages_arrive ms incoming rest → Forall message_ok ms →
  ∀ fuel w, (length ms < fuel)%nat →
  drain fuel (at_stream incoming true w) = (Ok tt, at_stream rest true (foldl effect w ms)).
Proof.
  induction 1 as [rest|m ms incoming mid rest Ha _ IH]; intros Hok [|fuel] w Hf; cbn [length] in Hf; try lia.
  - reflexivity.
  - apply Forall_cons in Hok as [Hm Hok]. cbn [drain].
    change (on_stream read_byte (at_stream (Some (u8_byte (message_number m)) :: incoming) true w)) with
      (Ok (Some (u8_byte (message_number m))) : result IoError (option byte), at_stream incoming true w).
    cbv iota beta. rewrite ST_bind_run.
    assert (byte_val (u8_byte (message_number m)) = message_number m) as ->.
    { unfold byte_val, u8_byte. rewrite coqutil.Byte.byte.unsigned_of_Z. apply Z.mod_small.
      destruct m; cbn; lia. }
    rewrite (consume_message m incoming mid w Hm Ha). cbn [foldl]. apply IH; [done|lia].
Qed.

Lemma messages_arrive_length ms incoming rest :
  messages_arrive ms incoming rest → (length ms < length incoming)%nat.
Proof.
  assert (∀ bytes incoming rest, arrives bytes incoming rest → (length rest ≤ length incoming)%nat) as Ha.
  { induction 1; cbn; lia. }
  induction 1 as [rest|m ms incoming mid rest H _ IH]; cbn; [lia|]. apply Ha in H. lia.
Qed.

Lemma foldl_effect_stream ms : ∀ w, wt_stream (foldl effect w ms).1 = wt_stream w.1.
Proof. induction ms as [|m ms IH]; intros w; [done|]. cbn [foldl]. by rewrite IH, effect_stream. Qed.

(** C8. Reading stays aligned with what is sent: whatever messages a viewer sends, one after another and
    each with delays anywhere inside it, the server takes every one of them whole, stops where
    nothing more has arrived, and has done for each exactly what it means, in order; what has not
    been sent yet is left, and the connection blocks again. Not among the messages are only a pixel
    format that cannot be decoded and a cut text longer than is taken, on which the server drops the
    viewer. *)
Theorem requests_aligned (ms : list ClientMessage) (rest : list (option byte)) (w : Listening)
    (Hok : Forall message_ok ms)
    (Ha : messages_arrive ms (st_incoming (wt_stream w.1)) rest) :
  drain_requests w =
    (Ok tt, (set_stream (MkStream rest (st_written (wt_stream w.1)) (st_refuses (wt_stream w.1)) false)
               (foldl effect w ms).1, (foldl effect w ms).2)).
Proof.
  unfold drain_requests. set (incoming := st_incoming (wt_stream w.1)) in *.
  assert ((set_blocking true w).2 = at_stream incoming true w) as -> by reflexivity.
  rewrite (drain_messages ms incoming rest Ha Hok).
  - rewrite (unblocked rest true). unfold at_stream. rewrite foldl_effect_stream. reflexivity.
  - unfold drain_fuel. pose proof (messages_arrive_length _ _ _ Ha). cbn. lia.
Qed.

(** * Reading ends *)

Definition unread (n : nat) (w : Listening) : Prop := (length (st_incoming (wt_stream w.1)) ≤ n)%nat.

Lemma read_one_shorter nonblocking incoming :
  (length (read_one nonblocking incoming).2 ≤ length incoming)%nat ∧
  ∀ b, (read_one nonblocking incoming).1 = Ok (Some b) →
    (length (read_one nonblocking incoming).2 < length incoming)%nat.
Proof.
  induction incoming as [|[b|] incoming [IH1 IH2]]; cbn; [split; [lia|done]|split; [lia|lia]|].
  destruct nonblocking; cbn; [split; [lia|done]|]. split; [lia|]. intros b Hb%IH2. lia.
Qed.

Section Unread.
Context (n : nat).

Lemma read_byte_unread : preserves (λ st, (length (st_incoming st) ≤ n)%nat) read_byte.
Proof.
  intros st Hst. unfold read_byte. pose proof (read_one_shorter (st_nonblocking st) (st_incoming st)) as [H _].
  destruct (read_one _ _) as [r incoming]. cbn in *. lia.
Qed.

Lemma read_exact_unread k : preserves (λ st, (length (st_incoming st) ≤ n)%nat) (read_exact k).
Proof.
  induction k as [|k IH]; cbn [read_exact]; [auto with preserves|].
  apply preserves_bind; [apply read_byte_unread|]. intros [b|]; [|auto with preserves].
  apply preserves_bind; auto with preserves.
Qed.

Lemma discard_unread k : preserves (λ st, (length (st_incoming st) ≤ n)%nat) (discard k).
Proof.
  unfold discard. case_match; [auto with preserves|]. generalize (Z.to_nat (k / 4096 + 1)). intros fuel.
  revert k H. induction fuel as [|fuel IH]; intros k Hk; cbn [discard_pieces]; [auto with preserves|].
  case_match; [auto with preserves|]. apply preserves_bind; [apply read_exact_unread|].
  intros _. apply IH. apply Z.ltb_ge in Hk. apply Z.ltb_ge. lia.
Qed.

Lemma unread_on_stream {A} (m : ST Stream IoError A) :
  preserves (λ st, (length (st_incoming st) ≤ n)%nat) m → preserves (unread n) (on_stream m).
Proof. intros Hm w Hw. unfold on_stream. specialize (Hm _ Hw). by destruct (m _). Qed.

Lemma unread_on_watching f :
  (∀ w, st_incoming (wt_stream (f w)) = st_incoming (wt_stream w)) → preserves (unread n) (on_watching f).
Proof. intros Hf w Hw. unfold unread. cbn. by rewrite Hf. Qed.

Lemma unread_on_latest f : preserves (unread n) (on_latest f).
Proof. intros w Hw. exact Hw. Qed.

Lemma unread_consume number : preserves (unread n) (consume number).
Proof.
  assert (preserves (unread n) (consume_body number)) as Hbody.
  { unfold consume_body, consume_fixed, consume_encodings, consume_cut_text.
    repeat first
      [ apply preserves_bind; [|intros ?]
      | apply unread_on_stream; first [apply read_exact_unread | apply discard_unread]
      | apply unread_on_latest
      | by apply unread_on_watching
      | progress auto with preserves
      | case_match ]. }
  assert (∀ flag, preserves (unread n) (set_blocking flag)) as Hset by (intros flag; by apply unread_on_watching).
  assert (preserves (unread n) (_ ← set_blocking false;
         _ ← (if number =? FRAMEBUFFER_UPDATE_REQUEST then on_watching (set_asked true) else mret tt);
         consume_body number)) as H.
  { apply preserves_bind; [auto|intros _]. apply preserves_bind; [|auto].
    case_match; [by apply unread_on_watching|auto with preserves]. }
  intros w Hw. unfold consume. specialize (H w Hw). revert H.
  match goal with |- context [match ?m w with _ => _ end] => destruct (m w) as [r w'] end. apply Hset.
Qed.
End Unread.

Lemma drain_more fuel : ∀ fuel' w, (drain_fuel w ≤ fuel)%nat → (drain_fuel w ≤ fuel')%nat →
  drain fuel w = drain fuel' w.
Proof.
  induction fuel as [|fuel IH]; intros [|fuel'] w H H'; unfold drain_fuel in *; try lia.
  cbn [drain].
  pose proof (read_one_shorter (st_nonblocking (wt_stream w.1)) (st_incoming (wt_stream w.1))) as [_ Hlt].
  unfold on_stream, read_byte. destruct (read_one _ _) as [[[number|]|[]] incoming]; try done.
  cbn [fst snd] in *. specialize (Hlt number eq_refl). rewrite !ST_bind_run.
  set (w1 := (set_stream _ w.1, w.2)).
  pose proof (unread_consume (length incoming) (byte_val number) w1 (le_n _)) as Hle.
  destruct (consume (byte_val number) w1) as [[[]|e] w2]; [|done]. unfold unread in Hle. cbn in Hle.
  apply IH; lia.
Qed.

(** Reading ends: each message takes at least a byte of what has arrived, so as much fuel as there
    are bytes is enough, and the reading loop is what it is without any bound: look for a byte; at
    none yet, done; at the end, the viewer has left; and otherwise consume the message it begins
    and go on. *)
Theorem drain_unfold (w : Listening) :
  drain (drain_fuel w) w =
    match on_stream read_byte w with
    | (Ok None, w) => (Err IoUnexpectedEof, w)
    | (Ok (Some number), w) =>
        match consume (byte_val number) w with
        | (Ok _, w) => drain (drain_fuel w) w
        | (Err e, w) => (Err e, w)
        end
    | (Err IoWouldBlock, w) => (Ok tt, w)
    | (Err e, w) => (Err e, w)
    end.
Proof.
  unfold drain_fuel at 1. cbn [drain].
  pose proof (read_one_shorter (st_nonblocking (wt_stream w.1)) (st_incoming (wt_stream w.1))) as [_ Hlt].
  unfold on_stream, read_byte. destruct (read_one _ _) as [[[number|]|[]] incoming]; try done.
  cbn [fst snd] in *. specialize (Hlt number eq_refl). rewrite ST_bind_run.
  set (w1 := (set_stream _ w.1, w.2)).
  pose proof (unread_consume (length incoming) (byte_val number) w1 (le_n _)) as Hle.
  destruct (consume (byte_val number) w1) as [[[]|e] w2]; [|done]. unfold unread in Hle. cbn in Hle.
  apply drain_more; unfold drain_fuel; lia.
Qed.

(** A key pressed, delayed in the middle, and a request for the whole frame; nothing of a third
    message yet. *)
Definition byte_now (z : Z) : option byte := Some (u8_byte z).
Definition arriving : list (option byte) :=
  (byte_now <$> [4; 1; 0; 0]) ++ None :: (byte_now <$> [0; 0; 0; 0x61]) ++
  (byte_now <$> [3; 0; 0; 0; 0; 0; 0; 1; 0; 1]) ++ [None; byte_now 5].

Lemma key_arrives rest :
  arrives (message_body (KeyMessage true 0x61))
    ((byte_now <$> [1; 0; 0]) ++ None :: (byte_now <$> [0; 0; 0; 0x61]) ++ rest) rest.
Proof. vm_compute. repeat first [apply arrives_now | apply arrives_late]. apply arrives_all. Qed.

Lemma request_arrives rest :
  arrives (message_body (UpdateRequest false 0 0 1 1))
    ((byte_now <$> [0; 0; 0; 0; 0; 0; 1; 0; 1]) ++ rest) rest.
Proof. vm_compute. repeat apply arrives_now. apply arrives_all. Qed.

Lemma requests_aligned_witness :
  let w := (Watching_new (MkStream arriving [] None false), Latest_default) in
  ∃ w', drain_requests w = (Ok tt, w') ∧ wt_asked_whole w'.1 = true ∧
    st_incoming (wt_stream w'.1) = [byte_now 5] ∧
    iq_events (lt_input w'.2) = [Key (MkKeyInput 4 true)].
Proof.
  cbv zeta. eexists. split.
  - apply (requests_aligned [KeyMessage true 0x61; UpdateRequest false 0 0 1 1] [byte_now 5]).
    + repeat constructor; by vm_compute.
    + apply (messages_next (KeyMessage true 0x61) _ _ _ _ (key_arrives _)).
      apply (messages_next (UpdateRequest false 0 0 1 1) _ _ _ _ (request_arrives _)).
      apply messages_none.
  - split_and!; vm_compute; reflexivity.
Defined.
