(* ===== verification/Watching.v ===== *)
(** What a viewer sees ([atria-vnc]): whatever is composed, whoever connects, and however the thread
    that serves them and the sink that is given the frames interleave, a viewer shows the frame it
    was last sent, and once answered the newest. *)
From S2P Require Import Prelude.
From S2P Require Import Vocabulary.
From S2P Require Import Model.
From S2P Require Import Pixels.
From S2P Require Import Compose.
From S2P Require Import Frames.
From S2P Require Import Rfb.
From S2P Require Import Picture.
From S2P Require Import Changes.
From S2P Require Import Viewer.

(** * Frames and damage of a screen *)

Definition bytes_of_frame (f : SharedFrame) : list byte := pf_bytes (arc_frame f).

(** A frame of four bytes a pixel that has the size the server announces. *)
Definition screen_frame (size : Z * Z) (f : SharedFrame) : Prop :=
  len (bytes_of_frame f) = size.1 * size.2 * 4.

Definition in_size (size : Z * Z) (x y : Z) : Prop := 0 ≤ x < size.1 ∧ 0 ≤ y < size.2.

(** The pixels two frames of a screen differ in. *)
Definition changed_at (size : Z * Z) (was now : SharedFrame) (x y : Z) : Prop :=
  frame_at (bytes_of_frame was) size.1 x y ≠ frame_at (bytes_of_frame now) size.1 x y.

(** Damage that names every pixel two frames differ in. *)
Definition damage_tells (size : Z * Z) (was now : SharedFrame) (damage : list Rect) : Prop :=
  ∀ x y, in_size size x y → changed_at size was now x y → ∃ rect, rect ∈ damage ∧ in_rect rect x y.

(** What a viewer has still to be told names every pixel in which what it was sent differs from the
    newest frame. *)
Definition pending_tells (size : Z * Z) (was now : SharedFrame) (pending : Pending) : Prop :=
  match pending with
  | Whole => True
  | Regions regions => ∀ x y, in_size size x y → changed_at size was now x y → covered x y regions = true
  end.

Lemma wire_region_in rect r x y :
  wire_region rect = Some r → in_rect rect x y → in_region x y r = true.
Proof.
  unfold wire_region. intros H [Hx Hy].
  repeat (apply bind_Some in H as (? & Hconv & H);
    unfold try_from in Hconv; case_match; [|done]; injection Hconv as <-).
  injection H as <-. unfold in_region. cbn. lia.
Qed.

Lemma push_rects_covers damage : ∀ regions,
  match push_rects regions damage with
  | Whole => True
  | Regions all => ∀ x y,
      (covered x y regions = true → covered x y all = true) ∧
      ∀ rect, rect ∈ damage → in_rect rect x y → covered x y all = true
  end.
Proof.
  induction damage as [|rect damage IH]; intros regions; cbn [push_rects].
  - intros x y. split; [done|]. intros rect Hr. by apply not_elem_of_nil in Hr.
  - destruct (wire_region rect) as [r|] eqn:Hr; [|done].
    specialize (IH (regions ++ [r])). destruct (push_rects _ _) as [|all]; [done|].
    intros x y. destruct (IH x y) as [H1 H2]. split.
    + intros Hc. apply H1. by rewrite covered_app, Hc.
    + intros rect' [->|Hin]%elem_of_cons Hxy; [|by eapply H2].
      apply H1. rewrite covered_app. unfold covered at 2. cbn [existsb].
      rewrite (wire_region_in _ _ _ _ Hr Hxy). by rewrite orb_true_r.
Qed.

Lemma accumulate_tells size was before now pending damage :
  pending_tells size was before pending → damage_tells size before now damage →
  pending_tells size was now (accumulate pending damage).
Proof.
  intros Hp Hd. destruct pending as [|regions]; [done|]. cbn [accumulate].
  destruct (MAX_PENDING_REGIONS <? _); [done|].
  pose proof (push_rects_covers damage regions) as Hpush.
  destruct (push_rects regions damage) as [|all]; [done|]. intros x y Hxy Hch.
  destruct (Hpush x y) as [H1 H2].
  destruct (decide (frame_at (bytes_of_frame was) size.1 x y = frame_at (bytes_of_frame before) size.1 x y))
    as [Heq|Hne].
  - destruct (Hd x y Hxy) as (rect & Hr & Hin); [|by eapply H2].
    unfold changed_at in *. by rewrite <- Heq.
  - apply H1. by apply (Hp x y).
Qed.

(** * What runs *)

(** The picture is what the viewer shows: it reads whatever is written to it as an update, in the
    format it last asked for. *)
Definition viewer_reads (s s' : Server) (picture picture' : Picture) : Prop :=
  match sv_watching s, sv_watching s' with
  | Some w, Some w' => ∃ bytes,
      st_written (wt_stream w') = st_written (wt_stream w) ++ bytes ∧
      if bool_decide (bytes = []) then picture' = picture
      else read_update (wt_format w) picture bytes = (Ok picture', [])
  | _, _ => picture' = picture
  end.

(** A frame handed to the sink: of the size of the screen, with damage that tells how it differs
    from the one before. *)
Definition frame_given (s : Server) (presented : Presented) : Prop :=
  screen_frame (sv_size s) (pd_frame presented) ∧
  ∀ before, hd_frame (lt_held (sv_latest s)) = Some before →
    damage_tells (sv_size s) before (pd_frame presented) (pd_damage presented).

Definition set_sink (sink : VncSink) (s : Server) : Server :=
  MkServer (sv_size s) (sv_name s) (sv_listener s) (sv_watching s) (sv_running s) sink.

Section Run.
(** The formats viewers ask for. *)
Context (asked_for : PixelFormat → Prop).
Context (size : Z * Z) (name : list byte).

(** What can be reached, and what the viewer then shows. The steps are the two threads' critical
    sections, in any order. *)
Inductive run : Server → Picture → Prop :=
| run_bind listener picture : run (bind size name listener) picture
| run_present s picture presented sink :
    run s picture → frame_given s presented → vk_frames_composed (sv_sink s) < u64_max →
    (sink_present presented : ST VncSink unit unit) (sv_sink s) = (Ok tt, sink) →
    run (set_sink sink s) picture
| run_take s picture : run s picture → run (set_sink (take_input (sv_sink s)).2 s) picture
| run_stale s picture : run s picture → run (set_sink (stale_input (sv_sink s)).2 s) picture
| run_overflowed s picture : run s picture → run (set_sink (sink_overflowed (sv_sink s)).2 s) picture
| run_welcome s picture picture' :
    run s picture → ((accept s).1 = None → picture' = picture) →
    run (welcome s) picture'
| run_listen s picture :
    run s picture → (∀ w, sv_watching (listen s) = Some w → asked_for (wt_format w)) →
    run (listen s) picture
| run_answer s picture picture' :
    run s picture → viewer_reads s (answer s) picture picture' → run (answer s) picture'.

Context (Hdeclared : asked_for declared) (Hproduced : ∀ format, asked_for format → produced format).
Context (Hwidth : is_u16 size.1) (Hheight : is_u16 size.2).
Context (Htiles : tile_count size.1 size.2 ≤ u16_max).

(** Every pixel of the screen shows the pixel of the frame, in a format that was asked for. *)
Definition shows (picture : Picture) (f : SharedFrame) : Prop :=
  ∀ x y, in_size size x y → ∃ format, asked_for format ∧
    picture x y = shown format (frame_at (bytes_of_frame f) size.1 x y).

Definition newest (s : Server) : option SharedFrame := hd_frame (lt_held (sv_latest s)).

Record coherent (s : Server) (picture : Picture) : Prop := {
  co_size : sv_size s = size;
  co_running : sv_running s = true;
  co_counted : 0 ≤ vk_frames_composed (sv_sink s) ∧
    hd_id (lt_held (sv_latest s)) = vk_frames_composed (sv_sink s) ∧
    ∀ w, sv_watching s = Some w → wt_shown w ≤ vk_frames_composed (sv_sink s);
  co_frame : ∀ f, newest s = Some f → screen_frame size f;
  co_format : ∀ w, sv_watching s = Some w → asked_for (wt_format w);
  co_shows : ∀ w f, sv_watching s = Some w → wt_sent w = Some f →
    screen_frame size f ∧ shows picture f ∧
    ∃ now, newest s = Some now ∧ pending_tells size f now (hd_pending (lt_held (sv_latest s)));
}.

(** The regions found for a screen's frame all fit it, so all of them are sent. *)
Lemma screen_fits (f : SharedFrame) regions :
  screen_frame size f → Forall (within size.1 size.2) regions → ∀ x y, in_size size x y →
  covered x y (fitting regions (bytes_of_frame f) size.1) = covered x y regions.
Proof.
  intros Hf Hon x y [Hx Hy]. unfold fitting, covered. unfold screen_frame in Hf. rewrite Hf.
  replace (size.1 * 4 =? 0) with false by lia.
  replace (size.1 * size.2 * 4 / (size.1 * 4)) with size.2
    by (apply Z.div_unique_exact; lia).
  f_equal. induction Hon as [|r regions (Hr & Ha & Hd) Hon IH]; [done|].
  rewrite filter_cons, IH. rewrite decide_True; [done|].
  unfold fits. apply andb_true_iff. rewrite !Z.leb_le. lia.
Qed.

(** ** Each step keeps the state coherent *)

Lemma coherent_held s s' picture :
  coherent s picture → sv_size s' = sv_size s → sv_running s' = sv_running s →
  sv_watching s' = sv_watching s → lt_held (sv_latest s') = lt_held (sv_latest s) →
  vk_frames_composed (sv_sink s') = vk_frames_composed (sv_sink s) →
  coherent s' picture.
Proof.
  intros [H1 H2 Hcnt H3 H4 H5] E1 E2 E3 E4 E5. unfold newest in *.
  split; unfold newest; rewrite ?E1, ?E2, ?E3, ?E4, ?E5; done.
Qed.

Lemma coherent_present s picture presented sink :
  coherent s picture → frame_given s presented → vk_frames_composed (sv_sink s) < u64_max →
  (sink_present presented : ST VncSink unit unit) (sv_sink s) = (Ok tt, sink) →
  coherent (set_sink sink s) picture.
Proof.
  intros [H1 H2 Hcnt H3 H4 H5] [Hs Hd] Hmax [= <-]. rewrite H1 in *. split; try done.
  - destruct Hcnt as (C1 & C2 & C3). cbn.
    assert (as_u64 (vk_frames_composed (sv_sink s) + 1) = vk_frames_composed (sv_sink s) + 1) as ->
      by (apply Z.mod_small; width_lia).
    split_and!; [lia|done|]. intros w Hw%C3. lia.
  - intros f [= <-]. done.
  - intros w f Hw Hf. destruct (H5 w f Hw Hf) as (Hsf & Hshow & now & Hnow & Htell).
    split_and!; [done..|]. exists (pd_frame presented). split; [done|].
    cbn. eapply accumulate_tells; [exact Htell|]. by apply Hd.
Qed.

Lemma accept_keeps s :
  sv_size (accept s).2 = sv_size s ∧ sv_running (accept s).2 = sv_running s ∧
  sv_watching (accept s).2 = sv_watching s ∧
  lt_held (sv_latest (accept s).2) = lt_held (sv_latest s) ∧
  vk_frames_composed (sv_sink (accept s).2) = vk_frames_composed (sv_sink s).
Proof.
  unfold accept. destruct (sv_listener s) as [|[stream|] rest]; [done| |done].
  by destruct (handshake _ _ stream) as [[]].
Qed.

Lemma coherent_welcome s picture picture' :
  coherent s picture → ((accept s).1 = None → picture' = picture) → coherent (welcome s) picture'.
Proof.
  intros Hc Hp. pose proof (accept_keeps s) as (E1 & E2 & E3 & E4 & E5). unfold welcome.
  destruct (accept s) as [[stream|] s1]; cbn [fst snd] in *.
  - destruct Hc as [H1 H2 Hcnt H3 H4 H5]. unfold newest in *. rewrite <- E4 in H3, H5. rewrite <- E4, <- E5 in Hcnt.
    destruct Hcnt as (C1 & C2 & C3).
    split; unfold newest; destruct (sv_watching s1); cbn;
      first [ congruence | intros f Hf; apply H3; exact Hf | intros ? [= <-]; done
            | intros ? f [= <-]; done | split_and!; [done..|intros ? [= <-]; cbn; lia] ].
  - rewrite (Hp eq_refl). by apply (coherent_held s).
Qed.

(** Listening leaves alone what was sent and what has been composed. *)
Definition unsent (sent : option SharedFrame) (shown : Z) (held : Held) (w : Listening) : Prop :=
  wt_sent w.1 = sent ∧ wt_shown w.1 = shown ∧ lt_held w.2 = held.

Section Unsent.
Context (sent : option SharedFrame) (shown : Z) (held : Held).

Lemma unsent_on_stream {A} (m : ST Stream IoError A) : preserves (unsent sent shown held) (on_stream m).
Proof. intros w Hw. unfold on_stream. destruct (m _). exact Hw. Qed.
Lemma unsent_on_watching f :
  (∀ w, wt_sent (f w) = wt_sent w ∧ wt_shown (f w) = wt_shown w) → preserves (unsent sent shown held) (on_watching f).
Proof. intros Hf w (H1 & H2 & H3). destruct (Hf w.1) as [E1 E2]. split_and!; cbn; congruence. Qed.
Lemma unsent_on_latest f :
  (∀ l, lt_held (f l) = lt_held l) → preserves (unsent sent shown held) (on_latest f).
Proof. intros Hf w (H1 & H2 & H3). split_and!; [done..|]. cbn. by rewrite Hf. Qed.
Lemma unsent_set_blocking flag : preserves (unsent sent shown held) (set_blocking flag).
Proof. by apply unsent_on_watching. Qed.
Lemma record_key_held body l : lt_held (record_key body l) = lt_held l.
Proof.
  unfold record_key, report_unplaced. destruct (usage_of_keysym _); [done|].
  by destruct (_ || _).
Qed.

Hint Resolve unsent_on_stream unsent_set_blocking record_key_held : preserves.

Lemma unsent_consume_body number : preserves (unsent sent shown held) (consume_body number).
Proof.
  unfold consume_body, consume_fixed, consume_encodings, consume_cut_text.
  repeat first
    [ apply preserves_bind; [|intros ?]
    | apply unsent_on_watching; by intros []
    | apply unsent_on_latest; first [by intros [] | by auto with preserves]
    | progress auto with preserves
    | case_match ].
Qed.

Lemma unsent_consume number : preserves (unsent sent shown held) (consume number).
Proof.
  assert (preserves (unsent sent shown held) (_ ← set_blocking false;
         _ ← (if number =? FRAMEBUFFER_UPDATE_REQUEST then on_watching (set_asked true) else mret tt);
         consume_body number)) as H.
  { apply preserves_bind; [auto with preserves|intros _].
    apply preserves_bind; [case_match; [by apply unsent_on_watching|auto with preserves]|intros _].
    apply unsent_consume_body. }
  intros w Hw. unfold consume. specialize (H w Hw). revert H.
  match goal with |- context [match ?m w with _ => _ end] => destruct (m w) as [r w'] end.
  apply (unsent_set_blocking true w').
Qed.

Lemma unsent_drain fuel : preserves (unsent sent shown held) (drain fuel).
Proof.
  induction fuel as [|fuel IH]; intros w Hw; [done|]. cbn [drain].
  pose proof (unsent_on_stream read_byte w Hw) as H1.
  destruct (on_stream read_byte w) as [[[number|]|[]] w1]; try exact H1.
  revert H1. apply (preserves_bind _ (consume (byte_val number)) (λ _, drain fuel)); [|auto].
  apply unsent_consume.
Qed.

Lemma unsent_drain_requests : preserves (unsent sent shown held) drain_requests.
Proof.
  intros w Hw. unfold drain_requests. apply (unsent_set_blocking true) in Hw.
  pose proof (unsent_drain (drain_fuel (set_blocking true w).2) _ Hw) as H.
  destruct (drain _ _) as [r w']. by apply (unsent_set_blocking false w').
Qed.
End Unsent.

Lemma coherent_listen s picture :
  coherent s picture → (∀ w, sv_watching (listen s) = Some w → asked_for (wt_format w)) →
  coherent (listen s) picture.
Proof.
  intros Hc Hfmt. unfold listen in *. destruct (sv_watching s) as [w|] eqn:Hw; [|done].
  destruct (unsent_drain_requests (wt_sent w) (wt_shown w) (lt_held (sv_latest s)) (w, sv_latest s))
    as (Hsent & Hshown & Hheld); [done|].
  destruct (drain_requests _) as [r [w1 l]]. cbn [fst snd] in *. destruct Hc as [H1 H2 Hcnt H3 H4 H5].
  unfold newest in *. rewrite <- Hheld in H3, H5.
  destruct Hcnt as (C1 & C2 & C3).
  destruct r as [[]|e]; split; try done; cbn; try (rewrite Hheld; split_and!; [done..|]).
  - intros w' [= <-]. rewrite Hshown. by apply C3.
  - intros w' f [= <-] Hf. apply (H5 w f Hw). by rewrite <- Hsent.
  - done.
Qed.

(** ** Answering *)

Lemma send_changes_run s picture w id frame pending :
  coherent s picture → sv_watching s = Some w → screen_frame size frame →
  (∀ f, wt_sent w = Some f → pending_tells size f frame pending) →
  ∃ r, send_changes s w id frame pending = Some r ∧
    (st_refuses (wt_stream w) = None → is_Some r) ∧
    ∀ w', r = Some w' →
      wt_shown w' = id ∧ wt_sent w' = Some frame ∧ wt_format w' = wt_format w ∧
      ∃ bytes, st_written (wt_stream w') = st_written (wt_stream w) ++ bytes ∧
        ∃ picture',
        (if bool_decide (bytes = []) then picture' = picture
         else read_update (wt_format w) picture bytes = (Ok picture', [])) ∧
        shows picture' frame.
Proof.
  intros Hc Hw Hf Htell. pose proof Hc as [H1 H2 Hcnt H3 H4 H5]. unfold send_changes.
  set (previous := if wt_asked_whole w then None else _).
  set (bounds := match pending with Whole => [whole s] | Regions regions => regions end).
  rewrite H1. fold (bytes_of_frame frame).
  destruct (changes_safe previous (bytes_of_frame frame) size.1 size.2 bounds Hwidth Hheight Hf)
    as (regions & Hr & Hon & Hlen & Hcover).
  rewrite Hr. cbn [mbind option_bind]. eexists. split; [done|]. split.
  { intros Hrefuse. case_bool_decide; [done|]. unfold write_update, write_all. by rewrite Hrefuse. }
  intros w' Hw'.
  (* what is not redrawn is as it was sent *)
  assert (∀ x y, in_size size x y → covered x y regions = false →
    ∃ format, asked_for format ∧
      picture x y = shown format (frame_at (bytes_of_frame frame) size.1 x y)) as Hkept.
  { intros x y Hxy Hcov. destruct Hxy as [Hx Hy]. destruct (Hcover x y Hx Hy) as [Hc1 _].
    destruct previous as [was|] eqn:Hprev; [|by rewrite Hc1 in Hcov].
    unfold previous in Hprev. destruct (wt_asked_whole w); [done|].
    destruct (wt_sent w) as [f|] eqn:Hsent; [|done]. injection Hprev as <-.
    destruct (H5 w f Hw Hsent) as (_ & Hshow & _).
    destruct (Hshow x y (conj Hx Hy)) as (format & Hfmt & Hpic). exists format. split; [done|].
    rewrite Hpic. f_equal. destruct (decide (frame_at (bytes_of_frame f) size.1 x y =
      frame_at (bytes_of_frame frame) size.1 x y)) as [Heq|Hne]; [done|].
    rewrite Hc1 in Hcov; [done|]. right. split; [|done].
    specialize (Htell f eq_refl). unfold bounds. destruct pending as [|regs].
    - unfold covered, whole, in_region. rewrite H1. cbn. lia.
    - by apply Htell. }
  case_bool_decide as Hnone.
  - injection Hw' as <-. cbn. split_and!; [done..|]. exists []. rewrite app_nil_r.
    split; [done|]. exists picture. split; [done|]. intros x y Hxy. apply Hkept; [done|].
    by rewrite Hnone.
  - unfold write_update, write_all in Hw'. destruct (st_refuses _); [done|]. injection Hw' as <-.
    cbn. split_and!; [done..|].
    assert (produced (wt_format w)) as Hprod by auto.
    assert (Forall region_typed regions) as Hty.
    { eapply Forall_impl; [exact Hon|]. by intros r (? & _). }
    assert (len (fitting regions (bytes_of_frame frame) size.1) ≤ u16_max) as Hn.
    { assert (length (fitting regions (bytes_of_frame frame) size.1) ≤ length regions)%nat
        by (unfold fitting; apply length_filter). unfold len in *. width_lia. }
    destruct (update_reads (wt_format w) (bytes_of_frame frame) size.1 (wt_hextile w) regions picture
      Hprod Hty Hwidth Hn) as (picture' & Hread & Hredrawn).
    eexists. split; [done|]. exists picture'. split.
    { rewrite bool_decide_eq_false_2; [exact Hread|]. done. }
    intros x y Hxy. rewrite (Hredrawn x y).
    change (existsb (in_region x y)) with (covered x y).
    rewrite (screen_fits _ _ Hf Hon x y Hxy).
    destruct (covered x y regions) eqn:Hcov; [|by apply Hkept].
    exists (wt_format w). split; [auto|done].
Qed.

Lemma frame_after_inv shown l id frame pending l' :
  frame_after shown l = (Some (id, frame, pending), l') →
  hd_frame (lt_held l) = Some frame ∧ pending = hd_pending (lt_held l) ∧ id = hd_id (lt_held l) ∧
  id ≠ shown ∧ lt_held l' = MkHeld id (Some frame) (Regions []).
Proof.
  unfold frame_after. destruct (hd_id (lt_held l) =? shown) eqn:E; [done|].
  apply Z.eqb_neq in E. destruct (hd_frame (lt_held l)) as [f|] eqn:Ef; [|done].
  intros [= <- <- <- <-]. split_and!; done.
Qed.

(** What answering does: nothing, where the viewer did not ask or has been shown the newest frame;
    and otherwise it is sent the newest, or dropped. *)
Inductive answers (s : Server) (picture : Picture) : Server → Prop :=
| answers_nothing :
    (∀ w, sv_watching s = Some w → wt_asked w = true → newest s ≠ None →
       wt_shown w = hd_id (lt_held (sv_latest s))) →
    answers s picture s
| answers_sent w now l r :
    sv_watching s = Some w → newest s = Some now →
    lt_held l = MkHeld (hd_id (lt_held (sv_latest s))) (Some now) (Regions []) →
    (st_refuses (wt_stream w) = None → is_Some r) →
    (∀ w', r = Some w' →
      wt_shown w' = hd_id (lt_held (sv_latest s)) ∧ wt_sent w' = Some now ∧ wt_format w' = wt_format w ∧
      ∃ bytes, st_written (wt_stream w') = st_written (wt_stream w) ++ bytes ∧
        ∃ picture',
        (if bool_decide (bytes = []) then picture' = picture
         else read_update (wt_format w) picture bytes = (Ok picture', [])) ∧
        shows picture' now) →
    answers s picture (set_watching r (set_latest l s)).

Lemma answer_run s picture : coherent s picture → answers s picture (answer s).
Proof.
  intros Hc. unfold answer. destruct (sv_watching s) as [w|] eqn:Hw.
  2: { apply answers_nothing. intros w Hw'. congruence. }
  destruct (wt_asked w) eqn:Ha; cbn [negb].
  2: { apply answers_nothing. intros w' Hw' Hask _. rewrite Hw in Hw'. injection Hw' as <-. congruence. }
  destruct (frame_after (wt_shown w) (sv_latest s)) as [[[[id frame] pending]|] l] eqn:Hfa.
  - apply frame_after_inv in Hfa as (Hn & -> & -> & _ & Hl).
    assert (coherent (set_latest (sv_latest s) s) picture) as Hc0 by (by apply (coherent_held s)).
    destruct Hc as [H1 H2 Hcnt H3 H4 H5].
    destruct (send_changes_run (set_latest (sv_latest s) s) picture w (hd_id (lt_held (sv_latest s)))
      frame (hd_pending (lt_held (sv_latest s))) Hc0 Hw (H3 _ Hn)) as (r & Hr & Hr' & Hr'').
    { intros f Hf. destruct (H5 w f Hw Hf) as (_ & _ & now & Hnow & Htell). unfold newest in Hnow. congruence. }
    assert (send_changes (set_latest l s) w (hd_id (lt_held (sv_latest s))) frame
      (hd_pending (lt_held (sv_latest s))) = Some r) as ->.
    { rewrite <- Hr. reflexivity. }
    by apply (answers_sent s picture w frame l r).
  - apply answers_nothing. intros w' Hw' _ Hn. rewrite Hw in Hw'. injection Hw' as <-.
    unfold frame_after in Hfa. destruct (hd_id (lt_held (sv_latest s)) =? wt_shown w) eqn:E.
    + by apply Z.eqb_eq in E.
    + unfold newest in Hn. destruct (hd_frame (lt_held (sv_latest s))); done.
Qed.

(** The viewer's reading of what was written is determined by what was written. *)
Lemma reading_unique (format : PixelFormat) (picture p p' : Picture) (bytes bytes' before : list byte) :
  before ++ bytes = before ++ bytes' →
  (if bool_decide (bytes = []) then p = picture else read_update format picture bytes = (Ok p, [])) →
  (if bool_decide (bytes' = []) then p' = picture else read_update format picture bytes' = (Ok p', [])) →
  p = p'.
Proof.
  intros <-%app_inv_head H H'. case_bool_decide; [congruence|]. rewrite H in H'. by injection H'.
Qed.

Lemma coherent_answer s picture picture' :
  coherent s picture → viewer_reads s (answer s) picture picture' → coherent (answer s) picture'.
Proof.
  intros Hc Hreads. pose proof (answer_run s picture Hc) as Ha. revert Hreads.
  destruct Ha as [_|w now l r Hw Hn Hl _ Hr]; intros Hreads.
  - unfold viewer_reads in Hreads. destruct (sv_watching s) as [w|]; [|by rewrite Hreads].
    destruct Hreads as (bytes & Hb & Hp).
    assert (bytes = []) as -> by (apply (app_inv_head (st_written (wt_stream w))); by rewrite app_nil_r).
    cbn in Hp. by rewrite Hp.
  - unfold viewer_reads in Hreads. rewrite Hw in Hreads. destruct Hc as [H1 H2 Hcnt H3 H4 H5].
    cbn [sv_watching set_watching] in Hreads.
    assert (lt_held (sv_latest (set_watching r (set_latest l s))) =
      MkHeld (hd_id (lt_held (sv_latest s))) (Some now) (Regions [])) as Hl' by exact Hl.
    split; unfold newest; rewrite ?Hl'; try done.
    + destruct Hcnt as (C1 & C2 & C3). split_and!; [done..|]. intros w' Hw'.
      destruct (Hr w' Hw') as (-> & _). cbn. lia.
    + intros f [= <-]. auto.
    + intros w' Hw'. destruct (Hr w' Hw') as (_ & _ & -> & _). auto.
    + intros w' f Hw' Hf. cbn [sv_watching set_watching] in Hw'. subst r.
      destruct (Hr w' eq_refl) as (_ & Hs & Hfmt & bytes & Hb & p & Hp & Hshows).
      destruct Hreads as (bytes' & Hb' & Hp').
      assert (p = picture') as <-.
      { eapply reading_unique; [|exact Hp|exact Hp']. by rewrite <- Hb, <- Hb'. }
      rewrite Hs in Hf. injection Hf as <-. split_and!; [auto|done|].
      exists now. split; [done|]. intros x y _ Hch. by destruct Hch.
Qed.

Lemma coherent_bind listener picture : coherent (bind size name listener) picture.
Proof. split; try done; intros ? ?; done. Qed.

Lemma run_coherent s picture : run s picture → coherent s picture.
Proof.
  induction 1 as [listener picture|s picture presented sink H IH Hg Hm Hs|s picture H IH|s picture H IH|
    s picture H IH|s picture picture' H IH Hp|s picture H IH Hf|s picture picture' H IH Hr].
  - apply coherent_bind.
  - by eapply coherent_present.
  - by apply (coherent_held s).
  - by apply (coherent_held s).
  - by apply (coherent_held s).
  - by eapply coherent_welcome.
  - by apply coherent_listen.
  - by eapply coherent_answer.
Qed.
(** Whatever an answer writes can be read. *)
Lemma answer_readable s picture :
  coherent s picture → ∃ picture', viewer_reads s (answer s) picture picture'.
Proof.
  intros Hc. destruct (answer_run s picture Hc) as [_|w now l r Hw _ _ _ Hr]; unfold viewer_reads.
  - exists picture. destruct (sv_watching s); [|done]. exists []. by rewrite app_nil_r.
  - rewrite Hw. cbn [sv_watching set_watching]. destruct r as [w'|]; [|by exists picture].
    destruct (Hr w' eq_refl) as (_ & _ & _ & bytes & Hb & p & Hp & _). by exists p, bytes.
Qed.

(** A viewer that asked, and has not been shown the newest frame, is sent it, unless it cannot be
    written to. *)
Lemma answer_current s picture picture' w now :
  run s picture → sv_watching s = Some w → wt_asked w = true → newest s = Some now →
  wt_shown w ≠ hd_id (lt_held (sv_latest s)) → viewer_reads s (answer s) picture picture' →
  (st_refuses (wt_stream w) = None → is_Some (sv_watching (answer s))) ∧
  ∀ w', sv_watching (answer s) = Some w' →
    wt_sent w' = Some now ∧ wt_shown w' = hd_id (lt_held (sv_latest s)) ∧ shows picture' now.
Proof.
  intros Hr Hw Hasked Hnow Hnew Hreads. pose proof (run_coherent _ _ Hr) as Hc.
  pose proof (coherent_answer _ _ _ Hc Hreads) as Hc'.
  destruct (answer_run _ _ Hc) as [Hnothing|w0 now0 l r Hw0 Hn0 _ Hsome Hsent].
  - destruct Hnew. apply (Hnothing w Hw Hasked). by rewrite Hnow.
  - rewrite Hw in Hw0. injection Hw0 as <-. rewrite Hnow in Hn0. injection Hn0 as <-.
    split; [exact Hsome|]. intros w' Hw'. destruct (Hsent w' Hw') as (H1 & H2 & _).
    split_and!; [done..|]. by destruct (co_shows _ _ Hc' w' now Hw' H2) as (_ & Hs & _).
Qed.
End Run.

(** ** A viewer that connects, shakes hands and asks for the whole frame *)

Definition request_update (incremental : Z) : list byte :=
  u8_byte <$> [FRAMEBUFFER_UPDATE_REQUEST; incremental; 0; 0; 0; 0; 0; 3; 0; 3].
Definition asking : Stream :=
  MkStream ((Some <$> VERSION ++ (u8_byte <$> [SECURITY_NONE; 1]) ++ request_update 0) ++ [None; None])
    [] None false.
Definition opened (size : Z * Z) : Server := listen (welcome (bind size [] [Some asking])).

Lemma opened_format size w :
  sv_watching (listen (welcome (bind size [] [Some asking]))) = Some w → declared = wt_format w.
Proof.
  assert (wt_format <$> sv_watching (listen (welcome (bind size [] [Some asking]))) = Some declared)
    as H by (vm_compute; reflexivity).
  revert H. generalize (sv_watching (listen (welcome (bind size [] [Some asking])))).
  intros o H ->. by injection H.
Qed.

Lemma opened_run size picture : run (eq declared) size [] (opened size) picture.
Proof.
  unfold opened. apply run_listen; [|exact (opened_format size)].
  apply (run_welcome _ _ _ _ picture); [apply run_bind|]. intros _. reflexivity.
Qed.

(** A frame of nine pixels of one colour, composed for that viewer, which has been answered. *)
Definition plain_frame : SharedFrame :=
  MkSharedFrame 0 (MkPixelFrame (MkSize 3 3) 12 (MkPixelLayout 4) (replicate 36 (u8_byte 7))).
Definition plain_presented : Presented := MkPresented plain_frame [] (MkFrameReport 0 0 0 0 36).
Definition composed_once : Server :=
  set_sink ((sink_present plain_presented : ST VncSink unit unit) (sv_sink (opened (3, 3)))).2
    (opened (3, 3)).

Lemma declared_produced format : declared = format → produced format.
Proof. intros <-. apply declared_well_formed. Qed.

Lemma three_typed : is_u16 3 ∧ tile_count 3 3 ≤ u16_max.
Proof. vm_compute. repeat split; discriminate. Qed.

Lemma plain_run s picture :
  run (eq declared) (3, 3) [] s picture → sv_size s = (3, 3) →
  hd_frame (lt_held (sv_latest s)) = None → vk_frames_composed (sv_sink s) = 0 →
  run (eq declared) (3, 3) []
    (set_sink ((sink_present plain_presented : ST VncSink unit unit) (sv_sink s)).2 s) picture.
Proof.
  intros Hr Hsize Hnone Hcount. eapply run_present; [exact Hr| | |reflexivity].
  - split; [rewrite Hsize; vm_compute; reflexivity|]. intros before. by rewrite Hnone.
  - by rewrite Hcount.
Qed.

Lemma composed_once_run picture : run (eq declared) (3, 3) [] composed_once picture.
Proof.
  unfold composed_once. apply plain_run; [apply opened_run|..]; vm_compute; reflexivity.
Qed.





(** ** A request for the whole frame that waits

    The viewer that has been shown the newest frame asks for all of it again, as one does after an
    expose; it is not answered before something else has been composed. *)
Definition asking_again : Stream :=
  MkStream ((Some <$> VERSION ++ (u8_byte <$> [SECURITY_NONE; 1]) ++ request_update 0) ++
            None :: (Some <$> request_update 0) ++ [None; None]) [] None false.
Definition exposed : Server :=
  let s := listen (welcome (bind (3, 3) [] [Some asking_again])) in
  let s := set_sink ((sink_present plain_presented : ST VncSink unit unit) (sv_sink s)).2 s in
  listen (answer s).

(** A viewer that asks for the whole frame, having been shown the newest, is not answered: it keeps
    waiting, however often it is served, until another frame is composed. *)
Theorem whole_request_waits :
  (λ w, (wt_asked w, wt_asked_whole w, wt_sent w)) <$> sv_watching exposed =
    Some (true, true, Some plain_frame) ∧
  answer exposed = exposed ∧
  ∀ s w, sv_watching s = Some w → wt_shown w = hd_id (lt_held (sv_latest s)) → answer s = s.
Proof.
  assert (∀ s w, sv_watching s = Some w → wt_shown w = hd_id (lt_held (sv_latest s)) → answer s = s) as H.
  { intros s w Hw Hs. unfold answer. rewrite Hw. destruct (wt_asked w); [|done]. cbn [negb].
    unfold frame_after. by rewrite Hs, Z.eqb_refl. }
  split; [vm_compute; reflexivity|]. split; [|exact H].
  assert ((λ w, wt_shown w) <$> sv_watching exposed = Some (hd_id (lt_held (sv_latest exposed)))) as He
    by (vm_compute; reflexivity).
  revert He. generalize exposed. intros s He.
  destruct (sv_watching s) as [w|] eqn:Hw; [|discriminate]. injection He as He. by apply (H s w).
Qed.
