(* ===== verification/Screen.v ===== *)
(** The scene on a viewer's screen: the software output's frames ([atria-software-output]) given to
    the remote framebuffer sink ([atria-vnc]). *)
From S2P Require Import Prelude.
From S2P Require Import Vocabulary.
From S2P Require Import Model.
From S2P Require Import State.
From S2P Require Import Desk.
From S2P Require Import Pixels.
From S2P Require Import Compose.
From S2P Require Import Frames.
From S2P Require Import Showing.
From S2P Require Import Painting.
From S2P Require Import Rfb.
From S2P Require Import Picture.
From S2P Require Import Changes.
From S2P Require Import Viewer.
From S2P Require Import Watching.

(** * Frames of four bytes a pixel *)

Lemma frame_at_pixels size layout f x y :
  frame_ok size layout f → bytes_per_pixel layout = 4 →
  0 ≤ x < size_width size → 0 ≤ y < size_height size →
  ∃ a b c d, frame_at (pf_bytes f) (size_width size) x y = [a; b; c; d] ∧
    frame_pixel f x y 0 = Some a ∧ frame_pixel f x y 1 = Some b ∧
    frame_pixel f x y 2 = Some c ∧ frame_pixel f x y 3 = Some d.
Proof.
  intros [_ Hlay Hstride _ _ Hlen] H4 Hx Hy. rewrite H4 in *.
  set (first := (y * size_width size + x) * 4).
  assert (0 ≤ first ∧ first + 4 ≤ len (pf_bytes f)) as [Hf1 Hf2] by (unfold first; nia).
  assert (len (frame_at (pf_bytes f) (size_width size) x y) = 4) as Hl
    by (unfold frame_at; rewrite len_slice; unfold first in *; lia).
  assert (∀ k, 0 ≤ k < 4 →
    frame_at (pf_bytes f) (size_width size) x y !! Z.to_nat k = frame_pixel f x y k) as Hk.
  { intros k Hk. unfold frame_at. fold first. rewrite slice_in by lia.
    rewrite lookup_take_lt, lookup_drop by lia. unfold frame_pixel, pixel, byte_at.
    rewrite Hstride, Hlay, H4. f_equal. unfold first. lia. }
  destruct (frame_at _ _ _ _) as [|a [|b [|c [|d [|]]]]] eqn:E; try (unfold len in Hl; cbn in Hl; lia).
  exists a, b, c, d. rewrite <- (Hk 0), <- (Hk 1), <- (Hk 2), <- (Hk 3) by lia. done.
Qed.

(** A frame of an output, as the server sees it. *)
Lemma frame_ok_screen size layout (f : SharedFrame) :
  frame_ok size layout (arc_frame f) → bytes_per_pixel layout = 4 →
  screen_frame (size_width size, size_height size) f.
Proof.
  intros [_ _ _ _ _ Hlen] H4. unfold screen_frame, bytes_of_frame. cbn. rewrite Hlen, H4. lia.
Qed.

(** The damage of a composition tells the server's viewers what changed. *)
Lemma composed_tells holders buffers t self s report self' s' :
  drawing self → world_ok buffers s →
  compose holders buffers t (self, s) = (Ok report, (self', s')) →
  output_small (so_size self) → fits_output (so_size self) (so_surfaces self') →
  bytes_per_pixel (so_layout self) = 4 →
  damage_tells (size_width (so_size self), size_height (so_size self))
    (shared_frame self) (shared_frame self') (Compose.damage self').
Proof.
  intros Hd Hw Hc Hsmall Hfits H4 x y [Hx Hy] Hch. cbn in Hx, Hy.
  apply Exists_exists. destruct (compose_picture _ _ _ _ _ _ _ _ Hd Hw Hc) as (Hf & Hf' & _).
  destruct (frame_at_pixels _ _ _ x y Hf H4 Hx Hy) as (a & b & c & d & E & E0 & E1 & E2 & E3).
  destruct (frame_at_pixels _ _ _ x y Hf' H4 Hx Hy) as (a' & b' & c' & d' & E' & E0' & E1' & E2' & E3').
  unfold changed_at, bytes_of_frame in Hch. cbn [fst] in Hch. unfold shared_frame in Hch.
  unfold frame in E, E'. rewrite E, E' in Hch.
  assert (∃ k, 0 ≤ k < 4 ∧ frame_pixel (frame self') x y k ≠ frame_pixel (frame self) x y k)
    as (k & Hk & Hdiff).
  { destruct (decide (a = a')) as [->|]; [|exists 0; split; [lia|]; rewrite E0, E0'; congruence].
    destruct (decide (b = b')) as [->|]; [|exists 1; split; [lia|]; rewrite E1, E1'; congruence].
    destruct (decide (c = c')) as [->|]; [|exists 2; split; [lia|]; rewrite E2, E2'; congruence].
    exists 3. split; [lia|]. rewrite E3, E3'. congruence. }
  apply (damage_conservative holders buffers t self s report self' s' Hd Hw Hc Hsmall Hfits x y k);
    [|done]. split_and!; cbn; lia.
Qed.

(** Handing a composed frame to the sink is a step of the server. *)
Lemma composed_run (asked_for : PixelFormat → Prop) name server picture holders buffers t
    self s report self' s' sink :
  asked_for declared → (∀ format, asked_for format → produced format) →
  drawing self → world_ok buffers s →
  compose holders buffers t (self, s) = (Ok report, (self', s')) →
  fits_output (so_size self) (so_surfaces self') → bytes_per_pixel (so_layout self) = 4 →
  is_u16 (size_width (so_size self)) → is_u16 (size_height (so_size self)) →
  tile_count (size_width (so_size self)) (size_height (so_size self)) ≤ u16_max →
  run asked_for (size_width (so_size self), size_height (so_size self)) name server picture →
  vk_frames_composed (sv_sink server) < u64_max →
  (∀ f, hd_frame (lt_held (sv_latest server)) = Some f → f = shared_frame self) →
  (sink_present (MkPresented (shared_frame self') (Compose.damage self') report)
     : ST VncSink unit unit) (sv_sink server) = (Ok tt, sink) →
  run asked_for (size_width (so_size self), size_height (so_size self)) name (set_sink sink server) picture ∧
  newest (set_sink sink server) = Some (shared_frame self') ∧
  hd_id (lt_held (sv_latest (set_sink sink server))) = vk_frames_composed (sv_sink server) + 1.
Proof.
  set (size := (size_width (so_size self), size_height (so_size self))) in *.
  intros Hdecl Hproduced Hd Hw Hc Hfits H4 Hwidth Hheight Htiles Hr Hcount Hheld Hsink.
  pose proof (run_coherent asked_for size name Hdecl Hproduced Hwidth Hheight Htiles _ _ Hr) as Hco.
  destruct (compose_picture _ _ _ _ _ _ _ _ Hd Hw Hc) as (_ & Hf' & _).
  assert (output_small (so_size self)) as Hsmall by (unfold output_small; width_lia).
  split; [|injection Hsink as <-; split; [done|]; cbn; apply Z.mod_small;
    pose proof (co_counted _ _ _ _ Hco); width_lia].
  eapply run_present; [exact Hr| |done|exact Hsink]. split; rewrite (co_size _ _ _ _ Hco).
  - apply (frame_ok_screen _ _ (shared_frame self') Hf' H4).
  - intros before ->%Hheld. by eapply composed_tells.
Qed.

(** A component in the range a format gives it. *)
Definition in_range_of (max : Z) (component : byte) : Z := byte_val component * max / 255.

Lemma scale_in_range bits max shift component :
  channel_ok bits max shift → scale (byte_val component) max = in_range_of max component.
Proof.
  intros (k & Hk & -> & _). unfold scale, in_range_of.
  assert (0 ≤ byte_val component ≤ 255) as Hb.
  { pose proof (coqutil.Byte.byte.unsigned_range component). unfold byte_val. lia. }
  assert (0 < 2 ^ k) as Hpos by (apply Z.pow_pos_nonneg; lia).
  rewrite Z.land_ones by lia. apply Z.mod_small. rewrite Z.ones_equiv. split.
  - apply Z.div_pos; nia.
  - apply Z.div_lt_upper_bound; nia.
Qed.


(** The easel's first frame, on the screen of a viewer that has just asked for it: the surface of ones
    in its corner. *)
Lemma sink_takes presented (sink : VncSink) :
  (sink_present presented : ST VncSink unit unit) sink =
    (Ok tt, ((sink_present presented : ST VncSink unit unit) sink).2).
Proof. reflexivity. Qed.

