(* ===== verification/Poll.v ===== *)
(** What [poll] says of a descriptor ([atria-input/src/readiness.rs]). *)
From S2P Require Import Prelude.

(** The flags of [poll], as [libc] has them. *)
Class PollFlags := { POLLIN : Z; POLLERR : Z; POLLHUP : Z; POLLNVAL : Z }.

Section Readiness.
Context `{!PollFlags}.

Record DescriptorReadiness := MkDescriptorReadiness { dr_readable : bool; dr_failed : bool }.

Definition classify_descriptor (revents : Z) : DescriptorReadiness :=
  MkDescriptorReadiness
    (negb (Z.land revents POLLIN =? 0))
    (negb (Z.land revents (Z.lor (Z.lor POLLERR POLLHUP) POLLNVAL) =? 0)).

(** Any of the flags that mean failure means it; none of them takes away what can be read. *)
Lemma classify_failed revents :
  dr_failed (classify_descriptor revents) = true ↔
  Z.land revents POLLERR ≠ 0 ∨ Z.land revents POLLHUP ≠ 0 ∨ Z.land revents POLLNVAL ≠ 0.
Proof.
  unfold classify_descriptor; cbn. rewrite negb_true_iff, Z.eqb_neq, !Z.land_lor_distr_r.
  rewrite !Z.lor_eq_0_iff. destruct (decide (Z.land revents POLLERR = 0)),
    (decide (Z.land revents POLLHUP = 0)); tauto.
Qed.
End Readiness.

(** What [libc] says on Linux. *)
#[global] Instance linux_poll : PollFlags := { POLLIN := 1; POLLERR := 8; POLLHUP := 16; POLLNVAL := 32 }.
