(* ===== verification/Daemon.v ===== *)
(** The daemon ([atriad/src/main.rs]): what it starts as, whom it admits and with what authority, and
    one turn of its loop: newcomers, what the viewer did, the clients that have something to say,
    those that have left, and a composition when anything changed. *)
From S2P Require Import Prelude.
From S2P Require Import Vocabulary.
From S2P Require Import Model.
From S2P Require Import Outputs.
From S2P Require Import State.
From S2P Require Import Queue.
From S2P Require Import Objects.
From S2P Require Import Input.
From S2P Require Import Shell.
From S2P Require Import Pixels.
From S2P Require Import Compose.
From S2P Require Import Transport.
From S2P Require Import Session.
From S2P Require Import Rfb.
From S2P Require Import Viewer.
From S2P Require Import Poll.

(** * What the platform and the viewer are to the loop *)

(** The sink, for the thread that composes: each is one critical section. *)
Class Watcher (K : Type) := {
  watcher_overflowed : K → bool * K;
  watcher_stale_input : K → bool * K;
  watcher_take_input : K → list Input * K;
}.

#[global] Instance VncSink_watcher : Watcher VncSink := {
  watcher_overflowed := sink_overflowed;
  watcher_stale_input := stale_input;
  watcher_take_input := take_input;
}.

(** * Constants *)

Definition SESSION_ID : ObjectId := MkObjectId 9.
Definition GLOBAL_VERSION : Z := 1.
Definition OUTPUT_WIDTH : Z := 1280.
Definition OUTPUT_HEIGHT : Z := 720.
Definition OUTPUT_REFRESH_MILLIHERTZ : Z := 60000.
Definition WATCHED_LISTENERS : nat := 3.
Definition OUTPUT_MILLIMETRES : Size := MkSize 340 190.
Definition OUTPUT_SIZE : Size := MkSize OUTPUT_WIDTH OUTPUT_HEIGHT.

(** * Admission *)

Inductive AdmitError :=
| AcceptFailed (error : IoError)
| ConnectionRefused (error : NegotiationError)
| AuthorityRefused (error : StateError)
| SessionRefused (error : StateError).

Definition establish_session (c : ConnectionId) : ST CompositorState StateError unit :=
  create_session c SESSION_ID None true.

(** What a connection may ever be granted, by the socket it came from. *)
Definition available_to (shell : bool) : CapabilitySet :=
  if shell then cap_with (cap_with software_capabilities ShellControlCap) ShortcutControl
  else software_capabilities.

(** A step of admission after the connection exists: it is closed again when the step fails. *)
Definition or_close {A} (c : ConnectionId) (wrap : StateError → AdmitError)
    (m : ST CompositorState StateError A) : ST CompositorState AdmitError A := λ s,
  match m s with
  | (Ok a, s) => (Ok a, s)
  | (Err e, s) => (Err (wrap e), close_state c s)
  end.

Fixpoint grant_all (c : ConnectionId) (caps : list Capability) : ST CompositorState AdmitError unit :=
  match caps with
  | [] => mret tt
  | granted :: rest => _ ← or_close c AuthorityRefused (grant_capability c granted); grant_all c rest
  end.

Section Daemon.
Context {H E T M : Type} `{!Transport H T, !SharedMemorySource H E M}.
Context {KE K : Type} `{!FrameSink KE K, !Watcher K} (holders : Z → Z).
Context `{!PollFlags}.

(** Accept one connection and take it as far as a session. [accepted] is what [accept4] answered. *)
Definition admit_from (accepted : result IoError T) (shell : bool)
    : ST CompositorState AdmitError (Session T M) :=
  socket ← lift (map_err AcceptFailed accepted);
  c ← ST_map_err ConnectionRefused (connect (available_to shell) CapabilitySet_empty);
  _ ← (if shell then grant_all c [ShellControlCap; ShortcutControl] else mret tt);
  _ ← or_close c SessionRefused (establish_session c);
  mret (Session_new socket c).

(** * The daemon *)

Record Daemon := MkDaemon {
  dm_state : CompositorState;
  dm_presenter : Presenter;
  dm_sessions : list (Session T M);
  dm_shell_listener : bool;
  dm_viewer : option K;
  dm_composed : Z;
  dm_clock : Z;
}.

Definition set_state (s : CompositorState) (d : Daemon) : Daemon :=
  MkDaemon s (dm_presenter d) (dm_sessions d) (dm_shell_listener d) (dm_viewer d) (dm_composed d)
    (dm_clock d).
Definition set_sessions (sessions : list (Session T M)) (d : Daemon) : Daemon :=
  MkDaemon (dm_state d) (dm_presenter d) sessions (dm_shell_listener d) (dm_viewer d) (dm_composed d)
    (dm_clock d).
Definition set_viewer (viewer : option K) (d : Daemon) : Daemon :=
  MkDaemon (dm_state d) (dm_presenter d) (dm_sessions d) (dm_shell_listener d) viewer (dm_composed d)
    (dm_clock d).
Definition set_clock (clock : Z) (d : Daemon) : Daemon :=
  MkDaemon (dm_state d) (dm_presenter d) (dm_sessions d) (dm_shell_listener d) (dm_viewer d)
    (dm_composed d) clock.

(** [present_all], for whoever watches; a failure is reported and nothing else. [reads_at] is when
    each surface's memory is read. *)
Definition compose_now (reads_at : SurfaceKey → Moment) (d : Daemon) : Daemon :=
  match dm_viewer d with
  | None => d
  | Some sink =>
      let composed := as_u64 (dm_composed d + 1) in
      let desktop := (present_all (KE := KE) holders reads_at composed
        (MkDesktop (dm_presenter d) (dm_state d) (dm_sessions d) sink)).2 in
      MkDaemon (dt_state desktop) (dt_presenter desktop) (dt_sessions desktop) (dm_shell_listener d)
        (Some (dt_sink desktop)) composed (dm_clock d)
  end.

(** ** Starting *)

Fixpoint advertise_all (kinds : list ObjectKind) (s : CompositorState) : option CompositorState :=
  match kinds with
  | [] => Some s
  | kind :: rest =>
      match advertise_global kind GLOBAL_VERSION s with
      | (None, _) => None
      | (Some _, s) => advertise_all rest s
      end
  end.

Definition GLOBALS : list ObjectKind := [KCompositor; KShm; KShell; KShellControl; KSeat; KShortcuts].

Definition the_output : OutputId * IdentitySource * OutputInfo :=
  (MkOutputId 1, FromPosition,
   MkOutputInfo OUTPUT_SIZE OUTPUT_MILLIMETRES 1 1 OUTPUT_REFRESH_MILLIHERTZ).

(** [run] up to its loop; [None] where it gives up. *)
Definition start (reads_at : SurfaceKey → Moment) (shell_listener : bool) (viewer : option K) : option Daemon :=
  presenter ← result_ok (layout ← PixelLayout_new 4; Presenter_new OUTPUT_SIZE layout);
  s ← advertise_all GLOBALS (compositor ServerLimits_default ConnectionLimits_default);
  let '(delta, s) := apply_topology [the_output] GLOBAL_VERSION s in
  if negb (len (arrived delta) =? 1) then None
  else
    let s := (place_output (MkOutputId 1) (MkPoint 0 0) s).2 in
    Some (compose_now reads_at (MkDaemon s presenter [] shell_listener viewer 0 0)).

(** ** One turn of the loop *)

(** What [poll] reported of each descriptor, in the order they are watched, and what accepting from
    either listener answers; and when this turn reads each surface's memory, if it composes. *)
Record Wakeup := MkWakeup {
  wk_revents : list Z;
  wk_client : result IoError T;
  wk_shell : result IoError T;
  wk_reads : SurfaceKey → Moment;
}.

(** Whether the descriptor at an index has one of the flags. *)
Definition ready (w : Wakeup) (index : nat) (flags : Z) : bool :=
  negb (Z.land (default 0 (wk_revents w !! index)) flags =? 0).

Definition admit_one (accepted : result IoError T) (shell : bool) (d : Daemon) : Daemon :=
  match admit_from accepted shell (dm_state d) with
  | (Ok session, s) => set_sessions (dm_sessions d ++ [session]) (set_state s d)
  | (Err _, s) => set_state s d
  end.

Definition admit_client (w : Wakeup) (d : Daemon) : Daemon :=
  if ready w 0 POLLIN then admit_one (wk_client w) false d else d.

Definition admit_shell (w : Wakeup) (d : Daemon) : Daemon :=
  if ready w 1 POLLIN && dm_shell_listener d then admit_one (wk_shell w) true d else d.

(** One report of the viewer, at a time. *)
Definition hear_report (s : CompositorState) (clock : Z) (report : Input) : CompositorState :=
  match report with
  | Pointer moved => move_pointer (MkPoint (pi_x moved) (pi_y moved)) clock s
  | Button button => pointer_button (bi_button button) (bi_pressed button) clock s
  | Key key => key_event (MkPhysicalKey (ki_usage key)) (ki_pressed key) clock s
  end.

Fixpoint hear_reports (reports : list Input) (s : CompositorState) (clock : Z)
    : CompositorState * Z :=
  match reports with
  | [] => (s, clock)
  | report :: rest =>
      let clock := saturating_add_u u64_max clock 1 in
      hear_reports rest (hear_report s clock report) clock
  end.

(** What the viewer did since it was last asked, and whether that was anything. *)
Definition hear_viewer (d : Daemon) : bool * Daemon :=
  match dm_viewer d with
  | None => (false, d)
  | Some sink =>
      let '(lost, sink) := watcher_overflowed sink in
      let '(reset, sink) := if lost then (true, sink) else watcher_stale_input sink in
      let s := if (reset : bool) then reset_input (dm_state d) else dm_state d in
      let '(reports, sink) := watcher_take_input sink in
      let '(s, clock) := hear_reports reports s (dm_clock d) in
      (reset || negb (bool_decide (reports = [])),
       set_clock clock (set_viewer (Some sink) (set_state s d)))
  end.

(** The sessions this wait covered, from an index on, those that are ready served once each: the
    sessions and the compositor afterwards, whether anything was dispatched, and which are done. *)
Fixpoint serve_ready (w : Wakeup) (index : nat) (sessions : list (Session T M)) (s : CompositorState)
    : list (Session T M) * CompositorState * bool * list nat :=
  match sessions with
  | [] => ([], s, false, [])
  | session :: rest =>
      if negb (ready w (index + WATCHED_LISTENERS) (Z.lor (Z.lor POLLIN POLLHUP) POLLERR)) then
        let '(rest, s, dispatched, departed) := serve_ready w (S index) rest s in
        (session :: rest, s, dispatched, departed)
      else
        let '(r, (session, s)) := serve_one (session, s) in
        let '(rest, s, dispatched, departed) := serve_ready w (S index) rest s in
        match r with
        | Ok served => (session :: rest, s, sv_dispatched served || dispatched, departed)
        | Err _ => (session :: rest, s, dispatched, index :: departed)
        end
  end.

(** Sessions removed, at indices from the last to the first, and their connections closed. *)
Fixpoint depart (indices : list nat) (sessions : list (Session T M)) (s : CompositorState)
    : list (Session T M) * CompositorState :=
  match indices with
  | [] => (sessions, s)
  | index :: rest =>
      match sessions !! index with
      | None => depart rest sessions s
      | Some session =>
          depart rest (delete index sessions) (close_state (ss_connection session) s)
      end
  end.

(** What follows the admissions; [polled] is how many sessions the wait covered. *)
Definition attend (w : Wakeup) (polled : nat) (d : Daemon) : Daemon :=
  let '(heard, d) := hear_viewer d in
  let '(served, s, dispatched, departed) := serve_ready w 0 (take polled (dm_sessions d)) (dm_state d) in
  let '(sessions, s) := depart (reverse departed) (served ++ drop polled (dm_sessions d)) s in
  let d := set_sessions sessions (set_state s d) in
  if heard || dispatched || negb (bool_decide (departed = [])) then compose_now (wk_reads w) d else d.

(** One turn: [poll] fails, or answers. *)
Definition iterate (polled : result IoError Wakeup) : ST Daemon IoError unit := λ d,
  match polled with
  | Err IoInterrupted => (Ok tt, d)
  | Err e => (Err e, d)
  | Ok w => (Ok tt, attend w (length (dm_sessions d)) (admit_shell w (admit_client w d)))
  end.
End Daemon.
