(* ===== verification/Running.v ===== *)
(** What the running daemon guarantees ([atriad/src/main.rs]): every client that is connected has its
    session, no two share one, and it is served when it has something to say and let go when its
    transport ends; authority over other people's windows can be granted through the shell's socket
    only; a client that leaves takes nobody with it; and a viewer's input reaches the seat. *)
From S2P Require Import Prelude.
From S2P Require Import Vocabulary.
From S2P Require Import Interface.
From S2P Require Import Model.
From S2P Require Import Outputs.
From S2P Require Import Binding.
From S2P Require Import State.
From S2P Require Import Queue.
From S2P Require Import Objects.
From S2P Require Import Surfaces.
From S2P Require Import Input.
From S2P Require Import Shell.
From S2P Require Import Dispatch.
From S2P Require Import Invariant.
From S2P Require Import Preserved.
From S2P Require Import Desk.
From S2P Require Import Delivery.
From S2P Require Import Pixels.
From S2P Require Import Compose.
From S2P Require Import Painting.
From S2P Require Import Transport.
From S2P Require Import Session.
From S2P Require Import Serving.
From S2P Require Import Presenting.
From S2P Require Import Rfb.
From S2P Require Import Viewer.
From S2P Require Import Asking.
From S2P Require Import Poll.
From S2P Require Import Daemon.

(** * Admission and the compositor *)

(** What only a shell may do. *)
Definition shell_powers : list Capability := [ShellControlCap; ShortcutControl].

Definition powerless (caps : CapabilitySet) : Prop :=
  ∀ cap, cap ∈ shell_powers → cap_contains caps cap = false.

Lemma client_powerless server :
  powerless (cap_with (cap_with (cap_intersection server (available_to false)) SurfaceCreate) BufferImport).
Proof.
  intros cap Hcap. rewrite !cap_contains_with, cap_contains_intersection.
  assert (cap_contains (available_to false) cap = false ∧ cap ≠ SurfaceCreate ∧ cap ≠ BufferImport)
    as (-> & H1 & H2).
  { unfold shell_powers in Hcap. rewrite !elem_of_cons, elem_of_nil in Hcap.
    destruct Hcap as [->|[->|[]]]; (split; [vm_compute; reflexivity|done]). }
  rewrite andb_false_r, !bool_decide_eq_false_2 by congruence. done.
Qed.

Lemma connect_Ok caps required s c s' :
  connect caps required s = (Ok c, s') →
  c = MkConnectionId (cs_next_connection s) ∧ s' = call (CallConnect caps required) s ∧
  cs_next_connection s' = cs_next_connection s + 1 ∧
  ∃ client, cs_connections s' = <[ c := client ]> (cs_connections s) ∧
    cn_available_capabilities client = cap_with (cap_with
      (cap_intersection (cs_server_capabilities s) caps) SurfaceCreate) BufferImport.
Proof.
  intros Hc. cbn [call]. unfold run. rewrite Hc. revert Hc. unfold connect. cbv zeta.
  repeat (case_match; [done|]). intros [= <- <-]. split_and!; [done..|]. eexists. split; [reflexivity|done].
Qed.

Lemma onward_next s s' : reachable s → onward s s' → cs_next_connection s ≤ cs_next_connection s'.
Proof.
  intros Hs (l & _ & ->). destruct (reachable_calls_inv s l Hs) as (_ & _ & [_ _ [P _]] & _). exact P.
Qed.

(** What an attempt to admit_from somebody comes to: everybody there was there before, but for whom it
    admitted, who has a number of its own. *)
Record admitted {A} (shell : bool) (s : CompositorState) (name : A → ConnectionId)
    (r : result AdmitError A) (s' : CompositorState) : Prop := {
  ad_reachable : reachable s';
  ad_next : cs_next_connection s ≤ cs_next_connection s';
  ad_name a : r = Ok a →
    connection_id (name a) = cs_next_connection s ∧ cs_next_connection s < cs_next_connection s';
  ad_known c client' : cs_connections s' !! c = Some client' →
    (∃ client, cs_connections s !! c = Some client ∧
       cn_available_capabilities client' = cn_available_capabilities client) ∨
    (∃ a, r = Ok a ∧ c = name a ∧
       (shell = false → powerless (cn_available_capabilities client')));
}.

Lemma or_close_run {A} c wrap (m : ST CompositorState StateError A) x s s0 :
  (m s).2 = call x s → admits x = false → onward s0 s →
  match or_close c wrap m s with
  | (Ok _, s') => onward s0 s'
  | (Err _, s') => onward s0 s' ∧ cs_connections s' !! c = None
  end.
Proof.
  intros Hm Hx Ho. unfold or_close. destruct (m s) as [[a|e] s1]; cbn [snd] in Hm; subst s1.
  - by apply onward_call.
  - split; [|apply close_state_gone].
    by apply (onward_call (CallCloseConnection c)), onward_call.
Qed.

Lemma grant_all_run c caps s s0 : onward s0 s →
  match grant_all c caps s with
  | (Ok _, s') => onward s0 s'
  | (Err _, s') => onward s0 s' ∧ cs_connections s' !! c = None
  end.
Proof.
  revert s. induction caps as [|cap caps IH]; intros s Hs; [done|]. cbn [grant_all].
  rewrite ST_bind_run.
  pose proof (or_close_run c AuthorityRefused (grant_capability c cap) (CallGrant c cap) s s0
    eq_refl eq_refl Hs) as H.
  destruct (or_close c AuthorityRefused (grant_capability c cap) s) as [[u|e] s1]; [|done].
  by apply IH.
Qed.

Lemma admitted_same {A} shell s name (e : AdmitError) :
  reachable s → admitted (A := A) shell s name (Err e) s.
Proof. intros Hs. split; [done|lia|done|]. intros c client' Hc. left. eauto. Qed.

Section Admission.
Context {H E T M : Type} `{!Transport H T, !SharedMemorySource H E M}.

Lemma admit_run (accepted : result IoError T) shell s r s' :
  reachable s → admit_from (M := M) accepted shell s = (r, s') →
  admitted shell s ss_connection r s'.
Proof.
  intros Hs Ha. unfold admit_from in Ha. rewrite ST_bind_run in Ha.
  destruct accepted as [socket|e]; unfold lift in Ha; cbn [map_err] in Ha; [|injection Ha as <- <-; by apply admitted_same].
  rewrite ST_bind_run in Ha. unfold ST_map_err in Ha.
  destruct (connect (available_to shell) CapabilitySet_empty s) as [[c|e] s1] eqn:Ec.
  2: { cbn [map_err] in Ha. injection Ha as <- <-.
       assert (s1 = s) as -> by (revert Ec; unfold connect; cbv zeta; repeat case_match; by intros [= <-]).
       by apply admitted_same. }
  cbn [map_err] in Ha. apply connect_Ok in Ec as (Hname & Hcall & Hnext & client & Hconns & Havail).
  assert (reachable s1) as Hs1 by (rewrite Hcall; by apply reachable_call).
  assert (∀ s2 c' client', onward s1 s2 → cs_connections s2 !! c' = Some client' →
    (∃ client, cs_connections s !! c' = Some client ∧
       cn_available_capabilities client' = cn_available_capabilities client) ∨
    (c' = c ∧ (shell = false → powerless (cn_available_capabilities client')))) as Hknown.
  { intros s2 c' client' Ho Hc'. destruct (onward_client _ _ _ _ Hs1 Ho Hc') as (cl & Hcl & ->).
    rewrite Hconns in Hcl. apply lookup_insert_Some in Hcl as [[<- <-]|[_ Hcl]]; [right|left; eauto].
    split; [done|]. intros ->. rewrite Havail. apply client_powerless. }
  assert (∀ s2 e, onward s1 s2 → cs_connections s2 !! c = None →
    admitted shell s ss_connection (Err e : result AdmitError (Session T M)) s2) as Hfail.
  { intros s2 e Ho Hn. pose proof (onward_next _ _ Hs1 Ho). split; [by eapply onward_reachable|lia|done|].
    intros c' client' Hc'. destruct (Hknown s2 c' client' Ho Hc') as [?|[-> _]]; [by left|congruence]. }
  rewrite ST_bind_run in Ha.
  pose proof (grant_all_run c [ShellControlCap; ShortcutControl] s1 s1 (onward_refl _)) as Hg.
  set (granting := if shell then grant_all c [ShellControlCap; ShortcutControl] else mret tt) in Ha.
  assert (match granting s1 with (Ok _, s2) => onward s1 s2
    | (Err _, s2) => onward s1 s2 ∧ cs_connections s2 !! c = None end) as Hgr.
  { unfold granting. destruct shell; [exact Hg|apply onward_refl]. }
  clear Hg. destruct (granting s1) as [[u|e] s2]; [|injection Ha as <- <-; apply Hfail; apply Hgr].
  rewrite ST_bind_run in Ha.
  pose proof (or_close_run c SessionRefused (establish_session c)
    (CallCreateSession c SESSION_ID None true) s2 s1 eq_refl eq_refl Hgr) as He.
  destruct (or_close c SessionRefused (establish_session c) s2) as [[u'|e] s3];
    injection Ha as <- <-; [|by apply Hfail; apply He].
  pose proof (onward_next _ _ Hs1 He). split; [by eapply onward_reachable|lia| |].
  - intros a [= <-]. cbn. rewrite Hname. cbn. lia.
  - intros c' client' Hc'. destruct (Hknown s3 c' client' He Hc') as [?|[-> Hp]]; [by left|right].
    eexists. split; [reflexivity|]. by split.
Qed.
End Admission.

(** * What the loop does to the compositor *)

Section Loop.
Context {H E T M : Type} `{!Transport H T, !SharedMemorySource H E M}.
Context {KE K : Type} `{!FrameSink KE K, !Watcher K} (holders : Z → Z).
Context `{!PollFlags}.

Abbreviation Daemon := (Daemon (T := T) (M := M) (K := K)).

Definition connections (d : Daemon) : list ConnectionId := ss_connection <$> dm_sessions d.

Lemma act_onward envelope (self : Session T M) s : onward s (act envelope (self, s)).2.2.
Proof.
  unfold act. destruct (take_bytes envelope) as [bytes envelope'].
  destruct (map_err _ _) as [frame|]; [|apply onward_refl].
  destruct (object_kind _ _ s) as [kind|]; [|apply onward_refl].
  destruct (decode kind frame) as [decoded|]; [|apply onward_refl].
  destruct (resolve decoded (envelope', ss_memory self)) as [[request|e] [envelope'' m']];
    [|apply onward_refl].
  pose proof (onward_call (CallDispatch (ss_connection self) request) s s eq_refl (onward_refl s)) as Ho.
  cbn [call] in Ho. unfold run in Ho. by destruct (dispatch _ request s) as [[]].
Qed.

Lemma serve_one_onward (self : Session T M) s :
  onward s (serve_one (self, s)).2.2 ∧
  ss_connection (serve_one (self, s)).2.1 = ss_connection self.
Proof.
  unfold serve_one. rewrite ST_bind_run. unfold on_transport. cbn [fst snd].
  destruct (receive (ss_transport self)) as [[envelope|e] t]; cbn [map_err];
    [|by split; [apply onward_refl|]].
  rewrite ST_bind_run. unfold attempt. pose proof (act_onward envelope (set_transport t self) s) as Ho.
  destruct (act envelope (set_transport t self, s)) as [answer [self1 s1]] eqn:Ea.
  apply act_session in Ea. cbn [snd] in Ho. rewrite ST_bind_run. unfold flush. rewrite ST_bind_run.
  assert (ss_connection self1 = ss_connection self) as Hc by (by rewrite Ea).
  apply (onward_call (CallTakeEventsFor (ss_connection self1))) in Ho; [|done]. cbn [call snd] in Ho.
  destruct (take_events_for (ss_connection self1) s1) as [events s2]. cbn [snd] in Ho.
  destruct (write_events events (zeroes MAX_MESSAGE_SIZE) 0 0 (self1, s2)) as [r2 [self2 s3]] eqn:Ew.
  apply write_events_others in Ew as (-> & Hc2 & _). unfold mret, ST_ret; destruct r2; cbn [fst snd]; (split; [done|congruence]).
Qed.

(** Reports are calls, and so is starting afresh. *)
Definition report_call (report : Input) (clock : Z) : Call :=
  match report with
  | Pointer moved => CallMovePointer (MkPoint (pi_x moved) (pi_y moved)) clock
  | Button button => CallPointerButton (bi_button button) (bi_pressed button) clock
  | Key key => CallKey (MkPhysicalKey (ki_usage key)) (ki_pressed key) clock
  end.

Lemma hear_report_call s clock report : hear_report s clock report = call (report_call report clock) s.
Proof. by destruct report. Qed.

Lemma hear_reports_onward reports : ∀ s clock, onward s (hear_reports reports s clock).1.
Proof.
  induction reports as [|report reports IH]; intros s clock; [apply onward_refl|]. cbn [hear_reports].
  eapply onward_trans; [|apply IH]. rewrite hear_report_call.
  apply onward_call; [by destruct report|apply onward_refl].
Qed.

Lemma hear_viewer_onward (d : Daemon) :
  onward (dm_state d) (dm_state (hear_viewer d).2) ∧ dm_sessions (hear_viewer d).2 = dm_sessions d.
Proof.
  unfold hear_viewer. destruct (dm_viewer d) as [sink|]; [|by split; [apply onward_refl|]].
  destruct (watcher_overflowed sink) as [lost sink1].
  destruct (if lost then (true, sink1) else watcher_stale_input sink1) as [reset sink2].
  destruct (watcher_take_input sink2) as [reports sink3].
  pose proof (hear_reports_onward reports (if reset then reset_input (dm_state d) else dm_state d)
    (dm_clock d)) as Ho.
  destruct (hear_reports reports _ (dm_clock d)) as [s clock]. cbn. split; [|done].
  eapply onward_trans; [|exact Ho]. destruct reset; [|apply onward_refl].
  apply (onward_call CallResetInput); [done|apply onward_refl].
Qed.

(** Which sessions are served, and which of them are done: ready, and the transport failed. *)
Lemma serve_ready_run w sessions : ∀ index s sessions' s' dispatched gone,
  serve_ready (H := H) (E := E) w index sessions s = (sessions', s', dispatched, gone) →
  onward s s' ∧ ss_connection <$> sessions' = ss_connection <$> sessions ∧
  StronglySorted lt gone ∧
  Forall (λ i, (index ≤ i < index + length sessions)%nat ∧
    ready w (i + WATCHED_LISTENERS) (Z.lor (Z.lor POLLIN POLLHUP) POLLERR) = true) gone.
Proof.
  induction sessions as [|session sessions IH]; intros index s sessions' s' dispatched gone Hrun.
  { injection Hrun as <- <- <- <-. split; [apply onward_refl|]. split; [done|]. by split; constructor. }
  cbn [serve_ready] in Hrun.
  assert (∀ s1 rest s2 more l, serve_ready w (S index) sessions s1 = (rest, s2, more, l) →
    onward s1 s2 ∧ ss_connection <$> rest = ss_connection <$> sessions ∧ StronglySorted lt l ∧
    Forall (λ i, (S index ≤ i < index + length (session :: sessions))%nat ∧
      ready w (i + WATCHED_LISTENERS) (Z.lor (Z.lor POLLIN POLLHUP) POLLERR) = true) l) as Hrest.
  { intros s1 rest s2 more l Hr. apply IH in Hr as (H1 & H2 & H3 & H4). split_and!; [done..|].
    eapply Forall_impl; [exact H4|]. cbn [length]. intros i [? ?]. split; [lia|done]. }
  assert (∀ l, Forall (λ i, (S index ≤ i < index + length (session :: sessions))%nat ∧
      ready w (i + WATCHED_LISTENERS) (Z.lor (Z.lor POLLIN POLLHUP) POLLERR) = true) l →
    Forall (λ i, (index ≤ i < index + length (session :: sessions))%nat ∧
      ready w (i + WATCHED_LISTENERS) (Z.lor (Z.lor POLLIN POLLHUP) POLLERR) = true) l) as Hwide.
  { intros l Hl. eapply Forall_impl; [exact Hl|]. intros i [? ?]. split; [lia|done]. }
  destruct (ready w (index + WATCHED_LISTENERS) _) eqn:Er; cbn [negb] in Hrun.
  - pose proof (serve_one_onward session s) as [Ho Hc].
    destruct (serve_one (session, s)) as [r [session' s1]]. cbn [fst snd] in Ho, Hc.
    destruct (serve_ready w (S index) sessions s1) as [[[rest s2] more] l] eqn:Es.
    apply Hrest in Es as (H1 & H2 & H3 & H4).
    assert (onward s s2) by (by eapply onward_trans).
    destruct r as [served|e]; injection Hrun as <- <- <- <-; rewrite !fmap_cons, Hc, H2;
      (split; [done|]; split; [done|]).
    + split; [done|]. by apply Hwide.
    + split; [constructor; [done|]|constructor; [split; [cbn [length]; lia|done]|by apply Hwide]].
      eapply Forall_impl; [exact H4|]. intros i [? _]. lia.
  - destruct (serve_ready w (S index) sessions s) as [[[rest s2] more] l] eqn:Es.
    apply Hrest in Es as (H1 & H2 & H3 & H4). injection Hrun as <- <- <- <-.
    rewrite !fmap_cons, H2. split_and!; [done..|]. by apply Hwide.
Qed.

(** Which session is served, in what the turn has come to, and that only a failure lets it go. *)
Lemma serve_ready_served w sessions : ∀ index s sessions' s' dispatched gone i session,
  serve_ready (H := H) (E := E) w index sessions s = (sessions', s', dispatched, gone) →
  sessions !! i = Some session →
  ready w (index + i + WATCHED_LISTENERS) (Z.lor (Z.lor POLLIN POLLHUP) POLLERR) = true →
  ∃ s0, onward s s0 ∧ onward (serve_one (session, s0)).2.2 s' ∧
    ((index + i)%nat ∈ gone ↔ is_ok (serve_one (session, s0)).1 = false).
Proof.
  induction sessions as [|session sessions IH]; intros index s sessions' s' dispatched gone i target Hrun Hi Hr;
    [done|]. cbn [serve_ready] in Hrun. destruct i as [|i].
  - injection Hi as ->. rewrite Nat.add_0_r in Hr |- *. rewrite Hr in Hrun. cbn [negb] in Hrun.
    exists s. split; [apply onward_refl|].
    destruct (serve_one (target, s)) as [r [session' s1]]. cbn [fst snd].
    destruct (serve_ready w (S index) sessions s1) as [[[rest s2] more] l] eqn:Es.
    apply serve_ready_run in Es as (Ho & _ & _ & Hl). rewrite Forall_forall in Hl.
    destruct r as [served|e]; injection Hrun as <- <- <- <-; (split; [done|]); cbn [is_ok].
    + split; [intros [? _]%Hl; lia|done].
    + split; [done|intros _; by left].
  - cbn in Hi. replace (index + S i)%nat with (S index + i)%nat in * by lia.
    destruct (negb (ready w (index + WATCHED_LISTENERS) _)).
    + destruct (serve_ready w (S index) sessions s) as [[[rest s2] more] l] eqn:Es.
      injection Hrun as <- <- <- <-. by eapply IH.
    + pose proof (serve_one_onward session s) as [Ho _].
      destruct (serve_one (session, s)) as [r [session' s1]]. cbn [fst snd] in Ho.
      destruct (serve_ready w (S index) sessions s1) as [[[rest s2] more] l] eqn:Es.
      destruct (IH _ _ _ _ _ _ _ _ Es Hi Hr) as (s0 & H1 & H2 & H3). exists s0.
      split; [by eapply onward_trans|].
      destruct r; injection Hrun as <- <- <- <-; (split; [done|]); [done|].
      rewrite elem_of_cons, <- H3. split; [intros [Heq|?]; [exfalso; lia|done]|by right].
Qed.

Lemma presenter_present_onward t p s (sink : K) :
  onward s (presenter_present (KE := KE) holders t (p, s, sink)).2.1.2.
Proof.
  unfold presenter_present, ST_map_err, on_presenter_output, present_to. cbn [fst].
  pose proof (compose_onward holders (ps_buffers p) t (ps_output p) s) as Ho.
  destruct (compose holders (ps_buffers p) t (ps_output p, s)) as [[report|e] [self' s']];
    cbn [fst snd] in Ho |- *; [|exact Ho].
  by destruct (sink_present _ sink) as [[u|e] sink'].
Qed.

Lemma present_all_onward reads_at t (d : Desktop (T := T) (M := M) (K := K)) r d' :
  present_all (KE := KE) holders reads_at t d = (r, d') →
  onward (dt_state d) (dt_state d') ∧
  ss_connection <$> dt_sessions d' = ss_connection <$> dt_sessions d.
Proof.
  destruct d as [p s sessions sink]. intros Hrun. unfold present_all in Hrun.
  rewrite ST_bind_run in Hrun. cbn [reads dt_state] in Hrun.
  destruct (map_err SceneFailed (scene_faults s)) as [u|e];
    [|injection Hrun as <- <-; by split; [apply onward_refl|]].
  rewrite !ST_gets_bind, ST_bind_run in Hrun. unfold on_presenter at 1 in Hrun. cbn in Hrun.
  destruct (stage_scene reads_at s sessions ∅ (scene_stack (cs_scene s)) p) as [[live|e] p1];
    [|injection Hrun as <- <-; by split; [apply onward_refl|]].
  rewrite ST_bind_run in Hrun. unfold on_presenter in Hrun. cbn in Hrun.
  rewrite ST_bind_run in Hrun. unfold on_screen_part in Hrun. cbn in Hrun.
  pose proof (presenter_present_onward t (forget_all_but live p1) s sink) as Ho.
  destruct (presenter_present holders t (forget_all_but live p1, s, sink)) as [[report|e] [[p3 s3] sink3]];
    cbn [fst snd] in Ho; [|by injection Hrun as <- <-].
  rewrite ST_bind_run in Hrun. cbn in Hrun. destruct (deliver_all_onward sessions s3) as [H1 H2].
  destruct (deliver_all sessions s3) as [sessions4 s4]. injection Hrun as <- <-. cbn in *.
  split; [by eapply onward_trans|done].
Qed.

Lemma compose_now_onward reads_at (d : Daemon) :
  onward (dm_state d) (dm_state (compose_now (KE := KE) holders reads_at d)) ∧
  connections (compose_now (KE := KE) holders reads_at d) = connections d.
Proof.
  unfold compose_now. destruct (dm_viewer d) as [sink|]; [|by split; [apply onward_refl|]].
  destruct (present_all holders _ _ _) as [r d'] eqn:Hp. by apply present_all_onward in Hp.
Qed.

Lemma StronglySorted_reverse (l : list nat) : StronglySorted lt l → StronglySorted gt (reverse l).
Proof.
  induction 1 as [|i l _ IH Hl]; [constructor|]. rewrite reverse_cons.
  apply StronglySorted_app_2; [|exact IH|by repeat constructor].
  intros x y Hx ->%list_elem_of_singleton. rewrite Forall_forall in Hl.
  apply elem_of_reverse, Hl in Hx. lia.
Qed.

(** Sessions leave one by one: their connections are closed, the others are where they were. *)
Lemma depart_run indices : ∀ sessions s sessions' s',
  reachable s → depart (T := T) (M := M) indices sessions s = (sessions', s') →
  onward s s' ∧ ss_connection <$> sessions' `sublist_of` ss_connection <$> sessions ∧
  (∀ c, c ∈ ss_connection <$> sessions → c ∈ ss_connection <$> sessions' ∨ cs_connections s' !! c = None) ∧
  (StronglySorted gt indices → ∀ i session, sessions !! i = Some session → i ∉ indices →
     session ∈ sessions').
Proof.
  induction indices as [|index indices IH]; intros sessions s sessions' s' Hs Hd; cbn [depart] in Hd.
  { injection Hd as <- <-. split_and!; [apply onward_refl|done|by left|].
    intros _ i session Hi _. by eapply list_elem_of_lookup_2. }
  destruct (sessions !! index) as [session|] eqn:Hi.
  - assert (reachable (close_state (ss_connection session) s)) as Hs1
      by exact (reachable_call (CallCloseConnection (ss_connection session)) s Hs).
    apply IH in Hd as (H1 & H2 & H3 & H4); [|done]. assert (onward s s') as Ho.
    { eapply onward_trans; [|exact H1].
      apply (onward_call (CallCloseConnection (ss_connection session))); [done|apply onward_refl]. }
    split_and!; [done| | |].
    + etransitivity; [exact H2|]. apply fmap_sublist, sublist_delete.
    + intros c Hc. destruct (decide (c ∈ ss_connection <$> delete index sessions)) as [Hin|Hout];
        [by apply H3|].
      right. apply eq_None_not_Some. intros [client Hcl].
      assert (c = ss_connection session) as ->.
      { apply list_elem_of_fmap in Hc as (x & -> & Hx). apply list_elem_of_lookup in Hx as [j Hj].
        destruct (decide (j = index)) as [->|Hne]; [by rewrite Hi in Hj; injection Hj as ->|].
        exfalso. apply Hout. apply list_elem_of_fmap_2. destruct (decide (j < index)%nat).
        - apply (list_elem_of_lookup_2 _ j). by rewrite list_lookup_delete_lt.
        - apply (list_elem_of_lookup_2 _ (j - 1)). rewrite list_lookup_delete_ge by lia. by replace (S (j - 1))%nat with j by lia. }
      destruct (onward_client _ _ _ _ Hs1 H1 Hcl) as (cl & Hgone & _).
      by rewrite close_state_gone in Hgone.
    + intros Hsort i x Hx Hni. apply StronglySorted_inv in Hsort as [Hsort Hall].
      apply not_elem_of_cons in Hni as [Hne Hni]. rewrite Forall_forall in Hall.
      destruct (decide (i < index)%nat).
      * apply (H4 Hsort i); [by rewrite list_lookup_delete_lt|done].
      * apply (H4 Hsort (i - 1)%nat).
        -- rewrite list_lookup_delete_ge by lia. by replace (S (i - 1))%nat with i by lia.
        -- intros Hin%Hall. lia.
  - apply IH in Hd as (H1 & H2 & H3 & H4); [|done]. split_and!; [done..|].
    intros Hsort i x Hx Hni. apply StronglySorted_inv in Hsort as [Hsort _].
    apply not_elem_of_cons in Hni as [_ Hni]. by eapply H4.
Qed.

(** A session that leaves is gone. *)
Lemma depart_gone indices : ∀ sessions s i session,
  StronglySorted gt indices → NoDup (ss_connection <$> sessions) →
  i ∈ indices → sessions !! i = Some session →
  ss_connection session ∉ ss_connection <$> (depart (T := T) (M := M) indices sessions s).1.
Proof.
  induction indices as [|index indices IH]; intros sessions s i session Hsort Hnd Hi Hs;
    [by apply not_elem_of_nil in Hi|].
  apply StronglySorted_inv in Hsort as [Hsort Hall]. rewrite Forall_forall in Hall. cbn [depart].
  assert (∀ l s1, (ss_connection <$> (depart (T := T) (M := M) indices l s1).1) ⊆ (ss_connection <$> l)) as Hsub.
  { clear. induction indices as [|index indices IH]; intros l s1; [done|]. cbn [depart].
    destruct (l !! index); [|done]. etransitivity; [apply IH|].
    intros c Hc. eapply elem_of_submseteq; [exact Hc|].
    apply sublist_submseteq, fmap_sublist, sublist_delete. }
  destruct (sessions !! index) as [other|] eqn:Eo; apply elem_of_cons in Hi as [->|Hi].
  - rewrite Hs in Eo. injection Eo as ->. intros Hin%Hsub.
    rewrite (delete_take_drop sessions index), fmap_app in Hin.
    rewrite <- (take_drop_middle sessions index other Hs), fmap_app, fmap_cons in Hnd.
    apply NoDup_app in Hnd as (_ & Hd & [Hn _]%NoDup_cons). apply elem_of_app in Hin as [Hin|Hin]; [|done].
    apply (Hd _ Hin). by left.
  - pose proof (Hall i Hi) as Hlt. apply (IH _ _ i); [done| |done|by rewrite list_lookup_delete_lt by lia].
    eapply sublist_NoDup; [exact Hnd|apply fmap_sublist, sublist_delete].
  - congruence.
  - by apply (IH _ _ i).
Qed.

Lemma depart_exact indices sessions s i (session : Session T M) :
  reachable s → StronglySorted gt indices → NoDup (ss_connection <$> sessions) →
  sessions !! i = Some session →
  ss_connection session ∈ ss_connection <$> (depart (T := T) (M := M) indices sessions s).1 ↔ i ∉ indices.
Proof.
  intros Hs Hsort Hnd Hi. split.
  - intros Hin Hg. by eapply depart_gone.
  - intros Hg. apply list_elem_of_fmap_2.
    destruct (depart indices sessions s) as [sessions' s'] eqn:Ed.
    apply depart_run in Ed as (_ & _ & _ & Hkeep); [|done]. by eapply Hkeep.
Qed.

(** * The daemon's invariant

    [shells] are those admitted from the shell's socket. *)
Record in_order (shells : gset ConnectionId) (d : Daemon) : Prop := {
  or_reachable : reachable (dm_state d);
  or_NoDup : NoDup (connections d);
  or_numbered c : c ∈ connections d → connection_id c < cs_next_connection (dm_state d);
  or_served c : is_Some (cs_connections (dm_state d) !! c) → c ∈ connections d;
  or_authority c client : cs_connections (dm_state d) !! c = Some client → c ∉ shells →
    powerless (cn_available_capabilities client);
}.

(** Whatever admits nobody, and lets go of sessions only once their connections are closed. *)
Lemma in_order_onward shells (d d' : Daemon) :
  in_order shells d → onward (dm_state d) (dm_state d') →
  connections d' `sublist_of` connections d →
  (∀ c, c ∈ connections d → c ∈ connections d' ∨ cs_connections (dm_state d') !! c = None) →
  in_order shells d'.
Proof.
  intros [O1 O2 O3 O4 O5] Ho Hsub Hgone. pose proof (onward_next _ _ O1 Ho) as Hn. split.
  - by eapply onward_reachable.
  - by eapply sublist_NoDup.
  - intros c Hc. eapply Z.lt_le_trans; [apply O3|exact Hn]. eapply elem_of_submseteq; [exact Hc|by apply sublist_submseteq].
  - intros c [client Hcl]. destruct (onward_client _ _ _ _ O1 Ho Hcl) as (cl & Hcl' & _).
    destruct (Hgone c (O4 c (ex_intro _ _ Hcl'))) as [?|Hnone]; [done|congruence].
  - intros c client Hcl Hns. destruct (onward_client _ _ _ _ O1 Ho Hcl) as (cl & Hcl' & ->).
    by eapply O5.
Qed.

Lemma in_order_same shells (d d' : Daemon) :
  in_order shells d → onward (dm_state d) (dm_state d') → connections d' = connections d →
  in_order shells d'.
Proof.
  intros Hd Ho Hc. eapply in_order_onward; [done|done|by rewrite Hc|]. intros c. rewrite Hc. by left.
Qed.

(** Who an attempt to admit_from lets in. *)
Definition let_in (accepted : result IoError T) (shell : bool) (d : Daemon) : gset ConnectionId :=
  match (admit_from (M := M) accepted shell (dm_state d)).1 with
  | Ok session => {[ ss_connection session ]}
  | Err _ => ∅
  end.

Lemma in_order_admit shells (accepted : result IoError T) (shell : bool) (d : Daemon) :
  in_order shells d →
  in_order (if shell then shells ∪ let_in accepted shell d else shells) (admit_one accepted shell d).
Proof.
  intros [O1 O2 O3 O4 O5]. unfold admit_one, let_in.
  destruct (admit_from accepted shell (dm_state d)) as [r s'] eqn:Ha.
  apply admit_run in Ha as [A1 A2 A3 A4]; [|done].
  assert (∀ c client', cs_connections s' !! c = Some client' →
    c ∈ connections d ∨ ∃ session, r = Ok session ∧ c = ss_connection session) as Hlive.
  { intros c client' Hc. destruct (A4 c client' Hc) as [(cl & Hcl & _)|(session & Hr & Hn & _)];
      [left; apply O4; by eexists|right; eauto]. }
  set (shells' := if shell then shells ∪ _ else shells).
  assert (∀ c client', cs_connections s' !! c = Some client' → c ∉ shells' →
    powerless (cn_available_capabilities client')) as Hauth.
  { intros c client' Hc Hns. destruct (A4 c client' Hc) as [(cl & Hcl & ->)|(session & -> & -> & Hp)].
    - apply (O5 c cl Hcl). unfold shells' in Hns. destruct shell; set_solver.
    - apply Hp. unfold shells' in Hns. destruct shell; [cbn in Hns; set_solver|done]. }
  destruct r as [session|e].
  - destruct (A3 session eq_refl) as [Hname Hlt]. unfold connections in *.
    split; cbn; rewrite ?fmap_app; cbn; [done| | | |done].
    + apply NoDup_app. split; [done|]. split; [|apply NoDup_singleton].
      intros c Hc Hin%list_elem_of_singleton. specialize (O3 c Hc). subst c. lia.
    + intros c [Hc| ->%list_elem_of_singleton]%elem_of_app; [specialize (O3 c Hc)|]; lia.
    + intros c [client' Hc]. apply elem_of_app. destruct (Hlive c client' Hc) as [?|(x & [= <-] & ->)];
        [by left|right]. by apply list_elem_of_singleton.
  - split; cbn; [done|done| | |done].
    + intros c Hc. specialize (O3 c Hc). lia.
    + intros c [client' Hc]. by destruct (Hlive c client' Hc) as [?|(x & [=] & _)].
Qed.

(** A session that had something to say is served, in what the turn has come to, and is there
    afterwards exactly when serving answers. *)
Definition attended (w : Wakeup (T := T)) (d d' : Daemon) (i : nat) (session : Session T M) : Prop :=
  ∃ s0, onward (dm_state d) s0 ∧ onward (serve_one (session, s0)).2.2 (dm_state d') ∧
    (ss_connection session ∈ connections d' ↔ is_ok (serve_one (session, s0)).1 = true).

Lemma attend_run w polled (d d' : Daemon) :
  reachable (dm_state d) → NoDup (connections d) →
  attend (KE := KE) holders w polled d = d' →
  onward (dm_state d) (dm_state d') ∧ connections d' `sublist_of` connections d ∧
  (∀ c, c ∈ connections d → c ∈ connections d' ∨ cs_connections (dm_state d') !! c = None) ∧
  (∀ i session, dm_sessions d !! i = Some session →
     if bool_decide (i < polled)%nat && ready w (i + WATCHED_LISTENERS) (Z.lor (Z.lor POLLIN POLLHUP) POLLERR)
     then attended w d d' i session else ss_connection session ∈ connections d').
Proof.
  intros Hs Hnd Ha. unfold attend in Ha. destruct (hear_viewer_onward d) as [Hho Hhs].
  destruct (hear_viewer d) as [heard d1]. cbn [snd] in Hho, Hhs. rewrite Hhs in Ha.
  destruct (serve_ready w 0 (take polled (dm_sessions d)) (dm_state d1)) as [[[served s2] dispatched] gone] eqn:Es.
  pose proof (λ i session, serve_ready_served w _ _ _ _ _ _ _ i session Es) as Hserved.
  apply serve_ready_run in Es as (Hso & Hsc & Hsort & Hready). apply StronglySorted_reverse in Hsort.
  assert (onward (dm_state d) s2) as Ho2 by (by eapply onward_trans).
  assert (reachable s2) as Hs2 by (by eapply onward_reachable).
  assert (ss_connection <$> served ++ drop polled (dm_sessions d) = connections d) as Hall.
  { rewrite fmap_app, Hsc, <- fmap_app, take_drop. done. }
  pose proof (λ i session, depart_exact (reverse gone) _ s2 i session Hs2 Hsort
    (eq_ind_r NoDup Hnd Hall)) as Hexact.
  destruct (depart (reverse gone) (served ++ drop polled (dm_sessions d)) s2) as [sessions s3] eqn:Ed.
  apply depart_run in Ed as (Hdo & Hdsub & Hdgone & _); [|done].
  rewrite Hall in Hdsub, Hdgone. cbn [fst] in Hexact.
  set (d2 := set_sessions sessions (set_state s3 d1)) in Ha.
  assert (onward s3 (dm_state d') ∧ connections d' = ss_connection <$> sessions) as [Hso3 Hd'].
  { destruct (heard || dispatched || _); subst d'; [apply (compose_now_onward _ d2)|by split; [apply onward_refl|]]. }
  assert (reachable s3) as Hs3 by (by eapply onward_reachable).
  assert (onward s2 (dm_state d')) as Ho3 by (by eapply onward_trans).
  split; [by eapply onward_trans|]. rewrite Hd'. split; [done|]. split.
  - intros c Hc. destruct (Hdgone c Hc) as [?|Hnone]; [by left|right].
    apply eq_None_not_Some. intros [client Hcl].
    destruct (onward_client _ _ _ _ Hs3 Hso3 Hcl) as (cl & Hcl' & _). congruence.
  - intros i session Hi.
    assert (ss_connection session ∈ ss_connection <$> sessions ↔ i ∉ gone) as Hin.
    { assert ((ss_connection <$> served ++ drop polled (dm_sessions d)) !! i = Some (ss_connection session))
        as Hx by (rewrite Hall; unfold connections; by rewrite list_lookup_fmap, Hi).
      rewrite list_lookup_fmap in Hx. apply fmap_Some in Hx as (x & Hx & ->).
      rewrite (Hexact i x Hx). by rewrite elem_of_reverse. }
    rewrite Forall_forall in Hready. destruct (_ && _) eqn:Eb.
    + apply andb_true_iff in Eb as [Hlt%bool_decide_eq_true Hr].
      destruct (Hserved i session) as (s0 & H1 & H2 & H3); [by rewrite lookup_take_lt|done|].
      exists s0. split; [exact (onward_trans _ _ _ Hho H1)|]. split; [exact (onward_trans _ _ _ H2 Ho3)|].
      rewrite Hd', Hin. by rewrite H3, not_false_iff_true.
    + apply Hin. intros [Hlt Hr]%Hready. rewrite length_take in Hlt.
      rewrite bool_decide_eq_true_2, Hr in Eb by lia. discriminate Eb.
Qed.

(** * What the viewer did, to the seat *)

(** Reports become calls at consecutive times, which stop at the last time there is. *)
Definition report_calls (reports : list Input) (clock : Z) : list Call :=
  imap (λ i report, report_call report (Z.min u64_max (clock + 1 + Z.of_nat i))) reports.

Lemma hear_reports_run reports : ∀ s clock, 0 ≤ clock ≤ u64_max →
  hear_reports reports s clock =
    (calls (report_calls reports clock) s, Z.min u64_max (clock + len reports)).
Proof.
  induction reports as [|report reports IH]; intros s clock Hc.
  { cbn. f_equal. unfold len. cbn. lia. }
  cbn [hear_reports]. unfold saturating_add_u. rewrite IH by lia. f_equal.
  - unfold report_calls. cbn [imap calls foldl]. rewrite hear_report_call. unfold calls. cbn [foldl].
    rewrite Z.add_0_r. f_equal. apply imap_ext. intros i x _. unfold Basics.compose. f_equal. lia.
  - pose proof (len_nonneg reports). rewrite len_cons. lia.
Qed.
End Loop.

Section Hearing.
Context {T M : Type} `{!PollFlags}.

(** What the daemon does with what a viewer left it, whatever that is. *)
Lemma hear_viewer_run (d : Daemon (T := T) (M := M) (K := VncSink)) (sink : VncSink) :
  dm_viewer d = Some sink → 0 ≤ dm_clock d ≤ u64_max →
  let q := lt_input (vk_latest sink) in
  let heard := (hear_viewer d).1 in let d' := (hear_viewer d).2 in
  dm_state d' = calls ((if iq_overflowed q || iq_stale q then [CallResetInput] else []) ++
                       report_calls (iq_events q) (dm_clock d)) (dm_state d) ∧
  dm_clock d' = Z.min u64_max (dm_clock d + len (iq_events q)) ∧
  dm_viewer d' = Some (MkVncSink
    (MkLatest (lt_held (vk_latest sink))
       (MkInputQueue [] (iq_buttons q) false (iq_overflowed q && iq_stale q))
       (lt_unplaced (vk_latest sink)) false) (vk_frames_composed sink)) ∧
  (heard = false ↔ iq_overflowed q = false ∧ iq_stale q = false ∧ iq_events q = []) ∧
  dm_sessions d' = dm_sessions d.
Proof.
  intros Hv Hclock.
  destruct sink as [[held [events buttons lost stale] unplaced woken] n]. cbn [lt_input vk_latest].
  unfold hear_viewer. rewrite Hv.
  destruct lost, stale; cbn -[reset_input hear_reports u64_max];
    rewrite hear_reports_run by done; cbn -[reset_input u64_max calls bool_decide];
    (split_and!; [done..| |done]).
  1-3: by split; [|intros (? & ? & ?)].
  rewrite negb_false_iff, bool_decide_eq_true. naive_solver.
Qed.

(** C12. What a viewer did reaches the seat, while none of it was lost and what the viewer holds is to
    be trusted. When the daemon looks, and its count of times has room for what is there, it takes
    everything the viewer's queue holds and carries it out in order, each report as the call of its
    kind at the time that follows the one before; nothing is left in the queue, the frame the
    viewer is shown is not touched, nor is any session, and something was heard exactly when there
    was a report. *)
Theorem viewer_heard (d : Daemon (T := T) (M := M) (K := VncSink)) (sink : VncSink)
    (Hv : dm_viewer d = Some sink) (Hclock : 0 ≤ dm_clock d)
    (Hroom : dm_clock d + len (iq_events (lt_input (vk_latest sink))) ≤ u64_max)
    (Hlost : iq_overflowed (lt_input (vk_latest sink)) = false)
    (Hstale : iq_stale (lt_input (vk_latest sink)) = false) :
  let q := lt_input (vk_latest sink) in
  let heard := (hear_viewer d).1 in let d' := (hear_viewer d).2 in
  dm_state d' = calls (imap (λ i report, report_call report (dm_clock d + 1 + Z.of_nat i))
                         (iq_events q)) (dm_state d) ∧
  dm_clock d' = dm_clock d + len (iq_events q) ∧
  dm_viewer d' = Some (MkVncSink
    (MkLatest (lt_held (vk_latest sink)) (MkInputQueue [] (iq_buttons q) false false)
       (lt_unplaced (vk_latest sink)) false) (vk_frames_composed sink)) ∧
  (heard = true ↔ iq_events q ≠ []) ∧ dm_sessions d' = dm_sessions d.
Proof.
  cbv zeta. pose proof (len_nonneg (iq_events (lt_input (vk_latest sink)))).
  destruct (hear_viewer_run d sink Hv ltac:(lia)) as (-> & -> & -> & Hheard & ->).
  rewrite Hlost, Hstale. cbn [orb andb app]. split_and!; [|lia|done| |done].
  - f_equal. unfold report_calls. apply imap_ext. intros i report Hi%lookup_lt_Some.
    f_equal. unfold len in *. lia.
  - rewrite <- not_false_iff_true, Hheard. naive_solver.
Qed.
End Hearing.

Section Runs.
Context {H E T M : Type} `{!Transport H T, !SharedMemorySource H E M}.
Context {KE K : Type} `{!FrameSink KE K, !Watcher K} (holders : Z → Z).
Context `{!PollFlags}.

Abbreviation Daemon := (Daemon (T := T) (M := M) (K := K)).

(** * Every daemon there can be *)

(** Whom a turn lets in by the shell's socket. *)
Definition shells_let_in (polled : result IoError (Wakeup (T := T))) (d : Daemon) : gset ConnectionId :=
  match polled with
  | Ok w =>
      let d := admit_client w d in
      if ready w 1 POLLIN && dm_shell_listener d then let_in (wk_shell w) true d else ∅
  | Err _ => ∅
  end.

Lemma iterate_Ok w (d : Daemon) :
  iterate (KE := KE) holders (Ok w) d = (Ok tt, (iterate (KE := KE) holders (Ok w) d).2).
Proof. done. Qed.

Inductive runs : gset ConnectionId → Daemon → Prop :=
| runs_start reads_at shell_listener viewer d :
    start (KE := KE) holders reads_at shell_listener viewer = Some d → runs ∅ d
| runs_turn shells polled d d' :
    runs shells d → iterate (KE := KE) holders polled d = (Ok tt, d') →
    runs (shells ∪ shells_let_in polled d) d'.

Lemma advertise_all_onward kinds s s' : advertise_all kinds s = Some s' → onward s s'.
Proof.
  revert s. induction kinds as [|kind kinds IH]; intros s Ha; cbn [advertise_all] in Ha.
  { injection Ha as <-. apply onward_refl. }
  pose proof (onward_call (CallAdvertiseGlobal kind GLOBAL_VERSION) s s eq_refl (onward_refl s)) as Ho.
  cbn [call] in Ho. destruct (advertise_global kind GLOBAL_VERSION s) as [[name|] s1]; [|done].
  eapply onward_trans; [exact Ho|by apply IH].
Qed.

Lemma start_onward reads_at shell_listener viewer d :
  start (KE := KE) holders reads_at shell_listener viewer = Some d →
  onward (compositor ServerLimits_default ConnectionLimits_default) (dm_state d) ∧ connections d = [].
Proof.
  unfold start. generalize (result_ok (layout ← PixelLayout_new 4; Presenter_new OUTPUT_SIZE layout)).
  generalize (compositor ServerLimits_default ConnectionLimits_default).
  intros s0 [presenter|] Hd; [|done]. cbn [mbind option_bind] in Hd.
  destruct (advertise_all GLOBALS s0) as [s1|] eqn:Ea; [|done]. cbn [mbind option_bind] in Hd.
  apply advertise_all_onward in Ea.
  apply (onward_call (CallApplyTopology [the_output] GLOBAL_VERSION)) in Ea; [|done]. cbn [call] in Ea.
  destruct (apply_topology [the_output] GLOBAL_VERSION s1) as [delta s2]. cbn [snd] in Ea.
  destruct (negb _); [done|]. injection Hd as Hd.
  apply (onward_call (CallPlaceOutput (MkOutputId 1) (MkPoint 0 0))) in Ea; [|done]. cbn [call] in Ea.
  destruct (place_output (MkOutputId 1) (MkPoint 0 0) s2) as [placed s3]. cbn [snd] in Ea, Hd.
  destruct (compose_now_onward holders reads_at (MkDaemon s3 presenter [] shell_listener viewer 0 0)) as [Ho Hc].
  rewrite Hd in Ho, Hc. split; [by eapply onward_trans|exact Hc].
Qed.

Lemma start_in_order reads_at shell_listener viewer d :
  start (KE := KE) holders reads_at shell_listener viewer = Some d → in_order ∅ d.
Proof.
  intros [Ho Hc]%start_onward.
  assert (reachable (compositor ServerLimits_default ConnectionLimits_default)) as Hs0 by by apply reachable_new.
  assert (∀ c, cs_connections (dm_state d) !! c = None) as Hnone.
  { intros c. apply eq_None_not_Some. intros [client Hcl].
    destruct (onward_client _ _ _ _ Hs0 Ho Hcl) as (cl & Hcl' & _).
    change (cs_connections _) with (∅ : gmap ConnectionId Connection) in Hcl'. by rewrite lookup_empty in Hcl'. }
  split; rewrite ?Hc.
  - by eapply onward_reachable.
  - constructor.
  - intros c Hin. by apply elem_of_nil in Hin.
  - intros c [client Hcl]. by rewrite Hnone in Hcl.
  - intros c client Hcl. by rewrite Hnone in Hcl.
Qed.

Lemma admissions_in_order shells w (d : Daemon) :
  in_order shells d → in_order (shells ∪ shells_let_in (Ok w) d) (admit_shell w (admit_client w d)).
Proof.
  intros Hd. assert (in_order shells (admit_client w d)) as H1.
  { unfold admit_client. destruct (ready w 0 POLLIN); [|done]. by apply (in_order_admit shells _ false). }
  unfold admit_shell, shells_let_in. destruct (_ && _).
  - by apply (in_order_admit shells _ true).
  - by rewrite union_empty_r_L.
Qed.

Lemma runs_in_order shells d : runs shells d → in_order shells d.
Proof.
  induction 1 as [reads_at listener viewer d Hd|shells polled d d' _ IH Hit]; [by eapply start_in_order|].
  unfold iterate in Hit. destruct polled as [w|e]; cycle 1.
  - cbn. rewrite union_empty_r_L. destruct e; try discriminate Hit. by injection Hit as <-.
  - injection Hit as Hit. pose proof (admissions_in_order shells w d IH) as Hd.
    apply (attend_run holders) in Hit as (Ho & Hsub & Hgone & _); [|apply Hd..]. by eapply in_order_onward.
Qed.

Lemma admissions_grow w (d : Daemon) :
  ∃ l, dm_sessions (admit_shell w (admit_client w d)) = dm_sessions d ++ l.
Proof.
  assert (∀ accepted shell (x : Daemon), ∃ l,
    dm_sessions (admit_one accepted shell x) = dm_sessions x ++ l) as Hone.
  { intros accepted shell x. unfold admit_one.
    destruct (admit_from accepted shell (dm_state x)) as [[session|e] s];
      [by exists [session]|exists []; cbn; by rewrite app_nil_r]. }
  unfold admit_shell, admit_client.
  destruct (ready w 0 POLLIN); [destruct (Hone (wk_client w) false d) as [l1 H1]|]; destruct (_ && _).
  - destruct (Hone (wk_shell w) true (admit_one (wk_client w) false d)) as [l2 H2].
    exists (l1 ++ l2). by rewrite H2, H1, app_assoc.
  - by exists l1.
  - apply Hone.
  - exists []. by rewrite app_nil_r.
Qed.

(** C24. Every client has its session, and is listened to. Whatever the daemon is started with, and
    whatever its clients, the shell, the viewer and the platform do: after every turn of the loop a
    connection the compositor knows belongs to exactly one session; and in every turn a session whose
    descriptor has something to say, or has hung up, is served one message, in what the turn has come
    to by then, and the turn goes on from what that leaves. Its session stays exactly when serving
    answers; when its transport has closed or failed, the session is gone after the turn and the
    compositor does not know its connection any more. *)
Theorem clients_have_sessions (shells : gset ConnectionId) (d : Daemon) (Hd : runs shells d) :
  (∀ c, is_connected c (dm_state d) = true →
     ∃ i session, dm_sessions d !! i = Some session ∧ ss_connection session = c ∧
       ∀ j other, dm_sessions d !! j = Some other → ss_connection other = c → j = i) ∧
  ∀ w d', iterate (KE := KE) holders (Ok w) d = (Ok tt, d') →
  ∀ i session, dm_sessions d !! i = Some session →
    ready w (i + WATCHED_LISTENERS) (Z.lor (Z.lor POLLIN POLLHUP) POLLERR) = true →
    ∃ s0, onward (dm_state (admit_shell w (admit_client w d))) s0 ∧
      let '(r, (_, s1)) := serve_one (session, s0) in
      onward s1 (dm_state d') ∧
      match r with
      | Ok _ => ss_connection session ∈ connections d'
      | Err _ => ss_connection session ∉ connections d' ∧
          is_connected (ss_connection session) (dm_state d') = false
      end.
Proof.
  apply runs_in_order in Hd. split.
  - destruct Hd as [_ O2 _ O4 _]. intros c Hc. apply bool_decide_eq_true, O4 in Hc.
    apply list_elem_of_lookup in Hc as [i Hi]. unfold connections in *. pose proof Hi as Hi'.
    rewrite list_lookup_fmap in Hi. apply fmap_Some in Hi as (session & Hi & ->).
    exists i, session. split; [done|]. split; [done|]. intros j other Hj Ho.
    eapply NoDup_lookup; [exact O2| |exact Hi']. by rewrite list_lookup_fmap, Hj, <- Ho.
  - intros w d' Hit i session Hi Hr. injection Hit as Hit.
    pose proof (admissions_in_order shells w d Hd) as Hd1. destruct (admissions_grow w d) as [l Hl].
    apply attend_run in Hit as (_ & _ & Hgone & Hserved); [|apply Hd1..].
    assert (dm_sessions (admit_shell w (admit_client w d)) !! i = Some session) as Hi1
      by (rewrite Hl; by apply lookup_app_l_Some).
    pose proof (Hserved i session Hi1) as Hat.
    rewrite bool_decide_eq_true_2, Hr in Hat by (by eapply lookup_lt_Some).
    destruct Hat as (s0 & H1 & H2 & H3). exists s0. split; [done|].
    destruct (serve_one (session, s0)) as [r [session' s1]]. split; [done|]. cbn [fst] in H3.
    destruct r as [served|e]; [by apply H3|].
    assert (ss_connection session ∉ connections d') as Hout by (intros Hin%H3; discriminate Hin).
    split; [done|]. destruct (Hgone (ss_connection session)) as [?|Hnone]; [|done|].
    + unfold connections. apply list_elem_of_fmap_2. by eapply list_elem_of_lookup_2.
    + unfold is_connected. by rewrite Hnone.
Qed.

(** C11. Authority comes from the socket. Of a connection that was not admitted from the shell's own
    socket, whatever the daemon has been through and whatever calls follow that admit nobody,
    requests and grants of any capability to anybody among them: it does not hold the authority over
    other people's windows, nor over the keys that every application would otherwise see; and
    granting it either is refused and changes nothing. *)
Theorem authority_by_socket (shells : gset ConnectionId) (d : Daemon) (Hd : runs shells d)
    (c : ConnectionId) (Hc : c ∉ shells) (cap : Capability) (Hcap : cap ∈ shell_powers)
    (s : CompositorState) (Hs : onward (dm_state d) s) (Hconn : is_connected c s = true) :
  holds_capability c cap s = false ∧
  grant_capability c cap s = (Err (UnsupportedCapability ObjectId_DISPLAY cap), s).
Proof.
  apply runs_in_order in Hd as [O1 _ _ _ O5].
  apply bool_decide_eq_true in Hconn as [client Hcl].
  destruct (onward_client _ _ _ _ O1 Hs Hcl) as (client0 & Hcl0 & Havail).
  assert (cap_contains (cn_available_capabilities client) cap = false) as Hno
    by (rewrite Havail; by apply (O5 c client0)).
  split.
  - apply not_true_iff_false. unfold holds_capability, capabilities. rewrite Hcl. cbn. intros Hheld.
    destruct (reachable_inv s (onward_reachable _ _ O1 Hs)) as (_ & C & _).
    apply (client_authority _ _ (C c client Hcl)) in Hheld. congruence.
  - unfold grant_capability. rewrite ST_bind_run. unfold reads, connection. rewrite Hcl. cbn [ok_or].
    by rewrite Hno.
Qed.

(** C25. A client that leaves takes nobody with it. Over one turn of the loop, a session whose
    descriptor had nothing to say is still there afterwards, whoever else left or failed; those that
    stay keep their order, newcomers come last and stay; and whoever did leave is not known to the
    compositor any more. *)
Theorem departures_isolated (shells : gset ConnectionId) (w : Wakeup (T := T)) (d d' : Daemon)
    (Hd : runs shells d) (Hit : iterate (KE := KE) holders (Ok w) d = (Ok tt, d')) :
  let newcomers := drop (length (dm_sessions d)) (connections (admit_shell w (admit_client w d))) in
  (∀ i session, dm_sessions d !! i = Some session →
     ready w (i + WATCHED_LISTENERS) (Z.lor (Z.lor POLLIN POLLHUP) POLLERR) = false →
     ss_connection session ∈ connections d') ∧
  connections d' `sublist_of` connections d ++ newcomers ∧
  (∀ c, c ∈ newcomers → c ∈ connections d') ∧
  (∀ c, c ∈ connections d → c ∉ connections d' → is_connected c (dm_state d') = false).
Proof.
  apply runs_in_order in Hd. injection Hit as Hit.
  pose proof (admissions_in_order shells w d Hd) as Hd1. set (d1 := admit_shell w (admit_client w d)) in *.
  destruct (admissions_grow w d) as [l Hl]. fold d1 in Hl.
  assert (connections d1 = connections d ++ (ss_connection <$> l)) as Hc1
    by (unfold connections; by rewrite Hl, fmap_app).
  cbv zeta. rewrite Hc1. replace (length (dm_sessions d)) with (length (connections d))
    by (unfold connections; by rewrite length_fmap). rewrite drop_app_length.
  apply attend_run in Hit as (_ & Hsub & Hgone & Hstay); [|apply Hd1..]. rewrite Hc1 in Hsub, Hgone.
  split_and!; [|done| |].
  - intros i session Hi Hr. specialize (Hstay i session).
    rewrite Hr, andb_false_r in Hstay. apply Hstay. rewrite Hl. by apply lookup_app_l_Some.
  - intros c Hin. apply list_elem_of_fmap in Hin as (session & -> & Hin).
    apply list_elem_of_lookup in Hin as [j Hj].
    specialize (Hstay (length (dm_sessions d) + j)%nat session).
    rewrite bool_decide_eq_false_2 in Hstay by lia. apply Hstay.
    rewrite Hl, lookup_app_r by lia. by replace (_ + j - _)%nat with j by lia.
  - intros c Hin Hout. destruct (Hgone c) as [?|Hnone]; [apply elem_of_app; by left|done|].
    unfold is_connected. by rewrite Hnone.
Qed.
End Runs.

(** ** A shell and an application arrive, and the application leaves *)

Abbreviation ScriptDaemon := (Daemon.Daemon (T := Script) (M := SharedMemoryStore File) (K := VncSink)).

Definition booted_state : CompositorState :=
  match advertise_all GLOBALS (compositor ServerLimits_default ConnectionLimits_default) with
  | Some s => (place_output (MkOutputId 1) (MkPoint 0 0) (apply_topology [the_output] GLOBAL_VERSION s).2).2
  | None => compositor ServerLimits_default ConnectionLimits_default
  end.

(** Nobody watches, so nothing is composed, and the presenter is as it was made. *)
Definition booted (p : Presenter) : ScriptDaemon := MkDaemon booted_state p [] true None 0 0.

Lemma boots : ∃ p, start (KE := IoError) (T := Script) (M := SharedMemoryStore File) (K := VncSink)
  alone at_once true None = Some (booted p).
Proof.
  unfold start. destruct (result_ok (layout ← PixelLayout_new 4; Presenter_new OUTPUT_SIZE layout))
    as [p|] eqn:Ep; [|discriminate Ep].
  exists p. clear Ep. vm_compute. reflexivity.
Qed.

Definition silent : Script := MkScript [] [].

(** Both listeners have a connection waiting; then the application's descriptor hangs up. *)
Definition arrivals : Wakeup (T := Script) := MkWakeup [1; 1; 0] (Ok silent) (Ok silent) at_once.
Definition hangup : Wakeup (T := Script) := MkWakeup [0; 0; 0; 16; 0] (Err IoOther) (Err IoOther) at_once.

Definition two_clients (p : Presenter) : ScriptDaemon :=
  (iterate (KE := IoError) alone (Ok arrivals) (booted p)).2.
Definition one_left (p : Presenter) : ScriptDaemon :=
  (iterate (KE := IoError) alone (Ok hangup) (two_clients p)).2.

Lemma two_clients_run p : start (KE := IoError) alone at_once true None = Some (booted p) →
  runs (KE := IoError) alone (∅ ∪ shells_let_in (Ok arrivals) (booted p)) (two_clients p).
Proof.
  intros Hp. exact (runs_turn alone ∅ _ _ _ (runs_start alone at_once true None _ Hp) (iterate_Ok alone _ _)).
Qed.

(** The application's connection is number one and its transport has nothing but its end. *)
Lemma clients_have_sessions_witness : ∃ p,
  is_connected (MkConnectionId 1) (dm_state (two_clients p)) = true ∧
  (∃ i session, dm_sessions (two_clients p) !! i = Some session ∧
    ss_connection session = MkConnectionId 1) ∧
  MkConnectionId 1 ∉ connections (one_left p) ∧
  is_connected (MkConnectionId 1) (dm_state (one_left p)) = false.
Proof.
  destruct boots as [p Hp]. exists p.
  assert (is_connected (MkConnectionId 1) (dm_state (two_clients p)) = true) as Hc by (vm_compute; reflexivity).
  split; [exact Hc|]. destruct (clients_have_sessions alone _ _ (two_clients_run p Hp)) as [Hone Hturn].
  split.
  - destruct (Hone (MkConnectionId 1) Hc) as (i & session & Hi & Hs & _). exists i, session. split; [exact Hi|exact Hs].
  - assert (dm_sessions (two_clients p) !! 0%nat = Some (Session_new silent (MkConnectionId 1))) as Hs
      by (vm_compute; reflexivity).
    destruct (Hturn hangup _ (iterate_Ok alone hangup _) 0%nat _ Hs) as (s0 & _ & H);
      [vm_compute; reflexivity|].
    exact (proj2 H).
Defined.

Lemma authority_by_socket_witness : ∃ p,
  let s := call (CallGrant (MkConnectionId 1) ShellControlCap) (dm_state (two_clients p)) in
  is_connected (MkConnectionId 1) s = true ∧ holds_capability (MkConnectionId 1) ShellControlCap s = false ∧
  grant_capability (MkConnectionId 1) ShellControlCap s =
    (Err (UnsupportedCapability ObjectId_DISPLAY ShellControlCap), s) ∧
  holds_capability (MkConnectionId 2) ShellControlCap s = true.
Proof.
  destruct boots as [p Hp]. exists p. cbv zeta.
  set (s := call _ _).
  assert (is_connected (MkConnectionId 1) s = true) as Hc by (vm_compute; reflexivity).
  destruct (authority_by_socket alone _ _ (two_clients_run p Hp) (MkConnectionId 1)
    ltac:(apply (bool_decide_eq_false_1 _); vm_compute; reflexivity) ShellControlCap
    (list_elem_of_here _ _) s (onward_call (CallGrant (MkConnectionId 1) ShellControlCap) _ _ eq_refl (onward_refl _)) Hc) as [H1 H2].
  split; [exact Hc|]. split; [exact H1|]. split; [exact H2|vm_compute; reflexivity].
Defined.

Lemma departures_isolated_witness : ∃ p,
  connections (one_left p) = [MkConnectionId 2] ∧
  (MkConnectionId 1 ∈ connections (two_clients p) → MkConnectionId 1 ∉ connections (one_left p) →
   is_connected (MkConnectionId 1) (dm_state (one_left p)) = false).
Proof.
  destruct boots as [p Hp]. exists p. split; [vm_compute; reflexivity|].
  exact (proj2 (proj2 (proj2 (departures_isolated alone _ hangup _ _ (two_clients_run p Hp)
    (iterate_Ok alone hangup _)))) (MkConnectionId 1)).
Defined.

(** ** What the viewer did before it let go *)

(** The viewer presses a key and is exposed before the daemon has looked, as when it loses the focus
    in the middle of a chord: a key message, and a request for everything. *)
Definition lost_focus : Listening :=
  (drain_requests (Watching_new (MkStream
     (Some <$> (u8_byte 4 :: message_body (KeyMessage true 0x77)) ++
               (u8_byte 3 :: message_body (UpdateRequest false 0 0 0 0))) [] None false),
   Latest_default)).2.

Definition watched (p : Presenter) : ScriptDaemon :=
  MkDaemon booted_state p [] false (Some (MkVncSink lost_focus.2 0)) 0 0.

(** The order is lost. What the viewer held when it let go is let go of before the presses it made
    earlier are applied, so that a key pressed and then forgotten between two looks is held from
    then on: the sink knows of nothing to forget any more, and the compositor has the key down. *)
Theorem forgotten_press_held (p : Presenter) :
  iq_events (lt_input lost_focus.2) = [Key (MkKeyInput Usage.W true)] ∧
  iq_stale (lt_input lost_focus.2) = true ∧
  let d := (hear_viewer (watched p)).2 in
  kr_held (sr_keyboard (cs_seat (dm_state d))) = {[ MkPhysicalKey Usage.W ]} ∧
  (λ sink, lt_input (vk_latest sink)) <$> dm_viewer d = Some InputQueue_new.
Proof. vm_compute. repeat split. Qed.

(** A key is pressed and let go of before the daemon looks. *)
Definition pressing : VncSink :=
  MkVncSink (MkLatest Held_default
    (MkInputQueue [Key (MkKeyInput Usage.W true); Key (MkKeyInput Usage.W false)] 0 false false) ∅ true) 0.
Definition looking (p : Presenter) : ScriptDaemon :=
  MkDaemon fresh p [] false (Some pressing) 0 0.

Lemma viewer_heard_witness : ∃ p, dm_viewer (looking p) = Some pressing ∧
  dm_state (hear_viewer (looking p)).2 =
    calls [CallKey (MkPhysicalKey Usage.W) true 1; CallKey (MkPhysicalKey Usage.W) false 2] fresh.
Proof.
  exists easel_presenter. split; [reflexivity|].
  exact (proj1 (viewer_heard (looking easel_presenter) pressing eq_refl (Z.le_refl 0)
    (Z.lt_le_incl 2 u64_max eq_refl) eq_refl eq_refl)).
Defined.
