(* ===== verification/Keys.v ===== *)
(** Keys as the kernel reports them, made into keys as the display server means them
    ([atria-input/src/{key,report,epoch,error}.rs], with the codes of [backend/evdev/uapi.rs]): records
    collected into complete reports, reports normalized, and the epochs that cut what was held before
    from what is heard after. *)
From S2P Require Import Prelude.

(** * Errors *)

Record Duration := MkDuration { as_secs : Z; subsec_nanos : Z }.

Inductive InputError :=
| EmptyInputSet
| DeviceAbsent (event_index : Z)
| OpenDevice (event_index errno : Z)
| QueryEventTypes (event_index errno : Z)
| QueryKeyCodes (event_index errno : Z)
| QueryKeyState (event_index errno : Z)
| SetMonotonicClock (event_index errno : Z)
| DeviceUnhandled (event_index : Z)
| ReadEvents (event_index errno : Z)
| EndOfInput (event_index : Z)
| InvalidReadLength (bytes : Z)
| PollDescriptors (errno : Z)
| PollTimeoutTooLong (timeout : Duration)
| ReacquisitionRequired
| ReacquisitionNotRequired
| EpochOverflow
| ReportTooLarge
| InvalidTimestamp (seconds microseconds : Z)
| TimestampOverflow
| InvalidKeyValue (value : Z).

(** * Records and reports ([report.rs]) *)

Definition EV_SYN : Z := 0.
Definition EV_KEY : Z := 1.
Definition SYN_REPORT : Z := 0.
Definition SYN_DROPPED : Z := 3.
Definition MAX_REPORT_EVENTS : Z := 256.

Record RawInputEvent := MkRawInputEvent {
  re_seconds : Z;
  re_microseconds : Z;
  re_event_type : Z;
  re_code : Z;
  re_value : Z;
}.

(** A report is its records ([RawReport]). *)
Definition RawReport : Type := list RawInputEvent.

Record ReportAccumulator := MkReportAccumulator {
  ra_pending : list RawInputEvent;
  ra_dropping : bool;
}.

Definition ReportAccumulator_new : ReportAccumulator := MkReportAccumulator [] false.

Inductive ReportStatus :=
| ReportPending
| ReportComplete (report : RawReport)
| ReportDiscontinuity.

Definition report_push (event : RawInputEvent) : ST ReportAccumulator InputError ReportStatus := λ self,
  if (re_event_type event =? EV_SYN) && (re_code event =? SYN_DROPPED)
  then (Ok ReportPending, MkReportAccumulator [] true)
  else if (re_event_type event =? EV_SYN) && (re_code event =? SYN_REPORT) then
    if ra_dropping self then (Ok ReportDiscontinuity, MkReportAccumulator (ra_pending self) false)
    else (Ok (ReportComplete (ra_pending self)), MkReportAccumulator [] (ra_dropping self))
  else if ra_dropping self then (Ok ReportPending, self)
  else if MAX_REPORT_EVENTS <=? len (ra_pending self)
  then (Err ReportTooLarge, MkReportAccumulator [] true)
  else (Ok ReportPending, MkReportAccumulator (ra_pending self ++ [event]) (ra_dropping self)).

(** [ReportAccumulator::reset], whatever there was. *)
Definition report_reset (self : ReportAccumulator) : ReportAccumulator := MkReportAccumulator [] false.

(** * Key codes ([uapi.rs], [key.rs]) *)

Definition KEY_ESC : Z := 1.
Definition KEY_ENTER : Z := 28.
Definition KEY_UP : Z := 103.
Definition KEY_LEFT : Z := 105.
Definition KEY_RIGHT : Z := 106.
Definition KEY_DOWN : Z := 108.
Definition KEY_MUTE : Z := 113.
Definition KEY_VOLUMEDOWN : Z := 114.
Definition KEY_VOLUMEUP : Z := 115.
Definition KEY_POWER : Z := 116.
Definition KEY_MENU : Z := 139.
Definition KEY_BACK : Z := 158.
Definition KEY_NEXTSONG : Z := 163.
Definition KEY_PLAYPAUSE : Z := 164.
Definition KEY_PREVIOUSSONG : Z := 165.
Definition KEY_STOPCD : Z := 166.
Definition KEY_RECORD : Z := 167.
Definition KEY_REWIND : Z := 168.
Definition KEY_HOMEPAGE : Z := 172.
Definition KEY_EXIT : Z := 174.
Definition KEY_FASTFORWARD : Z := 208.
Definition KEY_CANCEL : Z := 223.
Definition KEY_OK : Z := 0x160.
Definition KEY_SELECT : Z := 0x161.
Definition KEY_INFO : Z := 0x166.
Definition KEY_EPG : Z := 0x16d.
Definition KEY_SUBTITLE : Z := 0x172.
Definition KEY_TV : Z := 0x179.
Definition KEY_AUDIO : Z := 0x188.
Definition KEY_VIDEO : Z := 0x189.
Definition KEY_RED : Z := 0x18e.
Definition KEY_GREEN : Z := 0x18f.
Definition KEY_YELLOW : Z := 0x190.
Definition KEY_BLUE : Z := 0x191.
Definition KEY_CHANNELUP : Z := 0x192.
Definition KEY_CHANNELDOWN : Z := 0x193.
Definition KEY_NUMERIC_0 : Z := 0x200.
Definition KEY_NUMERIC_1 : Z := 0x201.
Definition KEY_NUMERIC_2 : Z := 0x202.
Definition KEY_NUMERIC_3 : Z := 0x203.
Definition KEY_NUMERIC_4 : Z := 0x204.
Definition KEY_NUMERIC_5 : Z := 0x205.
Definition KEY_NUMERIC_6 : Z := 0x206.
Definition KEY_NUMERIC_7 : Z := 0x207.
Definition KEY_NUMERIC_8 : Z := 0x208.
Definition KEY_NUMERIC_9 : Z := 0x209.
Definition KEY_NUMERIC_STAR : Z := 0x20a.
Definition KEY_NUMERIC_POUND : Z := 0x20b.

Inductive KeyCode :=
| KcEscape | KcEnter | KcUp | KcLeft | KcRight | KcDown
| KcMute | KcVolumeDown | KcVolumeUp | KcPower | KcMenu | KcBack
| KcHome | KcNextTrack | KcPlayPause | KcPreviousTrack | KcStop | KcRecord
| KcRewind | KcExit | KcFastForward | KcCancel | KcOk | KcSelect
| KcInfo | KcGuide | KcSubtitle | KcTv | KcAudio | KcVideo
| KcRed | KcGreen | KcYellow | KcBlue | KcChannelUp | KcChannelDown
| KcNumeric0 | KcNumeric1 | KcNumeric2 | KcNumeric3 | KcNumeric4 | KcNumeric5
| KcNumeric6 | KcNumeric7 | KcNumeric8 | KcNumeric9 | KcNumericStar | KcNumericPound.

#[global] Instance KeyCode_eq_dec : EqDecision KeyCode.
Proof. solve_decision. Defined.

Definition KEY_COUNT : nat := 48.

(** [self as usize]. *)
Definition key_index (k : KeyCode) : nat :=
  match k with
  | KcEscape => 0 | KcEnter => 1 | KcUp => 2 | KcLeft => 3 | KcRight => 4
  | KcDown => 5 | KcMute => 6 | KcVolumeDown => 7 | KcVolumeUp => 8 | KcPower => 9
  | KcMenu => 10 | KcBack => 11 | KcHome => 12 | KcNextTrack => 13 | KcPlayPause => 14
  | KcPreviousTrack => 15 | KcStop => 16 | KcRecord => 17 | KcRewind => 18 | KcExit => 19
  | KcFastForward => 20 | KcCancel => 21 | KcOk => 22 | KcSelect => 23 | KcInfo => 24
  | KcGuide => 25 | KcSubtitle => 26 | KcTv => 27 | KcAudio => 28 | KcVideo => 29
  | KcRed => 30 | KcGreen => 31 | KcYellow => 32 | KcBlue => 33 | KcChannelUp => 34
  | KcChannelDown => 35 | KcNumeric0 => 36 | KcNumeric1 => 37 | KcNumeric2 => 38 | KcNumeric3 => 39
  | KcNumeric4 => 40 | KcNumeric5 => 41 | KcNumeric6 => 42 | KcNumeric7 => 43 | KcNumeric8 => 44
  | KcNumeric9 => 45 | KcNumericStar => 46 | KcNumericPound => 47
  end%nat.

Definition from_evdev (code : Z) : option KeyCode :=
  if code =? KEY_ESC then Some KcEscape
  else if code =? KEY_ENTER then Some KcEnter
  else if code =? KEY_UP then Some KcUp
  else if code =? KEY_LEFT then Some KcLeft
  else if code =? KEY_RIGHT then Some KcRight
  else if code =? KEY_DOWN then Some KcDown
  else if code =? KEY_MUTE then Some KcMute
  else if code =? KEY_VOLUMEDOWN then Some KcVolumeDown
  else if code =? KEY_VOLUMEUP then Some KcVolumeUp
  else if code =? KEY_POWER then Some KcPower
  else if code =? KEY_MENU then Some KcMenu
  else if code =? KEY_BACK then Some KcBack
  else if code =? KEY_NEXTSONG then Some KcNextTrack
  else if code =? KEY_PLAYPAUSE then Some KcPlayPause
  else if code =? KEY_PREVIOUSSONG then Some KcPreviousTrack
  else if code =? KEY_STOPCD then Some KcStop
  else if code =? KEY_RECORD then Some KcRecord
  else if code =? KEY_REWIND then Some KcRewind
  else if code =? KEY_HOMEPAGE then Some KcHome
  else if code =? KEY_EXIT then Some KcExit
  else if code =? KEY_FASTFORWARD then Some KcFastForward
  else if code =? KEY_CANCEL then Some KcCancel
  else if code =? KEY_OK then Some KcOk
  else if code =? KEY_SELECT then Some KcSelect
  else if code =? KEY_INFO then Some KcInfo
  else if code =? KEY_EPG then Some KcGuide
  else if code =? KEY_SUBTITLE then Some KcSubtitle
  else if code =? KEY_TV then Some KcTv
  else if code =? KEY_AUDIO then Some KcAudio
  else if code =? KEY_VIDEO then Some KcVideo
  else if code =? KEY_RED then Some KcRed
  else if code =? KEY_GREEN then Some KcGreen
  else if code =? KEY_YELLOW then Some KcYellow
  else if code =? KEY_BLUE then Some KcBlue
  else if code =? KEY_CHANNELUP then Some KcChannelUp
  else if code =? KEY_CHANNELDOWN then Some KcChannelDown
  else if code =? KEY_NUMERIC_0 then Some KcNumeric0
  else if code =? KEY_NUMERIC_1 then Some KcNumeric1
  else if code =? KEY_NUMERIC_2 then Some KcNumeric2
  else if code =? KEY_NUMERIC_3 then Some KcNumeric3
  else if code =? KEY_NUMERIC_4 then Some KcNumeric4
  else if code =? KEY_NUMERIC_5 then Some KcNumeric5
  else if code =? KEY_NUMERIC_6 then Some KcNumeric6
  else if code =? KEY_NUMERIC_7 then Some KcNumeric7
  else if code =? KEY_NUMERIC_8 then Some KcNumeric8
  else if code =? KEY_NUMERIC_9 then Some KcNumeric9
  else if code =? KEY_NUMERIC_STAR then Some KcNumericStar
  else if code =? KEY_NUMERIC_POUND then Some KcNumericPound
  else None.


Definition is_supported_evdev (code : Z) : bool := bool_decide (is_Some (from_evdev code)).

(** * Normalization *)

Definition NANOS_PER_SECOND : Z := 1000000000.
Definition NANOS_PER_MICROSECOND : Z := 1000.
Definition MICROSECONDS_PER_SECOND : Z := 1000000.

Inductive KeyAction := Released | Pressed | Repeated.

#[global] Instance KeyAction_eq_dec : EqDecision KeyAction.
Proof. solve_decision. Defined.

(** A cut in seat, device, or routing state: its number. *)
Definition Epoch : Type := Z.
Definition Epoch_INITIAL : Epoch := 1.

Record KeyEvent := MkKeyEvent {
  ke_timestamp_ns : Z;
  ke_code : KeyCode;
  ke_action : KeyAction;
  ke_epoch : Epoch;
}.

Record KeyNormalizer := MkKeyNormalizer { kn_down : list bool; kn_suppressed : list bool }.

Definition KeyNormalizer_new : KeyNormalizer :=
  MkKeyNormalizer (replicate KEY_COUNT false) (replicate KEY_COUNT false).

Definition key_flag (flags : list bool) (k : KeyCode) : bool := default false (flags !! key_index k).

Definition timestamp_ns (seconds microseconds : Z) : result InputError Z :=
  if (seconds <? 0) || negb ((0 <=? microseconds) && (microseconds <? MICROSECONDS_PER_SECOND))
  then Err (InvalidTimestamp seconds microseconds)
  else
    seconds ← ok_or (try_from u64_max seconds) TimestampOverflow;
    microseconds ← ok_or (try_from u64_max microseconds) TimestampOverflow;
    ok_or (base ← checked_mul u64_max seconds NANOS_PER_SECOND;
           fraction ← checked_mul u64_max microseconds NANOS_PER_MICROSECOND;
           checked_add u64_max base fraction) TimestampOverflow.

Definition key_action (value : Z) : result InputError KeyAction :=
  match value with
  | 0 => Ok Released
  | 1 => Ok Pressed
  | 2 => Ok Repeated
  | value => Err (InvalidKeyValue value)
  end.

(** The loop of [normalize] over a report's records: the next state, and what has been made of
    them. *)
Fixpoint normalize_records (records : list RawInputEvent) (epoch : Epoch) (next : KeyNormalizer)
    (normalized : list KeyEvent) : result InputError (KeyNormalizer * list KeyEvent) :=
  match records with
  | [] => Ok (next, normalized)
  | raw :: rest =>
      if negb (re_event_type raw =? EV_KEY) then normalize_records rest epoch next normalized
      else match from_evdev (re_code raw) with
      | None => normalize_records rest epoch next normalized
      | Some code =>
          action ← key_action (re_value raw);
          timestamp_ns ← timestamp_ns (re_seconds raw) (re_microseconds raw);
          let index := key_index code in
          let down := <[ index := negb (bool_decide (action = Released)) ]> (kn_down next) in
          if key_flag (kn_suppressed next) code then
            let suppressed := if bool_decide (action = Released)
                              then <[ index := false ]> (kn_suppressed next)
                              else kn_suppressed next in
            normalize_records rest epoch (MkKeyNormalizer down suppressed) normalized
          else
            normalize_records rest epoch (MkKeyNormalizer down (kn_suppressed next))
              (normalized ++ [MkKeyEvent timestamp_ns code action epoch])
      end
  end.

Definition normalize (report : RawReport) (epoch : Epoch)
    : ST KeyNormalizer InputError (list KeyEvent) := λ self,
  match normalize_records report epoch self [] with
  | Ok (next, normalized) => (Ok normalized, next)
  | Err e => (Err e, self)
  end.

Definition is_down (k : KeyCode) (self : KeyNormalizer) : bool := key_flag (kn_down self) k.

Definition suppress_held (self : KeyNormalizer) : KeyNormalizer :=
  MkKeyNormalizer (kn_down self) (kn_down self).

(** Whether a bitmap has the bit of a code. *)
Definition bitmap_bit (bitmap : list byte) (code : Z) : bool :=
  match bitmap !! Z.to_nat (code / 8) with
  | Some b => negb (Z.land (byte_val b) (Z.shiftl 1 (code mod 8)) =? 0)
  | None => false
  end.

(** One code of the loop of [reacquire]. *)
Definition reacquire_code (bitmap : list byte) (self : KeyNormalizer) (code : Z) : KeyNormalizer :=
  match from_evdev code with
  | None => self
  | Some key =>
      let down := bitmap_bit bitmap code in
      MkKeyNormalizer (<[ key_index key := down ]> (kn_down self))
                      (<[ key_index key := down ]> (kn_suppressed self))
  end.

Definition keys_reacquire (bitmap : list byte) (self : KeyNormalizer) : KeyNormalizer :=
  foldl (reacquire_code bitmap) self (seqZ 0 0x300).

(** * The pipeline ([epoch.rs]) *)

Inductive EpochChange := ChangeSeat | ChangeDevice | ChangeRouting.

Inductive InputBatch :=
| Keys (epoch : Epoch) (events : list KeyEvent)
| Discontinuity (epoch : Epoch).

Definition batch_epoch (b : InputBatch) : Epoch :=
  match b with Keys epoch _ => epoch | Discontinuity epoch => epoch end.

Definition batch_events (b : InputBatch) : list KeyEvent :=
  match b with Keys _ events => events | Discontinuity _ => [] end.

Inductive PipelineStatus :=
| PipelinePending
| PipelineBatch (batch : InputBatch)
| ReacquireKeyState.

Record InputPipeline := MkInputPipeline {
  ip_reports : ReportAccumulator;
  ip_keys : KeyNormalizer;
  ip_epoch : Epoch;
  ip_needs_reacquisition : bool;
}.

Definition InputPipeline_new : InputPipeline :=
  MkInputPipeline ReportAccumulator_new KeyNormalizer_new Epoch_INITIAL false.

Definition set_ip_reports (reports : ReportAccumulator) (self : InputPipeline) : InputPipeline :=
  MkInputPipeline reports (ip_keys self) (ip_epoch self) (ip_needs_reacquisition self).
Definition set_ip_keys (keys : KeyNormalizer) (self : InputPipeline) : InputPipeline :=
  MkInputPipeline (ip_reports self) keys (ip_epoch self) (ip_needs_reacquisition self).
Definition set_needs_reacquisition (needs : bool) (self : InputPipeline) : InputPipeline :=
  MkInputPipeline (ip_reports self) (ip_keys self) (ip_epoch self) needs.

(** [InputPipeline::accept]. *)
Definition accept_event (event : KeyEvent) (self : InputPipeline) : option KeyEvent :=
  if ke_epoch event =? ip_epoch self then Some event else None.

Definition on_reports {A} (m : ST ReportAccumulator InputError A) : ST InputPipeline InputError A := λ self,
  let '(r, reports) := m (ip_reports self) in (r, set_ip_reports reports self).
Definition on_keys {A} (m : ST KeyNormalizer InputError A) : ST InputPipeline InputError A := λ self,
  let '(r, keys) := m (ip_keys self) in (r, set_ip_keys keys self).

Definition pipeline_push (event : RawInputEvent) : ST InputPipeline InputError PipelineStatus :=
  needs ← gets ip_needs_reacquisition;
  if (needs : bool) then throw ReacquisitionRequired
  else
    status ← on_reports (report_push event);
    match status with
    | ReportPending => mret PipelinePending
    | ReportComplete report =>
        epoch ← gets ip_epoch;
        events ← on_keys (normalize report epoch);
        mret (PipelineBatch (Keys epoch events))
    | ReportDiscontinuity =>
        _ ← modify (set_needs_reacquisition true);
        mret ReacquireKeyState
    end.

Definition advance (change : EpochChange) : ST InputPipeline InputError Epoch := λ self,
  match checked_add u64_max (ip_epoch self) 1 with
  | None => (Err EpochOverflow, self)
  | Some epoch =>
      (Ok epoch, MkInputPipeline (report_reset (ip_reports self)) (suppress_held (ip_keys self)) epoch
                   (ip_needs_reacquisition self))
  end.

(** [InputPipeline::reacquire]. *)
Definition reacquire (bitmap : list byte) : ST InputPipeline InputError InputBatch :=
  needs ← gets ip_needs_reacquisition;
  if negb needs then throw ReacquisitionNotRequired
  else
    _ ← advance ChangeDevice;
    _ ← modify (λ self, set_ip_keys (keys_reacquire bitmap (ip_keys self)) self);
    _ ← modify (set_needs_reacquisition false);
    epoch ← gets ip_epoch;
    mret (Discontinuity epoch).

Definition initialize_key_state (bitmap : list byte) (self : InputPipeline) : InputPipeline :=
  set_ip_keys (keys_reacquire bitmap (ip_keys self)) self.
