(* ===== verification/Nodes.v ===== *)
(** What a backend does with the nodes of the kernel, whichever they are: their names, and the memory lent
    to a call. The same function names the nodes of [atria-input] and those of [atria-drm]. *)
From S2P Require Import Prelude.
From S2P Require Import Pixels.

(** Memory of which the first items have been written. *)
Definition written_over {A} (items memory : list A) : list A :=
  take (length memory) (items ++ drop (length items) memory).

Lemma length_written_over {A} (items memory : list A) : length (written_over items memory) = length memory.
Proof. unfold written_over. rewrite length_take, length_app, length_drop. lia. Qed.

(** * Paths *)

Definition ascii_digit (n : Z) : byte := coqutil.Byte.byte.of_Z (0x30 + n).

(** The loop of [device_path]: the digits of a value, the last one first. Ten of them are room for
    any [u32]. *)
Fixpoint digits_of (fuel : nat) (value : Z) : list byte :=
  match fuel with
  | O => []
  | S fuel =>
      ascii_digit (value mod 10) ::
      (if value / 10 =? 0 then [] else digits_of fuel (value / 10))
  end.

(** [device_path], for nodes of a prefix. *)
Definition numbered_path (prefix : list byte) (index : Z) : list byte * Z :=
  let digits := digits_of 10 index in
  (put_range (put_range (zeroes 32) 0 prefix) (len prefix) (reverse digits), len prefix + len digits).

(** A number written in decimal. *)
Definition decimal (digits : list byte) : Z := foldl (λ n b, n * 10 + (byte_val b - 0x30)) 0 digits.

Lemma ascii_digit_val n : 0 ≤ n < 10 → byte_val (ascii_digit n) = 0x30 + n.
Proof.
  intros H. unfold byte_val, ascii_digit. rewrite coqutil.Byte.byte.unsigned_of_Z.
  unfold coqutil.Byte.byte.wrap. apply Z.mod_small. lia.
Qed.

Lemma digits_of_decimal fuel value :
  (0 < fuel)%nat → 0 ≤ value < 10 ^ Z.of_nat fuel → decimal (reverse (digits_of fuel value)) = value.
Proof.
  revert value. induction fuel as [|fuel IH]; intros value Hf Hv; [lia|].
  cbn [digits_of]. rewrite reverse_cons. unfold decimal in *. rewrite foldl_app. cbn [foldl].
  rewrite ascii_digit_val by (apply Z.mod_pos_bound; lia).
  pose proof (Z.div_mod value 10 ltac:(lia)).
  destruct (Z.eqb_spec (value / 10) 0) as [E|E]; [cbn; lia|].
  rewrite Nat2Z.inj_succ, Z.pow_succ_r in Hv by lia.
  assert (0 ≤ value / 10) by (apply Z.div_pos; lia).
  assert (value / 10 < 10 ^ Z.of_nat fuel) by (apply Z.div_lt_upper_bound; lia).
  destruct fuel; [cbn in *; lia|]. rewrite IH by lia. lia.
Qed.

Lemma digits_of_length fuel value : (length (digits_of fuel value) ≤ fuel)%nat.
Proof. revert value. induction fuel; intros value; cbn; [lia|]. destruct (_ =? 0); cbn; [lia|]. specialize (IHfuel (value / 10)). lia. Qed.

(** What is written in the 32 bytes, and is said to be, reads back as the number. *)
Lemma numbered_path_reads_back prefix index :
  (length prefix <=? 22)%nat = true → is_u32 index →
  ∃ digits, take (Z.to_nat (numbered_path prefix index).2) (numbered_path prefix index).1 = prefix ++ digits ∧
            decimal digits = index ∧ (numbered_path prefix index).2 = len (prefix ++ digits) ∧
            length (numbered_path prefix index).1 = 32%nat.
Proof.
  intros Hp [H0 H1]. apply Nat.leb_le in Hp. unfold numbered_path. cbn [fst snd]. unfold u32_max in H1.
  pose proof (digits_of_length 10 index) as Hl.
  pose proof (digits_of_decimal 10 index ltac:(lia) ltac:(lia)) as Hd.
  rewrite <-(length_reverse (digits_of 10 index)) in Hl.
  replace (len (digits_of 10 index)) with (len (reverse (digits_of 10 index)))
    by (unfold len; by rewrite length_reverse).
  generalize dependent (reverse (digits_of 10 index)). intros digits Hl Hd. exists digits.
  assert (Hput : put_range (zeroes 32) 0 prefix = prefix ++ drop (length prefix) (zeroes 32)) by reflexivity.
  rewrite Hput. unfold put_range. rewrite to_nat_len, take_app_length, drop_app_ge by lia.
  split; [|split; [|split]].
  - rewrite app_assoc, <-len_app, to_nat_len. apply take_app_length.
  - done.
  - by rewrite len_app.
  - rewrite !length_app, !length_drop. change (length (zeroes 32)) with 32%nat. lia.
Qed.
