(* ===== verification/Evdev.v ===== *)
(** Input devices as the kernel offers them ([atria-input/src/{device,set}.rs],
    [atria-input/src/backend/evdev/{mod,uapi}.rs]): nodes opened and classified, records read out of
    memory, and the set of devices that waits on all of them at once. *)
From S2P Require Import Prelude.
From S2P Require Import BTree.
From S2P Require Import Vocabulary.
From S2P Require Import Wire.
From S2P Require Import Pixels.
From S2P Require Import Poll.
From S2P Require Import Nodes.
From S2P Require Import Keys.

(** * The kernel, as the calls the backend makes of it

    Each call answers from, and leaves, a state [K] of the outside. [os_open] is
    [OpenOptions::open], its error the [raw_os_error]. [libc_ioctl] and [libc_read] also answer with
    the bytes they wrote at the start of the memory lent to them, and [libc_poll] with the [revents] of
    each entry. *)
Class EvdevKernel (K : Type) := {
  File : Type;
  os_open : list byte → K → result (option Z) File * K;
  libc_ioctl : File → Z → list byte → K → Z * list byte * K;
  libc_read : File → Z → K → Z * list byte * K;
  libc_poll : list File → Z → K → Z * (nat → Z) * K;
  last_os_error : K → option Z;
  EIO : Z;
  ENOENT : Z;
  CLOCK_MONOTONIC : Z;
}.

(** * The memory the kernel reads and writes ([uapi.rs]) *)

Definition EVENT_TYPE_BYTES : Z := 4.
Definition KEY_STATE_BYTES : Z := 96.

Record InputEvent := MkInputEvent {
  ie_tv_sec : Z; ie_tv_usec : Z; ie_event_type : Z; ie_code : Z; ie_value : Z;
}.

(** [size_of::<InputEvent>()], with a 64-bit [time_t]. *)
Definition INPUT_EVENT_SIZE : Z := 24.

(** The bits of an unsigned word read as a signed one. *)
Definition as_i64 (x : Z) : Z := if x <=? i64_max then x else x - (u64_max + 1).

(** The record laid out in memory ([repr(C)], little-endian). *)
Definition InputEvent_from (memory : list byte) : InputEvent :=
  MkInputEvent (as_i64 (le_combine (slice memory 0 8))) (as_i64 (le_combine (slice memory 8 16)))
    (le_combine (slice memory 16 18)) (le_combine (slice memory 18 20))
    (i32_from_le_bytes (slice memory 20 24)).

(** Memory as an array of records. *)
Definition InputEvents_from (count : nat) (memory : list byte) : list InputEvent :=
  map (λ index, InputEvent_from (drop (index * Z.to_nat INPUT_EVENT_SIZE) memory)) (seq 0 count).

Definition EVDEV_TYPE : Z := 0x45.

Definition request_read (number length : Z) : Z :=
  Z.lor (Z.lor (Z.lor (Z.shiftl 2 30) (Z.shiftl length 16)) (Z.shiftl EVDEV_TYPE 8)) number.

(** [request_write::<T>], for a [T] of so many bytes. *)
Definition request_write (size number : Z) : Z :=
  Z.lor (Z.lor (Z.lor (Z.shiftl 1 30) (Z.shiftl size 16)) (Z.shiftl EVDEV_TYPE 8)) number.

Definition IOCTL_GET_EVENT_TYPES : Z := request_read 0x20 EVENT_TYPE_BYTES.
Definition IOCTL_GET_KEY_CODES : Z := request_read (0x20 + EV_KEY) KEY_STATE_BYTES.
Definition IOCTL_GET_KEY_STATE : Z := request_read 0x18 KEY_STATE_BYTES.
Definition IOCTL_SET_CLOCK_ID : Z := request_write 4 0xa0.

(** * What a device is ([device.rs]) *)

Definition EVENT_TYPE_KEY : Z := 1.
Definition EVENT_TYPE_RELATIVE : Z := 2.
Definition EVENT_TYPE_ABSOLUTE : Z := 3.
Definition EVENT_TYPE_SWITCH : Z := 5.

(** Its bits ([EventTypeSet]). *)
Definition EventTypeSet : Type := Z.

Definition event_types_contains (self : EventTypeSet) (event_type : Z) : bool :=
  negb (Z.land self (Z.shiftl 1 event_type) =? 0).
Definition has_keys (self : EventTypeSet) : bool := event_types_contains self EVENT_TYPE_KEY.
Definition has_relative_motion (self : EventTypeSet) : bool := event_types_contains self EVENT_TYPE_RELATIVE.
Definition has_absolute_motion (self : EventTypeSet) : bool := event_types_contains self EVENT_TYPE_ABSOLUTE.
Definition has_switches (self : EventTypeSet) : bool := event_types_contains self EVENT_TYPE_SWITCH.

Inductive DeviceClass := KeyboardRemote | Unhandled (event_types : EventTypeSet).

#[global] Instance DeviceClass_eq_dec : EqDecision DeviceClass.
Proof. solve_decision. Defined.

(** * Pure helpers of the backend ([backend/evdev/mod.rs]) *)

Definition EVENT_DEVICE_LIMIT : nat := 256.
Definition READ_EVENT_COUNT : nat := 64.

(** Every code whose bit is set in a reported-key bitmap. *)
Definition set_key_codes (bitmap : list byte) : list Z :=
  concat (imap (λ byte_index b,
    omap (λ bit_index,
      if Z.land (byte_val b) (Z.shiftl 1 bit_index) =? 0 then None
      else base ← checked_mul usize_max (Z.of_nat byte_index) 8;
           code ← checked_add usize_max base bit_index;
           try_from u16_max code) (seqZ 0 8)) bitmap).

Definition bitmap_has_supported_key (bitmap : list byte) : bool :=
  existsb is_supported_evdev (set_key_codes bitmap).

(** [b"/dev/input/event"]. *)
Definition device_prefix : list byte :=
  (String.list_byte_of_string "/dev/input/event")%string.

Definition device_path (event_index : Z) : list byte * Z := numbered_path device_prefix event_index.

(** [Duration::as_millis]. *)
Definition as_millis (d : Duration) : Z := as_secs d * 1000 + subsec_nanos d / 1000000.

Definition u128_max : Z := 340282366920938463463374607431768211455.

Definition timeout_milliseconds (timeout : option Duration) : result InputError Z :=
  match timeout with
  | None => Ok (-1)
  | Some timeout =>
      let whole_milliseconds := as_millis timeout in
      let has_partial_millisecond := negb (subsec_nanos timeout mod 1000000 =? 0) in
      milliseconds ← ok_or (checked_add u128_max whole_milliseconds
                              (if has_partial_millisecond then 1 else 0)) (PollTimeoutTooLong timeout);
      ok_or (try_from i32_max milliseconds) (PollTimeoutTooLong timeout)
  end.

(** * The backend *)

Section Evdev.
Context {K : Type} {EK : EvdevKernel K} {PF : PollFlags}.

(** [errno()]. *)
Definition errno (k : K) : Z := default EIO (last_os_error k).

Definition ioctl (file : File) (request : Z) (argument : list byte) : ST K Z (list byte) := λ k,
  let '(answer, bytes, k) := libc_ioctl file request argument k in
  if answer =? -1 then (Err (errno k), k) else (Ok (written_over bytes argument), k).

(** [read_events]: how many bytes were read, and the memory they were read into. *)
Definition read_events (file : File) (memory : list byte) : ST K Z (Z * list byte) := λ k,
  let '(answer, bytes, k) := libc_read file (len memory) k in
  if answer =? -1 then (Err (errno k), k)
  else (match ok_or (try_from usize_max answer) EIO with
        | Ok n => Ok (n, written_over bytes memory)
        | Err e => Err e
        end, k).

(** [poll_descriptors]: how many are ready, and what of each. *)
Definition poll_descriptors (descriptors : list File) (timeout_ms : Z) : ST K Z (Z * list Z) := λ k,
  let '(answer, revents, k) := libc_poll descriptors timeout_ms k in
  if answer =? -1 then (Err (errno k), k)
  else (match ok_or (try_from usize_max answer) EIO with
        | Ok n => Ok (n, imap (λ index _, revents index) descriptors)
        | Err e => Err e
        end, k).

Record EvdevBackend := MkEvdevBackend {
  eb_event_index : Z;
  eb_file : File;
  eb_class : DeviceClass;
  eb_reported_keys : list byte;
  eb_initial_key_state : list byte;
}.

Definition reports_key (self : EvdevBackend) (key : KeyCode) : bool :=
  existsb (λ code, bool_decide (from_evdev code = Some key)) (set_key_codes (eb_reported_keys self)).

Definition query_key_state (file : File) (event_index : Z) : ST K InputError (list byte) :=
  ST_map_err (QueryKeyState event_index) (ioctl file IOCTL_GET_KEY_STATE (zeroes KEY_STATE_BYTES)).

Definition query_event_types (file : File) (event_index : Z) : ST K InputError EventTypeSet :=
  bitmap ← ST_map_err (QueryEventTypes event_index)
             (ioctl file IOCTL_GET_EVENT_TYPES (zeroes EVENT_TYPE_BYTES));
  mret (u_from_le_bytes bitmap).

Definition classify (file : File) (event_index : Z) (event_types : EventTypeSet)
    : ST K InputError (DeviceClass * list byte) :=
  let bitmap := zeroes KEY_STATE_BYTES in
  if negb (has_keys event_types) then mret (Unhandled event_types, bitmap)
  else
    bitmap ← ST_map_err (QueryKeyCodes event_index) (ioctl file IOCTL_GET_KEY_CODES bitmap);
    if bitmap_has_supported_key bitmap then mret (KeyboardRemote, bitmap)
    else mret (Unhandled event_types, bitmap).

(** The node opened, [None] where there is none. *)
Definition open_node (event_index : Z) : ST K InputError (option File) := λ k,
  let '(path, path_len) := device_path event_index in
  match os_open (take (Z.to_nat path_len) path) k with
  | (Ok file, k) => (Ok (Some file), k)
  | (Err error, k) =>
      if bool_decide (error = Some ENOENT) then (Ok None, k)
      else (Err (OpenDevice event_index (default EIO error)), k)
  end.

Definition open_device (event_index : Z) : ST K InputError (option EvdevBackend) :=
  node ← open_node event_index;
  match node with
  | None => mret None
  | Some file =>
      event_types ← query_event_types file event_index;
      '(class, reported_keys) ← classify file event_index event_types;
      _ ← (if bool_decide (class = KeyboardRemote)
           then ST_map_err (SetMonotonicClock event_index)
                  (ioctl file IOCTL_SET_CLOCK_ID (to_le_bytes 4 CLOCK_MONOTONIC))
           else mret []);
      initial_key_state ← (if bool_decide (class = KeyboardRemote)
                           then query_key_state file event_index
                           else mret (zeroes KEY_STATE_BYTES));
      mret (Some (MkEvdevBackend event_index file class reported_keys initial_key_state))
  end.

(** The loop of [EvdevBackend::enumerate] over the indices that are left. *)
Fixpoint open_devices (indices : list nat) (devices : list EvdevBackend)
    : ST K InputError (list EvdevBackend) :=
  match indices with
  | [] => mret devices
  | event_index :: rest =>
      device ← open_device (Z.of_nat event_index);
      match device with
      | Some device => open_devices rest (devices ++ [device])
      | None => open_devices rest devices
      end
  end.

Definition backend_enumerate : ST K InputError (list EvdevBackend) :=
  open_devices (seq 0 EVENT_DEVICE_LIMIT) [].

(** One record as the pipeline has it. *)
Definition raw_of (event : InputEvent) : RawInputEvent :=
  MkRawInputEvent (ie_tv_sec event) (ie_tv_usec event) (ie_event_type event) (ie_code event) (ie_value event).

(** [read_reports]. [read(2)] answers with no more than it is asked for: [&raw[..count]] is there. *)
Definition read_reports (self : EvdevBackend) : ST K InputError (list RawInputEvent) :=
  match eb_class self with
  | Unhandled _ => throw (DeviceUnhandled (eb_event_index self))
  | KeyboardRemote =>
      '(bytes, memory) ← ST_map_err (ReadEvents (eb_event_index self))
        (read_events (eb_file self) (zeroes (Z.of_nat READ_EVENT_COUNT * INPUT_EVENT_SIZE)));
      if bytes =? 0 then throw (EndOfInput (eb_event_index self))
      else if negb (bytes mod INPUT_EVENT_SIZE =? 0) then throw (InvalidReadLength bytes)
      else
        let count := Z.to_nat (bytes / INPUT_EVENT_SIZE) in
        mret (map raw_of (take count (InputEvents_from READ_EVENT_COUNT memory)))
  end.

(** Each device's flags, and how many have any ([EvdevReadiness]). *)
Record EvdevReadiness := MkEvdevReadiness { er_descriptors : list Z; er_ready_count : Z }.

Definition wait_readiness (devices : list EvdevBackend) (timeout : option Duration)
    : ST K InputError EvdevReadiness :=
  timeout_ms ← lift (timeout_milliseconds timeout);
  '(ready_count, descriptors) ← ST_map_err PollDescriptors
    (poll_descriptors (map eb_file devices) timeout_ms);
  mret (MkEvdevReadiness descriptors ready_count).

Definition has_ready (readiness : EvdevReadiness) : bool := negb (er_ready_count readiness =? 0).

(** [readiness_at]; there is a descriptor for every device waited for. *)
Definition readiness_at (readiness : EvdevReadiness) (index : nat) : DescriptorReadiness :=
  classify_descriptor (default 0 (er_descriptors readiness !! index)).

(** * One device ([device.rs]) *)

Record InputDevice := MkInputDevice {
  id_backend : EvdevBackend;
  id_event_index : Z;
  id_class : DeviceClass;
  id_pipeline : InputPipeline;
}.

Definition set_id_pipeline (pipeline : InputPipeline) (self : InputDevice) : InputDevice :=
  MkInputDevice (id_backend self) (id_event_index self) (id_class self) pipeline.

Definition from_backend (backend : EvdevBackend) : InputDevice :=
  let class := eb_class backend in
  let pipeline := InputPipeline_new in
  MkInputDevice backend (eb_event_index backend) class
    (if bool_decide (class = KeyboardRemote)
     then initialize_key_state (eb_initial_key_state backend) pipeline else pipeline).

(** [InputDevice::open]. *)
Definition InputDevice_open (event_index : Z) : ST K InputError InputDevice :=
  backend ← open_device event_index;
  match backend with
  | Some backend => mret (from_backend backend)
  | None => throw (DeviceAbsent event_index)
  end.

Definition device_reports_key (self : InputDevice) (key : KeyCode) : bool := reports_key (id_backend self) key.

(** Calls on the kernel and on the pipeline, for a device read with the kernel beside it. *)
Definition on_kernel {D E A} (m : ST K E A) : ST (K * D) E A := λ s,
  let '(r, k) := m s.1 in (r, (k, s.2)).
Definition on_pipeline {A} (m : ST InputPipeline InputError A) : ST (K * InputDevice) InputError A := λ s,
  let '(r, pipeline) := m (id_pipeline s.2) in (r, (s.1, set_id_pipeline pipeline s.2)).

Definition advance_epoch (change : EpochChange) : ST (K * InputDevice) InputError Epoch :=
  on_pipeline (advance change).

(** The loop of [InputDevice::read_batches] over what has been read. *)
Fixpoint push_reports (reports : list RawInputEvent) (batches : list InputBatch)
    : ST (K * InputDevice) InputError (list InputBatch) :=
  match reports with
  | [] => mret batches
  | event :: rest =>
      status ← on_pipeline (pipeline_push event);
      match status with
      | PipelinePending => push_reports rest batches
      | PipelineBatch batch => push_reports rest (batches ++ [batch])
      | ReacquireKeyState =>
          backend ← gets (λ s, id_backend s.2);
          state ← on_kernel (query_key_state (eb_file backend) (eb_event_index backend));
          batch ← on_pipeline (reacquire state);
          push_reports rest (batches ++ [batch])
      end
  end.

Definition device_read_batches : ST (K * InputDevice) InputError (list InputBatch) := λ s,
  match on_kernel (read_reports (id_backend s.2)) s with
  | (Ok reports, s) => push_reports reports [] s
  | (Err (InvalidReadLength bytes), s) =>
      (_ ← on_pipeline (advance ChangeDevice); throw (InvalidReadLength bytes)) s
  | (Err error, s) => (Err error, s)
  end.

Definition retire : ST (K * InputDevice) InputError InputBatch :=
  epoch ← on_pipeline (advance ChangeDevice);
  mret (Discontinuity epoch).

Definition current_discontinuity (self : InputDevice) : InputBatch :=
  Discontinuity (ip_epoch (id_pipeline self)).

(** [enumerate]. *)
Definition enumerate : ST K InputError (list InputDevice) :=
  devices ← backend_enumerate;
  mret (map from_backend devices).

(** * The set ([set.rs]) *)

Record DeviceInputBatch := MkDeviceInputBatch { dib_event_index : Z; dib_batch : InputBatch }.

(** Its devices ([InputSet]). *)
Definition InputSet : Type := list InputDevice.

Definition InputSet_new (devices : list InputDevice) : result InputError InputSet :=
  let devices := list_retain (λ device, bool_decide (id_class device = KeyboardRemote)) devices in
  match devices with
  | [] => Err EmptyInputSet
  | devices => Ok devices
  end.

Definition InputSet_enumerate : ST K InputError InputSet :=
  devices ← enumerate;
  lift (InputSet_new devices).

Definition tag_batches (event_index : Z) (batches : list InputBatch) : list DeviceInputBatch :=
  map (MkDeviceInputBatch event_index) batches.

(** [remove_indices]: from the last index to the first. *)
Definition remove_indices {A} (indices : list nat) (values : list A) : list A :=
  foldl (λ values index, delete index values) values (reverse indices).

(** What one ready device contributes: its batches, and whether it is to be retired. *)
Definition drain_device (readiness : DescriptorReadiness)
    : ST (K * InputDevice) InputError (list DeviceInputBatch * bool) := λ s,
  let event_index := id_event_index s.2 in
  let failed := dr_failed readiness in
  let '(batches, failed, read_advanced_epoch, s) :=
    if dr_readable readiness then
      match device_read_batches s with
      | (Ok device_batches, s) => (tag_batches event_index device_batches, failed, false, s)
      | (Err error, s) =>
          ([], true, match error with InvalidReadLength _ => true | _ => false end, s)
      end
    else ([], failed, false, s) in
  if failed then
    (batch ← (if (read_advanced_epoch : bool) then gets (λ s, current_discontinuity s.2) else retire);
     mret (batches ++ [MkDeviceInputBatch event_index batch], true)) s
  else (Ok (batches, false), s).

(** A call on the device at an index of the set. *)
Definition on_device {A} (index : nat) (device : InputDevice) (m : ST (K * InputDevice) InputError A)
    : ST (K * list InputDevice) InputError A := λ s,
  let '(r, (k, device)) := m (s.1, device) in (r, (k, <[index := device]> s.2)).

(** The loop of [InputSet::read_batches] over the indices that are left: what has been read, and
    which devices have failed. *)
Fixpoint drain_devices (readiness : EvdevReadiness) (indices : list nat)
    (batches : list DeviceInputBatch) (retired : list nat)
    : ST (K * list InputDevice) InputError (list DeviceInputBatch * list nat) :=
  match indices with
  | [] => mret (batches, retired)
  | index :: rest =>
      device ← gets (λ s, s.2 !! index);
      match device with
      | None => drain_devices readiness rest batches retired
      | Some device =>
          '(drained, failed) ← on_device index device (drain_device (readiness_at readiness index));
          drain_devices readiness rest (batches ++ drained)
            (if (failed : bool) then retired ++ [index] else retired)
      end
  end.

(** [InputSet::read_batches]. *)
Definition set_read_batches (timeout : option Duration)
    : ST (K * list InputDevice) InputError (list DeviceInputBatch) :=
  devices ← gets snd;
  if bool_decide (devices = []) then throw EmptyInputSet
  else
    readiness ← on_kernel (wait_readiness (map id_backend devices) timeout);
    if negb (has_ready readiness) then mret []
    else
      '(batches, retired) ← drain_devices readiness (seq 0 (length devices)) [] [];
      _ ← modify (λ s, (s.1, remove_indices retired s.2));
      mret batches.
End Evdev.

(** The event class the package normalizes ([lib.rs]). *)
Definition capabilities : CapabilitySet := cap_with default_grants InputKeys.
