(* ===== verification/Held.v ===== *)
(** What a listener can know of the keys held: the contract of the pipeline of [Keys.v], stated as a
    machine of what the device did, and the pipeline's refinement of it. *)
From S2P Require Import Prelude.
From S2P Require Import Keys.

(** * Sets of keys *)

Definition ALL_KEYS : list KeyCode :=
  [KcEscape; KcEnter; KcUp; KcLeft; KcRight; KcDown; KcMute; KcVolumeDown; KcVolumeUp; KcPower; KcMenu;
   KcBack; KcHome; KcNextTrack; KcPlayPause; KcPreviousTrack; KcStop; KcRecord; KcRewind; KcExit;
   KcFastForward; KcCancel; KcOk; KcSelect; KcInfo; KcGuide; KcSubtitle; KcTv; KcAudio; KcVideo; KcRed;
   KcGreen; KcYellow; KcBlue; KcChannelUp; KcChannelDown; KcNumeric0; KcNumeric1; KcNumeric2; KcNumeric3;
   KcNumeric4; KcNumeric5; KcNumeric6; KcNumeric7; KcNumeric8; KcNumeric9; KcNumericStar;
   KcNumericPound].

Definition key_at (index : nat) : KeyCode := default KcEscape (ALL_KEYS !! index).

Lemma key_at_index k : key_at (key_index k) = k.
Proof. by destruct k. Qed.

#[global] Instance key_index_inj : Inj (=) (=) key_index.
Proof. intros a b H. by rewrite <-(key_at_index a), <-(key_at_index b), H. Qed.

#[global] Instance KeyCode_countable : Countable KeyCode := inj_countable' key_index key_at key_at_index.

Lemma elem_of_ALL_KEYS k : k ∈ ALL_KEYS.
Proof. destruct k; vm_compute; repeat (left || right). Qed.

Lemma key_index_lt k : (key_index k < KEY_COUNT)%nat.
Proof. destruct k; vm_compute; lia. Qed.

(** The keys whose flags are set. *)
Definition keys_of_flags (flags : list bool) : gset KeyCode :=
  list_to_set (filter (λ k, key_flag flags k = true) ALL_KEYS).

Lemma elem_of_flags flags k : k ∈ keys_of_flags flags ↔ key_flag flags k = true.
Proof.
  unfold keys_of_flags. rewrite elem_of_list_to_set, list_elem_of_filter.
  pose proof (elem_of_ALL_KEYS k). tauto.
Qed.

#[global] Instance elem_of_flags_unfold flags k :
  SetUnfoldElemOf k (keys_of_flags flags) (key_flag flags k = true).
Proof. constructor. apply elem_of_flags. Qed.

Section Flags.
Context (flags : list bool) (Hlen : length flags = KEY_COUNT).

Lemma key_flag_insert k j b :
  key_flag (<[key_index k := b]> flags) j = if decide (k = j) then b else key_flag flags j.
Proof using Hlen.
  unfold key_flag. destruct (decide (k = j)) as [->|Hkj].
  - rewrite list_lookup_insert_eq; [done|]. rewrite Hlen. apply key_index_lt.
  - rewrite list_lookup_insert_ne; [done|]. intros H%(inj key_index). done.
Qed.

Lemma keys_of_flags_set k : keys_of_flags (<[key_index k := true]> flags) = {[k]} ∪ keys_of_flags flags.
Proof using Hlen.
  apply set_eq. intros j. rewrite elem_of_union, elem_of_singleton, !elem_of_flags, key_flag_insert.
  destruct (decide (k = j)); naive_solver.
Qed.

Lemma keys_of_flags_clear k :
  keys_of_flags (<[key_index k := false]> flags) = keys_of_flags flags ∖ {[k]}.
Proof using Hlen.
  apply set_eq. intros j. rewrite elem_of_difference, elem_of_singleton, !elem_of_flags, key_flag_insert.
  destruct (decide (k = j)); naive_solver.
Qed.
End Flags.

Lemma keys_of_flags_none n : keys_of_flags (replicate n false) = ∅.
Proof.
  apply set_eq. intros k. rewrite elem_of_flags. unfold key_flag.
  destruct (replicate n false !! key_index k) eqn:E; [|set_solver].
  apply lookup_replicate in E as [-> _]. set_solver.
Qed.

(** The keys a bitmap of the kernel's says are down. *)
Definition keys_of_bitmap (bitmap : list byte) : gset KeyCode :=
  list_to_set (omap (λ code, if bitmap_bit bitmap code then from_evdev code else None) (seqZ 0 0x300)).

(** * What the device does

    The keys that are down, and those of them that have been down since the last cut. *)
Record Pressed_keys := MkPressed { pk_down : gset KeyCode; pk_since : gset KeyCode }.

Definition good_time (r : RawInputEvent) : bool := is_ok (timestamp_ns (re_seconds r) (re_microseconds r)).

(** What one record of a device says of its keys: a press of a key that is up, a release or a repeat of
    one that is down. [None] is a record that no device sends. *)
Definition key_record (s : Pressed_keys) (r : RawInputEvent) : option Pressed_keys :=
  if negb (re_event_type r =? EV_KEY) then Some s
  else match from_evdev (re_code r) with
  | None => Some s
  | Some k =>
      if negb (good_time r) then None
      else match re_value r with
      | 0 => if decide (k ∈ pk_down s) then Some (MkPressed (pk_down s ∖ {[k]}) (pk_since s ∖ {[k]})) else None
      | 1 => if decide (k ∈ pk_down s) then None else Some (MkPressed ({[k]} ∪ pk_down s) (pk_since s))
      | 2 => if decide (k ∈ pk_down s) then Some s else None
      | _ => None
      end
  end.

(** The device and the reader in step, with so many records of the current report behind them; the
    reader told that records were lost; the reader waiting for the state. *)
Inductive Source :=
| InStep (keys : Pressed_keys) (records : Z)
| Losing
| Lost.

(** What reaches the pipeline: a record, the device's state when it is asked for, a cut by the owner. *)
Inductive Feed :=
| FeedRecord (event : RawInputEvent)
| FeedState (bitmap : list byte)
| FeedCut (change : EpochChange).

Definition is_syn (code : Z) (r : RawInputEvent) : bool := (re_event_type r =? EV_SYN) && (re_code r =? code).

(** What may reach it next, and what the device is like afterwards. A cut falls between reports, and the
    state that is asked for is that of the device before anything that is read after it. *)
Definition source_step (s : Source) (f : Feed) : option Source :=
  match s, f with
  | InStep keys records, FeedRecord r =>
      if is_syn SYN_DROPPED r then Some Losing
      else if is_syn SYN_REPORT r then Some (InStep keys 0)
      else if records <? MAX_REPORT_EVENTS then
        keys ← key_record keys r; Some (InStep keys (records + 1))
      else None
  | InStep keys records, FeedCut _ =>
      if records =? 0 then Some (InStep (MkPressed (pk_down keys) (pk_down keys)) 0) else None
  | Losing, FeedRecord r =>
      if is_syn SYN_DROPPED r then Some Losing
      else if is_syn SYN_REPORT r then Some Lost else Some Losing
  | Lost, FeedState bitmap => Some (InStep (MkPressed (keys_of_bitmap bitmap) (keys_of_bitmap bitmap)) 0)
  | _, _ => None
  end.

Fixpoint source_steps (s : Source) (feeds : list Feed) : option Source :=
  match feeds with
  | [] => Some s
  | f :: rest => s ← source_step s f; source_steps s rest
  end.

(** * What the pipeline makes of it *)

Definition feed (f : Feed) : ST InputPipeline InputError (list InputBatch) :=
  match f with
  | FeedRecord event =>
      status ← pipeline_push event;
      mret (match status with PipelineBatch batch => [batch] | _ => [] end)
  | FeedState bitmap => batch ← reacquire bitmap; mret [batch]
  | FeedCut change => epoch ← advance change; mret [Discontinuity epoch]
  end.

Fixpoint feed_all (feeds : list Feed) : ST InputPipeline InputError (list InputBatch) :=
  match feeds with
  | [] => mret []
  | f :: rest => batches ← feed f; others ← feed_all rest; mret (batches ++ others)
  end.

(** * A listener, who goes by what it has been told *)

Record Listener := MkListener { ls_epoch : Epoch; ls_held : gset KeyCode }.

(** [None] is nonsense: a press of a key held, a release or a repeat of one that is not. *)
Definition hear_event (held : gset KeyCode) (event : KeyEvent) : option (gset KeyCode) :=
  match ke_action event with
  | Pressed => if decide (ke_code event ∈ held) then None else Some ({[ke_code event]} ∪ held)
  | Released => if decide (ke_code event ∈ held) then Some (held ∖ {[ke_code event]}) else None
  | Repeated => if decide (ke_code event ∈ held) then Some held else None
  end.

Fixpoint hear_events (held : gset KeyCode) (events : list KeyEvent) : option (gset KeyCode) :=
  match events with
  | [] => Some held
  | event :: rest => held ← hear_event held event; hear_events held rest
  end.

Definition hear_batch (l : Listener) (batch : InputBatch) : option Listener :=
  match batch with
  | Keys epoch events =>
      if (epoch =? ls_epoch l) && forallb (λ event, ke_epoch event =? epoch) events
      then held ← hear_events (ls_held l) events; Some (MkListener (ls_epoch l) held) else None
  | Discontinuity epoch => if ls_epoch l <? epoch then Some (MkListener epoch ∅) else None
  end.

Fixpoint hear_batches (l : Listener) (batches : list InputBatch) : option Listener :=
  match batches with
  | [] => Some l
  | batch :: rest => l ← hear_batch l batch; hear_batches l rest
  end.

(** * Codes and bitmaps *)

(** The code of a key: what [from_evdev] reads back. *)
Definition evdev_code (k : KeyCode) : Z :=
  match k with
  | KcEscape => KEY_ESC | KcEnter => KEY_ENTER | KcUp => KEY_UP | KcLeft => KEY_LEFT
  | KcRight => KEY_RIGHT | KcDown => KEY_DOWN | KcMute => KEY_MUTE | KcVolumeDown => KEY_VOLUMEDOWN
  | KcVolumeUp => KEY_VOLUMEUP | KcPower => KEY_POWER | KcMenu => KEY_MENU | KcBack => KEY_BACK
  | KcNextTrack => KEY_NEXTSONG | KcPlayPause => KEY_PLAYPAUSE
  | KcPreviousTrack => KEY_PREVIOUSSONG | KcStop => KEY_STOPCD | KcRecord => KEY_RECORD
  | KcRewind => KEY_REWIND | KcHome => KEY_HOMEPAGE | KcExit => KEY_EXIT
  | KcFastForward => KEY_FASTFORWARD | KcCancel => KEY_CANCEL | KcOk => KEY_OK
  | KcSelect => KEY_SELECT | KcInfo => KEY_INFO | KcGuide => KEY_EPG | KcSubtitle => KEY_SUBTITLE
  | KcTv => KEY_TV | KcAudio => KEY_AUDIO | KcVideo => KEY_VIDEO | KcRed => KEY_RED
  | KcGreen => KEY_GREEN | KcYellow => KEY_YELLOW | KcBlue => KEY_BLUE
  | KcChannelUp => KEY_CHANNELUP | KcChannelDown => KEY_CHANNELDOWN | KcNumeric0 => KEY_NUMERIC_0
  | KcNumeric1 => KEY_NUMERIC_1 | KcNumeric2 => KEY_NUMERIC_2 | KcNumeric3 => KEY_NUMERIC_3
  | KcNumeric4 => KEY_NUMERIC_4 | KcNumeric5 => KEY_NUMERIC_5 | KcNumeric6 => KEY_NUMERIC_6
  | KcNumeric7 => KEY_NUMERIC_7 | KcNumeric8 => KEY_NUMERIC_8 | KcNumeric9 => KEY_NUMERIC_9
  | KcNumericStar => KEY_NUMERIC_STAR | KcNumericPound => KEY_NUMERIC_POUND
  end.

Lemma from_evdev_code k : from_evdev (evdev_code k) = Some k.
Proof. by destruct k. Qed.

Lemma evdev_code_range k : 0 ≤ evdev_code k < 0x300.
Proof. destruct k; split; by vm_compute. Qed.

Lemma from_evdev_Some code k : from_evdev code = Some k → code = evdev_code k.
Proof.
  unfold from_evdev. intros H.
  repeat (lazymatch type of H with (if Z.eqb ?a ?b then _ else _) = _ =>
    destruct (Z.eqb_spec a b) as [->|_]; [by injection H as <-|] end).
  done.
Qed.

Lemma elem_of_bitmap bitmap k : k ∈ keys_of_bitmap bitmap ↔ bitmap_bit bitmap (evdev_code k) = true.
Proof.
  unfold keys_of_bitmap. rewrite elem_of_list_to_set, list_elem_of_omap. split.
  - intros (code & _ & H). destruct (bitmap_bit bitmap code) eqn:E; [|done].
    by rewrite <-(from_evdev_Some _ _ H).
  - intros H. exists (evdev_code k). rewrite H, from_evdev_code. split; [|done].
    apply elem_of_seqZ; pose proof (evdev_code_range k). lia.
Qed.

(** * Lemmas on hearing *)

Lemma hear_events_app held es es' :
  hear_events held (es ++ es') = held ← hear_events held es; hear_events held es'.
Proof. revert held. induction es as [|e es IH]; intros held; [done|]. cbn. destruct (hear_event held e); [apply IH|done]. Qed.

Lemma hear_batches_app l bs bs' : hear_batches l (bs ++ bs') = l ← hear_batches l bs; hear_batches l bs'.
Proof. revert l. induction bs as [|b bs IH]; intros l; [done|]. cbn. destruct (hear_batch l b); [apply IH|done]. Qed.

(** * The state the kernel answers with *)

Record wf_keys (kn : KeyNormalizer) : Prop := MkWf {
  wf_down : length (kn_down kn) = KEY_COUNT;
  wf_suppressed : length (kn_suppressed kn) = KEY_COUNT;
  wf_subset : keys_of_flags (kn_suppressed kn) ⊆ keys_of_flags (kn_down kn);
}.

Lemma wf_keys_new : wf_keys KeyNormalizer_new.
Proof. split; [reflexivity..|]. intros k Hk; exact Hk. Qed.

(** Both columns of the normalizer as sets. *)
Definition keys_of (kn : KeyNormalizer) : Pressed_keys :=
  MkPressed (keys_of_flags (kn_down kn)) (keys_of_flags (kn_suppressed kn)).

(** What a listener holds: the keys that are down and visible. *)
Definition visible (s : Pressed_keys) : gset KeyCode := pk_down s ∖ pk_since s.

(** One column of the loop of [reacquire]. *)
Lemma reacquire_codes bitmap codes kn k :
  length (kn_down kn) = KEY_COUNT → length (kn_suppressed kn) = KEY_COUNT →
  let kn' := foldl (reacquire_code bitmap) kn codes in
  let flag := λ before, if decide (evdev_code k ∈ codes) then bitmap_bit bitmap (evdev_code k) else before in
  length (kn_down kn') = KEY_COUNT ∧ length (kn_suppressed kn') = KEY_COUNT ∧
  key_flag (kn_down kn') k = flag (key_flag (kn_down kn) k) ∧
  key_flag (kn_suppressed kn') k = flag (key_flag (kn_suppressed kn) k).
Proof.
  revert kn. induction codes as [|code codes IH]; intros kn Hd Hs; cbn zeta; [done|].
  cbn [foldl]. unfold reacquire_code at 2 4 6 8. destruct (from_evdev code) as [j|] eqn:E.
  - apply from_evdev_Some in E as ->.
    destruct (IH (MkKeyNormalizer (<[key_index j:=bitmap_bit bitmap (evdev_code j)]> (kn_down kn))
                    (<[key_index j:=bitmap_bit bitmap (evdev_code j)]> (kn_suppressed kn))))
      as (Hd' & Hs' & Fd & Fs); [cbn; by rewrite length_insert..|].
    split; [done|]. split; [done|]. rewrite Fd, Fs. cbn [kn_down kn_suppressed].
    rewrite !key_flag_insert by done.
    destruct (decide (j = k)) as [->|Hjk].
    + rewrite !(decide_True _ _ (list_elem_of_here (evdev_code k) codes)).
      by destruct (decide (evdev_code k ∈ codes)).
    + assert (Hiff : evdev_code k ∈ evdev_code j :: codes ↔ evdev_code k ∈ codes).
      { rewrite elem_of_cons. split; [intros [Hc|]; [|done]|by right].
        destruct Hjk. apply (inj Some). by rewrite <-!from_evdev_code, Hc. }
      by rewrite !(decide_ext _ _ _ _ Hiff).
  - destruct (IH kn Hd Hs) as (Hd' & Hs' & Fd & Fs). split; [done|]. split; [done|]. rewrite Fd, Fs.
    assert (Hiff : evdev_code k ∈ code :: codes ↔ evdev_code k ∈ codes).
    { rewrite elem_of_cons. split; [intros [Hc|]; [|done]|by right].
      by rewrite <-Hc, from_evdev_code in E. }
    by rewrite !(decide_ext _ _ _ _ Hiff).
Qed.

Lemma reacquire_all_codes bitmap codes kn :
  (∀ k, evdev_code k ∈ codes) → wf_keys kn →
  wf_keys (foldl (reacquire_code bitmap) kn codes) ∧
  keys_of (foldl (reacquire_code bitmap) kn codes) =
    MkPressed (keys_of_bitmap bitmap) (keys_of_bitmap bitmap).
Proof.
  intros Hall [Hd Hs _].
  pose proof (λ k, reacquire_codes bitmap codes kn k Hd Hs) as Hk. cbn zeta in Hk.
  generalize dependent (foldl (reacquire_code bitmap) kn codes). intros kn' Hk.
  assert (Hflags : ∀ k, key_flag (kn_down kn') k = bitmap_bit bitmap (evdev_code k) ∧
                        key_flag (kn_suppressed kn') k = bitmap_bit bitmap (evdev_code k)).
  { intros k. destruct (Hk k) as (_ & _ & Fd & Fs). by rewrite decide_True in Fd, Fs by apply Hall. }
  assert (Ed : keys_of_flags (kn_down kn') = keys_of_bitmap bitmap).
  { apply set_eq. intros k. rewrite elem_of_flags, elem_of_bitmap. by destruct (Hflags k) as [-> _]. }
  assert (Es : keys_of_flags (kn_suppressed kn') = keys_of_bitmap bitmap).
  { apply set_eq. intros k. rewrite elem_of_flags, elem_of_bitmap. by destruct (Hflags k) as [_ ->]. }
  destruct (Hk KcEscape) as (? & ? & _). unfold keys_of. rewrite Ed, Es. split; [|done].
  split; [assumption..|by rewrite Ed, Es].
Qed.

Lemma keys_reacquire_keys bitmap kn :
  wf_keys kn → wf_keys (keys_reacquire bitmap kn) ∧
  keys_of (keys_reacquire bitmap kn) = MkPressed (keys_of_bitmap bitmap) (keys_of_bitmap bitmap).
Proof.
  unfold keys_reacquire. apply (reacquire_all_codes bitmap (seqZ 0 0x300) kn).
  intros k. apply elem_of_seqZ; pose proof (evdev_code_range k); lia.
Qed.

(** * One report *)

Fixpoint key_records (s : Pressed_keys) (records : list RawInputEvent) : option Pressed_keys :=
  match records with
  | [] => Some s
  | r :: rest => s ← key_record s r; key_records s rest
  end.

Lemma key_records_app s rs rs' : key_records s (rs ++ rs') = s ← key_records s rs; key_records s rs'.
Proof. revert s. induction rs as [|r rs IH]; intros s; [done|]. cbn. destruct (key_record s r); [apply IH|done]. Qed.

(** What the loop makes of one record of a key. *)
Definition normalized_key (kn : KeyNormalizer) (k : KeyCode) (action : KeyAction) : KeyNormalizer :=
  MkKeyNormalizer (<[key_index k := negb (bool_decide (action = Released))]> (kn_down kn))
    (if key_flag (kn_suppressed kn) k && bool_decide (action = Released)
     then <[key_index k := false]> (kn_suppressed kn) else kn_suppressed kn).

(** What it tells of it. *)
Definition normalized_event (kn : KeyNormalizer) (time : Z) (k : KeyCode) (action : KeyAction) (epoch : Epoch)
    : list KeyEvent :=
  if key_flag (kn_suppressed kn) k then [] else [MkKeyEvent time k action epoch].

Lemma normalize_records_key r rest epoch kn acc k action time :
  re_event_type r = EV_KEY → from_evdev (re_code r) = Some k → key_action (re_value r) = Ok action →
  timestamp_ns (re_seconds r) (re_microseconds r) = Ok time →
  normalize_records (r :: rest) epoch kn acc =
  normalize_records rest epoch (normalized_key kn k action) (acc ++ normalized_event kn time k action epoch).
Proof.
  intros Ht Hk Ha Hn. cbn [normalize_records]. rewrite Ht, Z.eqb_refl, Hk, Ha, Hn. cbn.
  unfold normalized_key, normalized_event. destruct (key_flag (kn_suppressed kn) k); cbn [andb].
  - rewrite app_nil_r. by destruct (bool_decide (action = Released)).
  - done.
Qed.

(** The sets behind it. *)
Definition key_moved (k : KeyCode) (action : KeyAction) (s : Pressed_keys) : Pressed_keys :=
  match action with
  | Released => MkPressed (pk_down s ∖ {[k]}) (pk_since s ∖ {[k]})
  | _ => MkPressed ({[k]} ∪ pk_down s) (pk_since s)
  end.

Lemma normalized_key_keys kn k action :
  wf_keys kn →
  wf_keys (normalized_key kn k action) ∧ keys_of (normalized_key kn k action) = key_moved k action (keys_of kn).
Proof.
  intros [Hd Hs Hsub].
  assert (Hkeys : keys_of (normalized_key kn k action) = key_moved k action (keys_of kn)).
  { unfold normalized_key, keys_of, key_moved; cbn [kn_down kn_suppressed pk_down pk_since].
    destruct action; cbn [bool_decide decide_rel negb];
      (rewrite ?(bool_decide_eq_true_2 (Released = Released)) by done;
       rewrite ?(bool_decide_eq_false_2 (Pressed = Released)) by done;
       rewrite ?(bool_decide_eq_false_2 (Repeated = Released)) by done; cbn [negb]).
    - rewrite keys_of_flags_clear by done. destruct (key_flag (kn_suppressed kn) k) eqn:E; cbn [andb].
      + by rewrite keys_of_flags_clear.
      + f_equal. apply set_eq. intros j. rewrite elem_of_difference, elem_of_singleton, elem_of_flags.
        split; [|tauto]. intros H. split; [done|]. intros ->. congruence.
    - rewrite keys_of_flags_set by done. by rewrite andb_false_r.
    - rewrite keys_of_flags_set by done. by rewrite andb_false_r. }
  split; [|done]. pose proof (f_equal pk_down Hkeys) as Ed. pose proof (f_equal pk_since Hkeys) as Es.
  unfold keys_of in Ed, Es. cbn [pk_down pk_since] in Ed, Es. split.
  - cbn. by rewrite length_insert.
  - cbn. destruct (_ && _); [by rewrite length_insert|done].
  - rewrite Ed, Es. revert Hsub. unfold keys_of.
    generalize (keys_of_flags (kn_down kn)) (keys_of_flags (kn_suppressed kn)).
    destruct action; cbn [key_moved pk_down pk_since]; set_solver.
Qed.

(** Told of what moved, a listener who held what was visible holds what is. *)
Lemma normalized_event_heard kn k action time epoch :
  wf_keys kn → (k ∈ pk_down (keys_of kn) ↔ action ≠ Pressed) →
  hear_events (visible (keys_of kn)) (normalized_event kn time k action epoch) =
  Some (visible (key_moved k action (keys_of kn))).
Proof.
  intros [_ _ Hsub] Hk. unfold normalized_event, visible. unfold keys_of in *. cbn [pk_down pk_since] in *.
  destruct (key_flag (kn_suppressed kn) k) eqn:E.
  - apply elem_of_flags in E. revert Hsub Hk E.
    generalize (keys_of_flags (kn_down kn)) (keys_of_flags (kn_suppressed kn)). intros D S Hsub Hk E.
    cbn [hear_events]. f_equal. assert (action ≠ Pressed) by (apply Hk; set_solver).
    apply set_eq. destruct action; cbn [key_moved pk_down pk_since]; set_solver.
  - assert (Hn : k ∉ keys_of_flags (kn_suppressed kn)) by (rewrite elem_of_flags, E; done).
    revert Hsub Hk Hn.
    generalize (keys_of_flags (kn_down kn)) (keys_of_flags (kn_suppressed kn)). intros D S Hsub Hk Hn.
    unfold hear_events, hear_event; destruct action; cbn [ke_action ke_code key_moved pk_down pk_since];
      (destruct (decide (k ∈ D ∖ S)) as [Hd|Hd]; [try (exfalso; set_solver)|try (exfalso; set_solver)]);
      cbn; f_equal; apply set_eq; set_solver.
Qed.

(** A record that a device may send, normalized. *)
Lemma key_record_normalized r rest epoch kn acc s :
  wf_keys kn → key_record (keys_of kn) r = Some s →
  ∃ kn' es, normalize_records (r :: rest) epoch kn acc = normalize_records rest epoch kn' (acc ++ es) ∧
    wf_keys kn' ∧ keys_of kn' = s ∧ hear_events (visible (keys_of kn)) es = Some (visible s) ∧
    forallb (λ event, ke_epoch event =? epoch) es = true.
Proof.
  intros Hwf H. unfold key_record in H. destruct (re_event_type r =? EV_KEY) eqn:Et; cbn [negb] in H.
  2:{ injection H as <-. exists kn, []. cbn [normalize_records]. rewrite Et, app_nil_r. done. }
  destruct (from_evdev (re_code r)) as [k|] eqn:Ek.
  2:{ injection H as <-. exists kn, []. cbn [normalize_records]. rewrite Et, Ek, app_nil_r. done. }
  destruct (good_time r) eqn:Eg; cbn [negb] in H; [|done].
  unfold good_time in Eg. destruct (timestamp_ns (re_seconds r) (re_microseconds r)) as [time|] eqn:En; [|done].
  assert (Ha : ∃ action, key_action (re_value r) = Ok action ∧ s = key_moved k action (keys_of kn) ∧
                         (k ∈ pk_down (keys_of kn) ↔ action ≠ Pressed)).
  { destruct (re_value r) as [|[p|[p|p|]|]|p]; try done; destruct (decide _) as [Hk|Hk] in H; try done;
      injection H as <-; eexists; split; try reflexivity; (split; [|split; done]); try done.
    destruct (keys_of kn) as [D S] eqn:E. cbn in *. f_equal. apply set_eq. set_solver. }
  destruct Ha as (action & Ha & -> & Hk). apply Z.eqb_eq in Et.
  exists (normalized_key kn k action), (normalized_event kn time k action epoch).
  split; [by apply normalize_records_key|]. destruct (normalized_key_keys kn k action Hwf) as [? ?].
  split; [done|]. split; [done|]. split; [by apply normalized_event_heard|].
  unfold normalized_event. destruct (key_flag _ k); [done|]. cbn. by rewrite Z.eqb_refl.
Qed.

(** A whole report. *)
Lemma key_records_normalized records epoch kn acc s :
  wf_keys kn → key_records (keys_of kn) records = Some s →
  ∃ kn' es, normalize_records records epoch kn acc = Ok (kn', acc ++ es) ∧
    wf_keys kn' ∧ keys_of kn' = s ∧ hear_events (visible (keys_of kn)) es = Some (visible s) ∧
    forallb (λ event, ke_epoch event =? epoch) es = true.
Proof.
  revert kn acc. induction records as [|r rest IH]; intros kn acc Hwf H.
  { injection H as <-. exists kn, []. by rewrite app_nil_r. }
  cbn [key_records] in H. destruct (key_record (keys_of kn) r) as [s1|] eqn:Er; [|done]. cbn in H.
  destruct (key_record_normalized r rest epoch kn acc s1 Hwf Er) as (kn1 & es1 & Hn & Hwf1 & <- & Hh1 & He1).
  destruct (IH kn1 (acc ++ es1) Hwf1 H) as (kn' & es & Hn' & Hwf' & Hs & Hh & He).
  exists kn', (es1 ++ es). rewrite Hn, Hn', app_assoc, hear_events_app, Hh1. cbn. rewrite Hh.
  by rewrite forallb_app, He1, He.
Qed.

(** * The pipeline against its source *)

(** The pipeline holds the records of the report behind it, its keys are those of the device before
    them, and the listener's are those of the keys that are visible. *)
Definition tracks (s : Source) (p : InputPipeline) (l : Listener) : Prop :=
  wf_keys (ip_keys p) ∧ ls_epoch l = ip_epoch p ∧
  match s with
  | InStep keys records =>
      ip_needs_reacquisition p = false ∧ ra_dropping (ip_reports p) = false ∧
      len (ra_pending (ip_reports p)) = records ∧
      key_records (keys_of (ip_keys p)) (ra_pending (ip_reports p)) = Some keys ∧
      ls_held l = visible (keys_of (ip_keys p))
  | Losing => ip_needs_reacquisition p = false ∧ ra_dropping (ip_reports p) = true
  | Lost => ip_needs_reacquisition p = true
  end.

(** One step of the source, and of the pipeline, and of the listener. *)
Definition stepped (s' : Source) (l : Listener) (bound : Z) (result : result InputError (list InputBatch) * InputPipeline) : Prop :=
  ∃ batches p' l', result = (Ok batches, p') ∧ hear_batches l batches = Some l' ∧ tracks s' p' l' ∧
                   ip_epoch p' ≤ bound.

Lemma tracks_record s p l r s' :
  tracks s p l → source_step s (FeedRecord r) = Some s' →
  stepped s' l (ip_epoch p) (feed (FeedRecord r) p).
Proof.
  intros (Hwf & Hep & Hs) H. destruct p as [[pending dropping] kn epoch needs]; cbn in *.
  assert (Hquiet : ∀ p', tracks s' p' l → ip_epoch p' = epoch → stepped s' l epoch (Ok [], p')).
  { intros p' Ht He. exists [], p', l. rewrite He. done. }
  cbn [feed]. rewrite ST_bind_run. unfold pipeline_push, on_reports, report_push.
  destruct s as [keys records| |]; [| |done]; cbn [source_step] in H; unfold is_syn in H.
  - destruct Hs as (-> & -> & Hl & Hk & Hh). rewrite ST_gets_bind. cbn [ip_needs_reacquisition].
    rewrite ST_bind_run. cbn [ip_reports ra_pending ra_dropping].
    destruct ((re_event_type r =? EV_SYN) && (re_code r =? SYN_DROPPED)).
    { injection H as <-. apply Hquiet; done. }
    destruct ((re_event_type r =? EV_SYN) && (re_code r =? SYN_REPORT)).
    + injection H as <-. cbn.
      destruct (key_records_normalized pending epoch kn [] keys Hwf Hk)
        as (kn' & es & Hn & Hwf' & Hks & Hhear & He).
      unfold on_keys, normalize, set_ip_reports; cbn.
      rewrite ST_gets_bind, ST_bind_run. cbn [ip_epoch ip_keys]. rewrite Hn. cbn.
      eexists [_], _, (MkListener (ls_epoch l) (visible keys)). split; [reflexivity|]. cbn.
      rewrite Hep, Z.eqb_refl, He. cbn [andb]. rewrite Hh, Hhear. cbn. split; [done|].
      split; [|reflexivity]. unfold tracks. cbn. rewrite Hks. done.
    + destruct (records <? MAX_REPORT_EVENTS) eqn:Eb; [|done].
      destruct (key_record keys r) as [keys'|] eqn:Er; [|done]. injection H as <-.
      destruct (MAX_REPORT_EVENTS <=? len pending) eqn:Ec; [lia|].
      apply Hquiet; [|done]. unfold tracks. cbn. rewrite len_app, Hl, key_records_app, Hk. cbn. rewrite Er. done.
  - destruct Hs as (-> & ->). rewrite ST_gets_bind. cbn [ip_needs_reacquisition].
    rewrite ST_bind_run. cbn [ip_reports ra_pending ra_dropping].
    destruct ((re_event_type r =? EV_SYN) && (re_code r =? SYN_DROPPED)).
    { injection H as <-. apply Hquiet; done. }
    destruct ((re_event_type r =? EV_SYN) && (re_code r =? SYN_REPORT)); injection H as <-;
      apply Hquiet; done.
Qed.

Lemma suppress_held_keys kn :
  wf_keys kn → wf_keys (suppress_held kn) ∧
  keys_of (suppress_held kn) = MkPressed (pk_down (keys_of kn)) (pk_down (keys_of kn)).
Proof. intros [Hd Hs _]. split; [by split|done]. Qed.

Lemma advance_run change p :
  ip_epoch p < u64_max →
  advance change p =
  (Ok (ip_epoch p + 1), MkInputPipeline ReportAccumulator_new (suppress_held (ip_keys p)) (ip_epoch p + 1)
                          (ip_needs_reacquisition p)).
Proof. intros H. unfold advance. rewrite checked_add_Some by lia. done. Qed.

Lemma tracks_cut keys records p l change s' :
  tracks (InStep keys records) p l → ip_epoch p < u64_max →
  source_step (InStep keys records) (FeedCut change) = Some s' →
  stepped s' l (ip_epoch p + 1) (feed (FeedCut change) p).
Proof.
  intros (Hwf & Hep & Hn & Hd & Hl & Hk & Hh) Hb H. cbn [source_step] in H.
  destruct (Z.eqb_spec records 0) as [->|]; [|done]. injection H as <-.
  destruct (ra_pending (ip_reports p)) eqn:Ep; [|exfalso; rewrite len_cons in Hl; pose proof (len_nonneg l0); lia].
  injection Hk as <-. destruct (suppress_held_keys _ Hwf) as [Hwf' Hk'].
  cbn [feed]. rewrite ST_bind_run, advance_run by done.
  eexists _, _, (MkListener (ip_epoch p + 1) ∅). split; [reflexivity|]. cbn [hear_batches hear_batch].
  destruct (Z.ltb_spec (ls_epoch l) (ip_epoch p + 1)); [|lia]. split; [done|].
  split; [|cbn; lia]. unfold tracks. cbn [ip_keys ip_epoch ip_reports ip_needs_reacquisition ls_epoch ls_held].
  split; [done|]. split; [done|]. split; [done|]. split; [done|]. split; [done|]. rewrite Hk'.
  split; [done|]. unfold visible; cbn [pk_down pk_since]. by rewrite difference_diag_L.
Qed.

#[local] Opaque keys_reacquire.

Lemma reacquire_run bitmap p :
  ip_needs_reacquisition p = true → ip_epoch p < u64_max →
  reacquire bitmap p =
  (Ok (Discontinuity (ip_epoch p + 1)),
   MkInputPipeline ReportAccumulator_new (keys_reacquire bitmap (suppress_held (ip_keys p))) (ip_epoch p + 1) false).
Proof.
  intros Hn Hb. unfold reacquire. rewrite ST_bind_run. cbn [gets]. rewrite Hn. cbn [negb].
  rewrite ST_bind_run, advance_run by done. reflexivity.
Qed.

Lemma tracks_state p l bitmap s' :
  tracks Lost p l → ip_epoch p < u64_max → source_step Lost (FeedState bitmap) = Some s' →
  stepped s' l (ip_epoch p + 1) (feed (FeedState bitmap) p).
Proof.
  intros (Hwf & Hep & Hn) Hb H. cbn [source_step] in H. injection H as <-.
  destruct (suppress_held_keys _ Hwf) as [Hwf1 _].
  destruct (keys_reacquire_keys bitmap _ Hwf1) as [Hwf2 Hk2].
  cbn [feed]. rewrite ST_bind_run, reacquire_run by done.
  remember (keys_reacquire bitmap (suppress_held (ip_keys p))) as kn' eqn:Ekn. clear Ekn.
  eexists _, _, (MkListener (ip_epoch p + 1) ∅). split; [reflexivity|]. cbn [hear_batches hear_batch].
  destruct (Z.ltb_spec (ls_epoch l) (ip_epoch p + 1)); [|lia]. split; [done|].
  split; [|cbn [ip_epoch]; lia]. unfold tracks.
  cbn [ip_keys ip_epoch ip_reports ip_needs_reacquisition ls_epoch ls_held].
  split; [done|]. split; [done|]. split; [done|]. split; [done|]. split; [done|].
  cbn [ra_pending ReportAccumulator_new key_records]. rewrite Hk2.
  split; [done|]. unfold visible; cbn [pk_down pk_since]. by rewrite difference_diag_L.
Qed.

Lemma tracks_step s p l f s' :
  tracks s p l → ip_epoch p < u64_max → source_step s f = Some s' → stepped s' l (ip_epoch p + 1) (feed f p).
Proof.
  intros Ht Hb H. destruct f as [r|bitmap|change].
  - destruct (tracks_record _ _ _ _ _ Ht H) as (bs & p' & l' & ? & ? & ? & ?).
    exists bs, p', l'. repeat (split; [done|]). lia.
  - destruct s; try done. by apply tracks_state.
  - destruct s; try done. by eapply tracks_cut.
Qed.

Lemma tracks_steps feeds s p l s' :
  tracks s p l → ip_epoch p + len feeds ≤ u64_max → source_steps s feeds = Some s' →
  stepped s' l (ip_epoch p + len feeds) (feed_all feeds p).
Proof.
  revert s p l. induction feeds as [|f feeds IH]; intros s p l Ht Hb H.
  { injection H as <-. exists [], p, l. rewrite len_nil, Z.add_0_r. done. }
  rewrite len_cons in Hb. cbn [source_steps] in H. destruct (source_step s f) as [s1|] eqn:E; [|done]. cbn in H.
  pose proof (len_nonneg feeds).
  destruct (tracks_step _ _ _ _ _ Ht ltac:(lia) E) as (bs & p1 & l1 & Hf & Hl1 & Ht1 & He1).
  destruct (IH s1 p1 l1 Ht1 ltac:(lia) H) as (bs' & p' & l' & Hf' & Hl' & Ht' & He').
  exists (bs ++ bs'), p', l'. cbn [feed_all]. rewrite ST_bind_run, Hf, ST_bind_run, Hf', hear_batches_app, Hl1.
  split; [done|]. split; [done|]. split; [done|]. rewrite len_cons. lia.
Qed.

(** As a device is opened: its keys are those of its first state, none of them visible. *)
Lemma tracks_start bitmap :
  tracks (InStep (MkPressed (keys_of_bitmap bitmap) (keys_of_bitmap bitmap)) 0)
    (initialize_key_state bitmap InputPipeline_new) (MkListener Epoch_INITIAL ∅).
Proof.
  destruct (keys_reacquire_keys bitmap KeyNormalizer_new wf_keys_new) as [Hwf Hk].
  unfold initialize_key_state, set_ip_keys, tracks. cbn [ip_keys ip_epoch ip_reports ip_needs_reacquisition ls_epoch ls_held].
  split; [done|]. split; [done|]. split; [done|]. split; [done|]. split; [done|].
  cbn [InputPipeline_new ip_reports ReportAccumulator_new ra_pending key_records ip_keys]. rewrite Hk.
  split; [done|]. unfold visible; cbn [pk_down pk_since]. by rewrite difference_diag_L.
Qed.

(** C10. A listener knows the keys of a device that keeps to its protocol. From the state it is opened
    in, let the device report presses of keys that are up and releases and repeats of keys that are
    down, at times that can be counted, in reports no longer than the pipeline takes; let records be
    lost anywhere, the state that is then asked for being answered before anything more is read; and
    let the owner cut epochs between two reports. (A cut inside a report or during a loss, and records
    read ahead of the state, are not among these steps: [cut_mid_report], [cut_forgets_loss] and
    [read_ahead_replayed] show what goes wrong there.) Then the pipeline takes all of it without an
    error, and a listener who goes only by what comes out is never told of a press of a key it holds
    nor of a release or a repeat of one it does not, in the epoch it is in; between two reports it
    holds exactly the keys that are down and were pressed since the last cut, and the pipeline knows
    which keys are down. *)
Theorem listener_knows_keys bitmap feeds s' :
  source_steps (InStep (MkPressed (keys_of_bitmap bitmap) (keys_of_bitmap bitmap)) 0) feeds = Some s' →
  len feeds < u64_max →
  ∃ batches p' l',
    feed_all feeds (initialize_key_state bitmap InputPipeline_new) = (Ok batches, p') ∧
    hear_batches (MkListener Epoch_INITIAL ∅) batches = Some l' ∧ ls_epoch l' = ip_epoch p' ∧
    ∀ keys, s' = InStep keys 0 →
      ls_held l' = pk_down keys ∖ pk_since keys ∧
      ∀ k, is_down k (ip_keys p') = true ↔ k ∈ pk_down keys.
Proof.
  intros Hs Hb.
  destruct (tracks_steps feeds _ _ _ s' (tracks_start bitmap) ltac:(change (1 + len feeds ≤ u64_max); lia) Hs)
    as (batches & p' & l' & Hf & Hl & (Hwf & Hep & Ht) & _).
  exists batches, p', l'. split; [done|]. split; [done|]. split; [done|]. intros keys ->.
  destruct Ht as (_ & _ & Hlen & Hk & Hh).
  destruct (ra_pending (ip_reports p')) as [|r rest]; [|rewrite len_cons in Hlen; pose proof (len_nonneg rest); lia].
  injection Hk as Hk. rewrite Hh, Hk. split; [done|]. intros k. rewrite <-Hk. unfold is_down. symmetry. apply elem_of_flags.
Qed.

(** A record of a key, and the mark that closes a report. *)
Definition key_fed (code value : Z) : Feed := FeedRecord (MkRawInputEvent 10 250 EV_KEY code value).
Definition mark_fed (code : Z) : Feed := FeedRecord (MkRawInputEvent 10 250 EV_SYN code 0).

(** Enter is pressed, the seat is left with it held, and it is released unheard; up is pressed, records
    are lost, and it is still down in the state that is asked for; then enter again. *)
Definition an_evening : list Feed :=
  [key_fed KEY_ENTER 1; mark_fed SYN_REPORT; key_fed KEY_ENTER 2; mark_fed SYN_REPORT;
   FeedCut ChangeSeat; key_fed KEY_ENTER 0; mark_fed SYN_REPORT; key_fed KEY_UP 1; mark_fed SYN_REPORT;
   mark_fed SYN_DROPPED; key_fed KEY_UP 1; mark_fed SYN_REPORT;
   FeedState (<[12%nat := Byte.x80]> (replicate 96 Byte.x00)); key_fed KEY_ENTER 1; mark_fed SYN_REPORT].

(** Whether a source is between two reports with these keys. *)
Definition ends_with (down since : gset KeyCode) (s : option Source) : bool :=
  match s with
  | Some (InStep keys 0) => bool_decide (pk_down keys = down) && bool_decide (pk_since keys = since)
  | _ => false
  end.

Lemma ends_with_Some down since s : ends_with down since s = true → s = Some (InStep (MkPressed down since) 0).
Proof.
  destruct s as [[[d n] [| |]| |]|]; cbn; try done.
  rewrite andb_true_iff, !bool_decide_eq_true. by intros [-> ->].
Qed.

Lemma listener_knows_keys_witness : ∃ batches p' l',
  feed_all an_evening (initialize_key_state [] InputPipeline_new) = (Ok batches, p') ∧
  hear_batches (MkListener Epoch_INITIAL ∅) batches = Some l' ∧
  ls_held l' = {[KcEnter; KcUp]} ∖ {[KcUp]} ∧ is_down KcUp (ip_keys p') = true.
Proof.
  assert (E : ends_with {[KcEnter; KcUp]} {[KcUp]}
    (source_steps (InStep (MkPressed (keys_of_bitmap []) (keys_of_bitmap [])) 0) an_evening) = true)
    by (vm_compute; reflexivity).
  apply ends_with_Some in E.
  destruct (listener_knows_keys [] an_evening _ E ltac:(vm_compute; reflexivity))
    as (batches & p' & l' & Hf & Hl & _ & Hkeys).
  destruct (Hkeys _ eq_refl) as [Hh Hd].
  exists batches, p', l'. split; [exact Hf|]. split; [exact Hl|]. split; [exact Hh|].
  apply Hd. cbn [pk_down]. apply elem_of_union_r, elem_of_singleton_2. reflexivity.
Defined.

(** * What a device does is not all the pipeline is shown *)

(** [advance] in the middle of a report forgets the press that was in it: the release comes out, in the
    new epoch, of a key that nobody has been told was pressed. *)
Lemma cut_mid_report :
  ∃ batches p', feed_all [key_fed KEY_ENTER 1; FeedCut ChangeSeat; mark_fed SYN_REPORT;
                          key_fed KEY_ENTER 0; mark_fed SYN_REPORT] InputPipeline_new = (Ok batches, p') ∧
    hear_batches (MkListener Epoch_INITIAL ∅) batches = None.
Proof. eexists _, _. split; [vm_compute; reflexivity|]. vm_compute. reflexivity. Qed.

(** [advance] after records were lost, before the mark that ends the loss, forgets that they were: the
    state is never asked for. *)
Lemma cut_forgets_loss :
  ∃ batches p', feed_all [mark_fed SYN_DROPPED; FeedCut ChangeSeat; mark_fed SYN_REPORT]
                  InputPipeline_new = (Ok batches, p') ∧
    ip_needs_reacquisition p' = false ∧ batches = [Discontinuity 2; Keys 2 []].
Proof. eexists _, _. split; [vm_compute; reflexivity|]. vm_compute. done. Qed.

(** Records already read when the state is asked for are played over it: with the key released before
    the state was read, its release is told of all the same. *)
Lemma read_ahead_replayed :
  ∃ batches p', feed_all [key_fed KEY_ENTER 1; mark_fed SYN_REPORT; mark_fed SYN_DROPPED;
                          mark_fed SYN_REPORT; FeedState (replicate 96 Byte.x00);
                          key_fed KEY_ENTER 0; mark_fed SYN_REPORT] InputPipeline_new = (Ok batches, p') ∧
    hear_batches (MkListener Epoch_INITIAL ∅) batches = None.
Proof. eexists _, _. split; [vm_compute; reflexivity|]. vm_compute. reflexivity. Qed.
