(* ===== verification/Reading.v ===== *)
(** The devices of [Evdev.v] proved: what reading one gives is what feeding its pipeline gives, a device
    that fails is cut off and leaves alone, and what the nodes are called and the waits are. *)
From S2P Require Import Prelude.
From S2P Require Import BTree.
From S2P Require Import Wire.
From S2P Require Import Pixels.
From S2P Require Import Poll.
From S2P Require Import Nodes.
From S2P Require Import Keys.
From S2P Require Import Evdev.
From S2P Require Import Held.

Section Reading.
Context {K : Type} {EK : EvdevKernel K} {PF : PollFlags}.

(** * Reading is feeding *)

(** The records among what reached a pipeline. *)
Definition records_of (feeds : list Feed) : list RawInputEvent :=
  omap (λ f, match f with FeedRecord r => Some r | _ => None end) feeds.

(** The states among it are the ones the kernel answered with, asked in turn. *)
Fixpoint answered (backend : EvdevBackend) (feeds : list Feed) (k k' : K) : Prop :=
  match feeds with
  | [] => k' = k
  | FeedRecord _ :: rest => answered backend rest k k'
  | FeedState bitmap :: rest => ∃ k1,
      query_key_state (eb_file backend) (eb_event_index backend) k = (Ok bitmap, k1) ∧ answered backend rest k1 k'
  | FeedCut _ :: _ => False
  end.

Lemma push_reports_feed reports acc k d batches k' d' :
  push_reports reports acc (k, d) = (Ok batches, (k', d')) →
  ∃ feeds heard, records_of feeds = reports ∧ answered (id_backend d) feeds k k' ∧
    batches = acc ++ heard ∧ d' = set_id_pipeline (id_pipeline d') d ∧
    feed_all feeds (id_pipeline d) = (Ok heard, id_pipeline d').
Proof.
  revert acc k d. induction reports as [|r rest IH]; intros acc k d H.
  { injection H as <- <- <-. exists [], []. rewrite app_nil_r. by destruct d. }
  cbn [push_reports] in H. rewrite ST_bind_run in H. unfold on_pipeline at 1 in H. cbn [snd fst] in H.
  destruct (pipeline_push r (id_pipeline d)) as [[status|e] p1] eqn:Ep; [|done].
  destruct status as [|batch|].
  - apply IH in H as (feeds & heard & Hr & Ha & -> & Hd & Hf). exists (FeedRecord r :: feeds), heard.
    cbn [records_of answered omap list_omap]. split; [cbn; by rewrite <-Hr|]. split; [done|]. split; [done|]. split; [done|].
    cbn [feed_all feed]. rewrite ST_bind_run, ST_bind_run, Ep. cbn. rewrite ST_bind_run. cbn in Hf. rewrite Hf. done.
  - apply IH in H as (feeds & heard & Hr & Ha & -> & Hd & Hf). exists (FeedRecord r :: feeds), (batch :: heard).
    split; [cbn; by rewrite <-Hr|]. split; [done|]. rewrite <-app_assoc. split; [done|]. split; [done|].
    cbn [feed_all feed]. rewrite ST_bind_run, ST_bind_run, Ep. cbn. rewrite ST_bind_run. cbn in Hf. rewrite Hf. done.
  - rewrite ST_gets_bind, ST_bind_run in H. unfold on_kernel in H. cbn [fst snd id_backend set_id_pipeline] in H.
    destruct (query_key_state _ _ k) as [[state|e] k1] eqn:Eq; [|done].
    rewrite ST_bind_run in H. unfold on_pipeline at 1 in H. cbn [fst snd id_pipeline set_id_pipeline] in H.
    destruct (reacquire state p1) as [[batch|e] p2] eqn:Er; [|done].
    apply IH in H as (feeds & heard & Hr & Ha & -> & Hd & Hf).
    exists (FeedRecord r :: FeedState state :: feeds), (batch :: heard).
    split; [cbn; by rewrite <-Hr|]. split; [by exists k1|]. rewrite <-app_assoc. split; [done|]. split; [done|].
    cbn [feed_all feed]. rewrite ST_bind_run, ST_bind_run, Ep. cbn [mret ST_ret].
    rewrite ST_bind_run, ST_bind_run, ST_bind_run, Er. cbn. rewrite ST_bind_run. cbn in Hf. rewrite Hf. done.
Qed.

(** C27. Reading a device hands its pipeline exactly the records the kernel returned, in their order, and
    the state the kernel answers with wherever records were lost; what comes back is what the pipeline
    made of them, complete reports only. *)
Theorem reading_is_feeding k d batches k' d' :
  device_read_batches (k, d) = (Ok batches, (k', d')) →
  ∃ reports k1 feeds,
    read_reports (id_backend d) k = (Ok reports, k1) ∧ records_of feeds = reports ∧
    answered (id_backend d) feeds k1 k' ∧
    feed_all feeds (id_pipeline d) = (Ok batches, id_pipeline d') ∧
    d' = set_id_pipeline (id_pipeline d') d.
Proof.
  unfold device_read_batches, on_kernel. cbn [fst snd].
  destruct (read_reports (id_backend d) k) as [[reports|e] k1] eqn:Er; intros H.
  - apply push_reports_feed in H as (feeds & heard & Hr & Ha & -> & Hd & Hf). exists reports, k1, feeds. done.
  - exfalso. destruct e; try done. rewrite ST_bind_run in H. by destruct (on_pipeline _ _) as [[] ?].
Qed.

(** * Epochs only grow *)

(** An error of the pipeline's own, not of a read. *)
Definition own_error (e : InputError) : Prop := ∀ bytes, e ≠ InvalidReadLength bytes.

(** What a step leaves: an epoch no older, and nothing in it that is newer. *)
Definition step_grows {A} (f : A → list InputBatch) (m : ST InputPipeline InputError A) (p : InputPipeline) : Prop :=
  ip_epoch p ≤ ip_epoch (m p).2 ∧
  match (m p).1 with
  | Ok a => Forall (λ b, batch_epoch b ≤ ip_epoch (m p).2) (f a)
  | Err e => own_error e
  end.

Definition status_batches (status : PipelineStatus) : list InputBatch :=
  match status with PipelineBatch batch => [batch] | _ => [] end.

Lemma key_action_error value e : key_action value = Err e → own_error e.
Proof. unfold key_action. destruct value as [|[p|[]|]|]; intros [= <-]; by intros bytes. Qed.

Lemma timestamp_error seconds microseconds e : timestamp_ns seconds microseconds = Err e → own_error e.
Proof.
  unfold timestamp_ns. destruct (_ || _); [intros [= <-]; by intros bytes|].
  destruct (try_from u64_max seconds); cbn; [|intros [= <-]; by intros bytes].
  destruct (try_from u64_max microseconds); cbn; [|intros [= <-]; by intros bytes].
  destruct (_ ≫= _); cbn; [done|]. intros [= <-]; by intros bytes.
Qed.

Lemma normalize_records_error records epoch kn acc e :
  normalize_records records epoch kn acc = Err e → own_error e.
Proof.
  revert kn acc. induction records as [|r rest IH]; intros kn acc; [done|].
  cbn [normalize_records]. destruct (negb _); [by apply IH|].
  destruct (from_evdev _) as [k|]; [|by apply IH].
  destruct (key_action _) as [action|] eqn:Ea; cbn; [|intros [= <-]; by apply key_action_error in Ea].
  destruct (timestamp_ns _ _) as [time|] eqn:Et; cbn; [|intros [= <-]; by apply timestamp_error in Et].
  destruct (key_flag _ _); by apply IH.
Qed.

Lemma report_push_error r a e : (report_push r a).1 = Err e → own_error e.
Proof. unfold report_push. repeat case_match; cbn; intros [= <-]; by intros bytes. Qed.

Lemma pipeline_push_grows r p : step_grows status_batches (pipeline_push r) p.
Proof.
  unfold step_grows, pipeline_push. rewrite ST_gets_bind.
  destruct (ip_needs_reacquisition p); [cbn; by split|].
  rewrite ST_bind_run. unfold on_reports. pose proof (report_push_error r (ip_reports p)) as He.
  destruct (report_push r (ip_reports p)) as [[[|report|]|e] reports]; cbn; try (split; [lia|by constructor]).
  - rewrite ST_gets_bind, ST_bind_run. unfold on_keys, normalize. cbn.
    destruct (normalize_records report _ _ []) as [[next es]|e] eqn:En; cbn; (split; [lia|]).
    + repeat constructor. cbn. lia.
    + by apply normalize_records_error in En.
  - unfold set_needs_reacquisition, set_ip_reports. cbn. rewrite ST_bind_run. cbn. split; [lia|constructor].
  - split; [lia|]. by apply He.
Qed.

Lemma advance_grows change p :
  ip_epoch p ≤ ip_epoch (advance change p).2 ∧
  match (advance change p).1 with
  | Ok e => e = ip_epoch p + 1 ∧ ip_epoch (advance change p).2 = e
  | Err e => e = EpochOverflow
  end.
Proof.
  unfold advance. destruct (checked_add u64_max (ip_epoch p) 1) eqn:E; cbn; [|by split].
  apply checked_add_inv in E as [-> _]. split; [lia|done].
Qed.

#[local] Opaque keys_reacquire.

Lemma reacquire_grows bitmap p : step_grows (λ b, [b]) (reacquire bitmap) p.
Proof.
  unfold step_grows, reacquire. rewrite ST_gets_bind.
  destruct (ip_needs_reacquisition p); cbn [negb]; [|cbn; by split].
  rewrite ST_bind_run. destruct (advance_grows ChangeDevice p) as [Hle Heq].
  destruct (advance ChangeDevice p) as [[e|err] p1]; cbn in Hle, Heq.
  - repeat (rewrite ST_bind_run; cbn). split; [done|]. constructor; [cbn; lia|constructor].
  - subst. by split.
Qed.

(** A read, whichever way it ends, leaves the device's number and an epoch no older; what it gives is no
    newer than that epoch. *)
Lemma push_reports_grows reports : ∀ acc k d r k' d',
  push_reports reports acc (k, d) = (r, (k', d')) →
  ip_epoch (id_pipeline d) ≤ ip_epoch (id_pipeline d') ∧ id_event_index d' = id_event_index d ∧
  match r with
  | Ok batches => ∃ heard, batches = acc ++ heard ∧ Forall (λ b, batch_epoch b ≤ ip_epoch (id_pipeline d')) heard
  | Err e => own_error e
  end.
Proof.
  induction reports as [|r rest IH]; intros acc k d res k' d' H.
  { injection H as <- <- <-. split; [lia|]. split; [done|]. exists []. by rewrite app_nil_r. }
  cbn [push_reports] in H. rewrite ST_bind_run in H. unfold on_pipeline at 1 in H. cbn [snd fst] in H.
  destruct (pipeline_push_grows r (id_pipeline d)) as [Hle Hb].
  destruct (pipeline_push r (id_pipeline d)) as [[status|e] p1]; cbn in Hle, Hb; [|by injection H as <- <- <-].
  destruct status as [|batch|].
  - apply IH in H as (? & ? & ?). cbn in *. split; [lia|done].
  - apply IH in H as (Hle' & Hi & Hr). cbn in *. split; [lia|]. split; [done|].
    destruct res as [batches|e]; [|done]. destruct Hr as (heard & -> & Hh). exists (batch :: heard).
    rewrite <-app_assoc. split; [done|]. constructor; [|done]. apply Forall_inv in Hb. lia.
  - rewrite ST_gets_bind, ST_bind_run in H. unfold on_kernel in H. cbn [fst snd id_backend set_id_pipeline] in H.
    destruct (query_key_state _ _ k) as [[state|e] k1] eqn:Eq.
    2:{ injection H as <- <- <-. cbn. split; [lia|]. split; [done|].
        unfold query_key_state, ST_map_err in Eq. destruct (ioctl _ _ _ _) as [[] ?]; [done|].
        injection Eq as <- _. by intros bytes. }
    rewrite ST_bind_run in H. unfold on_pipeline at 1 in H. cbn [fst snd id_pipeline set_id_pipeline] in H.
    destruct (reacquire_grows state p1) as [Hle1 Hb1].
    destruct (reacquire state p1) as [[batch|e] p2]; cbn in Hle1, Hb1;
      [|injection H as <- <- <-; cbn; split; [lia|done]].
    apply IH in H as (Hle' & Hi & Hr). cbn in *. split; [lia|]. split; [done|].
    destruct res as [batches|e]; [|done]. destruct Hr as (heard & -> & Hh). exists (batch :: heard).
    rewrite <-app_assoc. split; [done|]. constructor; [|done]. apply Forall_inv in Hb1. lia.
Qed.

Lemma device_read_grows k d r k' d' :
  device_read_batches (k, d) = (r, (k', d')) →
  ip_epoch (id_pipeline d) ≤ ip_epoch (id_pipeline d') ∧ id_event_index d' = id_event_index d ∧
  match r with
  | Ok batches => Forall (λ b, batch_epoch b ≤ ip_epoch (id_pipeline d')) batches
  | Err (InvalidReadLength _) => ip_epoch (id_pipeline d) < ip_epoch (id_pipeline d')
  | Err _ => True
  end.
Proof.
  unfold device_read_batches, on_kernel. cbn [fst snd].
  destruct (read_reports (id_backend d) k) as [[reports|e] k1] eqn:Er; intros H.
  - apply push_reports_grows in H as (? & ? & Hr). split; [done|]. split; [done|].
    destruct r as [batches|e]; [by destruct Hr as (heard & -> & Hh)|].
    by destruct e; try done; destruct (Hr bytes).
  - assert (Hdone : ∀ e', (Err e', (k1, d)) = (r, (k', d')) → own_error e' →
      ip_epoch (id_pipeline d) ≤ ip_epoch (id_pipeline d') ∧ id_event_index d' = id_event_index d ∧
      match r with
      | Ok batches => Forall (λ b, batch_epoch b ≤ ip_epoch (id_pipeline d')) batches
      | Err (InvalidReadLength _) => ip_epoch (id_pipeline d) < ip_epoch (id_pipeline d')
      | Err _ => True
      end).
    { intros e' [= <- <- <-] He. split; [lia|]. split; [done|]. destruct e'; try done. by destruct (He bytes). }
    destruct e; try (by apply Hdone in H); clear Hdone.
    rewrite ST_bind_run in H. unfold on_pipeline in H. cbn [fst snd] in H.
    destruct (advance_grows ChangeDevice (id_pipeline d)) as [Hle Ha].
    destruct (advance ChangeDevice (id_pipeline d)) as [[e|e] p1]; injection H as <- <- <-; cbn in *.
    + split; [lia|]. split; [done|]. lia.
    + subst e. by split.
Qed.

(** * One device of the set *)

(** What became of a device: how it was left, what it gave, whether it is to go. *)
Record Outcome := MkOutcome { oc_device : InputDevice; oc_batches : list InputBatch; oc_failed : bool }.

(** What may become of a device, by what [poll] said of it. One that goes says last that everything is
    cut, in an epoch of its own; one that stays has been read, or has been left alone. *)
Definition attended (readiness : DescriptorReadiness) (d : InputDevice) (o : Outcome) : Prop :=
  if oc_failed o then
    ∃ read epoch, oc_batches o = read ++ [Discontinuity epoch] ∧
      ip_epoch (id_pipeline d) < epoch ∧ Forall (λ b, batch_epoch b < epoch) read ∧
      (dr_failed readiness = true ∨
       dr_readable readiness = true ∧ read = [] ∧ ∃ k e s, device_read_batches (k, d) = (Err e, s))
  else
    dr_failed readiness = false ∧
    if dr_readable readiness then ∃ k k', device_read_batches (k, d) = (Ok (oc_batches o), (k', oc_device o))
    else oc_batches o = [] ∧ oc_device o = d.

Lemma retire_run (k : K) d batch s' :
  retire (k, d) = (Ok batch, s') → batch = Discontinuity (ip_epoch (id_pipeline d) + 1).
Proof.
  unfold retire. rewrite ST_bind_run. unfold on_pipeline. cbn [fst snd].
  destruct (advance_grows ChangeDevice (id_pipeline d)) as [_ Ha].
  destruct (advance ChangeDevice (id_pipeline d)) as [[e|e] p1]; [|done]. intros [= <- _].
  cbn in Ha. by destruct Ha as [-> _].
Qed.

Lemma drain_device_run readiness k d drained failed k' d' :
  drain_device readiness (k, d) = (Ok (drained, failed), (k', d')) →
  ∃ batches, drained = tag_batches (id_event_index d) batches ∧
             attended readiness d (MkOutcome d' batches failed).
Proof.
  unfold drain_device. cbn [snd]. destruct (dr_readable readiness) eqn:Er.
  - destruct (device_read_batches (k, d)) as [[batches|e] [k1 d1]] eqn:Ed;
      destruct (device_read_grows _ _ _ _ _ Ed) as (Hle & Hi & Hr).
    + destruct (dr_failed readiness) eqn:Ef.
      * rewrite ST_bind_run. destruct (retire (k1, d1)) as [[b|e] s1] eqn:Et; [|done]. intros [= <- <- ->].
        apply retire_run in Et as ->. exists (batches ++ [Discontinuity (ip_epoch (id_pipeline d1) + 1)]).
        split; [unfold tag_batches; by rewrite map_app|]. exists batches, (ip_epoch (id_pipeline d1) + 1).
        split; [done|]. split; [lia|]. split; [|by left]. eapply Forall_impl; [exact Hr|]. cbn. lia.
      * intros [= <- <- <- <-]. exists batches. split; [done|]. split; [done|]. rewrite Er. by exists k, k1.
    + rewrite ST_bind_run.
      assert (Hend : ∀ epoch, ip_epoch (id_pipeline d) < epoch →
        attended readiness d (MkOutcome d' [Discontinuity epoch] true)).
      { intros epoch Hlt. exists [], epoch. split; [done|]. split; [done|]. split; [done|]. right.
        split; [done|]. split; [done|]. by exists k, e, (k1, d1). }
      destruct (match e with InvalidReadLength _ => true | _ => false end) eqn:Ee.
      * destruct e; try done. intros [= <- <- <- <-]. eexists [_]. split; [done|]. by apply Hend.
      * destruct (retire (k1, d1)) as [[b|e'] s1] eqn:Et; [|done]. intros [= <- <- ->].
        apply retire_run in Et as ->. eexists [_]. split; [done|]. apply Hend. lia.
  - destruct (dr_failed readiness) eqn:Ef.
    + rewrite ST_bind_run. destruct (retire (k, d)) as [[b|e] s1] eqn:Et; [|done]. intros [= <- <- ->].
      apply retire_run in Et as ->. eexists [_]. split; [done|]. exists [], (ip_epoch (id_pipeline d) + 1).
      split; [done|]. split; [lia|]. split; [done|by left].
    + intros [= <- <- <- <-]. exists []. split; [done|]. split; [done|]. by rewrite Er.
Qed.

(** * The whole set *)

(** The indices of those that are to go. *)
Fixpoint failed_from (index : nat) (outcomes : list Outcome) : list nat :=
  match outcomes with
  | [] => []
  | o :: rest => (if oc_failed o then [index] else []) ++ failed_from (S index) rest
  end.

(** Removing them from the last to the first leaves the others, in their order. *)
Lemma remove_failed outcomes pre :
  remove_indices (failed_from (length pre) outcomes) (pre ++ map oc_device outcomes) =
  pre ++ map oc_device (list_retain (λ o, negb (oc_failed o)) outcomes).
Proof.
  revert pre. induction outcomes as [|o rest IH]; intros pre; [done|]. cbn [failed_from map].
  unfold remove_indices in *. rewrite reverse_app, foldl_app.
  specialize (IH (pre ++ [oc_device o])). rewrite length_app, Nat.add_1_r, <-!app_assoc in IH. cbn [app] in IH.
  rewrite IH. unfold list_retain. rewrite filter_cons. destruct (oc_failed o); cbn.
  - by rewrite delete_middle.
  - done.
Qed.

(** What the set gives: each device's batches, under its number, in the order of the devices. *)
Definition given (devices : list InputDevice) (outcomes : list Outcome) : list DeviceInputBatch :=
  concat (zip_with (λ d o, tag_batches (id_event_index d) (oc_batches o)) devices outcomes).

Lemma drain_devices_run readiness rest : ∀ k pre batches retired batches' retired' k' set',
  drain_devices readiness (seq (length pre) (length rest)) batches retired (k, pre ++ rest) =
    (Ok (batches', retired'), (k', set')) →
  ∃ outcomes, length outcomes = length rest ∧
    (∀ i d o, rest !! i = Some d → outcomes !! i = Some o →
              attended (readiness_at readiness (length pre + i)) d o) ∧
    batches' = batches ++ given rest outcomes ∧ retired' = retired ++ failed_from (length pre) outcomes ∧
    set' = pre ++ map oc_device outcomes.
Proof.
  induction rest as [|d rest IH]; intros k pre batches retired batches' retired' k' set' H.
  { injection H as <- <- <- <-. exists []. unfold given. cbn. by rewrite !app_nil_r. }
  cbn [length seq drain_devices] in H. rewrite ST_gets_bind in H. cbn [snd] in H.
  rewrite list_lookup_middle in H by done. rewrite ST_bind_run in H. unfold on_device in H. cbn [fst snd] in H.
  destruct (drain_device _ (k, d)) as [[[drained failed]|e] [k1 d1]] eqn:Ed; [|done].
  apply drain_device_run in Ed as (given_here & -> & Ho).
  rewrite insert_app_r_alt, Nat.sub_diag in H by lia. cbn [list_insert insert] in H.
  specialize (IH k1 (pre ++ [d1])). rewrite length_app, Nat.add_1_r, <-app_assoc in IH.
  apply IH in H as (outcomes & Hlen & Hall & -> & -> & ->). clear IH.
  exists (MkOutcome d1 given_here failed :: outcomes). split; [cbn; by rewrite Hlen|]. split; [|split; [|split]].
  - intros [|i] d0 o Hd0 Ho'; cbn in Hd0, Ho'.
    + injection Hd0 as <-. injection Ho' as <-. by rewrite Nat.add_0_r.
    + replace (length pre + S i)%nat with (S (length pre) + i)%nat by lia. by eapply Hall.
  - unfold given. cbn. by rewrite <-app_assoc.
  - cbn [failed_from oc_failed]. destruct failed; [by rewrite <-app_assoc|done].
  - by rewrite <-app_assoc.
Qed.

(** C26. One wait on all the devices of a set: every batch that comes back is tagged with its device,
    device by device in the order of the set. A device that failed, or whose read did, says last that
    its continuity is cut, in an epoch newer than anything of it before, and is gone; every other device
    that was ready has given exactly what reading it gives, one that was not is as it was, and those
    that are left keep their order. *)
Theorem failures_isolated timeout k set batches k' set' :
  set_read_batches timeout (k, set) = (Ok batches, (k', set')) →
  ∃ readiness k1,
    wait_readiness (map id_backend set) timeout k = (Ok readiness, k1) ∧
    if has_ready readiness then
      ∃ outcomes, length outcomes = length set ∧
        (∀ i d o, set !! i = Some d → outcomes !! i = Some o → attended (readiness_at readiness i) d o) ∧
        batches = given set outcomes ∧
        set' = map oc_device (list_retain (λ o, negb (oc_failed o)) outcomes)
    else batches = [] ∧ set' = set ∧ k' = k1.
Proof.
  unfold set_read_batches. rewrite ST_gets_bind. cbn [snd]. destruct (bool_decide (set = [])); [done|].
  rewrite ST_bind_run. unfold on_kernel. cbn [fst snd].
  destruct (wait_readiness _ timeout k) as [[readiness|e] k1] eqn:Ew; [|done]. intros Hrun.
  exists readiness, k1. split; [done|]. destruct (has_ready readiness); cbn [negb] in Hrun.
  2:{ by injection Hrun as <- <- <-. }
  rewrite ST_bind_run in Hrun.
  destruct (drain_devices readiness (seq 0 (length set)) [] [] (k1, set)) as [[[bs gone]|e] [k2 set2]] eqn:Ed; [|done].
  apply (drain_devices_run readiness set k1 []) in Ed as (outcomes & Hlen & Hall & -> & -> & ->).
  injection Hrun as <- <- <-. exists outcomes. split; [done|]. split; [done|]. split; [done|].
  apply (remove_failed outcomes []).
Qed.

(** * Which keys a device has *)

(** One bit of one byte. *)
Lemma code_at (i : nat) (j : Z) : Z.of_nat i < 8192 → 0 ≤ j < 8 →
  (base ← checked_mul usize_max (Z.of_nat i) 8; code ← checked_add usize_max base j; try_from u16_max code) =
  Some (Z.of_nat i * 8 + j).
Proof.
  intros Hi Hj. unfold checked_mul. rewrite (proj2 (Z.leb_le _ _)) by width_lia. cbn.
  rewrite checked_add_Some by width_lia. cbn. unfold try_from.
  rewrite !(proj2 (Z.leb_le _ _)) by width_lia. done.
Qed.

(** The bits of the bitmap, as the loop over its bytes finds them. *)
Lemma elem_of_set_key_codes bitmap code :
  len bitmap ≤ 8192 → code ∈ set_key_codes bitmap ↔ 0 ≤ code ∧ bitmap_bit bitmap code = true.
Proof.
  intros Hlen. unfold set_key_codes, bitmap_bit.
  rewrite list_elem_of_In, in_concat. setoid_rewrite <-list_elem_of_In. setoid_rewrite elem_of_lookup_imap. split.
  - intros (l & (i & b & -> & Hb) & Hin). apply list_elem_of_omap in Hin as (j & Hj & Hc).
    apply elem_of_seqZ in Hj. apply lookup_lt_Some in Hb as Hi. unfold len in Hlen.
    destruct (Z.land _ _ =? 0) eqn:E; [done|]. rewrite code_at in Hc by lia. injection Hc as <-.
    split; [lia|]. rewrite Z.div_add_l, Z.div_small, Z.add_0_r, Nat2Z.id by lia.
    rewrite (Z.add_comm _ j), Z.mod_add, Z.mod_small by lia. by rewrite Hb, E.
  - intros [H0 Hb]. destruct (bitmap !! Z.to_nat (code / 8)) as [b|] eqn:E; [|done].
    apply negb_true_iff in Hb. eexists. split; [by exists (Z.to_nat (code / 8)), b|].
    pose proof (Z.mod_pos_bound code 8 ltac:(lia)). assert (0 ≤ code / 8) by (apply Z.div_pos; lia).
    apply lookup_lt_Some in E. unfold len in Hlen.
    apply list_elem_of_omap. exists (code mod 8). split; [by apply elem_of_seqZ|].
    rewrite Hb, code_at by lia. f_equal. rewrite Z2Nat.id by lia. pose proof (Z.div_mod code 8). lia.
Qed.

Lemma reports_key_iff backend k :
  len (eb_reported_keys backend) ≤ 8192 →
  reports_key backend k = true ↔ bitmap_bit (eb_reported_keys backend) (evdev_code k) = true.
Proof.
  intros Hlen. unfold reports_key. rewrite existsb_exists. setoid_rewrite <-list_elem_of_In.
  setoid_rewrite bool_decide_eq_true. setoid_rewrite elem_of_set_key_codes; [|done]. split.
  - intros (code & [_ Hb] & ->%from_evdev_Some). done.
  - intros Hb. exists (evdev_code k). rewrite from_evdev_code. pose proof (evdev_code_range k). auto with lia.
Qed.

Lemma bitmap_has_supported_key_iff bitmap :
  len bitmap ≤ 8192 → bitmap_has_supported_key bitmap = true ↔ keys_of_bitmap bitmap ≠ ∅.
Proof.
  intros Hlen. unfold bitmap_has_supported_key. rewrite existsb_exists. setoid_rewrite <-list_elem_of_In.
  setoid_rewrite elem_of_set_key_codes; [|done]. unfold is_supported_evdev. setoid_rewrite bool_decide_eq_true.
  split.
  - intros (code & [_ Hb] & [k ->%from_evdev_Some]) He. apply elem_of_bitmap in Hb. rewrite He in Hb. by apply not_elem_of_empty in Hb.
  - intros [k Hk]%set_choose_L. exists (evdev_code k). apply elem_of_bitmap in Hk.
    rewrite from_evdev_code. pose proof (evdev_code_range k). split; [split; [lia|done]|done].
Qed.
End Reading.

(** * What nodes are called *)

(** The node of a device is called by its number in decimal: what [device_path] writes in its 32
    bytes, and says is written, reads back as that number, for every [u32]. *)
Theorem device_path_reads_back event_index :
  is_u32 event_index →
  ∃ digits, take (Z.to_nat (device_path event_index).2) (device_path event_index).1 = device_prefix ++ digits ∧
            decimal digits = event_index ∧ (device_path event_index).2 = len (device_prefix ++ digits) ∧
            length (device_path event_index).1 = 32%nat.
Proof. by apply numbered_path_reads_back. Qed.

(** A wait never ends before its time: the milliseconds asked of [poll] are the least that cover the
    duration, and a duration that [poll] cannot be asked for is refused. *)
Theorem timeout_covers timeout ms :
  is_u64 (as_secs timeout) → 0 ≤ subsec_nanos timeout < NANOS_PER_SECOND →
  timeout_milliseconds (Some timeout) = Ok ms ↔
  ms ≤ i32_max ∧
  (ms - 1) * 1000000 < as_secs timeout * NANOS_PER_SECOND + subsec_nanos timeout ≤ ms * 1000000.
Proof.
  intros [H0 H1] [H2 H3]. unfold timeout_milliseconds, as_millis, NANOS_PER_SECOND in *.
  pose proof (Z.div_mod (subsec_nanos timeout) 1000000 ltac:(lia)) as Hdm.
  pose proof (Z.mod_pos_bound (subsec_nanos timeout) 1000000 ltac:(lia)).
  assert (0 ≤ subsec_nanos timeout / 1000000 < 1000) by (split; [apply Z.div_pos|apply Z.div_lt_upper_bound]; lia).
  rewrite checked_add_Some by (unfold u64_max, u128_max in *; destruct (_ =? 0); cbn; lia). cbn [ok_or mbind result_bind].
  unfold try_from, i32_max. destruct (Z.eqb_spec (subsec_nanos timeout mod 1000000) 0); cbn [negb];
    destruct (_ && _) eqn:E; rewrite ?andb_true_iff, ?andb_false_iff, ?Z.leb_le, ?Z.leb_gt in E; cbn.
  all: split; [try done; intros [= <-]; lia|intros [? ?]; try lia; f_equal; lia].
Qed.

(** * A bench of devices

    Its descriptors are the flags [poll] answers with for them, its state the reads that are left. *)
#[local] Instance bench : EvdevKernel (list (list byte)) := {
  File := Z;
  os_open _ k := (Err (Some 2), k);
  libc_ioctl _ _ _ k := (0, [], k);
  libc_read _ n k := match k with [] => (0, [], []) | bytes :: rest => (len bytes, bytes, rest) end;
  libc_poll files _ k := (1, (λ i, default 0 (files !! i)), k);
  last_os_error _ := None;
  EIO := 5;
  ENOENT := 2;
  CLOCK_MONOTONIC := 1;
}.

(** A record in memory. *)
Definition in_memory (event_type code value : Z) : list byte :=
  to_le_bytes 8 10 ++ to_le_bytes 8 250 ++ to_le_bytes 2 event_type ++ to_le_bytes 2 code ++ to_le_bytes 4 value.

Definition bench_device (index flags : Z) : InputDevice :=
  from_backend (MkEvdevBackend index flags KeyboardRemote (zeroes KEY_STATE_BYTES) (zeroes KEY_STATE_BYTES)).

(** A press of enter, in one report. *)
Definition enter_pressed : list byte := in_memory EV_KEY KEY_ENTER 1 ++ in_memory EV_SYN SYN_REPORT 0.

Definition bench_read := device_read_batches ([enter_pressed], bench_device 7 1).

Lemma reading_is_feeding_witness : ∃ feeds pipeline,
  records_of feeds = [MkRawInputEvent 10 250 EV_KEY KEY_ENTER 1; MkRawInputEvent 10 250 EV_SYN SYN_REPORT 0] ∧
  feed_all feeds (id_pipeline (bench_device 7 1)) =
    (Ok [Keys 1 [MkKeyEvent 10000250000 KcEnter Pressed 1]], pipeline).
Proof.
  assert (E : bench_read = (Ok [Keys 1 [MkKeyEvent 10000250000 KcEnter Pressed 1]],
                            ([], (bench_read.2).2))) by (vm_compute; reflexivity).
  destruct (reading_is_feeding _ _ _ _ _ E) as (reports & k1 & feeds & Hr & Hrec & _ & Hf & _).
  exists feeds, (id_pipeline (bench_read.2).2). split; [|exact Hf]. rewrite Hrec.
  assert (Hr' : (read_reports (id_backend (bench_device 7 1)) [enter_pressed]).1 =
    Ok [MkRawInputEvent 10 250 EV_KEY KEY_ENTER 1; MkRawInputEvent 10 250 EV_SYN SYN_REPORT 0])
    by (vm_compute; reflexivity).
  rewrite Hr in Hr'. by injection Hr'.
Defined.

(** An idle device, one that has hung up, one with a key to tell of. *)
Definition bench_set : list InputDevice := [bench_device 3 0; bench_device 5 16; bench_device 7 1].

Definition bench_wait := set_read_batches None ([enter_pressed], bench_set).

Lemma failures_isolated_witness : ∃ outcomes,
  given bench_set outcomes =
    [MkDeviceInputBatch 5 (Discontinuity 2);
     MkDeviceInputBatch 7 (Keys 1 [MkKeyEvent 10000250000 KcEnter Pressed 1])] ∧
  map id_event_index (map oc_device (list_retain (λ o, negb (oc_failed o)) outcomes)) = [3; 7] ∧
  ∀ o, outcomes !! 0%nat = Some o → oc_device o = bench_device 3 0 ∨ oc_failed o = true.
Proof.
  assert (E : bench_wait = (Ok [MkDeviceInputBatch 5 (Discontinuity 2);
     MkDeviceInputBatch 7 (Keys 1 [MkKeyEvent 10000250000 KcEnter Pressed 1])],
     ([], (bench_wait.2).2))) by (vm_compute; reflexivity).
  assert (Hleft : map id_event_index (bench_wait.2).2 = [3; 7]) by (vm_compute; reflexivity).
  destruct (failures_isolated _ _ _ _ _ _ E) as (readiness & k1 & Hw & Hout).
  assert (Hr : readiness = MkEvdevReadiness [0; 16; 1] 1).
  { assert (Hw' : (wait_readiness (map id_backend bench_set) None [enter_pressed]).1 =
      Ok (MkEvdevReadiness [0; 16; 1] 1)) by (vm_compute; reflexivity).
    rewrite Hw in Hw'. by injection Hw'. }
  subst readiness. cbn [has_ready er_ready_count Z.eqb negb] in Hout.
  destruct Hout as (outcomes & Hlen & Hall & Hg & Hs). exists outcomes.
  split; [symmetry; exact Hg|]. split; [by rewrite <-Hs|]. intros o Ho.
  specialize (Hall 0%nat (bench_device 3 0) o eq_refl Ho). unfold attended in Hall.
  destruct (oc_failed o); [by right|left]. by destruct Hall as (_ & _ & ?).
Defined.

Lemma device_path_reads_back_witness : ∃ digits,
  take (Z.to_nat (device_path 4000000017).2) (device_path 4000000017).1 = device_prefix ++ digits ∧
  decimal digits = 4000000017.
Proof.
  destruct (device_path_reads_back 4000000017 ltac:(split; vm_compute; discriminate)) as (digits & H1 & H2 & _).
  exists digits. split; [exact H1|exact H2].
Defined.

Lemma timeout_covers_witness :
  timeout_milliseconds (Some (MkDuration 2 1)) = Ok 2001 ∧ (2001 - 1) * 1000000 < 2000000001 ≤ 2001 * 1000000.
Proof.
  assert (H : timeout_milliseconds (Some (MkDuration 2 1)) = Ok 2001) by (vm_compute; reflexivity).
  split; [exact H|].
  apply (timeout_covers (MkDuration 2 1) 2001 ltac:(split; vm_compute; discriminate)
           ltac:(split; [vm_compute; discriminate|vm_compute; reflexivity])). exact H.
Defined.

(** The numbers of the calls, as [linux/input.h] has them. *)
Example ioctl_numbers :
  [IOCTL_GET_EVENT_TYPES; IOCTL_GET_KEY_CODES; IOCTL_GET_KEY_STATE; IOCTL_SET_CLOCK_ID] =
  [0x80044520; 0x80604521; 0x80604518; 0x400445a0].
Proof. reflexivity. Qed.
