(* ===== verification/Kms.v ===== *)
(** The vocabulary of scanout ([atria-drm/src/{logic,error,lib}.rs], [atria-drm/src/backend/ioctl/uapi.rs]):
    modes, formats and the geometry of a buffer, what can go wrong, and the requests the kernel is asked
    with the memory each of them carries. *)
From S2P Require Import Prelude.
From S2P Require Import Vocabulary.
From S2P Require Import Model.
From S2P Require Import Pixels.

(** * Errors ([error.rs]) *)

Inductive DrmError :=
| DeviceAbsent (card_index : Z)
| OpenDevice (errno : Z)
| SetMaster (errno : Z)
| GetCapability (capability errno : Z)
| EnableAtomicClient (errno : Z)
| EnumerateResources (errno : Z)
| ResourcesChanged
| QueryConnector (connector_id errno : Z)
| QueryEncoder (encoder_id errno : Z)
| NoConnectedConnector
| RequestedConnectorUnavailable (connector_id : Z)
| ConnectorHasNoEncoder (connector_id : Z)
| NoCompatibleCrtc (connector_id : Z)
| DumbBuffersUnavailable
| CreateDumbBuffer (buffer_index : nat) (errno : Z)
| MapDumbBuffer (buffer_index : nat) (errno : Z)
| MappingOffsetOutOfRange (buffer_index : nat) (offset : Z)
| MapMemory (buffer_index : nat) (errno : Z)
| AddFramebuffer (buffer_index : nat) (errno : Z)
| FrameSizeMismatch (frame_width frame_height mode_width mode_height : Z)
| FrameLayoutMismatch (expected actual : Z)
| FrameBufferTooSmall
| FlipPending
| EnumeratePlanes (errno : Z)
| QueryPlane (plane_id errno : Z)
| NoPrimaryPlane
| QueryObjectProperties (object_id errno : Z)
| QueryProperty (property_id errno : Z)
| MissingAtomicProperty (object_id : Z) (property_name : string)
| CreateModeBlob (errno : Z)
| InitialModeset (errno : Z)
| AtomicTestFailed (errno : Z)
| AtomicCommitFailed (errno : Z)
| PageFlipFailed (errno : Z)
| DisplayAccessLost (errno : Z)
| DisplayBusy (errno : Z)
| ReadFlipEvent (errno : Z)
| InvalidFlipEvent
| FlipEventMissing
| ZeroDimension
| UnsupportedPixelLayout (bytes : Z)
| GeometryArithmeticOverflow
| PitchTooSmall (pitch required : Z)
| DumbBufferTooSmall (size required : Z)
| NoModes
| NoPreferredMode
| RequestedModeUnavailable.

(** * Modes and formats ([logic.rs]) *)

Definition MODE_TYPE_PREFERRED : Z := Z.shiftl 1 3.

(** [u32::from_le_bytes([a, b, c, d])]. *)
Definition fourcc (a b c d : Z) : Z :=
  a + Z.shiftl b 8 + Z.shiftl c 16 + Z.shiftl d 24.

Inductive DrmFormat := C8 | Rgb565 | Rgb888 | Xrgb8888.

Definition DrmFormat_fourcc (f : DrmFormat) : Z :=
  match f with
  | C8 => fourcc 0x43 0x38 0x20 0x20
  | Rgb565 => fourcc 0x52 0x47 0x31 0x36
  | Rgb888 => fourcc 0x52 0x47 0x32 0x34
  | Xrgb8888 => fourcc 0x58 0x52 0x32 0x34
  end.

Record Mode := MkMode { md_width : Z; md_height : Z; md_refresh_hz : Z; md_mode_type : Z }.

Definition preferred (self : Mode) : bool := negb (Z.land (md_mode_type self) MODE_TYPE_PREFERRED =? 0).

Inductive ModeSelection := Preferred | Exact (width height refresh_hz : Z).

Record BufferGeometry := MkBufferGeometry { bg_row_bytes : Z; bg_size : Z }.

(** [iter().position(p)]. *)
Fixpoint position {A} (p : A → bool) (l : list A) : option nat :=
  match l with
  | [] => None
  | a :: rest => if p a then Some O else S <$> position p rest
  end.

Definition select_mode (modes : list Mode) (selection : ModeSelection) : result DrmError nat :=
  match modes with
  | [] => Err NoModes
  | _ =>
      match selection with
      | Preferred => ok_or (position preferred modes) NoPreferredMode
      | Exact width height refresh_hz =>
          ok_or (position (λ mode, (md_width mode =? width) && (md_height mode =? height) &&
                                   (md_refresh_hz mode =? refresh_hz)) modes) RequestedModeUnavailable
      end
  end.

Definition buffer_geometry (width height bytes_per_pixel pitch buffer_size : Z)
    : result DrmError BufferGeometry :=
  if (width =? 0) || (height =? 0) then Err ZeroDimension
  else
    row_bytes ← ok_or (checked_mul u64_max width bytes_per_pixel) GeometryArithmeticOverflow;
    if pitch <? row_bytes then Err (PitchTooSmall pitch row_bytes)
    else
      size ← ok_or (checked_mul u64_max pitch height) GeometryArithmeticOverflow;
      if buffer_size <? size then Err (DumbBufferTooSmall buffer_size size)
      else
        _ ← ok_or (try_from usize_max size) GeometryArithmeticOverflow;
        if isize_max <? size then Err GeometryArithmeticOverflow
        else Ok (MkBufferGeometry row_bytes size).

Definition next_buffer_index (scanning_index : Z) : Z := Z.lxor scanning_index 1.

Definition drm_format (layout : PixelLayout) : result DrmError DrmFormat :=
  match bytes_per_pixel layout with
  | 1 => Ok C8
  | 2 => Ok Rgb565
  | 3 => Ok Rgb888
  | 4 => Ok Xrgb8888
  | bytes => Err (UnsupportedPixelLayout bytes)
  end.

(** * What a device can do ([lib.rs]) *)

Record DrmCapabilities := MkDrmCapabilities { dc_dumb_buffers : bool; dc_atomic_commit : bool }.

Definition capability_set (self : DrmCapabilities) : CapabilitySet :=
  let capabilities := default_grants in
  let capabilities := if dc_dumb_buffers self then cap_with capabilities DrmDumbBuffer else capabilities in
  if dc_atomic_commit self then cap_with capabilities DrmAtomicCommit else cap_with capabilities DrmPageFlip.

(** * The memory of requests ([uapi.rs])

    A request that carries pointers is the structure with the arrays behind them. Fields the kernel is
    not told and that are not read are left out. *)

Definition CAP_DUMB_BUFFER : Z := 1.
Definition CLIENT_CAP_ATOMIC : Z := 3.
Definition MODE_CONNECTED : Z := 1.
Definition MODE_PAGE_FLIP_EVENT : Z := 0x01.
Definition MODE_ATOMIC_TEST_ONLY : Z := 0x0100.
Definition MODE_ATOMIC_NONBLOCK : Z := 0x0200.
Definition MODE_ATOMIC_ALLOW_MODESET : Z := 0x0400.
Definition MODE_OBJECT_CRTC : Z := 0xcccccccc.
Definition MODE_OBJECT_CONNECTOR : Z := 0xc0c0c0c0.
Definition MODE_OBJECT_PLANE : Z := 0xeeeeeeee.
Definition EVENT_FLIP_COMPLETE : Z := 2.

Record GetCap := MkGetCap { gc_capability : Z; gc_value : Z }.
Record SetClientCap := MkSetClientCap { sc_capability : Z; sc_value : Z }.

Record ModeInfo := MkModeInfo {
  mi_clock : Z;
  mi_hdisplay : Z; mi_hsync_start : Z; mi_hsync_end : Z; mi_htotal : Z; mi_hskew : Z;
  mi_vdisplay : Z; mi_vsync_start : Z; mi_vsync_end : Z; mi_vtotal : Z; mi_vscan : Z;
  mi_vrefresh : Z; mi_flags : Z; mi_mode_type : Z;
  mi_name : list byte;
}.

(** A name of 32 characters. *)
Definition no_name : list byte := replicate 32 Corelib.Init.Byte.x00.
Definition ModeInfo_default : ModeInfo := MkModeInfo 0 0 0 0 0 0 0 0 0 0 0 0 0 0 no_name.

Record CardResources := MkCardResources {
  cr_crtc_ids : list Z; cr_connector_ids : list Z; cr_encoder_ids : list Z;
  cr_count_crtcs : Z; cr_count_connectors : Z; cr_count_encoders : Z;
}.

Record GetEncoder := MkGetEncoder { ge_encoder_id : Z; ge_crtc_id : Z; ge_possible_crtcs : Z }.

Record GetConnector := MkGetConnector {
  gn_encoders : list Z; gn_modes : list ModeInfo; gn_props : list Z; gn_prop_values : list Z;
  gn_count_modes : Z; gn_count_props : Z; gn_count_encoders : Z;
  gn_encoder_id : Z; gn_connector_id : Z; gn_connection : Z;
}.

Record CreateDumb := MkCreateDumb {
  cd_height : Z; cd_width : Z; cd_bpp : Z; cd_flags : Z; cd_handle : Z; cd_pitch : Z; cd_size : Z;
}.

Record MapDumb := MkMapDumb { mp_handle : Z; mp_offset : Z }.
Record DestroyDumb := MkDestroyDumb { dd_handle : Z }.

Record Framebuffer := MkFramebuffer {
  fb_id : Z; fb_width : Z; fb_height : Z; fb_pixel_format : Z; fb_flags : Z;
  fb_handles : list Z; fb_pitches : list Z; fb_offsets : list Z; fb_modifier : list Z;
}.

Record ModeCrtc := MkModeCrtc {
  mc_set_connectors : list Z; mc_count_connectors : Z; mc_crtc_id : Z; mc_fb_id : Z;
  mc_x : Z; mc_y : Z; mc_gamma_size : Z; mc_mode_valid : Z; mc_mode : ModeInfo;
}.

Record PageFlip := MkPageFlip {
  pg_crtc_id : Z; pg_fb_id : Z; pg_flags : Z; pg_reserved : Z; pg_user_data : Z;
}.

Record PlaneResources := MkPlaneResources { pr_plane_ids : list Z; pr_count_planes : Z }.

Record GetPlane := MkGetPlane {
  gp_plane_id : Z; gp_possible_crtcs : Z; gp_count_format_types : Z; gp_format_types : list Z;
}.

Record ObjectProperties := MkObjectProperties {
  op_props : list Z; op_prop_values : list Z; op_count_props : Z; op_obj_id : Z; op_obj_type : Z;
}.

Record GetProperty := MkGetProperty { gy_prop_id : Z; gy_name : list byte }.
Record CreateBlob := MkCreateBlob { cb_data : ModeInfo; cb_length : Z; cb_blob_id : Z }.
Record DestroyBlob := MkDestroyBlob { db_blob_id : Z }.

Record AtomicCommit := MkAtomicCommit {
  ac_flags : Z; ac_count_objs : Z;
  ac_objs : list Z; ac_count_props : list Z; ac_props : list Z; ac_prop_values : list Z;
  ac_reserved : Z; ac_user_data : Z;
}.

(** The requests, and what each is asked with. *)
Inductive DrmRequest :=
| GET_CAP | SET_CLIENT_CAP | SET_MASTER | DROP_MASTER
| MODE_GETRESOURCES | MODE_SETCRTC | MODE_GETENCODER | MODE_GETCONNECTOR | MODE_GETPROPERTY
| MODE_RMFB | MODE_CREATE_DUMB | MODE_MAP_DUMB | MODE_DESTROY_DUMB | MODE_ADDFB2 | MODE_PAGE_FLIP
| MODE_GETPLANERESOURCES | MODE_GETPLANE | MODE_OBJ_GETPROPERTIES | MODE_ATOMIC
| MODE_CREATEPROPBLOB | MODE_DESTROYPROPBLOB.

Definition argument (r : DrmRequest) : Type :=
  match r with
  | GET_CAP => GetCap
  | SET_CLIENT_CAP => SetClientCap
  | SET_MASTER | DROP_MASTER => unit
  | MODE_GETRESOURCES => CardResources
  | MODE_SETCRTC => ModeCrtc
  | MODE_GETENCODER => GetEncoder
  | MODE_GETCONNECTOR => GetConnector
  | MODE_GETPROPERTY => GetProperty
  | MODE_RMFB => Z
  | MODE_CREATE_DUMB => CreateDumb
  | MODE_MAP_DUMB => MapDumb
  | MODE_DESTROY_DUMB => DestroyDumb
  | MODE_ADDFB2 => Framebuffer
  | MODE_PAGE_FLIP => PageFlip
  | MODE_GETPLANERESOURCES => PlaneResources
  | MODE_GETPLANE => GetPlane
  | MODE_OBJ_GETPROPERTIES => ObjectProperties
  | MODE_ATOMIC => AtomicCommit
  | MODE_CREATEPROPBLOB => CreateBlob
  | MODE_DESTROYPROPBLOB => DestroyBlob
  end.

(** [size_of] the structures. *)
Definition argument_size (r : DrmRequest) : Z :=
  match r with
  | GET_CAP => 16 | SET_CLIENT_CAP => 16 | SET_MASTER | DROP_MASTER => 0
  | MODE_GETRESOURCES => 64 | MODE_SETCRTC => 104 | MODE_GETENCODER => 20 | MODE_GETCONNECTOR => 80
  | MODE_GETPROPERTY => 64 | MODE_RMFB => 4 | MODE_CREATE_DUMB => 32 | MODE_MAP_DUMB => 16
  | MODE_DESTROY_DUMB => 4 | MODE_ADDFB2 => 104 | MODE_PAGE_FLIP => 24 | MODE_GETPLANERESOURCES => 16
  | MODE_GETPLANE => 32 | MODE_OBJ_GETPROPERTIES => 32 | MODE_ATOMIC => 56
  | MODE_CREATEPROPBLOB => 16 | MODE_DESTROYPROPBLOB => 4
  end.

Definition DRM_TYPE : Z := 0x64.

Definition request_none (number : Z) : Z := Z.lor (Z.shiftl DRM_TYPE 8) number.
(** [request_read_write::<T>] and [request_write::<T>], for a [T] of so many bytes. *)
Definition request_read_write (size number : Z) : Z :=
  Z.lor (Z.lor (Z.lor (Z.shiftl 3 30) (Z.shiftl size 16)) (Z.shiftl DRM_TYPE 8)) number.
Definition request_write (size number : Z) : Z :=
  Z.lor (Z.lor (Z.lor (Z.shiftl 1 30) (Z.shiftl size 16)) (Z.shiftl DRM_TYPE 8)) number.

(** The numbers the kernel knows them by. *)
Definition request_number (r : DrmRequest) : Z :=
  let read_write := request_read_write (argument_size r) in
  match r with
  | GET_CAP => read_write 0x0c
  | SET_CLIENT_CAP => request_write (argument_size r) 0x0d
  | SET_MASTER => request_none 0x1e
  | DROP_MASTER => request_none 0x1f
  | MODE_GETRESOURCES => read_write 0xa0
  | MODE_SETCRTC => read_write 0xa2
  | MODE_GETENCODER => read_write 0xa6
  | MODE_GETCONNECTOR => read_write 0xa7
  | MODE_GETPROPERTY => read_write 0xaa
  | MODE_RMFB => read_write 0xaf
  | MODE_CREATE_DUMB => read_write 0xb2
  | MODE_MAP_DUMB => read_write 0xb3
  | MODE_DESTROY_DUMB => read_write 0xb4
  | MODE_ADDFB2 => read_write 0xb8
  | MODE_PAGE_FLIP => read_write 0xb0
  | MODE_GETPLANERESOURCES => read_write 0xb5
  | MODE_GETPLANE => read_write 0xb6
  | MODE_OBJ_GETPROPERTIES => read_write 0xb9
  | MODE_ATOMIC => read_write 0xbc
  | MODE_CREATEPROPBLOB => read_write 0xbd
  | MODE_DESTROYPROPBLOB => read_write 0xbe
  end.
