(* ===== verification/Drm.v ===== *)
(** Scanout over the kernel's interface ([atria-drm/src/backend/ioctl/{device,buffer,present}.rs],
    [atria-drm/src/sink.rs]): the device opened and its resources chosen, two buffers allocated and mapped,
    frames copied and flipped, and all of it given back. *)
From S2P Require Import Prelude.
From S2P Require Import Vocabulary.
From S2P Require Import Model.
From S2P Require Import Wire.
From S2P Require Import Pixels.
From S2P Require Import Compose.
From S2P Require Import Nodes.
From S2P Require Import Kms.

(** * The kernel, as the calls the backend makes of it

    Each call answers from, and leaves, a state [K] of the outside. A request answers with its result and
    the memory it was asked with, as it was left; a mapping with its address and what the memory holds. *)
Class DrmKernel (K : Type) := {
  DrmFile : Type;
  drm_open : list byte → K → result (option Z) DrmFile * K;
  drm_close : DrmFile → K → K;
  drm_request : ∀ r : DrmRequest, DrmFile → argument r → K → Z * argument r * K;
  drm_map : DrmFile → Z → Z → K → Z * list byte * K;
  drm_unmap : Z → Z → K → K;
  drm_read : DrmFile → Z → K → result (option Z) (list byte) * K;
  drm_last_error : K → option Z;
  MAP_FAILED : Z;
  DRM_EIO : Z; DRM_ENOENT : Z; DRM_EINVAL : Z; DRM_EOPNOTSUPP : Z; DRM_EFAULT : Z; DRM_EACCES : Z; DRM_EBUSY : Z;
}.

(** * Devices, without the kernel ([device.rs]) *)

Definition ENUMERATION_ATTEMPTS : nat := 4.

Record DeviceConfig := MkDeviceConfig { dg_card_index : Z; dg_connector_id : option Z; dg_mode : ModeSelection }.

Record Connector := MkConnector {
  cn_id : Z; cn_encoder_id : Z; cn_encoder_ids : list Z; cn_modes : list Mode; cn_connected : bool;
  cn_raw_modes : list ModeInfo;
}.

Record Encoder := MkEncoder { en_id : Z; en_crtc_id : Z; en_possible_crtcs : Z }.

Record ResourceSnapshot := MkResourceSnapshot {
  rs_connectors : list Connector; rs_encoders : list Encoder; rs_crtc_ids : list Z;
}.

Definition card_prefix : list byte := (String.list_byte_of_string "/dev/dri/card")%string.
Definition card_path (card_index : Z) : list byte * Z := numbered_path card_prefix card_index.

Definition choose_connector (connectors : list Connector) (requested : option Z) : result DrmError nat :=
  match requested with
  | Some id => ok_or (position (λ connector, (cn_id connector =? id) && cn_connected connector) connectors)
                 (RequestedConnectorUnavailable id)
  | None => ok_or (position cn_connected connectors) NoConnectedConnector
  end.

(** [connectors[index]], for an index that is known to be one. *)
Definition connector_at (connectors : list Connector) (index : nat) : Connector :=
  default (MkConnector 0 0 [] [] false []) (connectors !! index).

(** [slice.contains(&id)]. *)
Definition contains_id (ids : list Z) (id : Z) : bool := existsb (Z.eqb id) ids.

(** [1_u32.checked_shl(index)]. *)
Definition checked_bit (index : nat) : option Z := if (index <? 32)%nat then Some (Z.shiftl 1 (Z.of_nat index)) else None.

(** The CRTC of an index on, among those that are left, that an encoder may drive. *)
Fixpoint possible_crtc (encoder : Encoder) (index : nat) (crtc_ids : list Z) : option Z :=
  match crtc_ids with
  | [] => None
  | crtc_id :: rest =>
      if negb (Z.land (en_possible_crtcs encoder) (default 0 (checked_bit index)) =? 0) then Some crtc_id
      else possible_crtc encoder (S index) rest
  end.

(** The first of the encoders that has a CRTC, and which. *)
Fixpoint encoder_crtc (encoders : list Encoder) (crtc_ids : list Z) : option Z :=
  match encoders with
  | [] => None
  | encoder :: rest =>
      if negb (en_crtc_id encoder =? 0) && contains_id crtc_ids (en_crtc_id encoder) then Some (en_crtc_id encoder)
      else match possible_crtc encoder 0 crtc_ids with
           | Some crtc_id => Some crtc_id
           | None => encoder_crtc rest crtc_ids
           end
  end.

(** The connector's current encoder, then the others it may use. *)
Definition candidate_encoders (resources : ResourceSnapshot) (connector : Connector) : list Encoder :=
  let current := List.find (λ encoder, en_id encoder =? cn_encoder_id connector) (rs_encoders resources) in
  option_list current ++
  List.filter (λ encoder, contains_id (cn_encoder_ids connector) (en_id encoder) &&
                          negb (bool_decide (Some (en_id encoder) = en_id <$> current))) (rs_encoders resources).

Definition choose_crtc (resources : ResourceSnapshot) (connector_index : nat) : result DrmError Z :=
  let connector := connector_at (rs_connectors resources) connector_index in
  match encoder_crtc (candidate_encoders resources connector) (rs_crtc_ids resources) with
  | Some crtc_id => Ok crtc_id
  | None => match cn_encoder_ids connector with
            | [] => Err (ConnectorHasNoEncoder (cn_id connector))
            | _ => Err (NoCompatibleCrtc (cn_id connector))
            end
  end.

(** * Flip events and properties, without the kernel ([present.rs]) *)

Definition PLANE_TYPE_PRIMARY : Z := 1.
Definition FLIP_USER_DATA : Z := 0x4154524941464c50.

(** The loop of [contains_flip_event]. An event is at least eight bytes, so as much fuel as there are
    bytes is enough. *)
Fixpoint flip_event_from (fuel : nat) (offset : Z) (bytes : list byte) : result DrmError bool :=
  match fuel with
  | O => Ok false
  | S fuel =>
      if negb (offset <? len bytes) then Ok false
      else
        header_end ← ok_or (checked_add usize_max offset 8) InvalidFlipEvent;
        header ← ok_or (get_range bytes offset header_end) InvalidFlipEvent;
        let event_type := u_from_le_bytes (slice header 0 4) in
        let length := u_from_le_bytes (slice header 4 8) in
        if length <? 8 then Err InvalidFlipEvent
        else
          end_ ← ok_or (checked_add usize_max offset length) InvalidFlipEvent;
          event ← ok_or (get_range bytes offset end_) InvalidFlipEvent;
          found ← (if event_type =? EVENT_FLIP_COMPLETE then
                     user_data ← ok_or (get_range event 8 16) InvalidFlipEvent;
                     Ok (u_from_le_bytes user_data =? FLIP_USER_DATA)
                   else Ok false);
          if (found : bool) then Ok true else flip_event_from fuel end_ bytes
  end.

Definition contains_flip_event (bytes : list byte) : result DrmError bool :=
  flip_event_from (S (length bytes)) 0 bytes.

Record Property := MkProperty { py_id : Z; py_value : Z; py_name : list byte }.

Definition property_name (property : Property) (expected : list byte) : bool :=
  bool_decide (take (length expected) (py_name property) = expected) &&
  match py_name property !! length expected with Some b => byte_val b =? 0 | None => false end.

(** The names asked for, as the source spells them. *)
Definition named (name : string) : list byte := String.list_byte_of_string name.

Definition property_label (name : string) : string :=
  if existsb (String.eqb name)
       ["CRTC_ID"; "MODE_ID"; "ACTIVE"; "FB_ID"; "SRC_X"; "SRC_Y"; "SRC_W"; "SRC_H";
        "CRTC_X"; "CRTC_Y"; "CRTC_W"; "CRTC_H"]
  then name else "unknown".

Definition required_property (properties : list Property) (object_id : Z) (name : string) : result DrmError Z :=
  ok_or (py_id <$> List.find (λ property, property_name property (named name)) properties)
        (MissingAtomicProperty object_id (property_label name)).

Record AtomicState := MkAtomicState { as_plane_id : Z; as_plane_fb_id : Z; as_mode_blob_id : Z }.

Inductive PresentationPath := Uninitialized | Legacy | Atomic (state : AtomicState).

Record InitialAtomicProperties := MkInitialAtomicProperties {
  ip_connector_crtc_id : Z; ip_crtc_mode_id : Z; ip_crtc_active : Z; ip_plane_fb_id : Z; ip_plane_crtc_id : Z;
  ip_plane_src_x : Z; ip_plane_src_y : Z; ip_plane_src_w : Z; ip_plane_src_h : Z;
  ip_plane_crtc_x : Z; ip_plane_crtc_y : Z; ip_plane_crtc_w : Z; ip_plane_crtc_h : Z;
}.

Record Plane := MkPlane { pl_possible_crtcs : Z; pl_formats : list Z }.

(** A buffer: its mapping is an address and the memory behind it. *)
Record ScanoutBuffer := MkScanoutBuffer {
  sb_handle : Z; sb_framebuffer_id : Z; sb_pitch : Z; sb_size : Z; sb_mapping : Z; sb_memory : list byte;
}.

Definition set_sb_memory (memory : list byte) (self : ScanoutBuffer) : ScanoutBuffer :=
  MkScanoutBuffer (sb_handle self) (sb_framebuffer_id self) (sb_pitch self) (sb_size self) (sb_mapping self) memory.

(** [destination.get_mut(a..b)] and [copy_from_slice], for as many bytes as the range has. *)
Definition write_row (a b : Z) (bytes : list byte) : ST (list byte) DrmError unit := λ destination,
  match get_range destination a b with
  | Some _ => (Ok tt, put_range destination a bytes)
  | None => (Err FrameBufferTooSmall, destination)
  end.

(** One row of [copy_frame]. *)
Definition copy_row (bytes : list byte) (source_stride destination_stride row_bytes row : Z)
    : ST (list byte) DrmError unit :=
  source_start ← lift (ok_or (checked_mul usize_max row source_stride) GeometryArithmeticOverflow);
  source_end ← lift (ok_or (checked_add usize_max source_start row_bytes) GeometryArithmeticOverflow);
  destination_start ← lift (ok_or (checked_mul usize_max row destination_stride) GeometryArithmeticOverflow);
  destination_end ← lift (ok_or (checked_add usize_max destination_start row_bytes) GeometryArithmeticOverflow);
  source ← lift (ok_or (get_range bytes source_start source_end) FrameBufferTooSmall);
  write_row destination_start destination_end source.

Definition copy_frame (frame : PixelFrame) (mode : Mode) (layout : PixelLayout)
    : ST ScanoutBuffer DrmError unit := λ buffer,
  let size := pf_size frame in
  if negb (size_width size =? md_width mode) || negb (size_height size =? md_height mode)
  then (Err (FrameSizeMismatch (size_width size) (size_height size) (md_width mode) (md_height mode)), buffer)
  else if negb (bool_decide (pf_layout frame = layout))
  then (Err (FrameLayoutMismatch (bytes_per_pixel layout) (bytes_per_pixel (pf_layout frame))), buffer)
  else
    match checked_mul u64_max (size_width size) (bytes_per_pixel layout) with
    | None => (Err GeometryArithmeticOverflow, buffer)
    | Some row_bytes =>
        let '(r, memory) := for_rows (Z.to_nat (size_height size)) 0
          (copy_row (pf_bytes frame) (pf_stride frame) (sb_pitch buffer) row_bytes) (sb_memory buffer) in
        (r, set_sb_memory memory buffer)
    end.

(** * The device *)

Section Drm.
Context {K : Type} {DK : DrmKernel K}.

Definition drm_errno (k : K) : Z := default DRM_EIO (drm_last_error k).

(** [ioctl]: what the request left of its argument. *)
Definition drm_ioctl (file : DrmFile) (r : DrmRequest) (a : argument r) : ST K Z (argument r) := λ k,
  let '(answer, a, k) := drm_request r file a k in
  if answer =? -1 then (Err (drm_errno k), k) else (Ok a, k).

(** [let _ = ioctl(..)]. *)
Definition ignored {A} (m : ST K Z A) : K → K := λ k, (m k).2.

(** [for _ in 0..n], where a round that found nothing steady leaves the next one to. *)
Fixpoint attempts {A} (n : nat) (round : ST K DrmError (option A)) : ST K DrmError A :=
  match n with
  | O => throw ResourcesChanged
  | S n =>
      found ← round;
      match found with
      | Some a => mret a
      | None => attempts n round
      end
  end.

(** [ids.map(f).collect::<Result<Vec<_>, _>>()]. *)
Fixpoint collect {A B} (f : A → ST K DrmError B) (l : list A) : ST K DrmError (list B) :=
  match l with
  | [] => mret []
  | a :: rest => b ← f a; others ← collect f rest; mret (b :: others)
  end.

Definition get_capability (file : DrmFile) (capability : Z) : ST K DrmError Z :=
  query ← ST_map_err (GetCapability capability) (drm_ioctl file GET_CAP (MkGetCap capability 0));
  mret (gc_value query).

Definition enable_atomic (file : DrmFile) : ST K DrmError bool := λ k,
  match drm_ioctl file SET_CLIENT_CAP (MkSetClientCap CLIENT_CAP_ATOMIC 1) k with
  | (Ok _, k) => (Ok true, k)
  | (Err errno, k) =>
      if (errno =? DRM_EOPNOTSUPP) || (errno =? DRM_EINVAL) then (Ok false, k)
      else (Err (EnableAtomicClient errno), k)
  end.

Definition query_connector (file : DrmFile) (connector_id : Z) : ST K DrmError Connector :=
  attempts ENUMERATION_ATTEMPTS (
    query ← ST_map_err (QueryConnector connector_id)
      (drm_ioctl file MODE_GETCONNECTOR (MkGetConnector [] [] [] [] 0 0 0 0 connector_id 0));
    let raw_modes := replicate (Z.to_nat (gn_count_modes query)) ModeInfo_default in
    let encoder_ids := replicate (Z.to_nat (gn_count_encoders query)) 0 in
    let property_ids := replicate (Z.to_nat (gn_count_props query)) 0 in
    let property_values := replicate (Z.to_nat (gn_count_props query)) 0 in
    query ← ST_map_err (QueryConnector connector_id)
      (drm_ioctl file MODE_GETCONNECTOR
        (MkGetConnector encoder_ids raw_modes property_ids property_values (gn_count_modes query)
           (gn_count_props query) (gn_count_encoders query) (gn_encoder_id query) (gn_connector_id query)
           (gn_connection query)));
    if (len raw_modes <? gn_count_modes query) || (len encoder_ids <? gn_count_encoders query) ||
       (len property_ids <? gn_count_props query)
    then mret None
    else
      let raw_modes := take (Z.to_nat (gn_count_modes query)) (written_over (gn_modes query) raw_modes) in
      let encoder_ids := take (Z.to_nat (gn_count_encoders query)) (written_over (gn_encoders query) encoder_ids) in
      let modes := map (λ mode, MkMode (mi_hdisplay mode) (mi_vdisplay mode) (mi_vrefresh mode) (mi_mode_type mode))
                     raw_modes in
      mret (Some (MkConnector connector_id (gn_encoder_id query) encoder_ids modes
                    (gn_connection query =? MODE_CONNECTED) raw_modes))).

Definition query_encoder (file : DrmFile) (encoder_id : Z) : ST K DrmError Encoder :=
  query ← ST_map_err (QueryEncoder encoder_id) (drm_ioctl file MODE_GETENCODER (MkGetEncoder encoder_id 0 0));
  mret (MkEncoder encoder_id (ge_crtc_id query) (ge_possible_crtcs query)).

Definition enumerate_resources (file : DrmFile) : ST K DrmError ResourceSnapshot :=
  attempts ENUMERATION_ATTEMPTS (
    query ← ST_map_err EnumerateResources (drm_ioctl file MODE_GETRESOURCES (MkCardResources [] [] [] 0 0 0));
    let crtc_ids := replicate (Z.to_nat (cr_count_crtcs query)) 0 in
    let connector_ids := replicate (Z.to_nat (cr_count_connectors query)) 0 in
    let encoder_ids := replicate (Z.to_nat (cr_count_encoders query)) 0 in
    query ← ST_map_err EnumerateResources
      (drm_ioctl file MODE_GETRESOURCES
        (MkCardResources crtc_ids connector_ids encoder_ids (cr_count_crtcs query) (cr_count_connectors query)
           (cr_count_encoders query)));
    if (len crtc_ids <? cr_count_crtcs query) || (len connector_ids <? cr_count_connectors query) ||
       (len encoder_ids <? cr_count_encoders query)
    then mret None
    else
      let crtc_ids := take (Z.to_nat (cr_count_crtcs query)) (written_over (cr_crtc_ids query) crtc_ids) in
      let connector_ids := take (Z.to_nat (cr_count_connectors query))
                             (written_over (cr_connector_ids query) connector_ids) in
      let encoder_ids := take (Z.to_nat (cr_count_encoders query))
                           (written_over (cr_encoder_ids query) encoder_ids) in
      connectors ← collect (query_connector file) connector_ids;
      encoders ← collect (query_encoder file) encoder_ids;
      mret (Some (MkResourceSnapshot connectors encoders crtc_ids))).

Record DrmDevice := MkDrmDevice {
  dv_file : DrmFile;
  dv_capabilities : DrmCapabilities;
  dv_resources : ResourceSnapshot;
  dv_connector_index : nat;
  dv_mode_index : nat;
  dv_crtc_id : Z;
  dv_master : bool;
}.

Definition connector (self : DrmDevice) : Connector :=
  connector_at (rs_connectors (dv_resources self)) (dv_connector_index self).
Definition device_mode (self : DrmDevice) : Mode :=
  default (MkMode 0 0 0 0) (cn_modes (connector self) !! dv_mode_index self).
Definition raw_mode (self : DrmDevice) : ModeInfo :=
  default ModeInfo_default (cn_raw_modes (connector self) !! dv_mode_index self).

Definition select_resources (file : DrmFile) (config : DeviceConfig)
    : ST K DrmError (DrmCapabilities * ResourceSnapshot * nat * nat * Z) :=
  dumb ← get_capability file CAP_DUMB_BUFFER;
  atomic_commit ← enable_atomic file;
  resources ← enumerate_resources file;
  connector_index ← lift (choose_connector (rs_connectors resources) (dg_connector_id config));
  mode_index ← lift (select_mode (cn_modes (connector_at (rs_connectors resources) connector_index)) (dg_mode config));
  crtc_id ← lift (choose_crtc resources connector_index);
  mret (MkDrmCapabilities (negb (dumb =? 0)) atomic_commit, resources, connector_index, mode_index, crtc_id).

(** A step that undoes what came before it when it fails: an early return, and what goes out of scope. *)
Definition or_undo {A} (undo : K → K) (m : ST K DrmError A) : ST K DrmError A := λ k,
  match m k with
  | (Ok a, k) => (Ok a, k)
  | (Err e, k) => (Err e, undo k)
  end.

(** The card's node opened. *)
Definition open_card (card_index : Z) : ST K DrmError DrmFile := λ k,
  let '(path, path_len) := card_path card_index in
  match drm_open (take (Z.to_nat path_len) path) k with
  | (Ok file, k) => (Ok file, k)
  | (Err (Some errno), k) => (Err (if errno =? DRM_ENOENT then DeviceAbsent card_index else OpenDevice errno), k)
  | (Err None, k) => (Err (OpenDevice DRM_EIO), k)
  end.

(** [DrmDevice::open]. *)
Definition DrmDevice_open (config : DeviceConfig) : ST K DrmError DrmDevice :=
  file ← open_card (dg_card_index config);
  or_undo (drm_close file) (
    _ ← ST_map_err SetMaster (drm_ioctl file SET_MASTER tt);
    '(capabilities, resources, connector_index, mode_index, crtc_id) ←
      or_undo (ignored (drm_ioctl file DROP_MASTER tt)) (select_resources file config);
    mret (MkDrmDevice file capabilities resources connector_index mode_index crtc_id true)).

(** [drop] of a device, and of the file in it. *)
Definition drop_device (self : DrmDevice) (k : K) : K :=
  drm_close (dv_file self) (if dv_master self then ignored (drm_ioctl (dv_file self) DROP_MASTER tt) k else k).

(** * Buffers ([buffer.rs]) *)

Record IoctlBackend := MkIoctlBackend {
  ib_device : DrmDevice;
  ib_buffers : ScanoutBuffer * ScanoutBuffer;
  ib_scanning_index : Z;
  ib_pending_index : option Z;
  ib_presentation : PresentationPath;
  ib_layout : PixelLayout;
}.

Definition set_ib_buffers (buffers : ScanoutBuffer * ScanoutBuffer) (self : IoctlBackend) : IoctlBackend :=
  MkIoctlBackend (ib_device self) buffers (ib_scanning_index self) (ib_pending_index self)
    (ib_presentation self) (ib_layout self).
Definition set_ib_scanning_index (index : Z) (self : IoctlBackend) : IoctlBackend :=
  MkIoctlBackend (ib_device self) (ib_buffers self) index (ib_pending_index self) (ib_presentation self)
    (ib_layout self).
Definition set_ib_pending_index (index : option Z) (self : IoctlBackend) : IoctlBackend :=
  MkIoctlBackend (ib_device self) (ib_buffers self) (ib_scanning_index self) index (ib_presentation self)
    (ib_layout self).
Definition set_ib_presentation (presentation : PresentationPath) (self : IoctlBackend) : IoctlBackend :=
  MkIoctlBackend (ib_device self) (ib_buffers self) (ib_scanning_index self) (ib_pending_index self)
    presentation (ib_layout self).

(** [buffers[index]], of the two there are. *)
Definition buffer_at (buffers : ScanoutBuffer * ScanoutBuffer) (index : Z) : ScanoutBuffer :=
  if index =? 0 then buffers.1 else buffers.2.
Definition put_buffer (index : Z) (buffer : ScanoutBuffer) (buffers : ScanoutBuffer * ScanoutBuffer)
    : ScanoutBuffer * ScanoutBuffer :=
  if index =? 0 then (buffer, buffers.2) else (buffers.1, buffer).

Definition unmap (mapping size : Z) (k : K) : K := drm_unmap mapping size k.

(** The end of [allocate_after_create]: the buffer mapped, and made a framebuffer. *)
Definition map_buffer (file : DrmFile) (format : DrmFormat) (buffer_index : nat) (create : CreateDumb)
    (size offset : Z) : ST K DrmError ScanoutBuffer := λ k,
  let '(mapped, memory, k) := drm_map file size offset k in
  if mapped =? MAP_FAILED then (Err (MapMemory buffer_index (drm_errno k)), k)
  else if mapped =? 0 then (Err (MapMemory buffer_index DRM_EFAULT), drm_unmap mapped size k)
  else
    match drm_ioctl file MODE_ADDFB2
      (MkFramebuffer 0 (cd_width create) (cd_height create) (DrmFormat_fourcc format) 0
         [cd_handle create; 0; 0; 0] [cd_pitch create; 0; 0; 0] [0; 0; 0; 0] [0; 0; 0; 0]) k with
    | (Err errno, k) => (Err (AddFramebuffer buffer_index errno), unmap mapped size k)
    | (Ok framebuffer, k) =>
        (Ok (MkScanoutBuffer (cd_handle create) (fb_id framebuffer) (cd_pitch create) size mapped
               (written_over memory (zeroes size))), k)
    end.

Definition allocate_after_create (file : DrmFile) (layout : PixelLayout) (format : DrmFormat)
    (buffer_index : nat) (create : CreateDumb) : ST K DrmError ScanoutBuffer :=
  geometry ← lift (buffer_geometry (cd_width create) (cd_height create) (bytes_per_pixel layout)
                     (cd_pitch create) (cd_size create));
  size ← lift (ok_or (try_from usize_max (bg_size geometry)) GeometryArithmeticOverflow);
  map ← ST_map_err (MapDumbBuffer buffer_index)
          (drm_ioctl file MODE_MAP_DUMB (MkMapDumb (cd_handle create) 0));
  offset ← lift (ok_or (try_from i64_max (mp_offset map)) (MappingOffsetOutOfRange buffer_index (mp_offset map)));
  map_buffer file format buffer_index create size offset.

Definition allocate_buffer (device : DrmDevice) (layout : PixelLayout) (buffer_index : nat)
    : ST K DrmError ScanoutBuffer :=
  let mode := device_mode device in
  format ← lift (drm_format layout);
  let width := md_width mode in
  let height := md_height mode in
  bpp ← lift (ok_or (checked_mul u32_max (bytes_per_pixel layout) 8) GeometryArithmeticOverflow);
  create ← ST_map_err (CreateDumbBuffer buffer_index)
    (drm_ioctl (dv_file device) MODE_CREATE_DUMB (MkCreateDumb height width bpp 0 0 0 0));
  or_undo (ignored (drm_ioctl (dv_file device) MODE_DESTROY_DUMB (MkDestroyDumb (cd_handle create))))
    (allocate_after_create (dv_file device) layout format buffer_index create).

Definition teardown_buffer (file : DrmFile) (buffer : ScanoutBuffer) (k : K) : K :=
  let k := ignored (drm_ioctl file MODE_RMFB (sb_framebuffer_id buffer)) k in
  let k := ignored (drm_ioctl file MODE_DESTROY_DUMB (MkDestroyDumb (sb_handle buffer))) k in
  unmap (sb_mapping buffer) (sb_size buffer) k.

Definition destroy_mode_blob (file : DrmFile) (path : PresentationPath) (k : K) : K :=
  match path with
  | Atomic state => ignored (drm_ioctl file MODE_DESTROYPROPBLOB (MkDestroyBlob (as_mode_blob_id state))) k
  | _ => k
  end.

(** [drop] of a backend, and of the device in it. *)
Definition drop_backend (self : IoctlBackend) (k : K) : K :=
  let file := dv_file (ib_device self) in
  let buffers := [(ib_buffers self).1; (ib_buffers self).2] in
  let k := destroy_mode_blob file (ib_presentation self) k in
  let k := foldl (λ k buffer, ignored (drm_ioctl file MODE_RMFB (sb_framebuffer_id buffer)) k) k buffers in
  let k := foldl (λ k buffer, ignored (drm_ioctl file MODE_DESTROY_DUMB (MkDestroyDumb (sb_handle buffer))) k)
             k buffers in
  let k := foldl (λ k buffer, unmap (sb_mapping buffer) (sb_size buffer) k) k buffers in
  drop_device (ib_device self) k.

(** * Presentation ([present.rs]) *)

Definition access_error (otherwise : Z → DrmError) (errno : Z) : DrmError :=
  if errno =? DRM_EACCES then DisplayAccessLost errno
  else if errno =? DRM_EBUSY then DisplayBusy errno
  else otherwise errno.

Definition initial_modeset_error : Z → DrmError := access_error InitialModeset.
Definition atomic_commit_error : Z → DrmError := access_error AtomicCommitFailed.
Definition page_flip_error : Z → DrmError := access_error PageFlipFailed.
Definition test_commit_error : Z → DrmError := access_error AtomicTestFailed.

Definition plane_ids (file : DrmFile) : ST K DrmError (list Z) :=
  attempts ENUMERATION_ATTEMPTS (
    query ← ST_map_err EnumeratePlanes (drm_ioctl file MODE_GETPLANERESOURCES (MkPlaneResources [] 0));
    let ids := replicate (Z.to_nat (pr_count_planes query)) 0 in
    query ← ST_map_err EnumeratePlanes
      (drm_ioctl file MODE_GETPLANERESOURCES (MkPlaneResources ids (pr_count_planes query)));
    if pr_count_planes query <=? len ids
    then mret (Some (take (Z.to_nat (pr_count_planes query)) (written_over (pr_plane_ids query) ids)))
    else mret None).

Definition query_plane (file : DrmFile) (plane_id : Z) : ST K DrmError Plane :=
  attempts ENUMERATION_ATTEMPTS (
    query ← ST_map_err (QueryPlane plane_id) (drm_ioctl file MODE_GETPLANE (MkGetPlane plane_id 0 0 []));
    let formats := replicate (Z.to_nat (gp_count_format_types query)) 0 in
    query ← ST_map_err (QueryPlane plane_id)
      (drm_ioctl file MODE_GETPLANE
        (MkGetPlane (gp_plane_id query) (gp_possible_crtcs query) (gp_count_format_types query) formats));
    if gp_count_format_types query <=? len formats
    then mret (Some (MkPlane (gp_possible_crtcs query)
                       (take (Z.to_nat (gp_count_format_types query)) (written_over (gp_format_types query) formats))))
    else mret None).

Definition query_property (file : DrmFile) (id_value : Z * Z) : ST K DrmError Property :=
  property ← ST_map_err (QueryProperty id_value.1) (drm_ioctl file MODE_GETPROPERTY (MkGetProperty id_value.1 no_name));
  mret (MkProperty id_value.1 id_value.2 (gy_name property)).

Definition object_properties (file : DrmFile) (object_id object_type : Z) : ST K DrmError (list Property) :=
  attempts ENUMERATION_ATTEMPTS (
    query ← ST_map_err (QueryObjectProperties object_id)
      (drm_ioctl file MODE_OBJ_GETPROPERTIES (MkObjectProperties [] [] 0 object_id object_type));
    let ids := replicate (Z.to_nat (op_count_props query)) 0 in
    let values := replicate (Z.to_nat (op_count_props query)) 0 in
    query ← ST_map_err (QueryObjectProperties object_id)
      (drm_ioctl file MODE_OBJ_GETPROPERTIES
        (MkObjectProperties ids values (op_count_props query) (op_obj_id query) (op_obj_type query)));
    if len ids <? op_count_props query then mret None
    else
      let ids := take (Z.to_nat (op_count_props query)) (written_over (op_props query) ids) in
      let values := take (Z.to_nat (op_count_props query)) (written_over (op_prop_values query) values) in
      properties ← collect (query_property file) (zip ids values);
      mret (Some properties)).

(** The loop of [find_primary_plane] over the planes that are left. *)
Fixpoint primary_among (file : DrmFile) (crtc_mask : Z) (format : DrmFormat) (ids : list Z)
    : ST K DrmError Z :=
  match ids with
  | [] => throw NoPrimaryPlane
  | plane_id :: rest =>
      plane ← query_plane file plane_id;
      if (Z.land (pl_possible_crtcs plane) crtc_mask =? 0) ||
         negb (contains_id (pl_formats plane) (DrmFormat_fourcc format))
      then primary_among file crtc_mask format rest
      else
        properties ← object_properties file plane_id MODE_OBJECT_PLANE;
        if existsb (λ property, property_name property (named "type") && (py_value property =? PLANE_TYPE_PRIMARY))
             properties
        then mret plane_id
        else primary_among file crtc_mask format rest
  end.

Definition find_primary_plane (sink : IoctlBackend) (format : DrmFormat) : ST K DrmError Z :=
  let device := ib_device sink in
  crtc_index ← lift (ok_or (position (Z.eqb (dv_crtc_id device)) (rs_crtc_ids (dv_resources device))) NoPrimaryPlane);
  crtc_mask ← lift (ok_or (checked_bit crtc_index) NoPrimaryPlane);
  ids ← plane_ids (dv_file device);
  primary_among (dv_file device) crtc_mask format ids.

Definition initial_atomic_properties (sink : IoctlBackend) (plane_id : Z)
    : ST K DrmError InitialAtomicProperties :=
  let device := ib_device sink in
  let connector_id := cn_id (connector device) in
  connector ← object_properties (dv_file device) connector_id MODE_OBJECT_CONNECTOR;
  crtc ← object_properties (dv_file device) (dv_crtc_id device) MODE_OBJECT_CRTC;
  plane ← object_properties (dv_file device) plane_id MODE_OBJECT_PLANE;
  lift (
    connector_crtc_id ← required_property connector connector_id "CRTC_ID";
    crtc_mode_id ← required_property crtc (dv_crtc_id device) "MODE_ID";
    crtc_active ← required_property crtc (dv_crtc_id device) "ACTIVE";
    plane_fb_id ← required_property plane plane_id "FB_ID";
    plane_crtc_id ← required_property plane plane_id "CRTC_ID";
    plane_src_x ← required_property plane plane_id "SRC_X";
    plane_src_y ← required_property plane plane_id "SRC_Y";
    plane_src_w ← required_property plane plane_id "SRC_W";
    plane_src_h ← required_property plane plane_id "SRC_H";
    plane_crtc_x ← required_property plane plane_id "CRTC_X";
    plane_crtc_y ← required_property plane plane_id "CRTC_Y";
    plane_crtc_w ← required_property plane plane_id "CRTC_W";
    plane_crtc_h ← required_property plane plane_id "CRTC_H";
    mret (MkInitialAtomicProperties connector_crtc_id crtc_mode_id crtc_active plane_fb_id plane_crtc_id
            plane_src_x plane_src_y plane_src_w plane_src_h plane_crtc_x plane_crtc_y plane_crtc_w
            plane_crtc_h)).

Definition set_ac_flags (flags : Z) (self : AtomicCommit) : AtomicCommit :=
  MkAtomicCommit flags (ac_count_objs self) (ac_objs self) (ac_count_props self) (ac_props self)
    (ac_prop_values self) (ac_reserved self) (ac_user_data self).

(** A commit tried first, and then made with other flags. *)
Definition commit_tested (file : DrmFile) (commit : AtomicCommit) (flags : Z) : ST K DrmError unit :=
  commit ← ST_map_err test_commit_error (drm_ioctl file MODE_ATOMIC commit);
  _ ← ST_map_err atomic_commit_error (drm_ioctl file MODE_ATOMIC (set_ac_flags flags commit));
  mret tt.

(** [u64::from(v).checked_shl(16)]. *)
Definition shl_16 (v : Z) : Z := Z.shiftl v 16 mod (u64_max + 1).

Definition commit_initial_atomic (sink : IoctlBackend) (plane_id : Z) (properties : InitialAtomicProperties)
    (mode_blob_id : Z) : ST K DrmError unit :=
  let device := ib_device sink in
  let mode := device_mode device in
  let objects := [cn_id (connector device); dv_crtc_id device; plane_id] in
  let counts := [1; 2; 10] in
  let property_ids :=
    [ip_connector_crtc_id properties; ip_crtc_mode_id properties; ip_crtc_active properties;
     ip_plane_fb_id properties; ip_plane_crtc_id properties;
     ip_plane_src_x properties; ip_plane_src_y properties; ip_plane_src_w properties; ip_plane_src_h properties;
     ip_plane_crtc_x properties; ip_plane_crtc_y properties; ip_plane_crtc_w properties;
     ip_plane_crtc_h properties] in
  let values :=
    [dv_crtc_id device; mode_blob_id; 1; sb_framebuffer_id (buffer_at (ib_buffers sink) 0); dv_crtc_id device;
     0; 0; shl_16 (md_width mode); shl_16 (md_height mode); 0; 0; md_width mode; md_height mode] in
  commit_tested (dv_file device)
    (MkAtomicCommit (Z.lor MODE_ATOMIC_TEST_ONLY MODE_ATOMIC_ALLOW_MODESET) 3 objects counts property_ids values 0 0)
    MODE_ATOMIC_ALLOW_MODESET.

Definition MODE_INFO_SIZE : Z := 68.

Definition initialize_atomic : ST (K * IoctlBackend) DrmError unit := λ '(k, sink),
  let file := dv_file (ib_device sink) in
  let '(r, k) :=
    (format ← lift (drm_format (ib_layout sink));
     plane_id ← find_primary_plane sink format;
     properties ← initial_atomic_properties sink plane_id;
     blob ← ST_map_err CreateModeBlob
       (drm_ioctl file MODE_CREATEPROPBLOB (MkCreateBlob (raw_mode (ib_device sink)) MODE_INFO_SIZE 0));
     _ ← or_undo (ignored (drm_ioctl file MODE_DESTROYPROPBLOB (MkDestroyBlob (cb_blob_id blob))))
           (commit_initial_atomic sink plane_id properties (cb_blob_id blob));
     mret (MkAtomicState plane_id (ip_plane_fb_id properties) (cb_blob_id blob))) k in
  match r with
  | Ok state => (Ok tt, (k, set_ib_presentation (Atomic state) sink))
  | Err error => (Err error, (k, sink))
  end.

Definition initialize_legacy : ST (K * IoctlBackend) DrmError unit := λ '(k, sink),
  let device := ib_device sink in
  let modeset := MkModeCrtc [cn_id (connector device)] 1 (dv_crtc_id device)
    (sb_framebuffer_id (buffer_at (ib_buffers sink) 0)) 0 0 0 1 (raw_mode device) in
  match ST_map_err initial_modeset_error (drm_ioctl (dv_file device) MODE_SETCRTC modeset) k with
  | (Ok _, k) => (Ok tt, (k, set_ib_presentation Legacy sink))
  | (Err error, k) => (Err error, (k, sink))
  end.

Definition initialize_display : ST (K * IoctlBackend) DrmError unit := λ s,
  if dc_atomic_commit (dv_capabilities (ib_device s.2)) then initialize_atomic s else initialize_legacy s.

(** The display set up for a backend that goes when that fails. *)
Definition display_or_drop (sink : IoctlBackend) : ST K DrmError IoctlBackend := λ k,
  match initialize_display (k, sink) with
  | (Ok _, (k, sink)) => (Ok sink, k)
  | (Err error, (k, sink)) => (Err error, drop_backend sink k)
  end.

(** [IoctlBackend::open]. *)
Definition IoctlBackend_open (config : DeviceConfig) (layout : PixelLayout) : ST K DrmError IoctlBackend :=
  device ← DrmDevice_open config;
  if negb (dc_dumb_buffers (dv_capabilities device))
  then or_undo (drop_device device) (throw DumbBuffersUnavailable)
  else
    first ← or_undo (drop_device device) (allocate_buffer device layout 0);
    second ← or_undo (λ k, drop_device device (teardown_buffer (dv_file device) first k))
               (allocate_buffer device layout 1);
    display_or_drop (MkIoctlBackend device (first, second) 0 None Uninitialized layout).

Definition atomic_flip (sink : IoctlBackend) (state : AtomicState) (target : Z) : ST K DrmError unit :=
  commit_tested (dv_file (ib_device sink))
    (MkAtomicCommit MODE_ATOMIC_TEST_ONLY 1 [as_plane_id state] [1] [as_plane_fb_id state]
       [sb_framebuffer_id (buffer_at (ib_buffers sink) target)] 0 FLIP_USER_DATA)
    (Z.lor MODE_PAGE_FLIP_EVENT MODE_ATOMIC_NONBLOCK).

Definition legacy_flip (sink : IoctlBackend) (target : Z) : ST K DrmError unit :=
  _ ← ST_map_err page_flip_error
    (drm_ioctl (dv_file (ib_device sink)) MODE_PAGE_FLIP
      (MkPageFlip (dv_crtc_id (ib_device sink)) (sb_framebuffer_id (buffer_at (ib_buffers sink) target))
         MODE_PAGE_FLIP_EVENT 0 FLIP_USER_DATA));
  mret tt.

(** The flip, by the path the display was set up with. *)
Definition flip (sink : IoctlBackend) (target : Z) : ST K DrmError unit :=
  match ib_presentation sink with
  | Atomic state => atomic_flip sink state target
  | Legacy => legacy_flip sink target
  | Uninitialized => throw InvalidFlipEvent
  end.

(** [IoctlBackend::present]. *)
Definition backend_present (frame : PixelFrame) (report : FrameReport)
    : ST (K * IoctlBackend) DrmError unit := λ '(k, self),
  match ib_pending_index self with
  | Some _ => (Err FlipPending, (k, self))
  | None =>
      let target := next_buffer_index (ib_scanning_index self) in
      let mode := device_mode (ib_device self) in
      match copy_frame frame mode (ib_layout self) (buffer_at (ib_buffers self) target) with
      | (Err error, buffer) => (Err error, (k, set_ib_buffers (put_buffer target buffer (ib_buffers self)) self))
      | (Ok _, buffer) =>
          let self := set_ib_buffers (put_buffer target buffer (ib_buffers self)) self in
          match flip self target k with
          | (Err error, k) => (Err error, (k, self))
          | (Ok _, k) => (Ok tt, (k, set_ib_pending_index (Some target) self))
          end
      end
  end.

(** [IoctlBackend::complete_flip]. *)
Definition complete_flip : ST (K * IoctlBackend) DrmError unit := λ '(k, self),
  match ib_pending_index self with
  | None => (Err FlipEventMissing, (k, self))
  | Some target =>
      match drm_read (dv_file (ib_device self)) 4096 k with
      | (Err errno, k) => (Err (ReadFlipEvent (default DRM_EIO errno)), (k, self))
      | (Ok bytes, k) =>
          match contains_flip_event (take 4096 bytes) with
          | Ok true => (Ok tt, (k, set_ib_pending_index None (set_ib_scanning_index target self)))
          | Ok false => (Err FlipEventMissing, (k, self))
          | Err error => (Err error, (k, self))
          end
      end
  end.

(** * The sink ([sink.rs]) *)

Record DrmSink := MkDrmSink { ds_backend : IoctlBackend; ds_capabilities : CapabilitySet; ds_layout : PixelLayout }.

Definition DrmSink_open (config : DeviceConfig) (layout : PixelLayout) : ST K DrmError DrmSink :=
  backend ← IoctlBackend_open config layout;
  mret (MkDrmSink backend (capability_set (dv_capabilities (ib_device backend))) layout).

Definition drm_sink_error (error : DrmError) : IoError :=
  match error with
  | FlipPending => IoWouldBlock
  | DisplayAccessLost errno | DisplayBusy errno | AtomicCommitFailed errno | PageFlipFailed errno
  | ReadFlipEvent errno => IoOs errno
  | _ => IoInvalidInput
  end.

Definition DrmSink_mode (self : DrmSink) : Mode := device_mode (ib_device (ds_backend self)).

(** A backend's step, within the sink. *)
Definition on_backend (m : ST (K * IoctlBackend) DrmError unit) : ST (K * DrmSink) DrmError unit := λ '(k, self),
  let '(r, (k, backend)) := m (k, ds_backend self) in
  (r, (k, MkDrmSink backend (ds_capabilities self) (ds_layout self))).

Definition DrmSink_present (frame : PixelFrame) (report : FrameReport) : ST (K * DrmSink) DrmError unit :=
  on_backend (backend_present frame report).
Definition DrmSink_complete_flip : ST (K * DrmSink) DrmError unit := on_backend complete_flip.

#[global] Instance DrmSink_sink : FrameSink IoError (K * DrmSink) := λ presented s,
  let '(r, s) := DrmSink_present (arc_frame (pd_frame presented)) (pd_report presented) s in
  (map_err drm_sink_error r, s).
End Drm.
