(* ===== verification/Owned.v ===== *)
(** What scanout takes from the kernel it gives back: the resources a process holds, and that opening a
    backend takes all of them or none, presenting takes nothing, and dropping gives back everything. *)
From S2P Require Import Prelude.
From S2P Require Import Vocabulary.
From S2P Require Import Model.
From S2P Require Import Pixels.
From S2P Require Import Compose.
From S2P Require Import Nodes.
From S2P Require Import Kms.
From S2P Require Import Drm.

(** * What a process holds *)

Record Holdings := MkHoldings {
  hd_files : Z; hd_master : bool;
  hd_dumb : gset Z; hd_framebuffers : gset Z; hd_blobs : gset Z; hd_mappings : gset Z;
}.

Definition add_files (n : Z) (h : Holdings) : Holdings :=
  MkHoldings (hd_files h + n) (hd_master h) (hd_dumb h) (hd_framebuffers h) (hd_blobs h) (hd_mappings h).
Definition set_hd_master (b : bool) (h : Holdings) : Holdings :=
  MkHoldings (hd_files h) b (hd_dumb h) (hd_framebuffers h) (hd_blobs h) (hd_mappings h).
Definition on_dumb (f : gset Z → gset Z) (h : Holdings) : Holdings :=
  MkHoldings (hd_files h) (hd_master h) (f (hd_dumb h)) (hd_framebuffers h) (hd_blobs h) (hd_mappings h).
Definition on_framebuffers (f : gset Z → gset Z) (h : Holdings) : Holdings :=
  MkHoldings (hd_files h) (hd_master h) (hd_dumb h) (f (hd_framebuffers h)) (hd_blobs h) (hd_mappings h).
Definition on_blobs (f : gset Z → gset Z) (h : Holdings) : Holdings :=
  MkHoldings (hd_files h) (hd_master h) (hd_dumb h) (hd_framebuffers h) (f (hd_blobs h)) (hd_mappings h).
Definition on_mappings (f : gset Z → gset Z) (h : Holdings) : Holdings :=
  MkHoldings (hd_files h) (hd_master h) (hd_dumb h) (hd_framebuffers h) (hd_blobs h) (f (hd_mappings h)).

Lemma holdings_eq h h' :
  hd_files h = hd_files h' → hd_master h = hd_master h' → hd_dumb h = hd_dumb h' →
  hd_framebuffers h = hd_framebuffers h' → hd_blobs h = hd_blobs h' → hd_mappings h = hd_mappings h' → h = h'.
Proof. destruct h, h'. cbn. by intros -> -> -> -> -> ->. Qed.

Definition with_id (id : Z) (ids : gset Z) : gset Z := {[id]} ∪ ids.
Definition without_id (id : Z) (ids : gset Z) : gset Z := ids ∖ {[id]}.

#[global] Arguments with_id : simpl never.
#[global] Arguments without_id : simpl never.

Lemma with_without id ids : id ∉ ids → without_id id (with_id id ids) = ids.
Proof. unfold with_id, without_id. set_solver. Qed.
Lemma without_with_ne id id' ids : id ≠ id' → without_id id (with_id id' ids) = with_id id' (without_id id ids).
Proof. unfold with_id, without_id. set_solver. Qed.

Lemma not_with_id id id' ids : id ∉ with_id id' ids → id' ≠ id ∧ id ∉ ids.
Proof. unfold with_id. set_solver. Qed.

(** What a request that ended well, or did not, does to the holdings: the requests that make something
    give it a name that is not taken, the others that are listed take something back, and the rest change
    nothing that is held. *)
Definition request_effect (r : DrmRequest) : argument r → argument r → bool → Holdings → Holdings → Prop :=
  match r return argument r → argument r → bool → Holdings → Holdings → Prop with
  | SET_MASTER => λ _ _ ok h h', h' = if ok then set_hd_master true h else h
  | DROP_MASTER => λ _ _ _ h h', h' = set_hd_master false h
  | MODE_CREATE_DUMB => λ _ a' ok h h',
      if ok then cd_handle a' ∉ hd_dumb h ∧ h' = on_dumb (with_id (cd_handle a')) h else h' = h
  | MODE_DESTROY_DUMB => λ a _ _ h h', h' = on_dumb (without_id (dd_handle a)) h
  | MODE_ADDFB2 => λ _ a' ok h h',
      if ok then fb_id a' ∉ hd_framebuffers h ∧ h' = on_framebuffers (with_id (fb_id a')) h else h' = h
  | MODE_RMFB => λ a _ _ h h', h' = on_framebuffers (without_id a) h
  | MODE_CREATEPROPBLOB => λ _ a' ok h h',
      if ok then cb_blob_id a' ∉ hd_blobs h ∧ h' = on_blobs (with_id (cb_blob_id a')) h else h' = h
  | MODE_DESTROYPROPBLOB => λ a _ _ h h', h' = on_blobs (without_id (db_blob_id a)) h
  | _ => λ _ _ _ h h', h' = h
  end.

(** A kernel that keeps such accounts. *)
Class DrmAccounts (K : Type) {DK : DrmKernel K} := {
  holdings : K → Holdings;
  request_accounted r file a k answer a' k' :
    drm_request r file a k = (answer, a', k') →
    request_effect r a a' (negb (answer =? -1)) (holdings k) (holdings k');
  open_accounted path k :
    match drm_open path k with
    | (Ok _, k') => holdings k' = add_files 1 (holdings k)
    | (Err _, k') => holdings k' = holdings k
    end;
  close_accounted file k : holdings (drm_close file k) = add_files (-1) (holdings k);
  map_accounted file size offset k :
    let '(address, _, k') := drm_map file size offset k in
    if address =? MAP_FAILED then holdings k' = holdings k
    else address ∉ hd_mappings (holdings k) ∧ holdings k' = on_mappings (with_id address) (holdings k);
  unmap_accounted address size k :
    holdings (drm_unmap address size k) = on_mappings (without_id address) (holdings k);
  read_accounted file n k : holdings (drm_read file n k).2 = holdings k;
}.

Section Owned.
Context {K : Type} {DK : DrmKernel K} {DA : DrmAccounts K}.

(** * Steps that change nothing that is held *)

Definition keeps {E A} (m : ST K E A) : Prop := ∀ k, holdings (m k).2 = holdings k.

Lemma keeps_ret {E A} (a : A) : keeps (mret a : ST K E A).
Proof. done. Qed.
Lemma keeps_throw {E A} (e : E) : keeps (throw e : ST K E A).
Proof. done. Qed.
Lemma keeps_lift {E A} (r : result E A) : keeps (lift r).
Proof. done. Qed.
Lemma keeps_bind {E A B} (m : ST K E A) (f : A → ST K E B) : keeps m → (∀ a, keeps (f a)) → keeps (m ≫= f).
Proof.
  intros Hm Hf k. rewrite ST_bind_run. specialize (Hm k). destruct (m k) as [[a|e] k1]; [|done].
  by rewrite Hf.
Qed.
Lemma keeps_map_err {E E' A} (f : E → E') (m : ST K E A) : keeps m → keeps (ST_map_err f m).
Proof. intros Hm k. unfold ST_map_err. specialize (Hm k). by destruct (m k) as [[a|e] k1]. Qed.
Lemma keeps_if {E A} (b : bool) (m n : ST K E A) : keeps m → keeps n → keeps (if b then m else n).
Proof. by destruct b. Qed.

Lemma keeps_attempts {A} n (round : ST K DrmError (option A)) : keeps round → keeps (attempts n round).
Proof.
  intros Hr. induction n as [|n IH]; [done|]. cbn [attempts]. apply keeps_bind; [done|]. by intros [a|].
Qed.
Lemma keeps_collect {A B} (f : A → ST K DrmError B) l : (∀ a, keeps (f a)) → keeps (collect f l).
Proof.
  intros Hf. induction l as [|a l IH]; [done|]. cbn [collect].
  apply keeps_bind; [done|]. intros b. by apply keeps_bind.
Qed.

(** The requests that make nothing and take nothing back. *)
Definition neutral (r : DrmRequest) : bool :=
  match r with
  | SET_MASTER | DROP_MASTER | MODE_CREATE_DUMB | MODE_DESTROY_DUMB | MODE_ADDFB2 | MODE_RMFB
  | MODE_CREATEPROPBLOB | MODE_DESTROYPROPBLOB => false
  | _ => true
  end.

Lemma keeps_ioctl file r a : neutral r = true → keeps (drm_ioctl file r a).
Proof.
  intros Hr k. unfold drm_ioctl. destruct (drm_request r file a k) as [[answer a'] k'] eqn:E.
  apply request_accounted in E. destruct (answer =? -1); by destruct r.
Qed.
End Owned.

Create HintDb keeps.
#[export] Hint Resolve keeps_ret keeps_throw keeps_lift keeps_bind keeps_map_err keeps_if keeps_attempts
  keeps_collect : keeps.
#[export] Hint Extern 1 (keeps (drm_ioctl _ _ _)) => apply keeps_ioctl; reflexivity : keeps.
#[export] Hint Extern 2 (keeps (match ?x with _ => _ end)) => destruct x : keeps.

(** Shows that a step keeps what is held, by its parts. *)
Ltac keeping := repeat (intros; first [eassumption | solve [eauto 2 with keeps nocore] | apply keeps_bind | apply keeps_attempts
  | apply keeps_collect | apply keeps_map_err | (apply keeps_ioctl; reflexivity) | apply keeps_if
  | match goal with |- keeps (match ?x with _ => _ end) => destruct x end | apply keeps_ret | apply keeps_throw | apply keeps_lift]).

Section Queries.
Context {K : Type} {DK : DrmKernel K} {DA : DrmAccounts K}.

Lemma keeps_enable_atomic file : keeps (enable_atomic file).
Proof.
  intros k. unfold enable_atomic.
  pose proof (keeps_ioctl file SET_CLIENT_CAP (MkSetClientCap CLIENT_CAP_ATOMIC 1) eq_refl k) as H.
  destruct (drm_ioctl _ _ _ k) as [[a|e] k1]; [done|]. by destruct (_ || _).
Qed.

Lemma keeps_select_resources file config : keeps (select_resources file config).
Proof.
  unfold select_resources, get_capability, enumerate_resources, query_connector, query_encoder.
  pose proof (keeps_enable_atomic file). keeping.
Qed.

Lemma keeps_object_properties file object_id object_type : keeps (object_properties file object_id object_type).
Proof. unfold object_properties, query_property. keeping. Qed.

Lemma keeps_primary_among file mask format ids : keeps (primary_among file mask format ids).
Proof.
  induction ids as [|id ids IH]; cbn [primary_among]; [keeping|]. unfold query_plane.
  pose proof (keeps_object_properties file). keeping.
Qed.

Lemma keeps_find_primary_plane sink format : keeps (find_primary_plane sink format).
Proof. unfold find_primary_plane, plane_ids. pose proof keeps_primary_among. keeping. Qed.

Lemma keeps_initial_atomic_properties sink plane_id : keeps (initial_atomic_properties sink plane_id).
Proof. unfold initial_atomic_properties. pose proof keeps_object_properties. keeping. Qed.

Lemma keeps_commit_tested file commit flags : keeps (commit_tested file commit flags).
Proof. unfold commit_tested. keeping. Qed.
End Queries.


(** * What is taken and given back *)

Section Accounts.
Context {K : Type} {DK : DrmKernel K} {DA : DrmAccounts K}.

(** From holdings of which [P] is so, a step ends well with holdings as [Q] says, and badly as [R] says. *)
Definition triple {E A} (P : Holdings → Prop) (m : ST K E A) (Q : A → Holdings → Prop) (R : Holdings → Prop)
    : Prop :=
  ∀ k, P (holdings k) → match m k with (Ok a, k') => Q a (holdings k') | (Err _, k') => R (holdings k') end.

Lemma triple_keeps {E A} P (m : ST K E A) : keeps m → triple P m (λ _, P) P.
Proof. intros Hm k Hk. specialize (Hm k). destruct (m k) as [[a|e] k']; cbn in Hm; by rewrite Hm. Qed.

Lemma triple_bind {E A B} P (m : ST K E A) (f : A → ST K E B) Q Q' R :
  triple P m Q R → (∀ a, triple (Q a) (f a) Q' R) → triple P (m ≫= f) Q' R.
Proof.
  intros Hm Hf k Hk. rewrite ST_bind_run. specialize (Hm k Hk). destruct (m k) as [[a|e] k1]; [|done].
  exact (Hf a k1 Hm).
Qed.

Lemma triple_after {E A B} P (m : ST K E A) (f : A → ST K E B) Q :
  keeps m → (∀ a, triple P (f a) Q P) → triple P (m ≫= f) Q P.
Proof. intros Hm Hf. exact (triple_bind _ _ _ _ _ _ (triple_keeps _ _ Hm) Hf). Qed.

Lemma triple_undo {A} P undo (m : ST K DrmError A) Q R R' :
  triple P m Q R' → (∀ k, R' (holdings k) → R (holdings (undo k))) → triple P (or_undo undo m) Q R.
Proof.
  intros Hm Hu k Hk. unfold or_undo. specialize (Hm k Hk). destruct (m k) as [[a|e] k1]; [done|].
  by apply Hu.
Qed.

Lemma triple_map_err {E E' A} (f : E → E') P (m : ST K E A) Q R : triple P m Q R → triple P (ST_map_err f m) Q R.
Proof. intros Hm k Hk. unfold ST_map_err. specialize (Hm k Hk). by destruct (m k) as [[a|e] k1]. Qed.

Lemma triple_ret {E A} (P : Holdings → Prop) (a : A) R : triple P (mret a : ST K E A) (λ _, P) R.
Proof. by intros k Hk. Qed.

Lemma triple_when {E A} (φ : Prop) h (m : ST K E A) Q R :
  (φ → triple (eq h) m Q R) → triple (λ h', φ ∧ h' = h) m Q R.
Proof. intros Hm k [Hφ Hk]. exact (Hm Hφ k (eq_sym Hk)). Qed.

(** A request, by what it does to the holdings. *)
Lemma triple_ioctl file r a h Q R :
  (∀ a' h', request_effect r a a' true h h' → Q a' h') → (∀ a' h', request_effect r a a' false h h' → R h') →
  triple (eq h) (drm_ioctl file r a) Q R.
Proof.
  intros HQ HR k Hk. unfold drm_ioctl. destruct (drm_request r file a k) as [[answer a'] k'] eqn:E.
  apply request_accounted in E. rewrite <- Hk in E.
  destruct (answer =? -1); cbn [negb] in E; [by apply (HR a')|by apply HQ].
Qed.

(** A request whose result is let go, where what it does is the same either way. *)
Lemma ignored_holds file r a (f : Holdings → Holdings) k :
  (∀ a' ok h h', request_effect r a a' ok h h' → h' = f h) →
  holdings (ignored (drm_ioctl file r a) k) = f (holdings k).
Proof.
  intros Hf. unfold ignored, drm_ioctl. destruct (drm_request r file a k) as [[answer a'] k'] eqn:E.
  apply request_accounted in E. apply Hf in E. by destruct (answer =? -1).
Qed.

Lemma drop_master_holds file k :
  holdings (ignored (drm_ioctl file DROP_MASTER tt) k) = set_hd_master false (holdings k).
Proof. by apply ignored_holds. Qed.
Lemma destroy_dumb_holds file handle k :
  holdings (ignored (drm_ioctl file MODE_DESTROY_DUMB (MkDestroyDumb handle)) k) =
  on_dumb (without_id handle) (holdings k).
Proof. by apply ignored_holds. Qed.
Lemma rmfb_holds file id k :
  holdings (ignored (drm_ioctl file MODE_RMFB id) k) = on_framebuffers (without_id id) (holdings k).
Proof. by apply ignored_holds. Qed.
Lemma destroy_blob_holds file id k :
  holdings (ignored (drm_ioctl file MODE_DESTROYPROPBLOB (MkDestroyBlob id)) k) =
  on_blobs (without_id id) (holdings k).
Proof. by apply ignored_holds. Qed.
Lemma unmap_holds mapping size k : holdings (unmap mapping size k) = on_mappings (without_id mapping) (holdings k).
Proof. apply unmap_accounted. Qed.

(** ** A buffer *)

Definition took_buffer (b : ScanoutBuffer) (h : Holdings) : Holdings :=
  on_framebuffers (with_id (sb_framebuffer_id b))
    (on_mappings (with_id (sb_mapping b)) (on_dumb (with_id (sb_handle b)) h)).
Definition gave_buffer (b : ScanoutBuffer) (h : Holdings) : Holdings :=
  on_mappings (without_id (sb_mapping b))
    (on_dumb (without_id (sb_handle b)) (on_framebuffers (without_id (sb_framebuffer_id b)) h)).
Definition fresh_buffer (b : ScanoutBuffer) (h : Holdings) : Prop :=
  sb_handle b ∉ hd_dumb h ∧ sb_mapping b ∉ hd_mappings h ∧ sb_framebuffer_id b ∉ hd_framebuffers h.

Lemma gave_took b h : fresh_buffer b h → gave_buffer b (took_buffer b h) = h.
Proof.
  intros (? & ? & ?). destruct h. unfold gave_buffer, took_buffer, on_framebuffers, on_mappings, on_dumb.
  cbn in *. by rewrite !with_without.
Qed.

Lemma teardown_holds file b k : holdings (teardown_buffer file b k) = gave_buffer b (holdings k).
Proof. unfold teardown_buffer. by rewrite unmap_holds, destroy_dumb_holds, rmfb_holds. Qed.

Lemma map_buffer_takes file format i create size offset h :
  cd_handle create ∉ hd_dumb h →
  triple (eq (on_dumb (with_id (cd_handle create)) h)) (map_buffer file format i create size offset)
    (λ b h', fresh_buffer b h ∧ h' = took_buffer b h ∧ sb_handle b = cd_handle create)
    (eq (on_dumb (with_id (cd_handle create)) h)).
Proof.
  intros Hc k Hk. unfold map_buffer.
  pose proof (map_accounted file size offset k) as HM.
  destruct (drm_map file size offset k) as [[mapped memory] k1].
  destruct (mapped =? MAP_FAILED); [by rewrite HM|]. destruct HM as [Hm HM]. rewrite <- Hk in Hm, HM.
  assert (Hback : on_mappings (without_id mapped) (holdings k1) = on_dumb (with_id (cd_handle create)) h).
  { rewrite HM. destruct h. unfold on_mappings, on_dumb in *. cbn in *. by rewrite with_without. }
  destruct (mapped =? 0); [by rewrite unmap_accounted|].
  match goal with |- context[drm_ioctl file MODE_ADDFB2 ?a k1] =>
    pose proof (triple_ioctl file MODE_ADDFB2 a (holdings k1)
                   (λ a' h', fb_id a' ∉ hd_framebuffers (holdings k1) ∧
                             h' = on_framebuffers (with_id (fb_id a')) (holdings k1)) (eq (holdings k1))
                   (λ a' h' H, H) (λ a' h' H, eq_sym H) k1 eq_refl) as HF
  end.
  destruct (drm_ioctl file MODE_ADDFB2 _ k1) as [[fb|e] k2].
  - destruct HF as [Hf HF]. rewrite HM in Hf, HF. by rewrite HF.
  - rewrite unmap_holds. rewrite <- HF. done.
Qed.

Lemma allocate_buffer_takes device layout i h :
  triple (eq h) (allocate_buffer device layout i) (λ b h', fresh_buffer b h ∧ h' = took_buffer b h) (eq h).
Proof.
  unfold allocate_buffer. apply triple_after; [keeping|]. intros format.
  apply triple_after; [keeping|]. intros bpp.
  apply (triple_bind _ _ _ (λ create h', cd_handle create ∉ hd_dumb h ∧ h' = on_dumb (with_id (cd_handle create)) h)).
  { apply triple_map_err.
    refine (triple_ioctl (dv_file device) MODE_CREATE_DUMB _ h
              (λ create h', cd_handle create ∉ hd_dumb h ∧ h' = on_dumb (with_id (cd_handle create)) h) (eq h) _ _);
      [by intros|by intros]. }
  intros create. apply triple_when. intros Hc.
  assert (HT : triple (eq (on_dumb (with_id (cd_handle create)) h))
                 (allocate_after_create (dv_file device) layout format i create)
                 (λ b h', fresh_buffer b h ∧ h' = took_buffer b h) (eq (on_dumb (with_id (cd_handle create)) h))).
  { unfold allocate_after_create. do 4 (apply triple_after; [keeping|intros ?]).
    intros k' Hk'. pose proof (map_buffer_takes (dv_file device) format i create a0 a2 h Hc k' Hk') as HM.
    destruct (map_buffer _ _ _ _ _ _ k') as [[b|e] k2]; [|done]. by destruct HM as (? & ? & _). }
  refine (triple_undo _ _ _ _ _ _ HT _).
  intros k' Hk'. rewrite destroy_dumb_holds, <- Hk'. destruct h. unfold on_dumb in *. cbn in *.
  by rewrite with_without.
Qed.

(** ** The device *)

Definition took_device (h : Holdings) : Holdings := set_hd_master true (add_files 1 h).

Lemma device_given_back h : hd_master h = false → add_files (-1) (set_hd_master false (took_device h)) = h.
Proof. destruct h; cbn. intros ->. unfold took_device, add_files, set_hd_master; cbn. f_equal; lia. Qed.

Lemma drop_device_holds device k :
  dv_master device = true →
  holdings (drop_device device k) = add_files (-1) (set_hd_master false (holdings k)).
Proof. intros Hm. unfold drop_device. by rewrite Hm, close_accounted, drop_master_holds. Qed.

Lemma open_card_takes i h : triple (eq h) (open_card i) (λ _, eq (add_files 1 h)) (eq h).
Proof.
  intros k ->. unfold open_card. destruct (card_path i) as [path n].
  pose proof (open_accounted (take (Z.to_nat n) path) k) as HO.
  by destruct (drm_open _ k) as [[f|[e|]] k1].
Qed.

Lemma DrmDevice_open_takes config h :
  hd_master h = false →
  triple (eq h) (DrmDevice_open config) (λ device h', dv_master device = true ∧ h' = took_device h) (eq h).
Proof.
  intros Hm. unfold DrmDevice_open. eapply triple_bind; [apply open_card_takes|]. intros file.
  apply (triple_undo _ _ _ _ _ (eq (add_files 1 h))).
  - apply (triple_bind _ _ _ (λ _, eq (took_device h))).
    { apply triple_map_err.
      refine (triple_ioctl file SET_MASTER _ _ (λ _, eq (took_device h)) (eq (add_files 1 h)) _ _);
        by intros ? ? ->. }
    intros _. eapply triple_bind.
    + eapply (triple_undo _ _ _ _ _ (eq (took_device h))).
      * apply triple_keeps, keeps_select_resources.
      * intros k Hk. rewrite drop_master_holds, <- Hk. destruct h; cbn in *. by rewrite Hm.
    + by intros [[[[c r] ci] mi] crtc] k Hk.
  - intros k Hk. rewrite close_accounted, <- Hk. destruct h; unfold add_files; cbn. f_equal; lia.
Qed.

(** ** The backend *)

Definition took_path (path : PresentationPath) (h : Holdings) : Holdings :=
  match path with Atomic state => on_blobs (with_id (as_mode_blob_id state)) h | _ => h end.
Definition fresh_path (path : PresentationPath) (h : Holdings) : Prop :=
  match path with Atomic state => as_mode_blob_id state ∉ hd_blobs h | _ => True end.

(** A backend that was opened where [h0] was held, where [h] is. *)
Definition owned (self : IoctlBackend) (h0 h : Holdings) : Prop :=
  let h1 := took_device h0 in
  let h2 := took_buffer (ib_buffers self).1 h1 in
  let h3 := took_buffer (ib_buffers self).2 h2 in
  dv_master (ib_device self) = true ∧ hd_master h0 = false ∧
  fresh_buffer (ib_buffers self).1 h1 ∧ fresh_buffer (ib_buffers self).2 h2 ∧
  fresh_path (ib_presentation self) h3 ∧ h = took_path (ib_presentation self) h3.

Lemma destroy_mode_blob_holds file path k h :
  fresh_path path h → holdings k = took_path path h → holdings (destroy_mode_blob file path k) = h.
Proof.
  intros Hf Hk. destruct path as [| |state]; [done|done|]. unfold destroy_mode_blob.
  rewrite destroy_blob_holds, Hk. destruct h; unfold took_path, on_blobs; cbn in *. by rewrite with_without.
Qed.

Lemma without_both id id' ids : id ∉ ids → id' ∉ with_id id ids →
  without_id id' (without_id id (with_id id' (with_id id ids))) = ids.
Proof.
  intros Hid (Hne & Hid')%not_with_id. rewrite without_with_ne by done.
  by rewrite (with_without id ids Hid), with_without.
Qed.

Lemma both_given_back b b' h :
  fresh_buffer b h → fresh_buffer b' (took_buffer b h) →
  on_mappings (without_id (sb_mapping b')) (on_mappings (without_id (sb_mapping b))
    (on_dumb (without_id (sb_handle b')) (on_dumb (without_id (sb_handle b))
      (on_framebuffers (without_id (sb_framebuffer_id b')) (on_framebuffers (without_id (sb_framebuffer_id b))
        (took_buffer b' (took_buffer b h))))))) = h.
Proof.
  intros (? & ? & ?) (? & ? & ?). apply holdings_eq; try reflexivity; apply without_both; assumption.
Qed.

Lemma drop_owned self h0 k : owned self h0 (holdings k) → holdings (drop_backend self k) = h0.
Proof.
  intros (Hd & Hm & H1 & H2 & Hp & Hk). unfold drop_backend. cbn [foldl].
  rewrite (drop_device_holds _ _ Hd), !unmap_holds, !destroy_dumb_holds, !rmfb_holds.
  rewrite (destroy_mode_blob_holds _ _ _ _ Hp Hk), (both_given_back _ _ _ H1 H2). by apply device_given_back.
Qed.
End Accounts.

(** * Opening, presenting and dropping a backend *)

Section Backend.
Context {K : Type} {DK : DrmKernel K} {DA : DrmAccounts K}.

(** The atomic set-up's own steps: a mode blob is what they take. *)
Lemma blob_taken {A} file blob h (m : ST K DrmError A) (f : A → AtomicState) :
  keeps m → cb_blob_id blob ∉ hd_blobs h → (∀ a, as_mode_blob_id (f a) = cb_blob_id blob) →
  triple (eq (on_blobs (with_id (cb_blob_id blob)) h))
    (a ← or_undo (ignored (drm_ioctl file MODE_DESTROYPROPBLOB (MkDestroyBlob (cb_blob_id blob)))) m; mret (f a))
    (λ state h', fresh_path (Atomic state) h ∧ h' = took_path (Atomic state) h) (eq h).
Proof.
  intros Hm Hb Hf. eapply triple_bind.
  - eapply (triple_undo _ _ _ _ _ (eq (on_blobs (with_id (cb_blob_id blob)) h))); [by apply triple_keeps|].
    intros k Hk. rewrite destroy_blob_holds, <- Hk. destruct h; unfold on_blobs; cbn in *. by rewrite with_without.
  - intros a k Hk. cbn. by rewrite Hf.
Qed.

Lemma keeps_commit_initial_atomic sink plane_id properties blob :
  keeps (commit_initial_atomic sink plane_id properties blob).
Proof. apply keeps_commit_tested. Qed.

(** The display set up, by either path. *)
Lemma initialize_display_owned self h0 k :
  ib_presentation self = Uninitialized → owned self h0 (holdings k) →
  match initialize_display (k, self) with
  | (Ok _, (k', self')) => owned self' h0 (holdings k')
  | (Err _, (k', self')) => self' = self ∧ holdings k' = holdings k
  end.
Proof.
  intros Hu (Hd & Hm & H1 & H2 & Hp & Hk). rewrite Hu in Hk. cbn in Hk. unfold initialize_display.
  destruct (dc_atomic_commit _).
  - unfold initialize_atomic. match goal with |- context[let '(r, k0) := ?m k in _] =>
      assert (HT : triple (eq (holdings k)) m
        (λ state h', fresh_path (Atomic state) (holdings k) ∧ h' = took_path (Atomic state) (holdings k))
        (eq (holdings k))) end.
    { apply triple_after; [keeping|intros format].
      apply triple_after; [apply keeps_find_primary_plane|intros plane_id].
      apply triple_after; [apply keeps_initial_atomic_properties|intros properties].
      apply (triple_bind _ _ _ (λ blob h', cb_blob_id blob ∉ hd_blobs (holdings k) ∧
                                           h' = on_blobs (with_id (cb_blob_id blob)) (holdings k))).
      - apply triple_map_err. refine (triple_ioctl _ MODE_CREATEPROPBLOB _ _
          (λ blob h', cb_blob_id blob ∉ hd_blobs (holdings k) ∧
                      h' = on_blobs (with_id (cb_blob_id blob)) (holdings k)) _ _ _); [by intros|by intros].
      - intros blob. apply triple_when. intros Hb.
        refine (blob_taken _ blob _ _ (λ _, MkAtomicState plane_id (ip_plane_fb_id properties) (cb_blob_id blob))
                  (keeps_commit_initial_atomic _ _ _ _) Hb (λ _, eq_refl)). }
    specialize (HT k eq_refl). cbv beta in HT. match type of HT with match ?x with _ => _ end => destruct x as [[state|e] k'] end.
    + destruct HT as [Hf HT]. rewrite Hk in Hf, HT. exact (conj Hd (conj Hm (conj H1 (conj H2 (conj Hf HT))))).
    + by rewrite <- HT.
  - unfold initialize_legacy. match goal with |- context[ST_map_err ?f ?m k] =>
      assert (HL : keeps (ST_map_err f m)) by keeping end.
    specialize (HL k). destruct (ST_map_err _ _ k) as [[a|e] k']; cbn in HL.
    + by rewrite HL, Hk.
    + done.
Qed.

Lemma display_or_drop_takes self h0 :
  ib_presentation self = Uninitialized →
  triple (owned self h0) (display_or_drop self) (λ self', owned self' h0) (eq h0).
Proof.
  intros Hu k Hk. unfold display_or_drop. pose proof (initialize_display_owned self h0 k Hu Hk) as HI.
  destruct (initialize_display (k, self)) as [[u|e] [k' self']]; [done|].
  destruct HI as [-> HI]. symmetry. apply drop_owned. by rewrite HI.
Qed.

Lemma IoctlBackend_open_takes config layout h0 :
  hd_master h0 = false →
  triple (eq h0) (IoctlBackend_open config layout) (λ self, owned self h0) (eq h0).
Proof.
  intros Hm. unfold IoctlBackend_open. eapply triple_bind; [by apply DrmDevice_open_takes|].
  intros device. apply triple_when. intros Hd.
  assert (Hdrop : ∀ k, took_device h0 = holdings k → h0 = holdings (drop_device device k)).
  { intros k' Hk'. rewrite drop_device_holds, <- Hk' by done. symmetry. by apply device_given_back. }
  destruct (negb _).
  { refine (triple_undo (eq (took_device h0)) _ _ _ _ (eq (took_device h0)) _ Hdrop). by intros ?. }
  eapply triple_bind; [exact (triple_undo _ _ _ _ _ _ (allocate_buffer_takes device layout 0 _) Hdrop)|].
  intros first. apply triple_when. intros Hf.
  eapply triple_bind; [refine (triple_undo _ _ _ _ _ _ (allocate_buffer_takes device layout 1 _) _)|].
  { intros k Hk. apply Hdrop. by rewrite teardown_holds, <- Hk, gave_took. }
  intros second k [Hs Hk]. apply display_or_drop_takes; [done|].
  exact (conj Hd (conj Hm (conj Hf (conj Hs (conj I Hk))))).
Qed.

(** ** Presenting *)

Inductive BackendCall := Present (frame : PixelFrame) (report : FrameReport) | CompleteFlip.

Definition backend_call (call : BackendCall) : ST (K * IoctlBackend) DrmError unit :=
  match call with
  | Present frame report => backend_present frame report
  | CompleteFlip => complete_flip
  end.

(** Calls one after another, whatever becomes of each. *)
Definition backend_calls (calls : list BackendCall) (s : K * IoctlBackend) : K * IoctlBackend :=
  foldl (λ s call, (backend_call call s).2) s calls.

(** What a buffer is, apart from what is in it. *)
Definition same_buffer (b b' : ScanoutBuffer) : Prop :=
  sb_handle b = sb_handle b' ∧ sb_framebuffer_id b = sb_framebuffer_id b' ∧ sb_mapping b = sb_mapping b'.
Definition same_backend (self self' : IoctlBackend) : Prop :=
  ib_device self = ib_device self' ∧ ib_presentation self = ib_presentation self' ∧
  same_buffer (ib_buffers self).1 (ib_buffers self').1 ∧ same_buffer (ib_buffers self).2 (ib_buffers self').2.

Lemma owned_same self self' h0 h : same_backend self self' → owned self h0 h → owned self' h0 h.
Proof.
  unfold owned, same_backend, same_buffer, fresh_buffer, took_buffer.
  intros (Hd & Hp & (H1 & H2 & H3) & (H4 & H5 & H6)). by rewrite Hd, Hp, H1, H2, H3, H4, H5, H6.
Qed.

Lemma copy_frame_same frame mode layout b : same_buffer b (copy_frame frame mode layout b).2.
Proof.
  unfold copy_frame. destruct (_ || _); [done|]. destruct (negb _); [done|].
  destruct (checked_mul _ _ _); [|done]. by destruct (for_rows _ _ _ _).
Qed.

Lemma keeps_flip self target : keeps (flip self target).
Proof.
  unfold flip. destruct (ib_presentation self); [done|unfold legacy_flip; keeping|apply keeps_commit_tested].
Qed.

Lemma put_same self index b :
  same_buffer (buffer_at (ib_buffers self) index) b →
  same_backend self (set_ib_buffers (put_buffer index b (ib_buffers self)) self).
Proof. unfold buffer_at, put_buffer, same_backend. by destruct (index =? 0). Qed.

Lemma backend_call_kept call k self :
  let '(k', self') := (backend_call call (k, self)).2 in holdings k' = holdings k ∧ same_backend self self'.
Proof.
  destruct call as [frame report|]; cbn [backend_call].
  - unfold backend_present. destruct (ib_pending_index self); [done|].
    cbv zeta. match goal with |- context [copy_frame ?f ?m ?l ?b] => pose proof (copy_frame_same f m l b) as Hc end.
    destruct (copy_frame _ _ _ _) as [[u|e] b]; apply (put_same self) in Hc; [|done].
    match goal with |- context [flip ?s ?target k] => pose proof (keeps_flip s target k) as Hf end.
    by destruct (flip _ _ k) as [[u'|e] k'].
  - unfold complete_flip. destruct (ib_pending_index self); [|done].
    pose proof (read_accounted (dv_file (ib_device self)) 4096 k) as Hr.
    destruct (drm_read _ _ _) as [[bytes|e] k']; [|done]. by destruct (contains_flip_event _) as [[]|].
Qed.

Lemma backend_calls_owned calls h0 : ∀ k self,
  owned self h0 (holdings k) →
  let '(k', self') := backend_calls calls (k, self) in holdings k' = holdings k ∧ owned self' h0 (holdings k').
Proof.
  induction calls as [|call calls IH]; intros k self Ho; [done|]. unfold backend_calls. cbn [foldl].
  pose proof (backend_call_kept call k self) as HC. destruct (backend_call call (k, self)).2 as [k1 self1].
  destruct HC as [HC Hs]. rewrite <- HC in Ho. specialize (IH k1 self1 (owned_same _ _ _ _ Hs Ho)).
  unfold backend_calls in IH. destruct (foldl _ _ _) as [k2 self2]. by rewrite <- HC.
Qed.

(** C14. Scanout takes all that it needs or nothing, and gives back what it took: opening a backend that
    fails, at whichever of its steps, leaves the process holding what it held before, its file, the
    mastership, the buffers, their framebuffers and mappings and the mode's blob each given back; and one
    that opened, after any calls to present frames and to complete flips, whether they went well or not,
    which themselves take and give back nothing, gives back everything when it is dropped. *)
Theorem open_all_or_nothing config layout k :
  hd_master (holdings k) = false →
  match IoctlBackend_open config layout k with
  | (Ok self, k') => ∀ calls,
      let '(k'', self') := backend_calls calls (k', self) in
      holdings k'' = holdings k' ∧ holdings (drop_backend self' k'') = holdings k
  | (Err _, k') => holdings k' = holdings k
  end.
Proof.
  intros Hm. pose proof (IoctlBackend_open_takes config layout _ Hm k eq_refl) as HO.
  destruct (IoctlBackend_open config layout k) as [[self|e] k']; [|done]. intros calls.
  pose proof (backend_calls_owned calls _ k' self HO) as HC.
  destruct (backend_calls calls (k', self)) as [k'' self']. destruct HC as [HC Ho].
  split; [done|by apply drop_owned].
Qed.
End Backend.
