(* ===== verification/Flips.v ===== *)
(** What the kernel says of flips: events one after another, and finding the one of a flip among them. *)
From S2P Require Import Prelude.
From S2P Require Import Vocabulary.
From S2P Require Import Model.
From S2P Require Import Wire.
From S2P Require Import Pixels.
From S2P Require Import Nodes.
From S2P Require Import Kms.
From S2P Require Import Drm.

(** An event is a type, its length with the eight bytes of both, and what it carries. *)
Record KernelEvent := MkKernelEvent { ke_type : Z; ke_payload : list byte }.

Definition event_bytes (e : KernelEvent) : list byte :=
  to_le_bytes 4 (ke_type e) ++ to_le_bytes 4 (8 + len (ke_payload e)) ++ ke_payload e.

(** The event of a flip that this backend asked for. *)
Definition our_flip (e : KernelEvent) : bool :=
  (ke_type e =? EVENT_FLIP_COMPLETE) && (u_from_le_bytes (take 8 (ke_payload e)) =? FLIP_USER_DATA).

(** An event as the kernel writes one: that of a flip carries at least who asked for it. *)
Definition proper_event (e : KernelEvent) : Prop :=
  is_u32 (ke_type e) ∧ 8 + len (ke_payload e) ≤ u32_max ∧ (ke_type e = EVENT_FLIP_COMPLETE → 8 ≤ len (ke_payload e)).

Definition announces_flip (bytes : list byte) : Prop :=
  ∃ events e rest, Forall proper_event events ∧ proper_event e ∧ our_flip e = true ∧
    bytes = concat (event_bytes <$> events) ++ event_bytes e ++ rest.

Definition announces_no_flip (bytes : list byte) : Prop :=
  ∃ events, Forall (λ e, proper_event e ∧ our_flip e = false) events ∧ bytes = concat (event_bytes <$> events).

Lemma len_event_bytes e : len (event_bytes e) = 8 + len (ke_payload e).
Proof. unfold event_bytes. rewrite !len_app, !len_to_le_bytes. lia. Qed.

Lemma header_type z n : is_u32 z → u_from_le_bytes (slice (to_le_bytes 4 z ++ to_le_bytes 4 n) 0 4) = z.
Proof.
  intros Hz. unfold slice. pose proof (get_range_prefix (to_le_bytes 4 z) (to_le_bytes 4 n)) as E.
  rewrite len_to_le_bytes in E. change (Z.of_nat 4) with 4 in E. rewrite E. by apply u_from_to_u32.
Qed.

Lemma header_length z n : is_u32 n → u_from_le_bytes (slice (to_le_bytes 4 z ++ to_le_bytes 4 n) 4 8) = n.
Proof.
  intros Hn. unfold slice. rewrite <- (app_nil_r (to_le_bytes 4 n)).
  rewrite get_range_app_at by (rewrite ?len_to_le_bytes; done). by apply u_from_to_u32.
Qed.

(** One round of the loop, at an event. *)
Lemma flip_round fuel pre e rest :
  is_u32 (ke_type e) → 8 + len (ke_payload e) ≤ u32_max → len (pre ++ event_bytes e ++ rest) ≤ isize_max →
  flip_event_from (S fuel) (len pre) (pre ++ event_bytes e ++ rest) =
    if (ke_type e =? EVENT_FLIP_COMPLETE) && (len (ke_payload e) <? 8) then Err InvalidFlipEvent
    else if our_flip e then Ok true
    else flip_event_from fuel (len (pre ++ event_bytes e)) (pre ++ event_bytes e ++ rest).
Proof.
  intros Hty Hn Hl. rewrite !len_app, len_event_bytes in Hl.
  pose proof (len_nonneg pre). pose proof (len_nonneg rest). pose proof (len_nonneg (ke_payload e)).
  assert (Hhead : get_range (pre ++ event_bytes e ++ rest) (len pre) (len pre + 8) =
                  Some (to_le_bytes 4 (ke_type e) ++ to_le_bytes 4 (8 + len (ke_payload e)))).
  { unfold event_bytes. rewrite <- !app_assoc, (app_assoc (to_le_bytes 4 (ke_type e))).
    apply get_range_app_at; [done|]. rewrite len_app, !len_to_le_bytes. lia. }
  assert (Hevent : get_range (pre ++ event_bytes e ++ rest) (len pre) (len pre + (8 + len (ke_payload e))) =
                   Some (event_bytes e)).
  { apply get_range_app_at; [done|]. rewrite len_event_bytes. lia. }
  cbn [flip_event_from]. rewrite (proj2 (Z.ltb_lt _ _)) by (rewrite !len_app, len_event_bytes; lia).
  cbn [negb]. rewrite checked_add_Some by (unfold isize_max in *; width_lia).
  unfold mbind at 1 2, result_bind, ok_or at 1 2. rewrite Hhead.
  cbv zeta. rewrite header_type, header_length by (done || unfold is_u32; lia).
  rewrite (proj2 (Z.ltb_ge _ _)) by lia.
  rewrite checked_add_Some by (unfold isize_max in *; width_lia).
  unfold mbind at 1 2, result_bind, ok_or at 1 2. rewrite Hevent.
  rewrite len_app, len_event_bytes. unfold our_flip.
  destruct (ke_type e =? EVENT_FLIP_COMPLETE); [|done]. cbn [andb].
  destruct (Z.ltb_spec (len (ke_payload e)) 8) as [Hshort|Hlong].
  - unfold get_range at 1. rewrite (proj2 (Z.leb_gt 16 _)) by (rewrite len_event_bytes; lia). done.
  - assert (Hdata : get_range (event_bytes e) 8 16 = Some (take 8 (ke_payload e))).
    { unfold event_bytes. rewrite app_assoc. rewrite <- (take_drop 8 (ke_payload e)) at 2.
      apply get_range_app_at; rewrite ?len_app, !len_to_le_bytes; [done|].
      unfold len in *. rewrite length_take. lia. }
    rewrite Hdata. unfold mbind, result_bind, ok_or. by destruct (_ =? _).
Qed.

(** What is left is an event and more, or the loop ends there. *)
Lemma event_or_not bytes :
  bytes ≠ [] →
  (∃ e rest, is_u32 (ke_type e) ∧ 8 + len (ke_payload e) ≤ u32_max ∧ bytes = event_bytes e ++ rest) ∨
  (∀ fuel pre, len (pre ++ bytes) ≤ isize_max →
     flip_event_from (S fuel) (len pre) (pre ++ bytes) = Err InvalidFlipEvent).
Proof.
  intros Hne. assert (0 < len bytes) by (destruct bytes; [done|rewrite len_cons; pose proof (len_nonneg bytes); lia]).
  destruct (Z.lt_ge_cases (len bytes) 8) as [Hshort|Hlong].
  { right. intros fuel pre Hl. rewrite len_app in Hl. pose proof (len_nonneg pre). cbn [flip_event_from].
    rewrite (proj2 (Z.ltb_lt _ _)) by (rewrite len_app; lia). cbn [negb].
    rewrite checked_add_Some by (unfold isize_max in *; width_lia). unfold mbind, result_bind, ok_or at 1.
    unfold get_range at 1. rewrite (proj2 (Z.leb_gt (len pre + 8) _)) by (rewrite len_app; lia).
    by rewrite andb_false_r. }
  assert (∃ z n body, is_u32 z ∧ is_u32 n ∧ bytes = to_le_bytes 4 z ++ to_le_bytes 4 n ++ body)
    as (z & n & body & Hz & Hn & ->).
  { assert (L1 : length (take 4 bytes) = 4%nat) by (unfold len in *; rewrite length_take; lia).
    assert (L2 : length (take 4 (drop 4 bytes)) = 4%nat)
      by (unfold len in *; rewrite length_take, length_drop; lia).
    exists (u_from_le_bytes (take 4 bytes)), (u_from_le_bytes (take 4 (drop 4 bytes))), (drop (4 + 4) bytes).
    pose proof (u_from_le_bytes_range 4 _ L1) as R1. pose proof (u_from_le_bytes_range 4 _ L2) as R2.
    change (2 ^ (8 * Z.of_nat 4)) with 4294967296 in R1, R2.
    split; [width_lia|]. split; [width_lia|].
    by rewrite !to_from_le_bytes, <- drop_drop, !take_drop by done. }
  rewrite !len_app, !len_to_le_bytes in *. pose proof (len_nonneg body).
  destruct (decide (8 ≤ n ≤ 8 + len body)) as [Hfit|Hbad].
  - left. exists (MkKernelEvent z (take (Z.to_nat (n - 8)) body)), (drop (Z.to_nat (n - 8)) body).
    assert (Ht : 8 + len (take (Z.to_nat (n - 8)) body) = n).
    { unfold len in *. rewrite length_take. lia. }
    unfold event_bytes. cbn [ke_type ke_payload]. rewrite Ht. split; [done|]. split; [apply Hn|].
    by rewrite <- !app_assoc, take_drop.
  - right. intros fuel pre Hl. rewrite !len_app, !len_to_le_bytes in Hl. pose proof (len_nonneg pre).
    cbn [flip_event_from]. rewrite (proj2 (Z.ltb_lt _ _)) by (rewrite !len_app, !len_to_le_bytes; lia). cbn [negb].
    rewrite checked_add_Some by (unfold isize_max in *; width_lia).
    unfold mbind at 1 2, result_bind, ok_or at 1 2.
    rewrite (app_assoc (to_le_bytes 4 z)), get_range_app_at by (rewrite ?len_app, ?len_to_le_bytes; done).
    cbv zeta. rewrite header_type, header_length by done.
    destruct (Z.ltb_spec n 8); [done|].
    rewrite checked_add_Some by (unfold is_u32, isize_max in *; width_lia).
    unfold mbind at 1 2, result_bind, ok_or at 1 2. unfold get_range at 1.
    rewrite (proj2 (Z.leb_gt (len pre + n) _)) by (rewrite !len_app, !len_to_le_bytes; lia).
    by rewrite andb_false_r.
Qed.

Lemma flip_no_more fuel pre : flip_event_from fuel (len pre) pre = Ok false.
Proof. destruct fuel; [done|]. cbn [flip_event_from]. by rewrite Z.ltb_irrefl. Qed.

Lemma flip_passed events : ∀ fuel pre rest,
  Forall (λ e, proper_event e ∧ our_flip e = false) events →
  len (pre ++ concat (event_bytes <$> events) ++ rest) ≤ isize_max →
  flip_event_from (length events + fuel) (len pre) (pre ++ concat (event_bytes <$> events) ++ rest) =
  flip_event_from fuel (len (pre ++ concat (event_bytes <$> events)))
    ((pre ++ concat (event_bytes <$> events)) ++ rest).
Proof.
  induction events as [|e events IH]; intros fuel pre rest He Hl.
  { cbn. by rewrite app_nil_r. }
  apply Forall_cons in He as [[(Hz & Hn & Hp) Ho] He]. cbn [fmap list_fmap concat length Nat.add] in *.
  rewrite <- app_assoc in *. rewrite flip_round by done. rewrite Ho.
  replace ((ke_type e =? EVENT_FLIP_COMPLETE) && (len (ke_payload e) <? 8)) with false.
  - rewrite app_assoc in *. rewrite IH by done. by rewrite <- !app_assoc.
  - destruct (Z.eqb_spec (ke_type e) EVENT_FLIP_COMPLETE); [|done]. cbn [andb]. symmetry. apply Z.ltb_ge. auto.
Qed.

(** Backwards: what the loop found is there. *)
Lemma flip_sound fuel : ∀ pre bytes b,
  (length bytes < fuel)%nat → len (pre ++ bytes) ≤ isize_max → flip_event_from fuel (len pre) (pre ++ bytes) = Ok b →
  if b then ∃ events e rest, Forall (λ e, proper_event e ∧ our_flip e = false) events ∧ proper_event e ∧
              our_flip e = true ∧ bytes = concat (event_bytes <$> events) ++ event_bytes e ++ rest
  else announces_no_flip bytes.
Proof.
  induction fuel as [|fuel IH]; intros pre bytes b Hf Hl; [lia|].
  destruct (decide (bytes = [])) as [->|Hne].
  { rewrite app_nil_r, flip_no_more. intros [= <-]. by exists []. }
  destruct (event_or_not bytes Hne) as [(e & rest & Hz & Hn & ->)|Hend]; [|by rewrite Hend].
  rewrite flip_round by done. destruct (_ && _) eqn:Et; [done|].
  assert (Hproper : proper_event e).
  { split; [done|]. split; [done|]. intros Hty. rewrite Hty in Et. cbn in Et. by apply Z.ltb_ge in Et. }
  destruct (our_flip e) eqn:Ho.
  { intros [= <-]. by exists [], e, rest. }
  rewrite app_assoc in *. intros H. apply IH in H.
  - destruct b.
    + destruct H as (events & e' & rest' & He & Hp' & Ho' & ->). exists (e :: events), e', rest'.
      split; [by constructor|]. split; [done|]. split; [done|]. cbn [fmap list_fmap concat]. by rewrite <- app_assoc.
    + destruct H as (events & He & ->). exists (e :: events). split; [by constructor|done].
  - pose proof (len_event_bytes e). pose proof (len_nonneg (ke_payload e)).
    rewrite length_app in Hf. unfold len in *. lia.
  - done.
Qed.

Lemma flip_errs fuel : ∀ offset bytes e, flip_event_from fuel offset bytes = Err e → e = InvalidFlipEvent.
Proof.
  induction fuel as [|fuel IH]; intros offset bytes e; [done|]. cbn [flip_event_from].
  unfold mbind, result_bind, ok_or. destruct (negb _); [done|].
  repeat match goal with |- context [match ?o with Some _ => _ | None => _ end] =>
    destruct o; [|by intros [= <-]] end.
  destruct (_ <? 8); [by intros [= <-]|]. destruct (checked_add _ _ _); [|by intros [= <-]].
  destruct (get_range _ _ _); [|by intros [= <-]]. destruct (_ =? EVENT_FLIP_COMPLETE); [|apply IH].
  destruct (get_range _ 8 16); [|by intros [= <-]]. destruct (_ =? FLIP_USER_DATA); [done|apply IH].
Qed.

Lemma events_no_longer events : (length events ≤ length (concat (event_bytes <$> events)))%nat.
Proof.
  induction events as [|e events IH]; [done|]. cbn [fmap list_fmap concat length]. rewrite length_app.
  pose proof (len_event_bytes e). pose proof (len_nonneg (ke_payload e)). unfold len in *. lia.
Qed.

(** The events before the one of our flip may be taken to be of others. *)
Lemma announces_first bytes :
  announces_flip bytes ↔
  ∃ events e rest, Forall (λ e, proper_event e ∧ our_flip e = false) events ∧ proper_event e ∧
    our_flip e = true ∧ bytes = concat (event_bytes <$> events) ++ event_bytes e ++ rest.
Proof.
  split; intros (events & e & rest & He & Hp & Ho & ->).
  - induction events as [|e1 events IH].
    + by exists [], e, rest.
    + apply Forall_cons in He as [He1 He]. destruct (our_flip e1) eqn:Ho1.
      { exists [], e1, (concat (event_bytes <$> events) ++ event_bytes e ++ rest). split; [constructor|].
        split; [exact He1|]. split; [done|]. cbn. by rewrite <- app_assoc. }
      destruct (IH He) as (events' & e' & rest' & He' & Hp' & Ho' & Hb).
      exists (e1 :: events'), e', rest'. split; [by constructor|]. split; [done|]. split; [done|].
      cbn [fmap list_fmap concat]. by rewrite <- !app_assoc, Hb.
  - exists events, e, rest. split; [|done]. eapply Forall_impl; [done|]. by intros ? [].
Qed.

Lemma flip_found_first bytes : len bytes ≤ isize_max → contains_flip_event bytes = Ok true → announces_flip bytes.
Proof. intros Hl Hb. apply (flip_sound _ []) in Hb; [by apply announces_first|lia|done]. Qed.

(** C17. Finding a flip among what the kernel wrote: for as many bytes as there can be, the loop says that
    there is one exactly when the bytes start with proper events and then one of a flip this backend asked
    for, whatever comes after it; that there is none exactly when they are proper events to their end and
    none is of such a flip; and fails, in one way, exactly otherwise. It always ends. *)
Theorem flip_found_iff bytes :
  len bytes ≤ isize_max →
  (contains_flip_event bytes = Ok true ↔ announces_flip bytes) ∧
  (contains_flip_event bytes = Ok false ↔ announces_no_flip bytes) ∧
  (contains_flip_event bytes = Err InvalidFlipEvent ↔ ¬ announces_flip bytes ∧ ¬ announces_no_flip bytes).
Proof.
  intros Hl. unfold contains_flip_event.
  assert (HT : announces_flip bytes → flip_event_from (S (length bytes)) 0 bytes = Ok true).
  { rewrite announces_first. intros (events & e & rest & He & Hp & Ho & ->).
    pose proof (events_no_longer events).
    rewrite length_app. set (fuel := (length (concat (event_bytes <$> events)) - length events + length (event_bytes e ++ rest))%nat).
    replace (S (length (concat (event_bytes <$> events)) + length (event_bytes e ++ rest)))
      with (length events + S fuel)%nat by (subst fuel; lia).
    etransitivity; [exact (flip_passed events (S fuel) [] _ He Hl)|]. cbn [app]. destruct Hp as (Hz & Hn & Hp).
    rewrite flip_round by done. rewrite Ho.
    destruct (Z.eqb_spec (ke_type e) EVENT_FLIP_COMPLETE); [|done]. cbn [andb].
    by rewrite (proj2 (Z.ltb_ge _ _)) by auto. }
  assert (HF : announces_no_flip bytes → flip_event_from (S (length bytes)) 0 bytes = Ok false).
  { intros (events & He & ->). pose proof (events_no_longer events).
    replace (S (length (concat (event_bytes <$> events))))
      with (length events + S (length (concat (event_bytes <$> events)) - length events))%nat by lia.
    pose proof (flip_passed events (S (length (concat (event_bytes <$> events)) - length events)) [] []) as HP.
    cbn [app] in HP. rewrite !app_nil_r in HP. etransitivity; [exact (HP He Hl)|apply flip_no_more]. }
  assert (HS : ∀ b, flip_event_from (S (length bytes)) 0 bytes = Ok b →
                    if b then announces_flip bytes else announces_no_flip bytes).
  { intros b Hb. apply (flip_sound _ []) in Hb; [|lia|done]. destruct b; [|done]. by apply announces_first. }
  assert (HE : ∀ e, flip_event_from (S (length bytes)) 0 bytes = Err e → e = InvalidFlipEvent).
  { intros e. apply flip_errs. }
  destruct (flip_event_from (S (length bytes)) 0 bytes) as [[]|e] eqn:E.
  - pose proof (HS _ eq_refl) as HB. split; [done|]. split; [by split; [done|intros X%HF; done]|]. split; [done|intros [? ?]; done].
  - pose proof (HS _ eq_refl) as HB. split; [by split; [done|intros X%HT; done]|]. split; [done|]. split; [done|intros [? ?]; done].
  - pose proof (HE _ eq_refl) as ->.
    split; [by split; [done|intros X%HT; done]|]. split; [by split; [done|intros X%HF; done]|].
    split; [|done]. intros _. split; intros H; [by apply HT in H|by apply HF in H].
Qed.

Lemma flip_found_iff_witness :
  (contains_flip_event (event_bytes (MkKernelEvent EVENT_FLIP_COMPLETE (to_le_bytes 8 FLIP_USER_DATA))) = Ok true ↔
   announces_flip (event_bytes (MkKernelEvent EVENT_FLIP_COMPLETE (to_le_bytes 8 FLIP_USER_DATA)))) ∧
  contains_flip_event (event_bytes (MkKernelEvent EVENT_FLIP_COMPLETE (to_le_bytes 8 FLIP_USER_DATA))) = Ok true ∧
  contains_flip_event (event_bytes (MkKernelEvent 1 [])) = Ok false ∧
  contains_flip_event (event_bytes (MkKernelEvent EVENT_FLIP_COMPLETE [])) = Err InvalidFlipEvent.
Proof.
  split; [|by vm_compute].
  exact (proj1 (flip_found_iff (event_bytes (MkKernelEvent EVENT_FLIP_COMPLETE (to_le_bytes 8 FLIP_USER_DATA)))
           ltac:(vm_compute; discriminate))).
Defined.
