(* ===== verification/Scanout.v ===== *)
(** What scanout shows: the buffer in front keeps a presented frame's picture while the next one is written
    into the other, a flip's completion puts that one in front, and a failure changes nothing that is seen. *)
From S2P Require Import Prelude.
From S2P Require Import Vocabulary.
From S2P Require Import Model.
From S2P Require Import Pixels.
From S2P Require Import Compose.
From S2P Require Import Nodes.
From S2P Require Import Kms.
From S2P Require Import Drm.
From S2P Require Import Owned.
From S2P Require Import Flips.

(** * A panel

    A panel shows a frame, and may have another one waiting for its flip. *)
Record Panel := MkPanel { pn_front : option PixelFrame; pn_waiting : option PixelFrame }.

Definition blank_panel : Panel := MkPanel None None.

(** A frame that is as large as the mode and of the layout. *)
Definition fits (mode : Mode) (layout : PixelLayout) (frame : PixelFrame) : Prop :=
  size_width (pf_size frame) = md_width mode ∧ size_height (pf_size frame) = md_height mode ∧
  pf_layout frame = layout.

(** A frame with all the bytes it should have. *)
Definition whole (frame : PixelFrame) : Prop :=
  holds_picture (pf_bytes frame) (pf_stride frame) (bytes_per_pixel (pf_layout frame))
    (size_width (pf_size frame)) (size_height (pf_size frame)).

(** What the kernel says when it does not take a flip. *)
Definition flip_refused (error : DrmError) : bool :=
  match error with
  | DisplayAccessLost _ | DisplayBusy _ | AtomicTestFailed _ | AtomicCommitFailed _ | PageFlipFailed _ => true
  | _ => false
  end.

(** What can become of a call, and of what is seen: a frame is queued, and it is not refused for anything
    but the kernel's answer when it is whole and fits; one that follows another too soon is refused; and
    a completion puts the waiting one in front. Nothing else changes what is seen or what waits. *)
Inductive panel_step (mode : Mode) (layout : PixelLayout)
    : BackendCall → result DrmError unit → Panel → Panel → Prop :=
| frame_queued frame report front :
    fits mode layout frame →
    panel_step mode layout (Present frame report) (Ok tt) (MkPanel front None) (MkPanel front (Some frame))
| frame_refused frame report front waiting :
    panel_step mode layout (Present frame report) (Err FlipPending) (MkPanel front (Some waiting))
      (MkPanel front (Some waiting))
| frame_failed frame report front error :
    error ≠ FlipPending → (fits mode layout frame → whole frame → flip_refused error = true) →
    panel_step mode layout (Present frame report) (Err error) (MkPanel front None) (MkPanel front None)
| flip_done front waiting :
    panel_step mode layout CompleteFlip (Ok tt) (MkPanel front (Some waiting)) (MkPanel (Some waiting) None)
| flip_unasked front :
    panel_step mode layout CompleteFlip (Err FlipEventMissing) (MkPanel front None) (MkPanel front None)
| flip_not_yet front waiting error :
    panel_step mode layout CompleteFlip (Err error) (MkPanel front (Some waiting)) (MkPanel front (Some waiting)).

Inductive panel_steps (mode : Mode) (layout : PixelLayout)
    : list (BackendCall * result DrmError unit) → Panel → Panel → Prop :=
| panel_still panel : panel_steps mode layout [] panel panel
| panel_on call answer rest panel panel' panel'' :
    panel_step mode layout call answer panel panel' → panel_steps mode layout rest panel' panel'' →
    panel_steps mode layout ((call, answer) :: rest) panel panel''.

(** * Buffers that hold a frame's picture *)

(** Each byte of each pixel of the frame is where the kernel looks for it. *)
Definition shows (b : ScanoutBuffer) (frame : PixelFrame) : Prop :=
  let bpp := bytes_per_pixel (pf_layout frame) in
  ∀ x y k, 0 ≤ x < size_width (pf_size frame) → 0 ≤ y < size_height (pf_size frame) → 0 ≤ k < bpp →
    ∃ v, pixel (pf_bytes frame) (pf_stride frame) bpp x y k = Some v ∧
         pixel (sb_memory b) (sb_pitch b) bpp x y k = Some v.

(** One check of a run that ended well: what it found. *)
Ltac passed E :=
  match goal with |- context [lift (ok_or ?o _)] =>
    destruct o eqn:E; [cbn [ok_or]; rewrite ST_lift_bind|discriminate] end.

Lemma copy_row_ok bytes S D n row dst dst' :
  copy_row bytes S D n row dst = (Ok tt, dst') →
  0 ≤ n ∧ 0 ≤ row * S ∧ row * S + n ≤ len bytes ∧ row * D + n ≤ len dst ∧
  copied bytes (row * S) (row * D) n dst dst'.
Proof.
  unfold copy_row. passed E1. passed E2. passed E3. passed E4. passed E5. unfold write_row.
  destruct (get_range dst _ _) as [r'|] eqn:E6; [|discriminate]. intros [= <-].
  apply checked_mul_inv in E1 as [-> _], E3 as [-> _]. apply checked_add_inv in E2 as [-> _], E4 as [-> _].
  pose proof (get_range_Some _ _ _ _ E5) as (? & ? & ? & Hl).
  pose proof (get_range_Some _ _ _ _ E6) as (? & ? & ? & _).
  repeat split; try lia.
  - unfold len at 1. rewrite length_put_range by lia. done.
  - intros i Hi. unfold byte_at. rewrite put_range_lookup by lia.
    replace (row * D + len l) with (row * D + n) by lia. case_decide; [|done].
    by rewrite (get_range_lookup _ _ _ _ _ E5) by lia.
Qed.

Lemma copy_frame_ok frame mode layout b b' :
  md_width mode * bytes_per_pixel layout ≤ sb_pitch b →
  copy_frame frame mode layout b = (Ok tt, b') →
  fits mode layout frame ∧ sb_pitch b' = sb_pitch b ∧ shows b' frame.
Proof.
  intros Hp. unfold copy_frame. destruct (negb _ || negb _) eqn:Es; [discriminate|].
  apply orb_false_iff in Es as [Ew%negb_false_iff%Z.eqb_eq Eh%negb_false_iff%Z.eqb_eq].
  rewrite <- Ew in Hp.
  destruct (negb _) eqn:El; [discriminate|]. apply negb_false_iff, bool_decide_eq_true_1 in El.
  destruct (checked_mul _ _ _) as [n|] eqn:En; [|discriminate]. apply checked_mul_inv in En as [-> _].
  destruct (for_rows _ _ _ _) as [[[]|e] after] eqn:Erun; [|discriminate]. intros [= <-].
  split; [done|]. split; [done|]. unfold shows. cbv zeta. intros x y k Hx Hy Hk. rewrite El in Hk |- *.
  cbn [sb_pitch set_sb_memory sb_memory].
  destruct (for_rows_each _ _ _ _ _ y Erun) as (l & l' & Hrow); [lia|].
  apply copy_row_ok in Hrow as (Hn & HyS & Hfit & _).
  assert ((x + 1) * bytes_per_pixel layout ≤ size_width (pf_size frame) * bytes_per_pixel layout) by nia.
  assert (0 ≤ x * bytes_per_pixel layout) by nia.
  assert (Hrows : rows_copied (pf_bytes frame) 0 (pf_stride frame) (0 * sb_pitch b + 0 * bytes_per_pixel layout)
                    (sb_pitch b) (size_width (pf_size frame) * bytes_per_pixel layout)
                    (size_height (pf_size frame)) (sb_memory b) after).
  { apply for_rows_ok with (source := pf_bytes frame) (S := pf_stride frame) (D := sb_pitch b)
      (n := size_width (pf_size frame) * bytes_per_pixel layout) in Erun; [|lia|lia|].
    - rewrite !Z.mul_0_l, Z2Nat.id in Erun by lia. exact Erun.
    - intros r m m' Hr Hc. by apply copy_row_ok in Hc as (_ & _ & _ & _ & Hc). }
  destruct (lookup_lt_is_Some_2 (pf_bytes frame)
    (Z.to_nat (y * pf_stride frame + x * bytes_per_pixel layout + k))) as [v Hv]; [unfold len in *; lia|].
  exists v. split; [exact Hv|].
  rewrite (rows_pixels (pf_bytes frame) 0 (pf_stride frame) (sb_pitch b) (bytes_per_pixel layout) 0 0
             (size_width (pf_size frame)) (size_height (pf_size frame)) (sb_memory b) after) by (done || lia).
  rewrite decide_True by lia. rewrite <- Hv. unfold byte_at. f_equal. lia.
Qed.

(** ** Copies keep the size of the memory, and end well where it is enough *)

Lemma for_rows_kept {St E} (P : St → Prop) (body : Z → ST St E unit) (h : nat) from s :
  (∀ r s, P s → P (body r s).2) → P s → P (for_rows h from body s).2.
Proof.
  intros Hb. revert from s. induction h as [|h IH]; intros from s Hs; [done|]. cbn [for_rows].
  rewrite ST_bind_run. specialize (Hb from s Hs). destruct (body from s) as [[[]|e] s']; [by apply IH|done].
Qed.

Lemma for_rows_runs {St E} (P : St → Prop) (body : Z → ST St E unit) (h : nat) from s :
  (∀ r s, from ≤ r < from + Z.of_nat h → P s → ∃ s', body r s = (Ok tt, s') ∧ P s') → P s →
  ∃ s', for_rows h from body s = (Ok tt, s').
Proof.
  revert from s. induction h as [|h IH]; intros from s Hb Hs; [by exists s|]. cbn [for_rows].
  rewrite ST_bind_run. destruct (Hb from s) as (s1 & -> & Hs1); [lia|done|]. apply IH; [|done].
  intros r s2 Hr. apply Hb. lia.
Qed.

Lemma copy_row_err bytes S D n row dst e dst' : copy_row bytes S D n row dst = (Err e, dst') → dst' = dst.
Proof.
  unfold copy_row, write_row. 
  repeat match goal with |- context [lift (ok_or ?o _)] =>
    destruct o; [cbn [ok_or]; rewrite ST_lift_bind|by intros [= _ <-]] end.
  destruct (get_range dst _ _); [discriminate|by intros [= _ <-]].
Qed.

Lemma copy_row_len bytes S D n row dst : len (copy_row bytes S D n row dst).2 = len dst.
Proof.
  destruct (copy_row bytes S D n row dst) as [[[]|e] dst'] eqn:E.
  - by apply copy_row_ok in E as (_ & _ & _ & _ & Hl & _).
  - by apply copy_row_err in E as ->.
Qed.

Lemma copy_frame_kept frame mode layout b :
  let b' := (copy_frame frame mode layout b).2 in
  sb_pitch b' = sb_pitch b ∧ len (sb_memory b') = len (sb_memory b).
Proof.
  unfold copy_frame. destruct (negb _ || negb _); [done|]. destruct (negb _); [done|].
  destruct (checked_mul _ _ _) as [n|]; [|done].
  pose proof (for_rows_kept (λ m, len m = len (sb_memory b))
    (copy_row (pf_bytes frame) (pf_stride frame) (sb_pitch b) n)
    (Z.to_nat (size_height (pf_size frame))) 0 (sb_memory b)) as Hk.
  destruct (for_rows _ _ _ _) as [r m]. split; [done|]. apply Hk; [|done].
  intros row s Hs. by rewrite copy_row_len.
Qed.

Lemma copy_row_runs bytes S D n row dst :
  0 ≤ row → 0 ≤ S → 0 ≤ D → 0 ≤ n → row * S + n ≤ len bytes → row * D + n ≤ len dst →
  len bytes ≤ u64_max → len dst ≤ u64_max → ∃ dst', copy_row bytes S D n row dst = (Ok tt, dst').
Proof.
  intros. assert (0 ≤ row * S ∧ 0 ≤ row * D) as [] by nia. unfold copy_row, usize_max.
  destruct (get_range_ok bytes (row * S) (row * S + n)) as (r & Hr & _); [lia..|].
  destruct (get_range_ok dst (row * D) (row * D + n)) as (r' & Hr' & _); [lia..|].
  checks. rewrite Hr. checks. unfold write_row. rewrite Hr'. by eexists.
Qed.

(** A buffer large enough for the mode. *)
Definition roomy (mode : Mode) (layout : PixelLayout) (b : ScanoutBuffer) : Prop :=
  holds_picture (sb_memory b) (sb_pitch b) (bytes_per_pixel layout) (md_width mode) (md_height mode).
Lemma roomy_kept mode layout frame m l b : roomy mode layout b → roomy mode layout (copy_frame frame m l b).2.
Proof.
  destruct (copy_frame_kept frame m l b) as [Hp Hl]. unfold roomy. intros []. split; rewrite ?Hp, ?Hl; done.
Qed.

Lemma copy_frame_runs frame mode layout b :
  fits mode layout frame → whole frame → roomy mode layout b → ∃ b', copy_frame frame mode layout b = (Ok tt, b').
Proof.
  intros (Hw & Hh & Hl) Hf Hb. unfold whole in Hf. unfold roomy in Hb. rewrite <- Hw, <- Hh, <- Hl in Hb.
  unfold copy_frame. rewrite <- Hw, <- Hh, <- Hl, !Z.eqb_refl, bool_decide_eq_true_2 by done. cbn [negb orb].
  destruct Hf as [Hbpp HW HH Hrow Hlen Hfit]. destruct Hb as [_ _ _ Hrow' Hlen' Hfit'].
  assert (0 ≤ size_width (pf_size frame) * bytes_per_pixel (pf_layout frame)) by nia.
  rewrite checked_mul_ok by width_lia.
  destruct (for_rows_runs (λ m, len m = len (sb_memory b))
    (copy_row (pf_bytes frame) (pf_stride frame) (sb_pitch b)
       (size_width (pf_size frame) * bytes_per_pixel (pf_layout frame)))
    (Z.to_nat (size_height (pf_size frame))) 0 (sb_memory b)) as [m ->]; [|done|by eexists].
  intros r s Hr Hs. rewrite Z2Nat.id in Hr by lia.
  assert (0 ≤ (size_height (pf_size frame) - 1 - r) * pf_stride frame) by nia.
  assert (0 ≤ (size_height (pf_size frame) - 1 - r) * sb_pitch b) by nia.
  destruct (copy_row_runs (pf_bytes frame) (pf_stride frame) (sb_pitch b)
    (size_width (pf_size frame) * bytes_per_pixel (pf_layout frame)) r s) as [s' Hrun]; [lia..|].
  exists s'. split; [done|]. pose proof (copy_row_len (pf_bytes frame) (pf_stride frame) (sb_pitch b)
    (size_width (pf_size frame) * bytes_per_pixel (pf_layout frame)) r s) as Hl'. rewrite Hrun in Hl'.
  cbn in Hl'. lia.
Qed.

(** * The simulation *)

Section Shown.
Context {K : Type} {DK : DrmKernel K}.

(** A backend that shows what the panel shows: in front the buffer being scanned, behind it the other. *)
Record displays (self : IoctlBackend) (panel : Panel) : Prop := {
  dp_index : ib_scanning_index self = 0 ∨ ib_scanning_index self = 1;
  dp_path : ib_presentation self ≠ Uninitialized;
  dp_roomy i : roomy (device_mode (ib_device self)) (ib_layout self) (buffer_at (ib_buffers self) i);
  dp_front f : pn_front panel = Some f → shows (buffer_at (ib_buffers self) (ib_scanning_index self)) f;
  dp_pending : ib_pending_index self =
    match pn_waiting panel with Some _ => Some (next_buffer_index (ib_scanning_index self)) | None => None end;
  dp_waiting f : pn_waiting panel = Some f →
    shows (buffer_at (ib_buffers self) (next_buffer_index (ib_scanning_index self))) f;
}.

Lemma next_index_other i : i = 0 ∨ i = 1 → next_buffer_index i ≠ i ∧ (next_buffer_index i = 0 ∨ next_buffer_index i = 1).
Proof. intros [-> | ->]; (split; [discriminate|]); [by right|by left]. Qed.

Lemma buffer_at_put i j b bufs :
  (i = 0 ∨ i = 1) → (j = 0 ∨ j = 1) →
  buffer_at (put_buffer i b bufs) j = if decide (i = j) then b else buffer_at bufs j.
Proof. by intros [-> | ->] [-> | ->]. Qed.

(** The backend with the next buffer written over. *)
Lemma displays_written self front b :
  displays self (MkPanel front None) → roomy (device_mode (ib_device self)) (ib_layout self) b →
  displays (set_ib_buffers (put_buffer (next_buffer_index (ib_scanning_index self)) b (ib_buffers self)) self)
    (MkPanel front None).
Proof.
  intros [Hi Hp Hr Hf Hn _] Hb. destruct (next_index_other _ Hi) as [Hne Hn1].
  split; cbn [set_ib_buffers ib_scanning_index ib_presentation ib_device ib_layout ib_buffers ib_pending_index
              pn_front pn_waiting] in *; try done.
  - intros i. specialize (Hr i). unfold buffer_at, put_buffer in *.
    by destruct (next_buffer_index _ =? 0), (i =? 0).
  - intros f H. rewrite buffer_at_put, decide_False by done. by apply Hf.
Qed.

Lemma flip_errors self target k e k' :
  ib_presentation self ≠ Uninitialized → flip self target k = (Err e, k') → flip_refused e = true.
Proof.
  intros Hp. unfold flip. destruct (ib_presentation self) as [| |state]; [done| |].
  - unfold legacy_flip. rewrite ST_bind_run. unfold ST_map_err. destruct (drm_ioctl _ _ _ k) as [[a|errno] k1].
    + by intros [=].
    + intros [= <- _]. unfold page_flip_error, access_error. repeat case_match; done.
  - unfold atomic_flip, commit_tested. rewrite ST_bind_run. unfold ST_map_err at 1.
    destruct (drm_ioctl _ _ _ k) as [[a|errno] k1].
    + rewrite ST_bind_run. unfold ST_map_err. destruct (drm_ioctl _ _ _ k1) as [[a'|errno] k2]; [by intros [=]|].
      intros [= <- _]. unfold atomic_commit_error, access_error. repeat case_match; done.
    + intros [= <- _]. unfold test_commit_error, access_error. repeat case_match; done.
Qed.

Lemma copy_frame_error frame mode layout b e b' :
  copy_frame frame mode layout b = (Err e, b') → e ≠ FlipPending.
Proof.
  unfold copy_frame. destruct (negb _ || negb _); [by intros [= <- _]|]. destruct (negb _); [by intros [= <- _]|].
  destruct (checked_mul _ _ _) as [n|]; [|by intros [= <- _]].
  destruct (for_rows _ _ _ _) as [r m] eqn:E. intros [= -> _]. revert E.
  generalize (Z.to_nat (size_height (pf_size frame))) 0 (sb_memory b).
  intros h. induction h as [|h IH]; intros from dst; [done|]. cbn [for_rows]. rewrite ST_bind_run.
  destruct (copy_row _ _ _ _ from dst) as [[[]|e'] d] eqn:Erow; [apply IH|]. intros [= -> _]. revert Erow.
  unfold copy_row, write_row.
  repeat match goal with |- context [lift (ok_or ?o _)] =>
    destruct o; [cbn [ok_or]; rewrite ST_lift_bind|by intros [= <- _]] end.
  destruct (get_range dst _ _); [discriminate|by intros [= <- _]].
Qed.

Lemma present_simulated self panel frame report k :
  displays self panel →
  let '(r, (k', self')) := backend_present frame report (k, self) in
  ∃ panel', panel_step (device_mode (ib_device self)) (ib_layout self) (Present frame report) r panel panel' ∧
            displays self' panel'.
Proof.
  intros HD. destruct panel as [front [waiting|]].
  { pose proof (dp_pending _ _ HD) as Hp. unfold backend_present. rewrite Hp. cbn. eexists. by split; [constructor|]. }
  pose proof HD as [Hi Hpath Hroom Hf Hp _]. cbn [pn_waiting] in Hp. destruct (next_index_other _ Hi) as [Hne Hn1].
  unfold backend_present. rewrite Hp. set (target := next_buffer_index _) in *. cbv zeta.
  pose proof (roomy_kept _ _ frame (device_mode (ib_device self)) (ib_layout self) _ (Hroom target)) as Hkept.
  pose proof (copy_frame_runs frame (device_mode (ib_device self)) (ib_layout self) (buffer_at (ib_buffers self) target)) as Hruns.
  destruct (copy_frame _ _ _ _) as [[[]|e] b] eqn:Ecopy; cbn [snd] in Hkept.
  - pose proof (displays_written self front b HD Hkept) as HD'. fold target in HD'.
    apply copy_frame_ok in Ecopy as (Hfits & Hpitch & Hshows); [|apply (Hroom target)].
    destruct (flip _ target k) as [[[]|e] k'] eqn:Eflip.
    + eexists. split; [by constructor|]. destruct HD' as [Hi' Hpath' Hroom' Hf' Hp' _].
      split; cbn [set_ib_buffers set_ib_pending_index ib_scanning_index ib_presentation ib_device ib_layout ib_buffers
                  ib_pending_index pn_front pn_waiting] in *; try done.
      intros f [= <-]. fold target. by rewrite buffer_at_put, decide_True by done.
    + eexists. split; [|exact HD']. apply flip_errors in Eflip; [|done].
      constructor; [by intros ->|done].
  - eexists. split; [|by apply displays_written]. constructor; [by eapply copy_frame_error|].
    intros Hfits Hwhole. by destruct (Hruns Hfits Hwhole (Hroom target)).
Qed.

Lemma complete_simulated self panel k :
  displays self panel →
  let '(r, (k', self')) := complete_flip (k, self) in
  ∃ panel', panel_step (device_mode (ib_device self)) (ib_layout self) CompleteFlip r panel panel' ∧
            displays self' panel'.
Proof.
  intros HD. pose proof HD as [Hi Hpath Hroom Hf Hp Hw]. destruct panel as [front [waiting|]]; cbn [pn_waiting] in *;
    unfold complete_flip; rewrite Hp.
  - destruct (drm_read _ _ k) as [[bytes|errno] k']; [|eexists; by split; [constructor|]].
    destruct (contains_flip_event _) as [[]|e]; [|eexists; by split; [constructor|]..].
    eexists. split; [constructor|]. destruct (next_index_other _ Hi) as [Hne Hn1].
    split; cbn [set_ib_scanning_index set_ib_pending_index ib_scanning_index ib_presentation ib_device ib_layout
                ib_buffers ib_pending_index pn_front pn_waiting] in *; try done.
  - eexists. by split; [constructor|].
Qed.

Lemma call_simulated self panel call k :
  displays self panel →
  let '(r, (k', self')) := backend_call call (k, self) in
  ∃ panel', panel_step (device_mode (ib_device self)) (ib_layout self) call r panel panel' ∧ displays self' panel'.
Proof. destruct call; [apply present_simulated|apply complete_simulated]. Qed.
End Shown.

(** * What opening leaves *)

(** A kernel that leaves the size it is asked for as it was, and answers with 32-bit numbers. *)
Class DrmGeometry (K : Type) {DK : DrmKernel K} := {
  create_typed file a k answer a' k' :
    drm_request MODE_CREATE_DUMB file a k = (answer, a', k') → answer ≠ -1 →
    cd_width a' = cd_width a ∧ cd_height a' = cd_height a ∧
    is_u32 (cd_width a') ∧ is_u32 (cd_height a') ∧ is_u32 (cd_pitch a');
}.

Lemma buffer_geometry_ok width height bpp pitch buffer_size g :
  buffer_geometry width height bpp pitch buffer_size = Ok g →
  width ≠ 0 ∧ height ≠ 0 ∧ width * bpp ≤ pitch ∧ bg_size g = pitch * height ∧ bg_size g ≤ isize_max ∧
  bg_size g ≤ buffer_size.
Proof.
  unfold buffer_geometry. destruct (_ || _) eqn:Ez; [done|].
  apply orb_false_iff in Ez as [Hw%Z.eqb_neq Hh%Z.eqb_neq].
  destruct (checked_mul _ width bpp) as [row|] eqn:Er; [|done]. apply checked_mul_inv in Er as [-> _]. cbn.
  destruct (Z.ltb_spec pitch (width * bpp)); [done|].
  destruct (checked_mul _ pitch height) as [size|] eqn:Es; [|done]. apply checked_mul_inv in Es as [-> _]. cbn.
  destruct (Z.ltb_spec buffer_size (pitch * height)); [done|].
  destruct (try_from _ _); [|done]. cbn. destruct (Z.ltb_spec isize_max (pitch * height)); [done|].
  intros [= <-]. cbn. lia.
Qed.

Lemma drm_format_ok layout f : drm_format layout = Ok f → 1 ≤ bytes_per_pixel layout ≤ 4.
Proof.
  unfold drm_format. destruct (bytes_per_pixel layout) as [|p|p]; [done| |done].
  do 3 (destruct p as [p|p|]; try done).
Qed.

Section Opened.
Context {K : Type} {DK : DrmKernel K} {DG : DrmGeometry K}.

(** A run that ended well, through its first step. *)
Lemma ST_bind_inv {E A B} (m : ST K E A) (f : A → ST K E B) k b k' :
  (m ≫= f) k = (Ok b, k') → ∃ a k1, m k = (Ok a, k1) ∧ f a k1 = (Ok b, k').
Proof. rewrite ST_bind_run. destruct (m k) as [[a|e] k1]; [|done]. intros H. by exists a, k1. Qed.

Lemma ST_lift_inv {E A} (r : result E A) k (a : A) k' : (lift r : ST K E A) k = (Ok a, k') → r = Ok a ∧ k' = k.
Proof. by intros [= -> ->]. Qed.

Lemma ST_map_err_inv {E E' A} (f : E → E') (m : ST K E A) k a k' :
  ST_map_err f m k = (Ok a, k') → m k = (Ok a, k').
Proof. unfold ST_map_err. destruct (m k) as [[b|e] k1]; [by intros [= -> ->]|done]. Qed.

Lemma or_undo_inv {A} undo (m : ST K DrmError A) k a k' : or_undo undo m k = (Ok a, k') → m k = (Ok a, k').
Proof. unfold or_undo. by destruct (m k) as [[b|e] k1]. Qed.

Lemma map_buffer_ok file format i create size offset k b k' :
  map_buffer file format i create size offset k = (Ok b, k') →
  sb_pitch b = cd_pitch create ∧ len (sb_memory b) = Z.of_nat (Z.to_nat size).
Proof.
  unfold map_buffer. destruct (drm_map _ _ _ _) as [[mapped memory] k1]. destruct (mapped =? _); [done|].
  destruct (mapped =? 0); [done|]. destruct (drm_ioctl _ _ _ k1) as [[fb|e] k2]; [|done].
  intros [= <- <-]. split; [done|]. unfold len, zeroes. cbn [sb_memory].
  by rewrite length_written_over, length_replicate.
Qed.

Lemma allocate_buffer_ok device layout i k b k' :
  allocate_buffer device layout i k = (Ok b, k') → roomy (device_mode device) layout b.
Proof.
  unfold allocate_buffer. intros (f & k1 & Hf & H)%ST_bind_inv. apply ST_lift_inv in Hf as [Hf%drm_format_ok ->].
  apply ST_bind_inv in H as (bpp & k2 & _ & H). apply ST_bind_inv in H as (create & k3 & Hc & H).
  apply ST_map_err_inv in Hc. apply or_undo_inv in H. unfold allocate_after_create in H.
  apply ST_bind_inv in H as (g & k4 & Hg & H). apply ST_lift_inv in Hg as [Hg%buffer_geometry_ok _].
  apply ST_bind_inv in H as (size & k5 & Hs & H). apply ST_lift_inv in Hs as [Hs _].
  apply ST_bind_inv in H as (m & k6 & _ & H). apply ST_bind_inv in H as (offset & k7 & _ & H).
  apply map_buffer_ok in H as [Hp Hl].
  assert (Hsize : size = bg_size g ∧ 0 ≤ size).
  { unfold try_from in Hs. destruct ((0 <=? bg_size g) && _) eqn:E; [|done]. cbn in Hs. injection Hs as <-.
    apply andb_true_iff in E as [E%Z.leb_le _]. done. }
  unfold drm_ioctl in Hc. destruct (drm_request _ _ _ k2) as [[answer a'] k8] eqn:Ereq.
  destruct (Z.eqb_spec answer (-1)) as [|Hne]; [done|]. injection Hc as -> _.
  apply create_typed in Ereq as (Ew & Eh & ? & ? & ?); [|done]. cbn in Ew, Eh.
  rewrite Ew, Eh in *. destruct Hsize as [-> Hsize]. rewrite Z2Nat.id in Hl by done.
  unfold roomy. rewrite <- Hp in *. unfold is_u32, isize_max in *.
  split; rewrite ?Hl; unfold u8_max, u64_max in *; try lia. unfold i64_max in *. lia.
Qed.

Lemma initialize_display_ok self k k' self' :
  initialize_display (k, self) = (Ok tt, (k', self')) →
  ∃ path, path ≠ Uninitialized ∧ self' = set_ib_presentation path self.
Proof.
  unfold initialize_display. destruct (dc_atomic_commit _).
  - unfold initialize_atomic. match goal with |- context[let '(r, k0) := ?m k in _] => destruct (m k) as [[state|e] k1] end;
      intros [= <- <-]. by exists (Atomic state).
  - unfold initialize_legacy. destruct (ST_map_err _ _ k) as [[a|e] k1]; intros [= <- <-]. by exists Legacy.
Qed.

Lemma open_displays config layout k self k' :
  IoctlBackend_open config layout k = (Ok self, k') → ib_layout self = layout ∧ displays self blank_panel.
Proof.
  unfold IoctlBackend_open. intros (device & k1 & _ & H)%ST_bind_inv. destruct (negb _).
  { apply or_undo_inv in H. done. }
  apply ST_bind_inv in H as (b1 & k2 & H1%or_undo_inv%allocate_buffer_ok & H).
  apply ST_bind_inv in H as (b2 & k3 & H2%or_undo_inv%allocate_buffer_ok & H).
  unfold display_or_drop in H. destruct (initialize_display _) as [[[]|e] [k4 self4]] eqn:Ei; [|done].
  injection H as -> _. apply initialize_display_ok in Ei as (path & Hpath & ->). split; [done|].
  split; cbn; try done; [by left|]. intros i. unfold buffer_at. by destruct (i =? 0).
Qed.

Lemma call_in_place call k self :
  let '(k', self') := (backend_call call (k, self)).2 in
  ib_device self' = ib_device self ∧ ib_layout self' = ib_layout self.
Proof.
  destruct call as [frame report|]; cbn [backend_call].
  - unfold backend_present. destruct (ib_pending_index self); [done|].
    destruct (copy_frame _ _ _ _) as [[u|e] b]; [|done]. by destruct (flip _ _ k) as [[u'|e] k'].
  - unfold complete_flip. destruct (ib_pending_index self); [|done].
    destruct (drm_read _ _ _) as [[bytes|e] k']; [|done]. by destruct (contains_flip_event _) as [[]|].
Qed.

(** The calls with what each was answered, and where they lead. *)
Fixpoint backend_trace (calls : list BackendCall) (s : K * IoctlBackend)
    : list (BackendCall * result DrmError unit) * (K * IoctlBackend) :=
  match calls with
  | [] => ([], s)
  | call :: rest =>
      let '(answer, s) := backend_call call s in
      let '(answers, s) := backend_trace rest s in
      ((call, answer) :: answers, s)
  end.

Lemma trace_simulated calls : ∀ k self panel,
  displays self panel →
  let '(answered, (k', self')) := backend_trace calls (k, self) in
  ∃ panel', panel_steps (device_mode (ib_device self)) (ib_layout self) answered panel panel' ∧
            displays self' panel'.
Proof.
  induction calls as [|call calls IH]; intros k self panel HD; [eexists; by split; [constructor|]|].
  cbn [backend_trace]. pose proof (call_simulated self panel call k HD) as HC.
  pose proof (call_in_place call k self) as HS. destruct (backend_call call (k, self)) as [answer [k1 self1]].
  destruct HC as (panel1 & Hstep & HD1). destruct HS as [Hdev Hlay]. specialize (IH k1 self1 panel1 HD1).
  destruct (backend_trace calls (k1, self1)) as [answered [k2 self2]]. destruct IH as (panel2 & Hsteps & HD2).
  rewrite Hdev, Hlay in Hsteps. exists panel2. split; [by econstructor|done].
Qed.

(** C15. Scanout is a panel. From a backend that opened, whatever calls are made and whatever the kernel
    answers, each call's answer is one the panel may give: a frame is queued only when none waits and when
    it is as large as the mode and of the layout, and one that is so, with all its bytes, is refused for
    nothing but the kernel's refusal of the flip; a completion puts the waiting frame in front; and what
    fails changes neither. And all the while the buffer in front holds, pixel by pixel, the picture of the
    last frame whose flip was completed, the other one that of the frame that waits. *)
Theorem scanout_is_a_panel config layout k self k' :
  IoctlBackend_open config layout k = (Ok self, k') →
  ∀ calls, let '(answered, (k'', self')) := backend_trace calls (k', self) in
    ∃ panel, panel_steps (device_mode (ib_device self)) layout answered blank_panel panel ∧
             displays self' panel.
Proof.
  intros Hopen calls. apply open_displays in Hopen as [<- HD]. exact (trace_simulated calls k' self _ HD).
Qed.
End Opened.

(** * No tearing *)

(** A kernel whose display reads framebuffers: those it may be reading, and the one it was last asked to.
    A flip that is taken adds one, a test, a refusal and what takes nothing adds none, and the event of a
    flip is written when only what was asked for last is read. Fewer may be read at any time. *)
Class DrmScanning (K : Type) {DK : DrmKernel K} := {
  scanned : K → gset Z;
  asked : K → option Z;
  page_flip_scanned file a k answer a' k' :
    drm_request MODE_PAGE_FLIP file a k = (answer, a', k') →
    if answer =? -1 then scanned k' ⊆ scanned k ∧ asked k' = asked k
    else scanned k' ⊆ scanned k ∪ {[pg_fb_id a]} ∧ asked k' = Some (pg_fb_id a);
  atomic_tested file a k answer a' k' :
    drm_request MODE_ATOMIC file a k = (answer, a', k') →
    answer = -1 ∨ Z.testbit (ac_flags a) 8 = true → scanned k' ⊆ scanned k ∧ asked k' = asked k;
  atomic_tested_kept file a k answer a' k' :
    drm_request MODE_ATOMIC file a k = (answer, a', k') → ac_prop_values a' = ac_prop_values a;
  atomic_scanned file a k answer a' k' framebuffer_id :
    drm_request MODE_ATOMIC file a k = (answer, a', k') → answer ≠ -1 →
    Z.testbit (ac_flags a) 8 = false → ac_prop_values a = [framebuffer_id] →
    scanned k' ⊆ scanned k ∪ {[framebuffer_id]} ∧ asked k' = Some framebuffer_id;
  event_scanned file n k bytes k' :
    drm_read file n k = (Ok bytes, k') →
    len bytes ≤ isize_max ∧ asked k' = asked k ∧ scanned k' ⊆ scanned k ∧
    (announces_flip (take (Z.to_nat n) bytes) → ∀ framebuffer_id, asked k = Some framebuffer_id → scanned k' ⊆ {[framebuffer_id]});
  failed_read_scanned file n k errno k' :
    drm_read file n k = (Err errno, k') → asked k' = asked k ∧ scanned k' ⊆ scanned k;
}.

Section Tearing.
Context {K : Type} {DK : DrmKernel K} {DS : DrmScanning K}.

Definition front_id (self : IoctlBackend) : Z :=
  sb_framebuffer_id (buffer_at (ib_buffers self) (ib_scanning_index self)).
Definition next_id (self : IoctlBackend) : Z :=
  sb_framebuffer_id (buffer_at (ib_buffers self) (next_buffer_index (ib_scanning_index self))).

(** Only the buffer in front is read, and the next one once its flip was asked for. *)
Definition untorn (k : K) (self : IoctlBackend) : Prop :=
  (ib_scanning_index self = 0 ∨ ib_scanning_index self = 1) ∧ front_id self ≠ next_id self ∧
  match ib_pending_index self with
  | None => scanned k ⊆ {[front_id self]}
  | Some i => i = next_buffer_index (ib_scanning_index self) ∧ asked k = Some (next_id self) ∧
              scanned k ⊆ {[front_id self; next_id self]}
  end.

Lemma flip_scanned self target k r k' :
  flip self target k = (r, k') →
  let id := sb_framebuffer_id (buffer_at (ib_buffers self) target) in
  match r with
  | Ok _ => scanned k' ⊆ scanned k ∪ {[id]} ∧ asked k' = Some id
  | Err _ => scanned k' ⊆ scanned k
  end.
Proof.
  intros H id. unfold flip in H. destruct (ib_presentation self) as [| |state]; [by injection H as <- <-| |].
  - revert H. unfold legacy_flip. rewrite ST_bind_run. unfold ST_map_err, drm_ioctl.
    match goal with |- context[drm_request MODE_PAGE_FLIP ?f ?a k] =>
      destruct (drm_request MODE_PAGE_FLIP f a k) as [[answer a'] k1] eqn:E end.
    apply page_flip_scanned in E. destruct (answer =? -1); intros [= <- <-]; [apply E|exact E].
  - revert H. unfold atomic_flip, commit_tested. rewrite ST_bind_run. unfold ST_map_err at 1, drm_ioctl at 1.
    match goal with |- context[drm_request MODE_ATOMIC ?f ?a k] =>
      destruct (drm_request MODE_ATOMIC f a k) as [[answer a'] k1] eqn:E end.
    pose proof (atomic_tested_kept _ _ _ _ _ _ E) as Ev. apply atomic_tested in E as [Es _]; [|by right].
    cbn [ac_prop_values] in Ev.
    destruct (answer =? -1); [by intros [= <- <-]|]. rewrite ST_bind_run. unfold ST_map_err, drm_ioctl.
    destruct (drm_request MODE_ATOMIC _ (set_ac_flags _ a') k1) as [[answer' a''] k2] eqn:E'.
    destruct (Z.eqb_spec answer' (-1)) as [Hf|Hok]; intros [= <- <-].
    + apply atomic_tested in E' as [Es' _]; [|by left]. by etransitivity.
    + eapply atomic_scanned in E' as [Es' Ha]; [|done|done|exact Ev]. split; [|done].
      etransitivity; [exact Es'|]. by apply union_mono_r.
Qed.

Lemma same_ids self bufs i :
  (i = 0 ∨ i = 1) → same_buffer (buffer_at (ib_buffers self) i) bufs →
  ∀ j, j = 0 ∨ j = 1 → sb_framebuffer_id (buffer_at (put_buffer i bufs (ib_buffers self)) j) =
                       sb_framebuffer_id (buffer_at (ib_buffers self) j).
Proof.
  intros Hi (_ & Hid & _) j Hj. rewrite buffer_at_put by done. case_decide as Hd; [by subst|done].
Qed.

Lemma present_untorn frame report k self :
  untorn k self →
  let '(k', self') := (backend_present frame report (k, self)).2 in
  untorn k' self' ∧
  ∀ i, i = 0 ∨ i = 1 → sb_framebuffer_id (buffer_at (ib_buffers self) i) ∈ scanned k →
       buffer_at (ib_buffers self') i = buffer_at (ib_buffers self) i.
Proof.
  intros HU. pose proof HU as (Hi & Hne & Hp). unfold backend_present.
  destruct (ib_pending_index self) as [p|] eqn:Epend; [done|].
  destruct (next_index_other _ Hi) as [Hother Hn]. set (target := next_buffer_index (ib_scanning_index self)) in *.
  cbv zeta. fold target.
  pose proof (copy_frame_same frame (device_mode (ib_device self)) (ib_layout self)
                (buffer_at (ib_buffers self) target)) as Hsame.
  destruct (copy_frame _ _ _ _) as [r b]. cbn [snd] in Hsame.
  pose proof (same_ids self b target Hn Hsame) as Hids.
  set (self1 := set_ib_buffers (put_buffer target b (ib_buffers self)) self).
  assert (Hf1 : front_id self1 = front_id self) by (apply (Hids _ Hi)).
  assert (Hn1 : next_id self1 = next_id self) by (apply (Hids _ Hn)).
  assert (Hkept : ∀ i, i = 0 ∨ i = 1 → sb_framebuffer_id (buffer_at (ib_buffers self) i) ∈ scanned k →
                       buffer_at (ib_buffers self1) i = buffer_at (ib_buffers self) i).
  { intros i Hi01 Hin. cbn. rewrite buffer_at_put by done. case_decide as Hd; [|done]. subst i.
    apply Hp in Hin. apply elem_of_singleton in Hin. by destruct Hne. }
  assert (HU1 : ∀ k1, scanned k1 ⊆ scanned k → untorn k1 self1).
  { intros k1 Hk1. split; [done|]. split; [by rewrite Hf1, Hn1|]. cbn [self1 set_ib_buffers ib_pending_index].
    rewrite Epend, Hf1. by etransitivity. }
  destruct r as [[]|e]; [|split; [by apply HU1|exact Hkept]].
  fold self1. destruct (flip self1 target k) as [r k'] eqn:Eflip. apply flip_scanned in Eflip.
  assert (Hid : sb_framebuffer_id (buffer_at (ib_buffers self1) target) = next_id self) by (rewrite <- Hn1; done).
  rewrite Hid in Eflip. destruct r as [[]|e].
  - destruct Eflip as [Es Ha]. split; [|exact Hkept]. split; [done|]. 
    split; [change (front_id self1 ≠ next_id self1); by rewrite Hf1, Hn1|].
    cbn [set_ib_pending_index ib_pending_index]. split; [done|].
    change (next_id (set_ib_pending_index _ self1)) with (next_id self1).
    change (front_id (set_ib_pending_index _ self1)) with (front_id self1). rewrite Hf1, Hn1.
    split; [done|]. etransitivity; [exact Es|]. by apply union_mono_r.
  - split; [by apply HU1|exact Hkept].
Qed.

Lemma complete_untorn k self :
  untorn k self →
  let '(k', self') := (complete_flip (k, self)).2 in untorn k' self' ∧ ib_buffers self' = ib_buffers self.
Proof.
  intros HU. pose proof HU as (Hi & Hne & Hp). unfold complete_flip.
  destruct (ib_pending_index self) as [p|] eqn:Epend; [|done]. destruct Hp as (-> & Ha & Hs).
  assert (Hstill : ∀ k', asked k' = asked k → scanned k' ⊆ scanned k → untorn k' self).
  { intros k' Ha' Hs'. split; [done|]. split; [done|]. rewrite Epend. split; [done|]. rewrite Ha'. split; [done|].
    by etransitivity. }
  destruct (drm_read _ _ k) as [[bytes|errno] k'] eqn:Eread.
  - apply event_scanned in Eread as (Hl & Ha' & Hs' & Hev).
    destruct (contains_flip_event (take 4096 bytes)) as [[]|e] eqn:Ec;
      [|by split; [apply Hstill|]..].
    split; [|done]. destruct (next_index_other _ Hi) as [Hother Hn].
    assert (Hback : next_buffer_index (next_buffer_index (ib_scanning_index self)) = ib_scanning_index self)
      by (by destruct Hi as [-> | ->]).
    split; [done|]. unfold front_id, next_id. cbn [set_ib_pending_index set_ib_scanning_index ib_scanning_index ib_buffers ib_pending_index].
    rewrite Hback. split; [by apply not_eq_sym|]. apply Hev; [|done]. apply flip_found_first; [|done].
    unfold len in *. rewrite length_take. lia.
  - apply failed_read_scanned in Eread as [Ha' Hs']. by split; [apply Hstill|].
Qed.

Lemma call_untorn call k self :
  untorn k self →
  let '(k', self') := (backend_call call (k, self)).2 in
  untorn k' self' ∧
  ∀ i, i = 0 ∨ i = 1 → sb_framebuffer_id (buffer_at (ib_buffers self) i) ∈ scanned k →
       buffer_at (ib_buffers self') i = buffer_at (ib_buffers self) i.
Proof.
  intros HU. destruct call as [frame report|]; [by apply present_untorn|]. cbn [backend_call].
  pose proof (complete_untorn k self HU) as HC. destruct (complete_flip (k, self)).2 as [k' self'].
  destruct HC as [HU' Hb]. split; [done|]. intros i _ _. by rewrite Hb.
Qed.

Lemma calls_untorn calls : ∀ k self,
  untorn k self → let '(k', self') := backend_calls calls (k, self) in untorn k' self'.
Proof.
  induction calls as [|call calls IH]; intros k self HU; [done|]. unfold backend_calls. cbn [foldl].
  pose proof (call_untorn call k self HU) as HC. destruct (backend_call call (k, self)).2 as [k1 self1].
  exact (IH k1 self1 (proj1 HC)).
Qed.

(** C16. No tearing: from a backend that was set up, no flip of it under way, whose display reads the buffer
    in front only, no call, however many came before it and whatever became of them, changes a buffer that
    the display may be reading, be it in front or asked for and not yet there. *)
Theorem never_torn self k :
  ib_pending_index self = None → (ib_scanning_index self = 0 ∨ ib_scanning_index self = 1) →
  front_id self ≠ next_id self → scanned k ⊆ {[front_id self]} →
  ∀ calls call, let '(k', self') := backend_calls calls (k, self) in
    ∀ i, i = 0 ∨ i = 1 → sb_framebuffer_id (buffer_at (ib_buffers self') i) ∈ scanned k' →
      buffer_at (ib_buffers (backend_call call (k', self')).2.2) i = buffer_at (ib_buffers self') i.
Proof.
  intros Hp Hi Hne Hs calls call.
  assert (HU : untorn k self) by (split; [done|]; split; [done|]; by rewrite Hp).
  pose proof (calls_untorn calls k self HU) as HC. destruct (backend_calls calls (k, self)) as [k' self'].
  pose proof (call_untorn call k' self' HC) as HL. destruct (backend_call call (k', self')).2 as [k'' self''].
  apply HL.
Qed.
End Tearing.
