(* ===== verification/Card.v ===== *)
(** A card to run scanout on: a kernel with one screen that keeps the accounts, the geometry and the
    scanning that scanout relies on, and what scanout does there. *)
From S2P Require Import Prelude.
From S2P Require Import Vocabulary.
From S2P Require Import Model.
From S2P Require Import Wire.
From S2P Require Import Pixels.
From S2P Require Import Compose.
From S2P Require Import Nodes.
From S2P Require Import Kms.
From S2P Require Import Drm.
From S2P Require Import Owned.
From S2P Require Import Flips.
From S2P Require Import Scanout.

Record Card := MkCard {
  ca_holdings : Holdings; ca_scanned : gset Z; ca_asked : option Z; ca_atomic : bool;
}.

Definition holding (f : Holdings → Holdings) (k : Card) : Card :=
  MkCard (f (ca_holdings k)) (ca_scanned k) (ca_asked k) (ca_atomic k).
Definition scanning (ids : gset Z) (asked : option Z) (k : Card) : Card :=
  MkCard (ca_holdings k) ids asked (ca_atomic k).

(** A name that is not taken. *)
Definition unused (ids : gset Z) : Z := 1 + set_fold Z.max 0 ids.

Lemma unused_fresh ids : unused ids ∉ ids.
Proof.
  enough (H : ∀ id, id ∈ ids → id ≤ set_fold Z.max 0 ids) by (intros Hin%H; unfold unused in Hin; lia).
  apply (set_fold_ind_L (λ b X, ∀ id, id ∈ X → id ≤ b) Z.max 0); [set_solver|].
  intros x X r _ IH id [->%elem_of_singleton|H]%elem_of_union; [lia|]. specialize (IH id H). lia.
Qed.

Definition card_names : list string :=
  ["type"; "FB_ID"; "CRTC_ID"; "MODE_ID"; "ACTIVE"; "SRC_X"; "SRC_Y"; "SRC_W"; "SRC_H";
   "CRTC_X"; "CRTC_Y"; "CRTC_W"; "CRTC_H"]%string.
Definition card_ids : list Z := seqZ 0 13.
Definition card_name (id : Z) : list byte :=
  written_over (named (default ""%string (card_names !! Z.to_nat id))) no_name.
Definition card_mode : ModeInfo := MkModeInfo 0 3 0 0 0 0 3 0 0 0 0 60 0 8 no_name.

Definition well_sized (a : CreateDumb) : bool :=
  let fit z := (0 <=? z) && (z <=? u32_max) in
  fit (cd_width a) && fit (cd_height a) && fit (cd_width a * (cd_bpp a / 8)).

(** A commit that is not a test shows the framebuffer it names. *)
Definition committed (a : AtomicCommit) (k : Card) : Card :=
  if Z.testbit (ac_flags a) 8 then k
  else match ac_prop_values a with
       | [id] => scanning (ca_scanned k ∪ {[id]}) (Some id) k
       | _ :: _ :: _ :: id :: _ => scanning {[id]} (Some id) k
       | _ => k
       end.

Lemma committed_holdings a k : ca_holdings (committed a k) = ca_holdings k.
Proof.
  unfold committed. destruct (Z.testbit _ _); [done|]. by destruct (ac_prop_values a) as [|? [|? [|? [|? ?]]]].
Qed.

Definition card_request (r : DrmRequest) (file : unit) : argument r → Card → Z * argument r * Card :=
  match r return argument r → Card → Z * argument r * Card with
  | GET_CAP => λ a k, (0, MkGetCap (gc_capability a) 1, k)
  | SET_CLIENT_CAP => λ a k, (if ca_atomic k then 0 else -1, a, k)
  | SET_MASTER => λ a k, (0, a, holding (set_hd_master true) k)
  | DROP_MASTER => λ a k, (0, a, holding (set_hd_master false) k)
  | MODE_GETRESOURCES => λ _ k, (0, MkCardResources [7] [3] [5] 1 1 1, k)
  | MODE_SETCRTC => λ a k, (0, a, scanning {[mc_fb_id a]} (Some (mc_fb_id a)) k)
  | MODE_GETENCODER => λ a k, (0, MkGetEncoder (ge_encoder_id a) 7 1, k)
  | MODE_GETCONNECTOR => λ a k, (0, MkGetConnector [5] [card_mode] [] [] 1 0 1 5 (gn_connector_id a) 1, k)
  | MODE_GETPROPERTY => λ a k, (0, MkGetProperty (gy_prop_id a) (card_name (gy_prop_id a)), k)
  | MODE_RMFB => λ a k, (0, a, holding (on_framebuffers (without_id a)) k)
  | MODE_CREATE_DUMB => λ a k,
      if well_sized a then
        let pitch := cd_width a * (cd_bpp a / 8) in
        let handle := unused (hd_dumb (ca_holdings k)) in
        (0, MkCreateDumb (cd_height a) (cd_width a) (cd_bpp a) (cd_flags a) handle pitch (pitch * cd_height a),
         holding (on_dumb (with_id handle)) k)
      else (-1, a, k)
  | MODE_MAP_DUMB => λ a k, (0, a, k)
  | MODE_DESTROY_DUMB => λ a k, (0, a, holding (on_dumb (without_id (dd_handle a))) k)
  | MODE_ADDFB2 => λ a k,
      let id := unused (hd_framebuffers (ca_holdings k)) in
      (0, MkFramebuffer id (fb_width a) (fb_height a) (fb_pixel_format a) (fb_flags a) (fb_handles a)
            (fb_pitches a) (fb_offsets a) (fb_modifier a), holding (on_framebuffers (with_id id)) k)
  | MODE_PAGE_FLIP => λ a k, (0, a, scanning (ca_scanned k ∪ {[pg_fb_id a]}) (Some (pg_fb_id a)) k)
  | MODE_GETPLANERESOURCES => λ _ k, (0, MkPlaneResources [9] 1, k)
  | MODE_GETPLANE => λ a k, (0, MkGetPlane (gp_plane_id a) 1 1 [DrmFormat_fourcc Xrgb8888], k)
  | MODE_OBJ_GETPROPERTIES => λ a k,
      (0, MkObjectProperties card_ids (replicate 13 1) 13 (op_obj_id a) (op_obj_type a), k)
  | MODE_ATOMIC => λ a k, (0, a, committed a k)
  | MODE_CREATEPROPBLOB => λ a k,
      let id := unused (hd_blobs (ca_holdings k)) in
      (0, MkCreateBlob (cb_data a) (cb_length a) id, holding (on_blobs (with_id id)) k)
  | MODE_DESTROYPROPBLOB => λ a k, (0, a, holding (on_blobs (without_id (db_blob_id a))) k)
  end.

Definition flip_bytes : list byte :=
  event_bytes (MkKernelEvent EVENT_FLIP_COMPLETE (to_le_bytes 8 FLIP_USER_DATA)).

#[export] Instance card_kernel : DrmKernel Card := {
  DrmFile := unit;
  drm_open path k := (Ok tt, holding (add_files 1) k);
  drm_close file k := holding (add_files (-1)) k;
  drm_request := card_request;
  drm_map file size offset k :=
    let address := unused (hd_mappings (ca_holdings k)) in
    (address, [], holding (on_mappings (with_id address)) k);
  drm_unmap address size k := holding (on_mappings (without_id address)) k;
  drm_read file n k := (Ok flip_bytes, scanning (ca_scanned k ∩ from_option singleton ∅ (ca_asked k)) (ca_asked k) k);
  drm_last_error k := Some 95;
  MAP_FAILED := -1;
  DRM_EIO := 5; DRM_ENOENT := 2; DRM_EINVAL := 22; DRM_EOPNOTSUPP := 95; DRM_EFAULT := 14; DRM_EACCES := 13;
  DRM_EBUSY := 16;
}.

#[export] Instance card_accounts : DrmAccounts Card.
Proof.
  refine {| holdings := ca_holdings |}.
  - intros r file a k answer a' k'. destruct r; cbn; intros E;
      try (injection E as <- <- <-; first [done|apply committed_holdings|split; [apply unused_fresh|done]]).
    by destruct (well_sized a); injection E as <- <- <-; [split; [apply unused_fresh|]|].
  - done.
  - done.
  - intros file size offset k. cbn. destruct (_ =? -1) eqn:E; [|split; [apply unused_fresh|done]].
    exfalso. apply Z.eqb_eq in E. unfold unused in E.
    assert (0 ≤ set_fold Z.max 0 (hd_mappings (ca_holdings k))); [|lia].
    apply (set_fold_ind_L (λ b _, 0 ≤ b) Z.max 0); lia.
  - done.
  - done.
Defined.

#[export] Instance card_geometry : DrmGeometry Card.
Proof.
  split. intros file a k answer a' k'. cbn. unfold well_sized. destruct (_ && _) eqn:Es.
  - intros [= <- <- <-] _. rewrite !andb_true_iff, !Z.leb_le in Es. cbn. unfold is_u32. lia.
  - by intros [= <- _ _].
Defined.

Lemma flip_bytes_length : len flip_bytes = 16.
Proof. by vm_compute. Qed.

#[export] Instance card_scanning : DrmScanning Card.
Proof.
  refine {| scanned := ca_scanned; asked := ca_asked |}.
  - by intros file a k answer a' k' [= <- <- <-].
  - intros file a k answer a' k' [= <- <- <-] [Ha|Ha]; [done|]. unfold committed. by rewrite Ha.
  - by intros file a k answer a' k' [= <- <- <-].
  - intros file a k answer a' k' id [= <- <- <-] _ Ht Hv. unfold committed. by rewrite Ht, Hv.
  - intros file n k bytes k' [= <- <-]. rewrite flip_bytes_length. unfold isize_max, i64_max. split; [lia|].
    split; [done|]. split; [set_solver|]. intros _ id Hid. cbn. rewrite Hid. set_solver.
  - done.
Defined.

(** * What scanout does there *)

Definition card (atomic : bool) : Card := MkCard (MkHoldings 0 false ∅ ∅ ∅ ∅) ∅ None atomic.
Definition card_config : DeviceConfig := MkDeviceConfig 0 None (Exact 3 3 60).
Definition card_layout : PixelLayout := MkPixelLayout 4.
Definition card_frame (b : byte) : PixelFrame :=
  MkPixelFrame (MkSize 3 3) 12 card_layout (replicate 36 b).
Definition no_report : FrameReport := MkFrameReport 0 0 0 0 0.
Definition card_calls : list BackendCall :=
  [Present (card_frame Corelib.Init.Byte.x01) no_report; Present (card_frame Corelib.Init.Byte.x02) no_report; CompleteFlip;
   CompleteFlip; Present (card_frame Corelib.Init.Byte.x03) no_report].

(** What the calls are answered, and what is in front and behind it afterwards. *)
Definition card_run (atomic : bool) : option (list (result DrmError unit) * list byte * list byte) :=
  match IoctlBackend_open card_config card_layout (card atomic) with
  | (Ok self, k) =>
      let '(answered, (_, self)) := backend_trace card_calls (k, self) in
      Some (answered.*2, sb_memory (buffer_at (ib_buffers self) (ib_scanning_index self)),
            sb_memory (buffer_at (ib_buffers self) (next_buffer_index (ib_scanning_index self))))
  | _ => None
  end.

Example card_runs :
  (∀ atomic, card_run atomic =
     Some ([Ok tt; Err FlipPending; Ok tt; Err FlipEventMissing; Ok tt],
           replicate 36 Corelib.Init.Byte.x01, replicate 36 Corelib.Init.Byte.x03)).
Proof. intros []; vm_compute; reflexivity. Qed.

(** ** The properties of scanout, there *)

Lemma open_all_or_nothing_witness :
  holdings (card true) = ca_holdings (card true) ∧
  match IoctlBackend_open card_config card_layout (card true) with
  | (Ok self, k') => ∀ calls,
      let '(k'', self') := backend_calls calls (k', self) in
      holdings k'' = holdings k' ∧ holdings (drop_backend self' k'') = holdings (card true)
  | (Err _, k') => holdings k' = holdings (card true)
  end.
Proof. split; [reflexivity|]. apply (open_all_or_nothing card_config card_layout (card true)). reflexivity. Defined.

Lemma scanout_is_a_panel_witness :
  ∃ self k', IoctlBackend_open card_config card_layout (card false) = (Ok self, k') ∧
    let '(answered, (k'', self')) := backend_trace card_calls (k', self) in
    ∃ panel, panel_steps (device_mode (ib_device self)) card_layout answered blank_panel panel ∧
             displays self' panel.
Proof.
  destruct (IoctlBackend_open card_config card_layout (card false)) as [[self|e] k'] eqn:E.
  - exists self, k'. split; [reflexivity|].
    exact (scanout_is_a_panel card_config card_layout (card false) self k' E card_calls).
  - assert (H : match (IoctlBackend_open card_config card_layout (card false)).1 with Ok _ => true | Err _ => false end = true)
      by (vm_compute; reflexivity).
    rewrite E in H. discriminate H.
Defined.

Definition steady (self : IoctlBackend) (k : Card) : bool :=
  bool_decide (ib_pending_index self = None) && bool_decide (ib_scanning_index self = 0) &&
  bool_decide (front_id self ≠ next_id self) && bool_decide (scanned k ⊆ {[front_id self]}).

Lemma never_torn_witness :
  ∃ self k', IoctlBackend_open card_config card_layout (card true) = (Ok self, k') ∧ scanned k' = {[1]} ∧
    let '(k', self') := backend_calls card_calls (k', self) in
    ∀ i, i = 0 ∨ i = 1 → sb_framebuffer_id (buffer_at (ib_buffers self') i) ∈ scanned k' →
      buffer_at (ib_buffers (backend_call CompleteFlip (k', self')).2.2) i = buffer_at (ib_buffers self') i.
Proof.
  pose (opened := IoctlBackend_open card_config card_layout (card true)).
  assert (H : match opened with (Ok self, k') => steady self k' && bool_decide (scanned k' = {[1]}) | _ => false end = true)
    by (vm_compute; reflexivity).
  subst opened. destruct (IoctlBackend_open card_config card_layout (card true)) as [[self|e] k'] eqn:E; [|discriminate H].
  exists self, k'. apply andb_true_iff in H as [H H1]. split; [reflexivity|].
  split; [exact (bool_decide_eq_true_1 _ H1)|]. unfold steady in H. rewrite !andb_true_iff in H.
  destruct H as [[[Hp Hi] Hn] Hs].
  exact (never_torn self k' (bool_decide_eq_true_1 _ Hp) (or_introl (bool_decide_eq_true_1 _ Hi))
           (bool_decide_eq_true_1 _ Hn) (bool_decide_eq_true_1 _ Hs) card_calls CompleteFlip).
Defined.
