(* ===== verification/Monitor.v ===== *)
(** The scene on a monitor: the software output's frames ([atria-software-output]) given to the scanout
    sink ([atria-drm]). *)
From S2P Require Import Prelude.
From S2P Require Import Vocabulary.
From S2P Require Import Model.
From S2P Require Import State.
From S2P Require Import Desk.
From S2P Require Import Pixels.
From S2P Require Import Compose.
From S2P Require Import Frames.
From S2P Require Import Showing.
From S2P Require Import Painting.
From S2P Require Import Kms.
From S2P Require Import Drm.
From S2P Require Import Owned.
From S2P Require Import Scanout.
From S2P Require Import Card.

Section Monitor.
Context {K : Type} {DK : DrmKernel K}.

(** The buffer a sink's display shows. *)
Definition in_front (self : DrmSink (K := K)) : ScanoutBuffer :=
  buffer_at (ib_buffers (ds_backend self)) (ib_scanning_index (ds_backend self)).

(** An output for a sink: as large as its mode, and of its layout. *)
Definition made_for (self : SoftwareOutput) (sink : DrmSink (K := K)) : Prop :=
  size_width (so_size self) = md_width (DrmSink_mode sink) ∧
  size_height (so_size self) = md_height (DrmSink_mode sink) ∧ so_layout self = ib_layout (ds_backend sink).

Lemma frame_ok_whole size layout f : frame_ok size layout f → whole f.
Proof. intros [Hs Hl Hst _ Hp _]. unfold whole. by rewrite Hs, Hl, Hst. Qed.

Lemma frame_ok_fits self sink f :
  made_for self sink → frame_ok (so_size self) (so_layout self) f →
  fits (DrmSink_mode sink) (ib_layout (ds_backend sink)) f.
Proof. intros (Hw & Hh & Hl) [Hs Hlay _ _ _ _]. unfold fits. by rewrite Hs, Hlay. Qed.

Lemma sink_open_displays {DG : DrmGeometry K} config layout k sink k' :
  DrmSink_open config layout k = (Ok sink, k') →
  ib_layout (ds_backend sink) = layout ∧ displays (ds_backend sink) blank_panel.
Proof.
  unfold DrmSink_open. intros (backend & k1 & Ho & H)%ST_bind_inv. injection H as <- <-.
  by apply open_displays in Ho.
Qed.

(** C13. The scene reaches the monitor: compose a scene onto an output made for the sink's mode, and hand
    the frame to the sink while no flip is under way. Nothing but the kernel's refusal of the flip keeps it
    from being taken; until the flip is done the buffer in front shows what it showed; and when the flip's
    completion has been read, however long that took and whatever the kernel did meanwhile, every byte of
    every pixel of the buffer in front is the painter's composition of the stack. *)
Theorem monitor_shows_scene (holders : Z → Z) (buffers : gmap BufferKey SoftwareBuffer) (t : Z)
    (self : SoftwareOutput) (s : CompositorState) (report : FrameReport) (self' : SoftwareOutput)
    (s' : CompositorState) (k : K) (sink : DrmSink (K := K)) (front : option PixelFrame)
    (Hd : drawing self) (Hw : world_ok buffers s)
    (Hc : compose holders buffers t (self, s) = (Ok report, (self', s')))
    (Hidle : displays (ds_backend sink) (MkPanel front None)) (Hmade : made_for self sink) :
  let '(r, (_, sink')) :=
    (sink_present (MkPresented (shared_frame self') (Compose.damage self') report)
       : ST (K * DrmSink) IoError unit) (k, sink) in
  match r with
  | Err e => ∃ error, flip_refused error = true ∧ e = drm_sink_error error
  | Ok _ =>
      (∀ f, front = Some f → shows (in_front sink') f) ∧
      ∀ k' k'' sink'', DrmSink_complete_flip (k', sink') = (Ok tt, (k'', sink'')) →
        ∀ x y i, on_frame (so_size self) (so_layout self) x y i →
          pixel (sb_memory (in_front sink'')) (sb_pitch (in_front sink'')) (bytes_per_pixel (so_layout self)) x y i =
          painted (so_layout self) (scene_layers s (so_surfaces self')) x y i
  end.
Proof.
  destruct (compose_picture _ _ _ _ _ _ _ _ Hd Hw Hc) as (_ & Hf & Hpix).
  pose proof (frame_ok_whole _ _ _ Hf) as Hwhole. pose proof (frame_ok_fits _ _ _ Hmade Hf) as Hfits.
  unfold sink_present, DrmSink_sink, DrmSink_present, on_backend. cbn [pd_frame pd_report].
  change (arc_frame (shared_frame self')) with (frame self').
  pose proof (present_simulated (ds_backend sink) _ (frame self') report k Hidle) as HS.
  destruct (backend_present (frame self') report (k, ds_backend sink)) as [r [k1 backend1]].
  destruct HS as (panel1 & Hstep & HD1).
  inversion Hstep as [| |? ? ? error _ Hrefused| | |]; subst; cbn [map_err].
  - split; [exact (dp_front _ _ HD1)|]. intros k' k'' sink'' Hflip x y i Hon.
    unfold DrmSink_complete_flip, on_backend in Hflip. cbn [ds_backend] in Hflip.
    pose proof (complete_simulated backend1 _ k' HD1) as HS.
    destruct (complete_flip (k', backend1)) as [r' [k2 backend2]]. destruct HS as (panel2 & Hstep2 & HD2).
    injection Hflip as -> <- <-. inversion Hstep2; subst.
    destruct Hon as (Hx & Hy & Hi). destruct Hf as [Hsize Hlayout _ _ _ _].
    destruct (dp_front _ _ HD2 _ eq_refl x y i) as (v & Hv & Hv'); [by rewrite Hsize..|by rewrite Hlayout|].
    rewrite <- Hpix by done. unfold frame_pixel. rewrite Hlayout in *. unfold in_front. cbn [ds_backend].
    by rewrite Hv, Hv'.
  - exists error. split; [by apply Hrefused|done].
Qed.
End Monitor.

(** The easel's first frame, on the monitor of a card that has just been opened. *)
Definition easel_config : DeviceConfig := MkDeviceConfig 0 None Preferred.

Definition shown_first : option (list byte) :=
  match DrmSink_open easel_config RGBX (card true) with
  | (Ok sink, k) =>
      match (sink_present (MkPresented (shared_frame first_frame.1) (Compose.damage first_frame.1)
               (MkFrameReport 1 1 1 1 36)) : ST (Card * DrmSink) IoError unit) (k, sink) with
      | (Ok _, s) =>
          match DrmSink_complete_flip s with
          | (Ok _, (_, sink)) => Some (sb_memory (in_front sink))
          | _ => None
          end
      | _ => None
      end
  | _ => None
  end.

Example first_shown : shown_first = Some (pf_bytes (frame first_frame.1)).
Proof. vm_compute. reflexivity. Qed.

Lemma monitor_shows_scene_witness :
  ∃ sink k, DrmSink_open easel_config RGBX (card true) = (Ok sink, k) ∧
    let '(r, (_, sink')) :=
      (sink_present (MkPresented (shared_frame first_frame.1) (Compose.damage first_frame.1) (MkFrameReport 1 1 1 1 36))
         : ST (Card * DrmSink) IoError unit) (k, sink) in
    match r with
    | Err e => ∃ error, flip_refused error = true ∧ e = drm_sink_error error
    | Ok _ => ∀ k' k'' sink'', DrmSink_complete_flip (k', sink') = (Ok tt, (k'', sink'')) →
        pixel (sb_memory (in_front sink'')) (sb_pitch (in_front sink'')) 4 1 1 0 =
        painted RGBX (scene_layers easel (so_surfaces first_frame.1)) 1 1 0
    end.
Proof.
  assert (Hc : (compose alone easel_buffers 1 (nine, easel)).1 = Ok (MkFrameReport 1 1 1 1 36)) by (vm_compute; reflexivity).
  pose (opened := DrmSink_open easel_config RGBX (card true)).
  assert (Ho : match opened with
               | (Ok sink, _) => (md_width (DrmSink_mode sink) =? 3) && (md_height (DrmSink_mode sink) =? 3)
               | _ => false end = true) by (vm_compute; reflexivity).
  subst opened. destruct (DrmSink_open easel_config RGBX (card true)) as [[sink|e] k] eqn:E; [|discriminate Ho].
  exists sink, k. split; [reflexivity|]. apply andb_true_iff in Ho as [Hwidth%Z.eqb_eq Hheight%Z.eqb_eq].
  destruct (sink_open_displays easel_config RGBX (card true) sink k E) as [Hlayout HD].
  assert (Hmade : made_for nine sink) by (split; [by rewrite Hwidth|split; [by rewrite Hheight|by rewrite Hlayout]]).
  pose proof (monitor_shows_scene alone easel_buffers 1 nine easel _ first_frame.1 first_frame.2 k sink None
                nine_drawing easel_world (answered _ _ Hc) HD Hmade) as HM.
  destruct ((sink_present _ : ST (Card * DrmSink) IoError unit) (k, sink)) as [[[]|e] [k1 sink1]]; [|exact HM].
  intros k' k'' sink'' Hflip. destruct HM as [_ HM].
  apply (HM k' k'' sink'' Hflip 1 1 0). unfold on_frame. cbn. lia.
Defined.
